(* ===== verification/_CoqProject ===== *)
-Q . S2P
Prelude.v
RustStr.v
Message.v
Glob.v
Clock.v
I18n.v
Channel.v
Numeric.v
Duration.v
Bcrypt.v
Limbs.v
PiDigits.v
PiBound.v
BcryptFacts.v
Regex.v
State.v
Mode.v
UserMode.v
CoreMode.v
Ban.v
ConnClass.v
Membership.v
Watch.v
Users.v
Xline.v
Account.v
CoreChannel.v
Welcome.v
CoreMessage.v
Multiline.v
Tables.v
ModeTables.v
MembershipTables.v
JoinFacts.v
LeaveFacts.v
ListFacts.v
UserFacts.v
XlineFacts.v
MessageFacts.v
SpeechFacts.v
Filter.v
RegexCode.v
RegexSim.v
RegexFacts.v
FilterFacts.v
Password.v
PasswordFacts.v
Registration.v
OperTypes.v
OperAuth.v
RegisterFacts.v
Link.v
LinkChannel.v
LinkServices.v
CoreOper.v
CoreUser.v
CoreInfo.v
LinkFacts.v
LinkSafe.v
Handlers.v
OperFacts.v
SessionFacts.v
System.v
Dispatch.v
Registry.v
Modules.v
DispatchFacts.v
DispatchRuns.v
OperRights.v
OperRuns.v
SpeechRuns.v
Network.v
Authority.v
LinkRuns.v
Burst.v
Guarantees.v
ModeFacts.v
ModeRights.v
BanFacts.v
FloodFacts.v
