(* ===== verification/Prelude.v ===== *)
(** * echoIRCd: a verification development

    echoIRCd is an IRC server.  A single core thread owns one [Server] value
    (src/src/server.rs) with redundant tables: users, channels, the nick index,
    the network-id index, the WATCH/MONITOR reverse indexes, the counts of
    accepted nicks, the clone counters.  Client lines are parsed
    (src/src/message.rs) and dispatched to command handlers (src/src/coremods),
    which call the operations on users and channels (src/src/users.rs,
    src/src/channels.rs, src/src/watch.rs, src/src/mode.rs) and the modules they
    consult (src/src/modules), and send lines to clients and linked servers.
    This development models that core and proves what keeps it correct: the
    tables agree with each other in every reachable state, no command panics,
    membership, mode, message and server-ban policy is enforced, the text
    formats round-trip, the regular expressions mean what they say.

    ** The model

    State is passed explicitly.  [State.Core] is the state the program's
    decisions depend on, [State.IO] what it has sent (per-client and per-link
    queues, notices, module events, the event bus, stored files and rows), [State.Server] the pair.
    [State.Outputs] is the class of operations that leave the core alone; the
    tactic [frame] removes them.  A Rust panic (indexing a map with a missing
    key) is [None]; a command's result is [option (CmdResult * Server)].  Integers
    are [N] or [Z] with the width's maximum, wrap-around or saturation written
    out; strings are byte strings, characters their UTF-8 encodings
    ([RustStr]).  Hash maps and sets are [gmap] and [gset]: where the source
    iterates over one, the order of what it sends is the map's here and
    arbitrary there, and no theorem is about that order.  Time is the field
    [clock] of the core, which the source reads with [now()].

    Data and code outside the model are the arguments of the class
    [State.Outside] (the GeoIP and ASN databases, reputation scores, security
    groups, the JSON form of a notice, the Redis bus, whether a database is
    configured, the configuration's path, the key of web push, the text of a
    file) and of [Glob.UnicodeLower] (Unicode lower-casing of non-ASCII
    text, with its documented behaviour on ASCII) and [Password.Crypto] (the
    digests, PBKDF2, RSA and random bytes of OpenSSL, the directory, the file
    system; [CryptoLaws] states the documented lengths).  Theorems hold for all of
    them; witnesses use concrete ones.

    ** Files that model code

    - [Prelude]: record update, shared list and option lemmas, integer widths.
    - [RustStr]: the parts of Rust's [str] and integer parsing the source uses.
    - [Message]: message.rs, [parse] and [to_wire].
    - [Glob]: [glob_match], [normalize_mask], [normalize_ban_mask] of channels.rs.
    - [Clock]: [civil], [iso_time], [long_date], [parse_iso] of server.rs.
    - [I18n]: i18n.rs, the catalog of translations.
    - [Channel]: the records and pure methods of channels.rs, and
      modules/customprefix.rs.
    - [Numeric]: the numerics of numeric.rs that are sent.
    - [Duration]: the durations of xline.rs.
    - [State]: the [Server] record, users.rs' records, configuration reads,
      privileges (modules/opertypes.rs), sending, notices, and what is sent to
      linked servers ([propagate_*] of link.rs).
    - [Mode], [UserMode]: the handler objects of mode.rs with
      modules/hidelist.rs and modules/operprefix.rs; one constructor per
      handler, [chan_apply] and [user_apply] for its [apply].
    - [CoreMode]: coremods/core_mode.rs with modules/hidemode.rs and the event
      recorder of modules/chathistory.rs.
    - [Ban]: ban lists, extbans and server-ban matching.
    - [Membership]: the membership half of channels.rs with
      modules/denychans.rs, restrictchans.rs and channames.rs.
    - [Watch]: watch.rs, coremods/core_watch.rs and the accept lists of server.rs.
    - [Users]: the life of a user in users.rs, server.rs, link.rs ([next_uuid])
      and modules/connclass.rs (the counters).
    - [CoreChannel]: coremods/core_channel.rs.
    - [Regex]: regex.rs, the parser, the compiler, the simulation and the
      combined sets.
    - [Xline]: xline.rs (adding, enforcing, expiring, storing and loading server
      bans), the x-line commands of coremods/core_oper.rs and the x-line lines
      of link.rs.
    - [Account]: accounts.rs, [oper_up] of users.rs and [change_host_ident] of
      server.rs.
    - [Bcrypt]: bcrypt.rs, from the fixed-point digits of pi to [hash] and [verify].
    - [Password]: modules/password_hash.rs and the worker threads of server.rs.
    - [OperTypes]: modules/opertypes.rs and modules/operlevels.rs.
    - [OperAuth]: the oper lines of config.rs, OPER and CHALLENGE of
      coremods/core_oper.rs and the workers' answers in ircd.rs.
    - [CoreOper]: the other commands of coremods/core_oper.rs, and
      modules/globops.rs.
    - [ConnClass]: the connection classes of modules/connclass.rs, their
      inheritance and their masks, with IP addresses read as [std::net] does.
    - [Registration]: choosing and assigning a class, the checks before the
      welcome (modules/connclass.rs, modules/ident.rs, ircd.rs), idle connections
      and held lines (server.rs), and connguard.rs.
    - [Welcome]: the welcome burst of users.rs with the ISUPPORT tokens of
      server.rs and modules/customprefix.rs, LUSERS and the message of the day.
    - [CoreUser]: coremods/core_user.rs (CAP, AUTHENTICATE, NICK, USER, PING,
      PONG, PASS, QUIT, AWAY, SETNAME, VHOST).
    - [CoreInfo]: coremods/core_extra.rs and coremods/core_info.rs (LIST, WHO and
      WHOX, WHOWAS, USERHOST, ISON, STATS, MAP, LINKS and others).
    - [Multiline]: modules/multiline.rs.
    - [CoreMessage]: coremods/core_message.rs with the tagged fan-out of server.rs.
    - [Filter]: modules/filter.rs and modules/pattern.rs.
    - [Link]: the receiving half of link.rs: peers and the handshake, bursts,
      UID/NICK/QUIT/KILL of remote users with the nick-collision rules,
      forwarding, pings, and the loss of a link ([close_link]).
    - [LinkChannel]: FJOIN, PART, KICK, MODE/FMODE, TOPIC, messages and the
      other channel lines a linked server sends.
    - [LinkServices]: the lines of services (the SVS family, accounts,
      metadata), ENCAP, and [on_link], the dispatch of a whole line.
    - [System]: the commands as one type [Cmd] with [exec], the step relation
      [step] of everything that can happen in any order, and [reachable].
    - [Dispatch]: the path of a client line through ircd.rs: held lines,
      labelled replies, the module hooks (the class [ModuleApi], the trait of
      module.rs), the handler, registration and quitting.  It is written against
      the interface, for any modules and any command table.
    - [Registry]: the command table of coremods/mod.rs: which command has which
      handler, how many parameters it needs, whether it may run early.
    - [Modules]: eleven of the modules as an instance of [ModuleApi] (flood,
      filter, multiline, restrictcommands, restrictmsg, blockamsg, masshighlight,
      disable, maphide, opertypes, targetlimit).

    ** Files of theorems

    - [Tables]: the invariants between tables, over projections of the user and
      channel records, collected in [wf]; the equivalence [same_tables] with its
      [Proper] instances; the class [StableTables] of operations that stay
      within a class of it.
    - [ModeTables], [MembershipTables], [JoinFacts], [LeaveFacts], [ListFacts],
      [UserFacts]: each operation preserves [wf], and what it does to the
      memberships, lists and counters.
    - [Limbs], [PiDigits], [PiBound]: the limb arithmetic of bcrypt.rs computes on
      integers, the arctangent loop is the partial sum of its series, and the
      cipher's constants are the digits of pi.
    - [BcryptFacts], [PasswordFacts]: shapes of the cipher's tables, a block is a
      permutation, base64 and hexadecimal round trips, what is made verifies.
    - [Handlers], [OperFacts]: what a safe handler is, and that the operator
      commands are.
    - [RegisterFacts]: registration preserves [wf]; a class is given within its
      limits, and nobody is welcomed whom the checks should stop.
    - [SessionFacts]: the commands of [CoreUser] and [CoreInfo] are safe for any
      connection; hidden channels and cloaked addresses stay hidden.
    - [DispatchFacts]: the laws of a module ([ModuleLaws]), proved of [Modules];
      against these laws alone, no line a client sends makes the dispatcher panic
      or the tables inconsistent, and the registration gate cannot be passed.
    - [DispatchRuns]: tags and capability lists are read back as they were sent;
      concrete runs of the dispatcher, also of what the code gets wrong.
    - [OperRights], [OperRuns]: who becomes an operator, what a type allows, what
      KILL spares; concrete runs, also of what the code gets wrong.
    - [Guarantees]: what holds in every reachable state (consistent
      memberships, unique nicks, exact indexes and counters, no panics) and the
      exact effect and policy of JOIN, PART, KICK, RENAME and quitting.
    - [ModeFacts], [ModeRights]: ranks and prefixes, flag modes, ranges of mode
      parameters, who may change what, bounded lists.
    - [RegexCode], [RegexSim], [RegexFacts]: the compiled code of a pattern, the
      simulation as reachability in it, and that a pattern matches exactly what
      its syntax tree means.
    - [XlineFacts]: bans are enforced, unique, survive a restart, and expire
      without changing a decision.
    - [MessageFacts], [SpeechFacts]: who may speak, who receives a message, what
      becomes of its text, and that refusals leave no trace.
    - [FilterFacts]: the first matching rule decides; rules survive the wire.
    - [LinkFacts], [LinkSafe]: every line of a link preserves [wf]; [link_ok]
      collects what a line must satisfy for that (fresh network ids in a UID,
      registered targets of forced joins), and is decided per line.
    - [Network]: a netsplit removes exactly the users behind the link, a burst
      makes the other side's tables agree, the younger side of a FJOIN loses its
      statuses.
    - [Authority]: a link cannot speak for users that are not behind it, only
      services may use the SVS lines, a handshake authenticates, silent links
      are dropped, both sides of a collision decide alike.
    - [Burst]: the UID and ADDLINE lines are read back as they were written;
      concrete runs that show where the network's tables diverge.
    - [LinkRuns]: a concrete network of two servers for these theorems.
    - [SpeechRuns]: the theorems about messages and bans at a concrete run.
    - [BanFacts], [FloodFacts]: what a stored ban matches; flood windows and
      history rings against full logs.
    - [Message], [Glob], [Clock], [Duration], [I18n] also hold the round trips
      and the correctness of the mask matcher.

    ** Fuel

    [Glob.glob_loop] runs on [(|t|+1) * (|p|+1) + 1] turns, proved enough for
    every mask and subject.  [Membership.join_fuel] follows redirects: at most
    eight [badchan] hops and one ban or limit redirect nest, so [JOIN_FUEL] is
    ten and is proved never to run out.  [Users.next_uuid_fuel] tries one id
    more than are in use, which is enough by a counting argument.  The loops of
    [Regex]'s parser consume a character a turn and get one turn more than there
    are characters; [Regex.closure] gets [2 |prog| + 2] turns, as each
    instruction is expanded once per generation and pushes at most two, and
    [regex_match_correct] shows that the simulation always returns.
    [CoreMessage.strip_go] and [ci_replace_go] consume a character a turn.
    [LinkServices.on_link] recurses only through ENCAP, which unwraps two
    parameters, and gets one turn more than the line has parameters.
    [Bcrypt.series_loop] gets one turn more than the term has bits, which every
    turn makes smaller ([PiDigits.atan_inv_spec]); [OperAuth.chunks] one per byte.
    [ConnClass.tokens_for] follows eight levels of parents, which is the source's
    own bound against cycles; [Welcome.chunks_of] gets one turn per token.

    ** Not modelled

    Sockets, TLS, WebSocket, databases, Redis, HTTP, LDAP, DNS and the queue of
    events (I/O and threads); the configuration parser but for the oper and class
    lines (the model starts from the parsed table) and REHASH; the simulator of
    links (s2s_sim.rs); WEBIRC, WHOIS, HELP, MODULES and VERSION; the counters of
    the metrics page; the modules the modelled code does not call, and of those on
    the module bus all but the eleven of [Modules] (a theorem about the dispatcher
    covers any module that keeps [ModuleLaws]).  A new connection is modelled by
    its effect on the tables and the choice of its class, without the lookups that
    [add_conn] starts; their answers are events of the model. *)

From stdpp Require Export base tactics gmap sets list strings.
From Stdlib Require Export Lia.

(** ** Functional record update

    [r <| f := v |>] is the record [r] with field [f] replaced, the way the
    source assigns [r.f = v]; [r <| f ::= g |>] applies [g] to the field.  A record
    type opts in by giving its eta expansion as an [Eta] instance; the setter
    of a field is then built from it by Ltac, so that every projection of an
    updated record reduces by [cbn]. *)

Class Eta (R : Type) := eta_expand : R → R.

Class Setter {R T : Type} (field : R → T) := update_field : (T → T) → R → R.
Global Arguments update_field {_ _} field {_} _ _ /.

Ltac build_setter :=
  lazymatch goal with
  | |- @Setter ?R ?T ?field =>
      let inst := constr:(_ : Eta R) in
      let r := fresh "r" in
      let g := fresh "g" in
      refine (λ (g : T → T) (r : R), _);
      let e := eval hnf in (inst r) in
      match eval pattern (field r) in e with
      | ?ctx _ => let t := eval cbv beta in (ctx (g (field r))) in exact t
      end
  end.

Global Hint Extern 0 (Setter _) => build_setter : typeclass_instances.

Declare Scope record_scope.
Delimit Scope record_scope with rec.
Notation "r <| f := v |>" := (update_field f (λ _, v) r)
  (at level 1, left associativity, f at next level, v at level 200,
   format "r  <|  f  :=  v  |>") : record_scope.
Notation "r <| f ::= g |>" := (update_field f g r)
  (at level 1, left associativity, f at next level, g at level 200,
   format "r  <|  f  ::=  g  |>") : record_scope.
Global Open Scope record_scope.

(** ** Machine integers *)

Definition u8_max : N := 255.
Definition u16_max : N := 65535.
Definition u32_max : N := 4294967295.
Definition u64_max : N := 18446744073709551615.
Definition i64_top : N := 9223372036854775807.

(** [x as u32] and the wrap-around of unchecked 64-bit addition. *)
Definition as_u32 (n : N) : N := (n mod 4294967296)%N.
Definition wrap_u64 (n : N) : N := (n mod 18446744073709551616)%N.

(** [u64::saturating_mul]. *)
Definition sat_mul64 (a b : N) : N := N.min (a * b) u64_max.

Lemma as_u32_small n : (n <= u32_max)%N → as_u32 n = n.
Proof. intros. apply N.mod_small. unfold u32_max in *. lia. Qed.

Lemma wrap_u64_small n : (n <= u64_max)%N → wrap_u64 n = n.
Proof. intros. apply N.mod_small. unfold u64_max in *. lia. Qed.

(** ** Options and booleans *)

(** [Option::map(f).unwrap_or(d)], the idiom behind most reads of the tables. *)
Definition map_or {A B} (d : B) (f : A → B) (o : option A) : B :=
  match o with Some a => f a | None => d end.

Definition is_some {A} (o : option A) : bool :=
  match o with Some _ => true | None => false end.

Definition opt_filter {A} (p : A → bool) (o : option A) : option A :=
  match o with Some a => if p a then Some a else None | None => None end.

Definition opt_or {A} (o1 o2 : option A) : option A :=
  match o1 with Some a => Some a | None => o2 end.

Lemma opt_filter_Some {A} (p : A → bool) o a :
  opt_filter p o = Some a ↔ o = Some a ∧ p a = true.
Proof.
  destruct o as [x|]; simpl; [destruct (p x) eqn:E|]; split; intros; destruct_and?;
    try split; congruence.
Qed.

Lemma map_or_true {A} (f : A → bool) o :
  map_or false f o = true ↔ ∃ a, o = Some a ∧ f a = true.
Proof.
  destruct o as [x|]; simpl; split; [by exists x|by intros (a & [= ->] & ?)|done|].
  by intros (a & ? & ?).
Qed.

(** ** Lists *)

(** [Iterator::find] and [Vec::retain]. *)
Fixpoint find_first {A} (p : A → bool) (l : list A) : option A :=
  match l with
  | [] => None
  | x :: r => if p x then Some x else find_first p r
  end.

Fixpoint retain {A} (p : A → bool) (l : list A) : list A :=
  match l with
  | [] => []
  | x :: r => if p x then x :: retain p r else retain p r
  end.

Lemma elem_of_retain {A} (p : A → bool) l x :
  x ∈ retain p l ↔ x ∈ l ∧ p x = true.
Proof.
  induction l as [|y l IH]; simpl; [set_solver|].
  destruct (p y) eqn:E; rewrite ?elem_of_cons, IH; intuition congruence.
Qed.

Lemma retain_length {A} (p : A → bool) l : length (retain p l) ≤ length l.
Proof. induction l as [|y l IH]; simpl; [lia|]. destruct (p y); simpl; lia. Qed.

Lemma retain_id {A} (p : A → bool) l :
  (∀ x, x ∈ l → p x = true) → retain p l = l.
Proof.
  induction l as [|y l IH]; intros H; simpl; [done|].
  rewrite (H y) by set_solver. f_equal. apply IH. set_solver.
Qed.

Lemma retain_app {A} (p : A → bool) l l' : retain p (l ++ l') = retain p l ++ retain p l'.
Proof. induction l as [|x l IH]; cbn; [done|]. by destruct (p x); rewrite IH. Qed.

Lemma retain_Forall {A} (P : A → Prop) p l : Forall P l → Forall P (retain p l).
Proof.
  rewrite !Forall_forall. intros H x. rewrite elem_of_retain. naive_solver.
Qed.

Lemma find_first_Some {A} (p : A → bool) l x :
  find_first p l = Some x → x ∈ l ∧ p x = true.
Proof.
  induction l as [|y l IH]; simpl; [done|].
  destruct (p y) eqn:E; [intros [= ->]; set_solver|].
  intros [??]%IH. set_solver.
Qed.

Lemma find_first_None {A} (p : A → bool) l :
  find_first p l = None ↔ ∀ x, x ∈ l → p x = false.
Proof.
  induction l as [|y l IH]; simpl; [set_solver|].
  destruct (p y) eqn:E; [split; [done|]; intros H; rewrite H in E; set_solver|].
  rewrite IH. setoid_rewrite elem_of_cons. naive_solver.
Qed.

Lemma existsb_elem {A} (p : A → bool) l :
  existsb p l = true ↔ ∃ x, x ∈ l ∧ p x = true.
Proof.
  rewrite existsb_exists. split; intros (x & Hx & ?); exists x;
    apply list_elem_of_In in Hx || apply list_elem_of_In; auto.
Qed.

(** ** Maps

    [retain_map] is [HashMap::retain]. *)
Definition retain_map {K} `{Countable K} {A} (p : K → A → bool) (m : gmap K A) : gmap K A :=
  filter (λ kv, p kv.1 kv.2 = true) m.

Lemma lookup_retain_map {K} `{Countable K} {A} (p : K → A → bool) (m : gmap K A) k :
  retain_map p m !! k = opt_filter (p k) (m !! k).
Proof.
  unfold retain_map. destruct (m !! k) as [a|] eqn:E; simpl.
  - destruct (p k a) eqn:Ep.
    + apply map_lookup_filter_Some. done.
    + apply map_lookup_filter_None. right. intros a' ? ?. simpl in *. congruence.
  - apply map_lookup_filter_None. by left.
Qed.

(** ** Tactics shared by the components *)

(** Case analysis on every test the goal is stuck on. *)
Ltac case_goal :=
  repeat (case_match || case_decide); simplify_eq/=.

Ltac split_and_solve := split_and!; try done; eauto.

Create HintDb echo.
Create Rewrite HintDb echo.
#[export] Hint Resolve elem_of_retain : echo.
