(* ===== verification/RustStr.v ===== *)
(** * Rust strings

    The operations of [str], [char] and the integer parsers that the daemon
    uses.  A [&str] is its UTF-8 bytes, a [string]; a [char] is the UTF-8
    encoding of one scalar value, so that a string is the concatenation of its
    [chars] and a character literal of the source is a one-character string
    literal here.  Searching for an ASCII character is searching for its byte,
    because no byte of a multi-byte encoding is ASCII. *)

From Stdlib Require Import Ascii DecimalString DecimalN HexadecimalString.
From S2P Require Import Prelude.

Local Open Scope string_scope.
Local Open Scope list_scope.
Local Open Scope stdpp_scope.

(** ** Bytes *)

Definition byte_val (b : ascii) : N := N_of_ascii b.

Definition is_upper (b : ascii) : bool := (65 <=? byte_val b)%N && (byte_val b <=? 90)%N.
Definition is_lower (b : ascii) : bool := (97 <=? byte_val b)%N && (byte_val b <=? 122)%N.
Definition is_digit (b : ascii) : bool := (48 <=? byte_val b)%N && (byte_val b <=? 57)%N.
Definition is_alphabetic (b : ascii) : bool := is_upper b || is_lower b.
Definition is_alphanumeric (b : ascii) : bool := is_alphabetic b || is_digit b.
Definition is_ascii_byte (b : ascii) : bool := (byte_val b <? 128)%N.

Definition lower_byte (b : ascii) : ascii :=
  if is_upper b then ascii_of_N (byte_val b + 32) else b.
Definition upper_byte (b : ascii) : ascii :=
  if is_lower b then ascii_of_N (byte_val b - 32) else b.

Definition byte_eq_ignore_case (a b : ascii) : bool :=
  bool_decide (lower_byte a = lower_byte b).

(** Facts about single bytes are decided by running through all 256. *)
Definition all_bytes : list ascii := map (λ n, ascii_of_nat n) (seq 0 256).

Lemma all_bytes_complete (b : ascii) : In b all_bytes.
Proof.
  apply in_map_iff. exists (nat_of_ascii b). split; [apply ascii_nat_embedding|].
  apply in_seq. pose proof (nat_ascii_bounded b). lia.
Qed.

Lemma byte_forall (p : ascii → bool) :
  forallb p all_bytes = true → ∀ b, p b = true.
Proof.
  rewrite forallb_forall. intros H b. apply H, all_bytes_complete.
Qed.

Lemma byte_forall_eq {A} `{EqDecision A} (f g : ascii → A) :
  forallb (λ b, bool_decide (f b = g b)) all_bytes = true → ∀ b, f b = g b.
Proof. intros H b. by apply (bool_decide_eq_true_1 _ (byte_forall _ H b)). Qed.

(** [by_bytes f g] proves [f b = g b] for a byte [b] by computation. *)
Ltac by_bytes f g := apply (byte_forall_eq f g); vm_compute; reflexivity.

Lemma lower_byte_idem b : lower_byte (lower_byte b) = lower_byte b.
Proof. by_bytes (λ b, lower_byte (lower_byte b)) lower_byte. Qed.

Lemma upper_byte_idem b : upper_byte (upper_byte b) = upper_byte b.
Proof. by_bytes (λ b, upper_byte (upper_byte b)) upper_byte. Qed.

(** ** Strings *)

Fixpoint str_map (f : ascii → ascii) (s : string) : string :=
  match s with "" => "" | String b r => String (f b) (str_map f r) end.

Definition to_ascii_lowercase : string → string := str_map lower_byte.
Definition to_ascii_uppercase : string → string := str_map upper_byte.

Fixpoint eq_ignore_ascii_case (s t : string) : bool :=
  match s, t with
  | "", "" => true
  | String a s', String b t' => byte_eq_ignore_case a b && eq_ignore_ascii_case s' t'
  | _, _ => false
  end.

Fixpoint str_all (p : ascii → bool) (s : string) : bool :=
  match s with "" => true | String b r => p b && str_all p r end.

Definition is_ascii (s : string) : bool := str_all is_ascii_byte s.

Definition is_empty (s : string) : bool := match s with "" => true | _ => false end.

Fixpoint contains_byte (c : ascii) (s : string) : bool :=
  match s with "" => false | String b r => bool_decide (b = c) || contains_byte c r end.

(** [s.contains(['a', 'b', ...])]. *)
Definition contains_any (cs : list ascii) (s : string) : bool :=
  existsb (λ c, contains_byte c s) cs.

Fixpoint starts_with (p s : string) : bool :=
  match p, s with
  | "", _ => true
  | String a p', String b s' => bool_decide (a = b) && starts_with p' s'
  | _, _ => false
  end.

Fixpoint strip_prefix (p s : string) : option string :=
  match p, s with
  | "", _ => Some s
  | String a p', String b s' => if bool_decide (a = b) then strip_prefix p' s' else None
  | _, _ => None
  end.

Fixpoint trim_start_matches (c : ascii) (s : string) : string :=
  match s with
  | String b r => if bool_decide (b = c) then trim_start_matches c r else s
  | "" => ""
  end.

(** [s.split_once(c)]: the text before and after the first [c]. *)
Fixpoint split_once (c : ascii) (s : string) : option (string * string) :=
  match s with
  | "" => None
  | String b r =>
      if bool_decide (b = c) then Some ("", r)
      else match split_once c r with
           | Some (l, r') => Some (String b l, r')
           | None => None
           end
  end.

(** [s.split(c)]: always at least one (possibly empty) piece. *)
Fixpoint split (c : ascii) (s : string) : list string :=
  match s with
  | "" => [""]
  | String b r =>
      if bool_decide (b = c) then "" :: split c r
      else match split c r with
           | p :: ps => String b p :: ps
           | [] => [String b ""]
           end
  end.

(** [slice.join(sep)]. *)
Fixpoint str_join (sep : string) (l : list string) : string :=
  match l with
  | [] => ""
  | [x] => x
  | x :: r => x +:+ sep +:+ str_join sep r
  end.

Fixpoint str_concat (l : list string) : string :=
  match l with [] => "" | x :: r => x +:+ str_concat r end.

(** [s.lines()]: the pieces between line feeds, each without a carriage return
    before its line feed; text after the last line feed is a line if not empty. *)
Fixpoint strip_cr (s : string) : string :=
  match s with
  | "" => ""
  | String b "" => if bool_decide (b = "013"%char) then "" else s
  | String b r => String b (strip_cr r)
  end.

Fixpoint lines_of (pieces : list string) : list string :=
  match pieces with
  | [] => []
  | [p] => if is_empty p then [] else [p]
  | p :: ps => strip_cr p :: lines_of ps
  end.

Definition lines (s : string) : list string := lines_of (split "010" s).

(** Bytes of a string, [s.as_bytes()]; [s.len()] is the number of bytes. *)
Fixpoint as_bytes (s : string) : list ascii :=
  match s with "" => [] | String b r => b :: as_bytes r end.

Definition str_len (s : string) : nat := String.length s.

(** [&s[n..]] on a character boundary. *)
Fixpoint str_drop (n : nat) (s : string) : string :=
  match n, s with
  | O, _ => s
  | S n', String _ r => str_drop n' r
  | S _, "" => ""
  end.

Fixpoint str_take (n : nat) (s : string) : string :=
  match n, s with
  | S n', String b r => String b (str_take n' r)
  | _, _ => ""
  end.

(** ** Characters *)

Definition utf8_len (b : ascii) : nat :=
  let v := byte_val b in
  if (v <=? 127)%N then 1
  else if (192 <=? v)%N && (v <=? 223)%N then 2
  else if (224 <=? v)%N && (v <=? 239)%N then 3
  else 4.

(** [s.chars()]: [k] bytes of the character begun in [cur] are still to come. *)
Fixpoint chars_go (k : nat) (cur s : string) : list string :=
  match s with
  | "" => if is_empty cur then [] else [cur]
  | String b r =>
      match k with
      | O => match utf8_len b with
             | S (S k') => chars_go (S k') (String b "") r
             | _ => String b "" :: chars_go O "" r
             end
      | S O => (cur +:+ String b "") :: chars_go O "" r
      | S k' => chars_go k' (cur +:+ String b "") r
      end
  end.

Definition chars (s : string) : list string := chars_go 0 "" s.

(** A character literal's string: the ASCII characters of the source. *)
Definition chr (b : ascii) : string := String b "".

(** The ASCII byte of a character, if it is one. *)
Definition char_byte (c : string) : option ascii :=
  match c with String b "" => if is_ascii_byte b then Some b else None | _ => None end.

Definition char_is (p : ascii → bool) (c : string) : bool := map_or false p (char_byte c).

(** [char::is_whitespace]: the Unicode White_Space property. *)
Definition is_whitespace (c : string) : bool :=
  match as_bytes c with
  | [b] => let v := byte_val b in ((9 <=? v) && (v <=? 13) || (v =? 32))%N
  | [b1; b2] =>
      ((byte_val b1 =? 194) && ((byte_val b2 =? 133) || (byte_val b2 =? 160)))%N
  | [b1; b2; b3] =>
      let v1 := byte_val b1 in let v2 := byte_val b2 in let v3 := byte_val b3 in
      ((v1 =? 225) && (v2 =? 154) && (v3 =? 128)
       || (v1 =? 226) && (v2 =? 128) && ((128 <=? v3) && (v3 <=? 138)
            || (v3 =? 168) || (v3 =? 169) || (v3 =? 175))
       || (v1 =? 226) && (v2 =? 129) && (v3 =? 159)
       || (v1 =? 227) && (v2 =? 128) && (v3 =? 128))%N
  | _ => false
  end.

(** [s.split_whitespace()]. *)
Fixpoint words_go (cur : string) (cs : list string) : list string :=
  match cs with
  | [] => if is_empty cur then [] else [cur]
  | c :: r =>
      if is_whitespace c
      then if is_empty cur then words_go "" r else cur :: words_go "" r
      else words_go (cur +:+ c) r
  end.

Definition split_whitespace (s : string) : list string := words_go "" (chars s).

Fixpoint drop_ws (cs : list string) : list string :=
  match cs with
  | c :: r => if is_whitespace c then drop_ws r else cs
  | [] => []
  end.

Definition trim_start (s : string) : string := str_concat (drop_ws (chars s)).
Definition trim (s : string) : string :=
  str_concat (rev (drop_ws (rev (drop_ws (chars s))))).

(** ** Numbers *)

(** [n.to_string()] and [format!("{:x}", n)]. *)
Definition to_string (n : N) : string := DecimalString.NilEmpty.string_of_uint (N.to_uint n).
Definition to_hex (n : N) : string := HexadecimalString.NilEmpty.string_of_uint (N.to_hex_uint n).

(** [s.parse::<uN>()] with the width's maximum: an optional [+], then at least
    one decimal digit, within range. *)
Definition parse_uint (max : N) (s : string) : option N :=
  let d := match strip_prefix "+" s with Some r => r | None => s end in
  if is_empty d then None
  else match DecimalString.NilEmpty.uint_of_string d with
       | Some u => let n := N.of_uint u in if (n <=? max)%N then Some n else None
       | None => None
       end.

(** ** Lemmas *)

#[local] Arguments String.append !_ _ / : simpl nomatch.

Lemma str_app_nil_r s : s +:+ "" = s.
Proof. induction s as [|b s IH]; [done|]. cbn. by rewrite IH. Qed.

Lemma str_app_assoc s t u : (s +:+ t) +:+ u = s +:+ (t +:+ u).
Proof. induction s as [|b s IH]; [done|]. cbn. by rewrite IH. Qed.

Lemma app_len s t : str_len (s +:+ t) = str_len s + str_len t.
Proof. unfold str_len. induction s as [|b s IH]; cbn; [done|]. by rewrite IH. Qed.

Lemma str_app_nil s t : s +:+ t = "" ↔ s = "" ∧ t = "".
Proof. destruct s; cbn; naive_solver. Qed.

Lemma str_map_app f s t : str_map f (s +:+ t) = str_map f s +:+ str_map f t.
Proof. induction s as [|b s IH]; [done|]. cbn. by rewrite IH. Qed.

Lemma lowercase_idem s : to_ascii_lowercase (to_ascii_lowercase s) = to_ascii_lowercase s.
Proof.
  unfold to_ascii_lowercase.
  induction s as [|b s IH]; [done|]. cbn. by rewrite lower_byte_idem, IH.
Qed.

Lemma uppercase_idem s : to_ascii_uppercase (to_ascii_uppercase s) = to_ascii_uppercase s.
Proof.
  unfold to_ascii_uppercase.
  induction s as [|b s IH]; [done|]. cbn. by rewrite upper_byte_idem, IH.
Qed.

Lemma eq_ignore_case_spec s t :
  eq_ignore_ascii_case s t = true ↔ to_ascii_lowercase s = to_ascii_lowercase t.
Proof.
  unfold to_ascii_lowercase.
  revert t. induction s as [|a s IH]; intros [|b t]; cbn; try done.
  rewrite andb_true_iff, IH. unfold byte_eq_ignore_case.
  rewrite bool_decide_eq_true. split; [by intros [-> ->]|by intros [= -> ->]].
Qed.

Lemma is_empty_spec s : is_empty s = true ↔ s = "".
Proof. by destruct s. Qed.

Lemma is_empty_false s : is_empty s = false ↔ s ≠ "".
Proof. by destruct s. Qed.

Lemma contains_byte_app c s t :
  contains_byte c (s +:+ t) = contains_byte c s || contains_byte c t.
Proof. induction s as [|b s IH]; [done|]. cbn. by rewrite IH, orb_assoc. Qed.

Lemma split_once_Some c s l r :
  split_once c s = Some (l, r) ↔ s = l +:+ String c r ∧ contains_byte c l = false.
Proof.
  revert l r. induction s as [|b s IH]; intros l r; cbn.
  { split; [done|]. intros [H _]. by destruct l. }
  case_bool_decide as Hb.
  { subst b. split; [by intros [= <- <-]|].
    intros [H Hl]. destruct l as [|x l]; cbn in *; simplify_eq; [done|].
    by rewrite bool_decide_true in Hl. }
  destruct (split_once c s) as [[l' r']|] eqn:E; split.
  - intros [= <- <-]. destruct (proj1 (IH l' r') eq_refl) as [-> Hl].
    cbn. by rewrite bool_decide_false, Hl.
  - intros [H Hl]. destruct l as [|x l]; cbn in *; simplify_eq.
    rewrite bool_decide_false in Hl by done. cbn in Hl.
    pose proof (proj2 (IH l r) (conj eq_refl Hl)). by simplify_eq.
  - done.
  - intros [H Hl]. destruct l as [|x l]; cbn in *; simplify_eq.
    rewrite bool_decide_false in Hl by done. cbn in Hl.
    by specialize (proj2 (IH l r) (conj eq_refl Hl)).
Qed.

Lemma split_once_None c s : split_once c s = None ↔ contains_byte c s = false.
Proof.
  induction s as [|b s IH]; cbn; [done|]. case_bool_decide; cbn; [done|].
  destruct (split_once c s) as [[l r]|]; split; try done; [|by rewrite <- IH].
  by rewrite <- IH.
Qed.

Lemma split_once_app c l r :
  contains_byte c l = false → split_once c (l +:+ String c r) = Some (l, r).
Proof. intros. by apply split_once_Some. Qed.

(** [trim_start_matches] drops nothing from a string that does not start with
    the character, and its result never does. *)
Definition starts_byte (c : ascii) (s : string) : bool :=
  match s with String b _ => bool_decide (b = c) | "" => false end.

Lemma trim_start_starts c s : starts_byte c (trim_start_matches c s) = false.
Proof.
  induction s as [|b s IH]; cbn; [done|]. case_bool_decide; [done|].
  cbn. by rewrite bool_decide_false.
Qed.

Lemma trim_start_id c s : starts_byte c s = false → trim_start_matches c s = s.
Proof. destruct s as [|b s]; cbn; [done|]. by case_bool_decide. Qed.

Lemma trim_start_suffix c s : ∃ n, s = str_concat (replicate n (chr c)) +:+ trim_start_matches c s.
Proof.
  induction s as [|b s [n IH]]; [by exists 0|]. cbn.
  case_bool_decide; [|by exists 0]. subst. exists (S n). cbn. by rewrite <- IH.
Qed.

Lemma strip_prefix_chr c s : strip_prefix (String c EmptyString) s =
  match s with String b r => if bool_decide (b = c) then Some r else None | "" => None end.
Proof. destruct s as [|b s]; [done|]. cbn. by repeat case_bool_decide. Qed.

Lemma starts_with_chr c s : starts_with (String c EmptyString) s = starts_byte c s.
Proof. destruct s as [|b s]; [done|]. cbn. by repeat case_bool_decide; subst. Qed.

Lemma strip_prefix_Some p s r : strip_prefix p s = Some r ↔ s = p +:+ r.
Proof.
  revert s. induction p as [|a p IH]; intros [|b s]; cbn; try naive_solver.
  case_bool_decide; subst; rewrite ?IH; naive_solver.
Qed.

(** Every character of a string taken in order is the string again. *)
Lemma chars_go_concat k cur s : str_concat (chars_go k cur s) = cur +:+ s ∨ (k = 0 ∧ cur ≠ "").
Proof.
  revert k cur. induction s as [|b s IH]; intros k cur; cbn.
  { destruct cur; cbn; left; by rewrite ?str_app_nil_r. }
  destruct k as [|[|k]].
  - destruct cur; [|right; done]. left.
    destruct (utf8_len b) as [|[|k]]; cbn.
    + destruct (IH 0 "") as [->|[_ ?]]; done.
    + destruct (IH 0 "") as [->|[_ ?]]; done.
    + destruct (IH (S k) (String b "")) as [->|[? ?]]; done.
  - left. cbn. destruct (IH 0 "") as [->|[_ ?]]; [|done].
    by rewrite str_app_assoc.
  - left. destruct (IH (S k) (cur +:+ String b "")) as [->|[? ?]]; [|done].
    by rewrite str_app_assoc.
Qed.

Lemma chars_concat s : str_concat (chars s) = s.
Proof. destruct (chars_go_concat 0 "" s) as [H|[_ ?]]; [exact H|done]. Qed.

(** On ASCII text a character is a byte. *)
Lemma chars_ascii s : is_ascii s = true → chars s = map chr (as_bytes s).
Proof.
  unfold chars, is_ascii. induction s as [|b s IH]; cbn; [done|].
  rewrite andb_true_iff. intros [Hb Hs]. unfold is_ascii_byte in Hb.
  apply N.ltb_lt in Hb. unfold utf8_len.
  rewrite (proj2 (N.leb_le (byte_val b) 127)) by lia. by rewrite IH.
Qed.

(** *** Printing and parsing numbers *)

Lemma uint_of_string_of_uint d :
  DecimalString.NilEmpty.uint_of_string (DecimalString.NilEmpty.string_of_uint d) = Some d.
Proof. apply DecimalString.NilEmpty.usu. Qed.

Lemma to_string_digits n : str_all is_digit (to_string n) = true.
Proof.
  unfold to_string. induction (N.to_uint n); cbn; auto.
Qed.

Lemma to_uint_not_nil n : N.to_uint n ≠ Decimal.Nil.
Proof.
  intros H. pose proof (DecimalN.Unsigned.of_to n) as E. rewrite H in E. cbn in E.
  by subst n.
Qed.

Lemma to_string_nonempty n : to_string n ≠ "".
Proof.
  unfold to_string. pose proof (to_uint_not_nil n). by destruct (N.to_uint n).
Qed.

Lemma digits_no_byte c s :
  str_all is_digit s = true → is_digit c = false → contains_byte c s = false.
Proof.
  intros Hs Hc. induction s as [|b s IH]; cbn in *; [done|].
  apply andb_true_iff in Hs as [Hb Hs]. rewrite IH by done.
  rewrite bool_decide_false by congruence. done.
Qed.

Lemma split_none c a : contains_byte c a = false → split c a = [a].
Proof.
  induction a as [|x a IH]; cbn; [done|].
  intros [Hx Ha]%orb_false_iff. apply bool_decide_eq_false in Hx.
  rewrite bool_decide_false by done. by rewrite IH.
Qed.

Lemma str_all_app p s t : str_all p (s +:+ t) = str_all p s && str_all p t.
Proof. induction s as [|b s IH]; cbn; [done|]. by rewrite IH, andb_assoc. Qed.

Lemma split_app c a b : contains_byte c a = false → split c (a +:+ String c b) = a :: split c b.
Proof.
  induction a as [|x a IH]; cbn; [by rewrite bool_decide_true|].
  intros [Hx Ha]%orb_false_iff. apply bool_decide_eq_false in Hx.
  rewrite bool_decide_false by done. by rewrite IH.
Qed.

Lemma split_nonempty c s : split c s ≠ [].
Proof. destruct s as [|b s]; cbn; [done|]. case_bool_decide; [done|]. by destruct (split c s). Qed.

Lemma join_split c s : str_join (String c "") (split c s) = s.
Proof.
  induction s as [|b s IH]; [done|]. cbn [split]. pose proof (split_nonempty c s) as Hn.
  case_bool_decide as Hb.
  - subst b. destruct (split c s) as [|p ps]; [done|]. cbn in *. by rewrite IH.
  - destruct (split c s) as [|p ps]; [done|]. destruct ps; cbn in *; by rewrite IH.
Qed.

Lemma strip_cr_id s : contains_byte "013" s = false → strip_cr s = s.
Proof.
  induction s as [|b s IH]; [done|]. cbn [contains_byte]. rewrite orb_false_iff, bool_decide_eq_false.
  intros [Hb Hs]. cbn. destruct s; [by rewrite bool_decide_false|]. by rewrite IH.
Qed.

(** Text written line by line is read back as those lines. *)
Lemma lines_concat (l : list string) :
  Forall (λ s, contains_byte "010" s = false ∧ contains_byte "013" s = false) l →
  lines (str_concat (map (λ s, s +:+ chr "010") l)) = l.
Proof.
  unfold lines. induction 1 as [|s l [H1 H2] _ IH]; [done|]. cbn [map str_concat].
  rewrite str_app_assoc. change (chr "010" +:+ ?r) with (String "010" r). rewrite split_app by done.
  pose proof (split_nonempty "010" (str_concat (map (λ s, s +:+ chr "010") l))) as Hn.
  destruct (split _ (str_concat _)) as [|p ps] eqn:E; [done|].
  change (lines_of (s :: p :: ps)) with (strip_cr s :: lines_of (p :: ps)).
  by rewrite strip_cr_id, IH.
Qed.

(** Parsing a printed number gives it back when it fits the width. *)
Lemma parse_to_string max n : (n <= max)%N → parse_uint max (to_string n) = Some n.
Proof.
  intros Hn. unfold parse_uint.
  assert (strip_prefix "+" (to_string n) = None) as ->.
  { pose proof (to_string_digits n) as Hd. destruct (to_string n) as [|b s]; [done|].
    cbn in *. apply andb_true_iff in Hd as [Hb _].
    rewrite bool_decide_false; [done|]. by intros <-. }
  destruct (is_empty (to_string n)) eqn:E.
  { by apply is_empty_spec, to_string_nonempty in E. }
  unfold to_string. rewrite uint_of_string_of_uint, DecimalN.Unsigned.of_to.
  by rewrite (proj2 (N.leb_le _ _) Hn).
Qed.

Lemma parse_uint_bound max s n : parse_uint max s = Some n → (n <= max)%N.
Proof.
  unfold parse_uint. intros H. repeat case_match; simplify_eq; by apply N.leb_le.
Qed.

#[export] Hint Rewrite str_app_nil_r str_app_assoc lowercase_idem uppercase_idem : echo.
#[export] Hint Resolve to_string_nonempty to_string_digits parse_uint_bound : echo.
