(* ===== verification/Message.v ===== *)
(** * IRC line parsing: [src/src/message.rs]

    One wire line in, an optional [Message] out, and the re-serialisation used
    when a message is forwarded across links. *)

From Stdlib Require Import Ascii.
From S2P Require Import Prelude RustStr.

Local Open Scope stdpp_scope.

Record Message := mkMessage {
  source : option string;
  command : string;
  params : list string;
  ctags : string;
  label : option string;
  batch : option string;
  concat : bool;
}.

#[export] Instance eta_Message : Eta Message := λ m,
  mkMessage (source m) (command m) (params m) (ctags m) (label m) (batch m) (concat m).

#[export] Instance Message_eq_dec : EqDecision Message.
Proof. solve_decision. Defined.

(** The last parameter needs a [:] when it is empty, has a space or starts
    with a colon. *)
Definition needs_colon (p : string) : bool :=
  is_empty p || contains_byte " " p || starts_with ":" p.

Fixpoint wire_params (ps : list string) : string :=
  match ps with
  | [] => ""
  | [p] => " " +:+ (if needs_colon p then ":" else "") +:+ p
  | p :: r => " " +:+ p +:+ wire_params r
  end.

Definition to_wire (m : Message) : string :=
  (match source m with Some src => ":" +:+ src +:+ " " | None => "" end)
  +:+ command m +:+ wire_params (params m).

(** The tag block is read in one pass; only client-only ([+]) tags are kept
    for relay. *)
Record Tags := mkTags {
  t_ctags : string; t_label : option string; t_batch : option string; t_concat : bool }.

#[export] Instance eta_Tags : Eta Tags := λ t,
  mkTags (t_ctags t) (t_label t) (t_batch t) (t_concat t).

Definition no_tags : Tags := mkTags "" None None false.

Definition tag_step (acc : Tags) (t : string) : Tags :=
  if starts_with "+" t then
    acc <| t_ctags := (if is_empty (t_ctags acc) then t else t_ctags acc +:+ ";" +:+ t) |>
  else match strip_prefix "label=" t with
  | Some v => acc <| t_label := Some v |>
  | None =>
      match strip_prefix "batch=" t with
      | Some v => acc <| t_batch := Some v |>
      | None =>
          if String.eqb t "draft/multiline-concat" then acc <| t_concat := true |> else acc
      end
  end.

Definition parse_tags (rest : string) : option (Tags * string) :=
  match strip_prefix "@" rest with
  | Some after_at =>
      match split_once " " after_at with
      | Some (tags, r) =>
          Some (foldl tag_step no_tags (split ";" tags), trim_start_matches " " r)
      | None => None
      end
  | None => Some (no_tags, rest)
  end.

Definition parse_source (rest : string) : option (option string * string) :=
  match strip_prefix ":" rest with
  | Some after_colon =>
      match split_once " " after_colon with
      | Some (src, r) => Some (Some src, trim_start_matches " " r)
      | None => None
      end
  | None => Some (None, rest)
  end.

(** The parameter loop.  Each round consumes at least one byte of [rest], so
    its length is enough fuel. *)
Fixpoint params_loop (fuel : nat) (rest : string) : list string :=
  match fuel with
  | O => []
  | S fuel' =>
      if is_empty rest then []
      else match strip_prefix ":" rest with
      | Some trailing => [trailing]
      | None =>
          match split_once " " rest with
          | Some (p, r) => p :: params_loop fuel' (trim_start_matches " " r)
          | None => [rest]
          end
      end
  end.

Definition parse_params (rest : string) : list string := params_loop (str_len rest) rest.

Definition parse (line : string) : option Message :=
  match parse_tags (trim_start_matches " " line) with
  | None => None
  | Some (tags, rest) =>
      match parse_source rest with
      | None => None
      | Some (src, rest) =>
          let '(cmd, rest) :=
            match split_once " " rest with
            | Some (c, r) => (c, trim_start_matches " " r)
            | None => (rest, "")
            end in
          if is_empty cmd then None
          else Some (mkMessage src (to_ascii_uppercase cmd) (parse_params rest)
                       (t_ctags tags) (t_label tags) (t_batch tags) (t_concat tags))
      end
  end.

(** What a parameter list must look like to survive on the wire: every
    parameter before the last is a non-empty token that does not start with a
    colon. *)
Definition middle_ok (p : string) : Prop :=
  p ≠ "" ∧ contains_byte " " p = false ∧ starts_byte ":" p = false.

Fixpoint wire_ok (ps : list string) : Prop :=
  match ps with
  | [] | [_] => True
  | p :: r => middle_ok p ∧ wire_ok r
  end.

(** The message without what [to_wire] drops by design. *)
Definition without_tags (m : Message) : Message :=
  m <| ctags := "" |> <| label := None |> <| batch := None |> <| concat := false |>.

Section message_lemmas.
#[local] Arguments String.append !_ _ / : simpl nomatch.

Lemma trim_length c s : str_len (trim_start_matches c s) ≤ str_len s.
Proof.
  unfold str_len. induction s as [|b s IH]; cbn; [lia|]. case_bool_decide; cbn; lia.
Qed.

Lemma split_once_len c s l r : split_once c s = Some (l, r) → str_len r < str_len s.
Proof.
  intros [-> _]%split_once_Some. rewrite app_len. unfold str_len. cbn. lia.
Qed.

Lemma str_len_pos s : s ≠ "" → ∃ n, str_len s = S n.
Proof. destruct s as [|b s]; [done|]. by exists (str_len s). Qed.

(** Extra fuel changes nothing: the loop ends because the text does. *)
Lemma params_loop_enough fuel rest :
  str_len rest ≤ fuel → params_loop fuel rest = parse_params rest.
Proof.
  unfold parse_params. remember (str_len rest) as n eqn:Hn. revert fuel rest Hn.
  induction (lt_wf n) as [n _ IH]. intros fuel rest -> Hf.
  destruct (decide (rest = "")) as [->|Hr]; [by destruct fuel|].
  destruct (str_len_pos rest Hr) as [n Hl].
  destruct fuel as [|fuel]; [lia|]. rewrite Hl. cbn [params_loop].
  destruct (is_empty rest); [done|]. destruct (strip_prefix ":" rest); [done|].
  destruct (split_once " " rest) as [[p r]|] eqn:Es; [|done].
  apply split_once_len in Es. pose proof (trim_length " " r). f_equal.
  transitivity (params_loop (str_len (trim_start_matches " " r)) (trim_start_matches " " r)).
  - apply (IH (str_len (trim_start_matches " " r))); lia.
  - symmetry. apply (IH (str_len (trim_start_matches " " r))); lia.
Qed.

Lemma parse_params_cons rest :
  rest ≠ "" → strip_prefix ":" rest = None →
  parse_params rest =
    match split_once " " rest with
    | Some (p, r) => p :: parse_params (trim_start_matches " " r)
    | None => [rest]
    end.
Proof.
  intros Hr Hc. unfold parse_params at 1.
  destruct (str_len_pos rest Hr) as [n Hl]. rewrite Hl. cbn [params_loop].
  apply is_empty_false in Hr. rewrite Hr, Hc.
  destruct (split_once " " rest) as [[p r]|] eqn:Es; [|done].
  f_equal. apply params_loop_enough.
  apply split_once_len in Es. pose proof (trim_length " " r). lia.
Qed.

Lemma parse_params_trailing t : parse_params (":" +:+ t) = [t].
Proof. done. Qed.

Lemma starts_app c s t : s ≠ "" → starts_byte c (s +:+ t) = starts_byte c s.
Proof. by destruct s. Qed.

Lemma strip_colon_None s : starts_byte ":" s = false → strip_prefix ":" s = None.
Proof. rewrite (strip_prefix_chr ":" s). destruct s; cbn; [done|]. by case_bool_decide. Qed.

Lemma strip_at_None s : starts_byte "@" s = false → strip_prefix "@" s = None.
Proof. rewrite (strip_prefix_chr "@" s). destruct s; cbn; [done|]. by case_bool_decide. Qed.

Lemma parse_params_middle p r :
  middle_ok p → parse_params (p +:+ String " " r) = p :: parse_params (trim_start_matches " " r).
Proof.
  intros (Hne & Hsp & Hc). rewrite parse_params_cons.
  - by rewrite split_once_app.
  - by destruct p.
  - apply strip_colon_None. by rewrite starts_app.
Qed.

(** Reading back printed parameters. *)
Lemma wire_params_parse ps :
  ps ≠ [] → wire_ok ps →
  ∃ r, wire_params ps = String " " r ∧ starts_byte " " r = false ∧ r ≠ "" ∧ parse_params r = ps.
Proof.
  induction ps as [|p ps IH]; [done|]. intros _ Hok.
  destruct ps as [|q ps].
  - cbn. destruct (needs_colon p) eqn:E; [by exists (":" +:+ p)|].
    unfold needs_colon in E. rewrite (starts_with_chr ":" p) in E.
    apply orb_false_iff in E as [[He Hs]%orb_false_iff Hc].
    exists p. cbn. split; [done|]. apply is_empty_false in He.
    rewrite parse_params_cons by auto using strip_colon_None.
    rewrite (proj2 (split_once_None _ _) Hs). split; [|done].
    destruct p as [|b p]; [done|]. cbn in *. by apply orb_false_iff in Hs as [-> _].
  - destruct Hok as [Hp Hok]. destruct IH as (r & Hw & Hs & Hr & Hps); [done|done|].
    exists (p +:+ String " " r).
    change (wire_params (p :: q :: ps)) with (" " +:+ p +:+ wire_params (q :: ps)).
    rewrite Hw. split; [done|]. destruct Hp as (Hne & Hsp & Hc).
    split; [|split; [by destruct p|]].
    + rewrite starts_app by done. destruct p as [|b p]; [done|].
      cbn in *. by apply orb_false_iff in Hsp as [-> _].
    + rewrite parse_params_middle by done. by rewrite trim_start_id, Hps.
Qed.

(** Parsing only ever produces lists that can be printed. *)
Lemma params_loop_ok fuel rest : starts_byte " " rest = false → wire_ok (params_loop fuel rest).
Proof.
  revert rest. induction fuel as [|fuel IH]; intros rest Hs; cbn [params_loop]; [done|].
  destruct (is_empty rest) eqn:He; [done|].
  destruct (strip_prefix ":" rest) eqn:Hc; [done|].
  destruct (split_once " " rest) as [[p r]|] eqn:Es; [|done].
  specialize (IH _ (trim_start_starts " " r)).
  destruct (params_loop fuel _) as [|q qs]; [done|]. split; [|done].
  apply split_once_Some in Es as [-> Hp].
  destruct p as [|b p]; [done|]. split; [done|]. split; [done|].
  rewrite strip_prefix_chr in Hc. cbn in Hc |- *. by destruct (bool_decide (b = _)).
Qed.

Lemma contains_space_upper s : contains_byte " " (to_ascii_uppercase s) = contains_byte " " s.
Proof.
  unfold to_ascii_uppercase. induction s as [|b s IH]; cbn; [done|]. rewrite IH. f_equal.
  by_bytes (λ b, bool_decide (upper_byte b = " "%char)) (λ b, bool_decide (b = " "%char)).
Qed.

Lemma starts_colon_upper s : starts_byte ":" (to_ascii_uppercase s) = starts_byte ":" s.
Proof.
  destruct s as [|b s]; cbn; [done|].
  by_bytes (λ b, bool_decide (upper_byte b = ":"%char)) (λ b, bool_decide (b = ":"%char)).
Qed.

Lemma starts_at_upper s : starts_byte "@" (to_ascii_uppercase s) = starts_byte "@" s.
Proof.
  destruct s as [|b s]; cbn; [done|].
  by_bytes (λ b, bool_decide (upper_byte b = "@"%char)) (λ b, bool_decide (b = "@"%char)).
Qed.

Lemma starts_no_space s : contains_byte " " s = false → starts_byte " " s = false.
Proof. destruct s; cbn; [done|]. by intros [-> _]%orb_false_iff. Qed.

(** What the wire form of a message needs for [parse] to return it. *)
Definition printable (m : Message) : Prop :=
  command m ≠ "" ∧ contains_byte " " (command m) = false ∧
  to_ascii_uppercase (command m) = command m ∧
  wire_ok (params m) ∧
  match source m with
  | Some src => contains_byte " " src = false
  | None => starts_byte ":" (command m) = false ∧ starts_byte "@" (command m) = false
  end.

Lemma parse_body cmd ps :
  cmd ≠ "" → contains_byte " " cmd = false → wire_ok ps →
  ∃ c r, match split_once " " (cmd +:+ wire_params ps) with
         | Some (c, r) => (c, trim_start_matches " " r)
         | None => (cmd +:+ wire_params ps, "")
         end = (c, r) ∧ c = cmd ∧ parse_params r = ps.
Proof.
  intros Hne Hsp Hok. destruct ps as [|p ps].
  - rewrite str_app_nil_r, (proj2 (split_once_None _ _) Hsp). by exists cmd, "".
  - destruct (wire_params_parse (p :: ps)) as (r & -> & Hs & _ & Hps); [done|done|].
    rewrite split_once_app by done. exists cmd, r. by rewrite trim_start_id.
Qed.

Lemma parse_printable m : printable m → parse (to_wire m) = Some (without_tags m).
Proof.
  intros (Hne & Hsp & Hup & Hok & Hsrc). unfold parse, to_wire.
  destruct (parse_body (command m) (params m)) as (c & r & Hb & -> & Hr); [done..|].
  set (body := command m +:+ wire_params (params m)) in *.
  assert (∀ x, starts_byte x body = starts_byte x (command m)) as Hst
    by (intros; by apply starts_app).
  destruct (source m) as [src|] eqn:Esrc.
  - assert (((":" +:+ src +:+ " ") +:+ body) = String ":" (src +:+ String " " body)) as ->
      by (cbn; by rewrite str_app_assoc).
    rewrite trim_start_id by done.
    change (parse_tags (String ":" (src +:+ String " " body)))
      with (Some (no_tags, String ":" (src +:+ String " " body))). cbv iota.
    unfold parse_source. rewrite strip_prefix_chr, bool_decide_true, split_once_app by done.
    rewrite trim_start_id by (rewrite Hst; by apply starts_no_space).
    rewrite Hb, (proj2 (is_empty_false _) Hne), Hup, Hr.
    unfold without_tags. cbn. by rewrite Esrc.
  - destruct Hsrc as [Hc Ha]. cbn.
    rewrite trim_start_id by (rewrite Hst; by apply starts_no_space).
    unfold parse_tags. rewrite strip_at_None by (by rewrite Hst).
    unfold parse_source. rewrite strip_colon_None by (by rewrite Hst).
    rewrite Hb, (proj2 (is_empty_false _) Hne), Hup, Hr.
    unfold without_tags. cbn. by rewrite Esrc.
Qed.

Lemma upper_nonempty s : s ≠ "" → to_ascii_uppercase s ≠ "".
Proof. by destruct s. Qed.

Lemma parse_source_cases rest so r :
  parse_source rest = Some (so, r) → starts_byte " " rest = false →
  starts_byte " " r = false ∧
  match so with Some src => contains_byte " " src = false | None => starts_byte ":" r = false end.
Proof.
  unfold parse_source. rewrite (strip_prefix_chr ":" rest). intros H Hs.
  destruct rest as [|b s]; [by simplify_eq|].
  destruct (bool_decide (b = ":"%char)) eqn:Eb; [|by simplify_eq].
  destruct (split_once " " s) as [[src r']|] eqn:E; simplify_eq.
  apply split_once_Some in E as [-> ?]. by rewrite trim_start_starts.
Qed.

Lemma parse_tags_cases rest t r :
  parse_tags rest = Some (t, r) → starts_byte " " rest = false → starts_byte " " r = false.
Proof.
  unfold parse_tags. intros H Hs.
  repeat case_match; simplify_eq; auto using trim_start_starts.
Qed.

(** A parsed message can be printed, up to a command that starts with [@]. *)
Lemma parse_gives_printable line m :
  parse line = Some m →
  (source m = None → starts_byte "@" (command m) = false) → printable m.
Proof.
  unfold parse. intros H Hat.
  destruct (parse_tags _) as [[t rest]|] eqn:Et; [|done].
  apply parse_tags_cases in Et; [|apply trim_start_starts].
  destruct (parse_source rest) as [[so r]|] eqn:Es; [|done].
  apply parse_source_cases in Es as [Hr Hso]; [|done].
  assert (∃ cmd ps, source m = so ∧ command m = to_ascii_uppercase cmd ∧ params m = ps ∧
    cmd ≠ "" ∧ contains_byte " " cmd = false ∧ wire_ok ps ∧
    (∀ x, starts_byte x cmd = starts_byte x r)) as
    (cmd & ps & Hsm & Hcm & Hpm & Hne & Hsp & Hok & Hst).
  { destruct (split_once " " r) as [[c r']|] eqn:Ec.
    - destruct (is_empty c) eqn:Hc; simplify_eq. cbn.
      apply split_once_Some in Ec as [-> Hc']. apply is_empty_false in Hc.
      eexists _, _. split_and!; try done.
      { apply params_loop_ok, trim_start_starts. } intros. by rewrite starts_app.
    - destruct (is_empty r) eqn:Hc; simplify_eq. cbn. apply is_empty_false in Hc.
      apply split_once_None in Ec. eexists _, _. split_and!; done. }
  split_and!.
  - rewrite Hcm. by apply upper_nonempty.
  - by rewrite Hcm, contains_space_upper.
  - by rewrite Hcm, uppercase_idem.
  - by rewrite Hpm.
  - rewrite Hsm. destruct so as [src|]; [done|]. split; [|by apply Hat].
    by rewrite Hcm, starts_colon_upper, Hst.
Qed.

(** A line as the links write it: a source, a command, words, and a trailing
    parameter behind a colon. *)
Definition sourced_line (src cmd : string) (ws : list string) (t : string) : string :=
  ":" +:+ src +:+ " " +:+ cmd +:+ str_concat (map (λ w, " " +:+ w) ws) +:+ " :" +:+ t.

Lemma words_parse ws t :
  Forall middle_ok ws →
  ∃ r, str_concat (map (λ w, " " +:+ w) ws) +:+ " :" +:+ t = String " " r
       ∧ starts_byte " " r = false ∧ parse_params r = ws ++ [t].
Proof.
  induction 1 as [|w ws Hw _ (r & E & Hs & Hp)]; [by exists (":" +:+ t)|].
  exists (w +:+ String " " r). cbn [map str_concat]. rewrite str_app_assoc, E.
  split; [by rewrite str_app_assoc|]. pose proof Hw as (Hne & Hsp & _).
  split; [rewrite starts_app by done; by apply starts_no_space|].
  by rewrite parse_params_middle, trim_start_id, Hp by done.
Qed.

Lemma parse_sourced_line src cmd ws t :
  contains_byte " " src = false → cmd ≠ "" → contains_byte " " cmd = false → Forall middle_ok ws →
  parse (sourced_line src cmd ws t)
  = Some (mkMessage (Some src) (to_ascii_uppercase cmd) (ws ++ [t]) "" None None false).
Proof.
  intros Hs Hne Hc Hw. unfold sourced_line. destruct (words_parse ws t Hw) as (r & -> & Hr & Hp).
  unfold parse. rewrite trim_start_id by done.
  change (parse_tags (":" +:+ ?x)) with (Some (no_tags, ":" +:+ x)). cbv iota.
  change (":" +:+ src +:+ " " +:+ cmd +:+ String " " r) with (String ":" (src +:+ String " " (cmd +:+ String " " r))).
  unfold parse_source. rewrite strip_prefix_chr, bool_decide_true, split_once_app by done.
  rewrite trim_start_id by (rewrite starts_app by done; by apply starts_no_space).
  rewrite split_once_app by done. by rewrite (proj2 (is_empty_false _) Hne), trim_start_id, Hp.
Qed.
End message_lemmas.

(** C39: Serialising a parsed line and parsing it again gives the same message without its
    tags, for every line whose command does not begin with [@] when it has no source. *)
Theorem parse_to_wire_roundtrip line m :
  parse line = Some m →
  (source m = None → starts_byte "@" (command m) = false) →
  parse (to_wire m) = Some (without_tags m).
Proof. intros. eapply parse_printable, parse_gives_printable; eauto. Qed.

Lemma parse_to_wire_roundtrip_witness :
  parse (to_wire (mkMessage (Some "nick!u@h") "PRIVMSG" ["x"; "hola que tal"] "" None None false))
  = Some (mkMessage (Some "nick!u@h") "PRIVMSG" ["x"; "hola que tal"] "" None None false).
Proof.
  apply (parse_to_wire_roundtrip ":nick!u@h privmsg x :hola que tal"); [reflexivity|done].
Defined.

(** There is a line whose parse, serialised, no longer parses: a tag block followed by a
    command that begins with [@]. *)
Theorem parse_roundtrip_fails_on_at_command :
  ∃ line m, parse line = Some m ∧ command m = "@B" ∧ parse (to_wire m) = None.
Proof. by eexists "@a @b", _. Qed.
