(* ===== verification/Glob.v ===== *)
(** * Mask matching: [glob_match], [normalize_mask] of [src/src/channels.rs]

    The greedy, index-based matcher behind every ban, exception, x-line and
    filter, against the usual recursive meaning of [*] and [?]; and the
    normalisation of ban masks. *)

From Stdlib Require Import Ascii.
From S2P Require Import Prelude RustStr.

Local Open Scope stdpp_scope.

(** ** The greedy loop

    The source has it twice, over bytes and over characters; the two differ
    only in the comparison of a pattern element with a subject element. *)
Section greedy.
Context {A : Type} (is_q is_star : A → bool) (same : A → A → bool).

(** [while pi < p.len() && p[pi] == '*' { pi += 1 }], then [pi == p.len()]. *)
Definition glob_tail (p : list A) (pi : nat) : bool := forallb is_star (drop pi p).

Definition p_at (test : A → bool) (p : list A) (pi : nat) : bool :=
  map_or false test (p !! pi).

(** One turn per unit of fuel; [None] only when the fuel runs out. *)
Fixpoint glob_loop (fuel : nat) (p t : list A) (pi ti : nat) (star : option nat) (mark : nat)
    : option bool :=
  match fuel with
  | O => None
  | S fuel' =>
      match t !! ti with
      | None => Some (glob_tail p pi)
      | Some x =>
          if p_at (λ c, is_q c || same c x) p pi then
            glob_loop fuel' p t (S pi) (S ti) star mark
          else if p_at is_star p pi then
            glob_loop fuel' p t (S pi) ti (Some pi) ti
          else match star with
          | Some sp => glob_loop fuel' p t (S sp) (S mark) star (S mark)
          | None => Some false
          end
      end
  end.

Definition glob_fuel (p t : list A) : nat := (S (length t)) * (S (length p)) + 1.

Definition glob_run (p t : list A) : bool :=
  default false (glob_loop (glob_fuel p t) p t 0 0 None 0).

(** ** What a mask means *)
Fixpoint star_any (rest : list A → bool) (t : list A) : bool :=
  rest t || match t with [] => false | _ :: t' => star_any rest t' end.

Fixpoint glob_spec (p t : list A) : bool :=
  match p with
  | [] => match t with [] => true | _ => false end
  | c :: p' =>
      if is_star c then star_any (glob_spec p') t
      else match t with
           | [] => false
           | x :: t' => (is_q c || same c x) && glob_spec p' t'
           end
  end.

Lemma star_any_Some rest t : star_any rest t = true ↔ ∃ k, k ≤ length t ∧ rest (drop k t) = true.
Proof.
  induction t as [|x t IH]; cbn.
  - rewrite orb_false_r. split; [by exists 0|]. intros ([|k] & ? & ?); done.
  - rewrite orb_true_iff, IH. split.
    + intros [?|(k & ? & ?)]; [by exists 0; split; [lia|]|exists (S k); split; [lia|done]].
    + intros ([|k] & ? & ?); [by left|right]. exists k. split; [lia|done].
Qed.

(** [M p t i j]: the rest of the mask from [i] matches the rest of the subject
    from [j]. *)
Definition M (p t : list A) (i j : nat) : bool := glob_spec (drop i p) (drop j t).

Lemma M_nil p t i j : p !! i = None → j ≤ length t → M p t i j = bool_decide (j = length t).
Proof.
  intros Hi Hj. apply lookup_ge_None in Hi. unfold M. rewrite drop_ge by done. cbn.
  destruct (drop j t) as [|x l] eqn:E; case_bool_decide as Hd; try done.
  - apply (f_equal length) in E. rewrite length_drop in E. cbn in E. lia.
  - subst j. by rewrite drop_all in E.
Qed.

Lemma drop_lookup_S {B} (l : list B) i c : l !! i = Some c → drop i l = c :: drop (S i) l.
Proof. intros. by apply drop_S. Qed.

Lemma M_star p t i j c :
  p !! i = Some c → is_star c = true → M p t i j = star_any (glob_spec (drop (S i) p)) (drop j t).
Proof. intros Hc Hs. unfold M. by rewrite (drop_lookup_S p i c Hc); cbn; rewrite Hs. Qed.

Lemma M_star_iff p t i j c :
  p !! i = Some c → is_star c = true → j ≤ length t →
  M p t i j = true ↔ ∃ k, j ≤ k ≤ length t ∧ M p t (S i) k = true.
Proof.
  intros Hc Hs Hj. rewrite (M_star _ _ _ _ c), star_any_Some by done.
  rewrite length_drop. setoid_rewrite drop_drop. split.
  - intros (k & ? & ?). exists (j + k). split; [lia|done].
  - intros (k & ? & ?). exists (k - j). split; [lia|]. by replace (j + (k - j)) with k by lia.
Qed.

Lemma M_plain p t i j c x :
  p !! i = Some c → is_star c = false → t !! j = Some x →
  M p t i j = (is_q c || same c x) && M p t (S i) (S j).
Proof.
  intros Hc Hs Hx. unfold M.
  rewrite (drop_lookup_S p i c Hc), (drop_lookup_S t j x Hx). cbn. by rewrite Hs.
Qed.

Lemma M_plain_end p t i j c :
  p !! i = Some c → is_star c = false → t !! j = None → M p t i j = false.
Proof.
  intros Hc Hs Hx%lookup_ge_None. unfold M.
  rewrite (drop_lookup_S p i c Hc), (drop_ge t j) by done. cbn. by rewrite Hs.
Qed.

Lemma tail_M p t i j : t !! j = None → glob_tail p i = M p t i j.
Proof.
  intros Hj%lookup_ge_None. unfold M, glob_tail. rewrite (drop_ge t) by done.
  induction (drop i p) as [|c l IH]; cbn; [done|].
  destruct (is_star c); cbn; [|done]. by rewrite orb_false_r.
Qed.

(** A stretch of mask without [*] consumes exactly its length of subject. *)
Definition plain_seg (p : list A) (lo hi : nat) : Prop :=
  ∀ i c, lo ≤ i < hi → p !! i = Some c → is_star c = false.

Lemma M_seg p t lo hi j :
  plain_seg p lo hi → lo ≤ hi ≤ length p → M p t lo j = true →
  j + (hi - lo) ≤ length t `max` j ∧ M p t hi (j + (hi - lo)) = true ∧
  (lo < hi → j + (hi - lo) ≤ length t).
Proof.
  intros Hseg Hle. remember (hi - lo) as n eqn:Hn. revert lo j Hseg Hle Hn.
  induction n as [|n IH]; intros lo j Hseg Hle Hn HM.
  { replace hi with lo by lia. rewrite Nat.add_0_r. split_and!; [lia|done|lia]. }
  destruct (lookup_lt_is_Some_2 p lo) as [c Hc]; [lia|].
  assert (is_star c = false) as Hs by (apply (Hseg lo); [lia|done]).
  destruct (t !! j) as [x|] eqn:Hx; [|by rewrite (M_plain_end _ _ _ _ c) in HM].
  rewrite (M_plain _ _ _ _ c x) in HM by done. apply andb_true_iff in HM as [_ HM].
  destruct (IH (S lo) (S j)) as (H1 & H2 & H3); [|lia|lia|done|].
  { intros i c' ??. apply (Hseg i); [lia|done]. }
  apply lookup_lt_Some in Hx.
  replace (j + S n) with (S j + n) by lia. split_and!; [lia|done|].
  intros _. destruct n; [lia|]. apply H3. lia.
Qed.

(** ** The loop invariant

    [star = Some sp] means the mask has a [*] at [sp], and everything since
    the [*] matched [t] from [mark] on, one element each. *)
Definition loop_inv (p t : list A) (pi ti : nat) (star : option nat) (mark : nat) : Prop :=
  pi ≤ length p ∧ ti ≤ length t ∧
  match star with
  | None => mark = 0
  | Some sp =>
      p_at is_star p sp = true ∧ sp < pi ∧ mark ≤ ti ∧ pi - S sp = ti - mark ∧
      plain_seg p (S sp) pi
  end.

(** What is still to be decided in a state. *)
Definition pending (p t : list A) (pi ti : nat) (star : option nat) (mark : nat) : bool :=
  M p t pi ti || match star with Some sp => bool_decide (mark < length t) && M p t sp (S mark)
                               | None => false end.

Definition measure (p t : list A) (pi mark : nat) : nat :=
  (length t - mark) * S (length p) + (length p - pi).

Context (star_not_q : ∀ c, is_star c = true → is_q c = false).

Lemma p_at_Some test p i : p_at test p i = true ↔ ∃ c, p !! i = Some c ∧ test c = true.
Proof. apply map_or_true. Qed.

(** If the last [*] is followed by plain text up to a second [*], extending
    the first one is no better than extending the second. *)
Lemma old_star_useless p t pi ti sp mark c :
  p_at is_star p sp = true → sp < pi → mark ≤ ti → pi - S sp = ti - mark →
  plain_seg p (S sp) pi → ti ≤ length t → mark < length t →
  p !! pi = Some c → is_star c = true → M p t sp (S mark) = true → M p t pi ti = true.
Proof.
  intros (c0 & Hc0 & Hs0)%p_at_Some Hsp Hmk Hlen Hseg Hti Hml Hc Hs HM.
  apply (M_star_iff _ _ _ _ c0) in HM as (k & Hk & HM); [|done|done|lia].
  apply lookup_lt_Some in Hc as Hpi.
  apply (M_seg _ _ _ pi) in HM as (H1 & H2 & H3); [|done|lia].
  apply (M_star_iff _ _ _ _ c) in H2 as (k' & Hk' & H2); [|done|done|lia].
  apply (M_star_iff _ _ _ _ c); [done|done|lia|]. exists k'. split; [lia|done].
Qed.

Lemma old_star_at_end p t pi ti sp mark :
  p_at is_star p sp = true → sp < pi ≤ length p → mark ≤ ti → pi - S sp = ti - mark →
  plain_seg p (S sp) pi → ti = length t → mark < length t → M p t sp (S mark) = false.
Proof.
  intros (c0 & Hc0 & Hs0)%p_at_Some Hsp Hmk Hlen Hseg -> Hml.
  apply not_true_iff_false. intros HM.
  apply (M_star_iff _ _ _ _ c0) in HM as (k & Hk & HM); [|done|done|lia].
  apply (M_seg _ _ _ pi) in HM as (H1 & H2 & H3); [|done|lia]. lia.
Qed.

Lemma glob_loop_spec p t :
  (∀ c x, x ∈ t → is_star c = true → same c x = false) →
  ∀ fuel pi ti star mark,
    loop_inv p t pi ti star mark → measure p t pi mark < fuel →
    glob_loop fuel p t pi ti star mark = Some (pending p t pi ti star mark).
Proof.
  intros Hlit. induction fuel as [|fuel IH]; intros pi ti star mark Hinv Hf; [lia|].
  destruct Hinv as (Hpi & Hti & Hst). cbn [glob_loop].
  destruct (t !! ti) as [x|] eqn:Hx.
  2:{ (* the subject is used up *)
    apply lookup_ge_None in Hx as Hx'. assert (ti = length t) as He by lia.
    unfold pending. rewrite <- (tail_M p t pi ti) by done. destruct star as [sp|].
    - destruct Hst as (H1 & H2 & H3 & H4 & H5). case_bool_decide; [|by rewrite orb_false_r].
      rewrite (old_star_at_end p t pi ti sp mark) by (done || lia). by rewrite orb_false_r.
    - by rewrite orb_false_r. }
  apply lookup_lt_Some in Hx as Hlt.
  destruct (p_at (λ c, is_q c || same c x) p pi) eqn:Hm.
  - (* one element matches *)
    apply p_at_Some in Hm as (c & Hc & Hm). apply lookup_lt_Some in Hc as Hcl.
    assert (is_star c = false) as Hns.
    { apply not_true_iff_false. intros Hs. rewrite star_not_q in Hm by done.
      cbn in Hm. rewrite Hlit in Hm; [done| |done]. by eapply list_elem_of_lookup_2. }
    rewrite IH.
    + unfold pending. by rewrite (M_plain p t pi ti c x), Hm by done.
    + split; [lia|]. split; [lia|]. destruct star as [sp|]; [|done].
      destruct Hst as (H1 & H2 & H3 & H4 & H5). split_and!; try done; try lia.
      intros i c' Hi Hc'. destruct (decide (i = pi)) as [->|]; [by simplify_eq|].
      apply (H5 i); [lia|done].
    + unfold measure in *. lia.
  - destruct (p_at is_star p pi) eqn:Hs.
    + (* a new star *)
      apply p_at_Some in Hs as Hs'. destruct Hs' as (c & Hc & Hcs).
      apply lookup_lt_Some in Hc as Hcl. rewrite IH.
      * f_equal. unfold pending. rewrite bool_decide_true by done. cbn [andb].
        assert (M p t pi ti = M p t (S pi) ti || M p t pi (S ti)) as <-.
        { rewrite !(M_star p t pi _ c) by done. unfold M.
          by rewrite (drop_lookup_S t ti x) by done. }
        destruct (M p t pi ti) eqn:HM; [done|]. destruct star as [sp|]; [|done].
        destruct Hst as (H1 & H2 & H3 & H4 & H5). case_bool_decide; [|done]. cbn. symmetry.
        apply not_true_iff_false. intros HM'.
        rewrite (old_star_useless p t pi ti sp mark c) in HM by done. done.
      * split; [lia|]. split; [lia|]. split_and!; [done|lia|lia|lia|].
        intros i c' ??. lia.
      * unfold measure in *. destruct star as [sp|]; [|subst mark].
        -- destruct Hst as (_ & _ & ? & _). nia.
        -- nia.
    + (* mismatch *)
      assert (M p t pi ti = false) as HMf.
      { destruct (p !! pi) as [c|] eqn:Hc.
        - assert (is_star c = false) by (unfold p_at in Hs; by rewrite Hc in Hs).
          rewrite (M_plain p t pi ti c x) by done.
          unfold p_at in Hm. rewrite Hc in Hm. cbn in Hm. by rewrite Hm.
        - rewrite M_nil by done. apply bool_decide_eq_false. lia. }
      unfold pending. rewrite HMf. destruct star as [sp|]; [|done].
      destruct Hst as (H1 & H2 & H3 & H4 & H5). apply p_at_Some in H1 as H1'.
      destruct H1' as (c & Hc & Hcs). rewrite bool_decide_true by lia. rewrite IH.
      * f_equal. unfold pending. cbn [orb andb].
        rewrite (M_star p t sp (S mark) c) by done.
        case_bool_decide as Hlt2.
        -- destruct (lookup_lt_is_Some_2 t (S mark)) as [y Hy]; [lia|].
           rewrite (drop_lookup_S t (S mark) y) by done. cbn.
           rewrite (M_star p t sp (S (S mark)) c) by done.
           unfold M. by rewrite (drop_lookup_S t (S mark) y) by done.
        -- unfold M. rewrite (drop_ge t (S mark)) by lia. cbn. by rewrite !orb_false_r.
      * split; [lia|]. split; [lia|]. split_and!; try done; try lia. intros i c' ??. lia.
      * unfold measure in *. nia.
Qed.

Lemma glob_run_spec p t :
  (∀ c x, x ∈ t → is_star c = true → same c x = false) → glob_run p t = glob_spec p t.
Proof.
  intros Hlit. unfold glob_run. rewrite glob_loop_spec; [|done| |].
  - cbn. unfold pending, M. by rewrite !drop_0, orb_false_r.
  - split; [lia|]. split; [lia|done].
  - unfold measure, glob_fuel. lia.
Qed.

(** Without the assumption on the subject the loop still ends in time. *)
Lemma glob_loop_total p t fuel pi ti star mark :
  pi ≤ length p → mark ≤ ti ≤ length t →
  (∀ sp, star = Some sp → sp < length p) →
  measure p t pi mark < fuel → is_Some (glob_loop fuel p t pi ti star mark).
Proof.
  revert pi ti star mark. induction fuel as [|fuel IH]; intros pi ti star mark Hpi Hti Hsp Hf;
    [lia|]. cbn [glob_loop].
  destruct (t !! ti) as [x|] eqn:Hx; [|by eexists].
  apply lookup_lt_Some in Hx as Hlt.
  destruct (p_at (λ c, is_q c || same c x) p pi) eqn:Hm.
  { apply p_at_Some in Hm as (c & Hc%lookup_lt_Some & _).
    apply IH; unfold measure in *; try done; nia. }
  destruct (p_at is_star p pi) eqn:Hs.
  { apply p_at_Some in Hs as (c & Hc%lookup_lt_Some & _).
    apply IH; unfold measure in *; [lia|lia| |nia]. by intros ? [= <-]. }
  destruct star as [sp|]; [|by eexists].
  specialize (Hsp sp eq_refl). apply IH; unfold measure in *; [lia|lia| |nia].
  by intros ? [= <-].
Qed.

(** Whatever the subject, an accepted subject is one the mask means. *)
Definition may_match (p t : list A) (pi ti : nat) (star : option nat) (mark : nat) : Prop :=
  M p t pi ti = true ∨
  ∃ sp k, star = Some sp ∧ mark < k ≤ length t ∧ M p t (S sp) k = true.

Lemma M_star_skip p t i j k c :
  p !! i = Some c → is_star c = true → j ≤ k ≤ length t → M p t (S i) k = true → M p t i j = true.
Proof. intros ?? [??] ?. apply (M_star_iff _ _ _ _ c); [done|done|lia|]. by exists k. Qed.

Lemma glob_loop_sound p t fuel pi ti star mark :
  mark ≤ ti ≤ length t → glob_loop fuel p t pi ti star mark = Some true →
  may_match p t pi ti star mark.
Proof.
  revert pi ti star mark. induction fuel as [|fuel IH]; intros pi ti star mark Hti; [done|].
  cbn [glob_loop]. destruct (t !! ti) as [x|] eqn:Hx.
  2:{ intros [= H]. left. by rewrite <- (tail_M p t pi ti). }
  apply lookup_lt_Some in Hx as Hlt.
  destruct (p_at (λ c, is_q c || same c x) p pi) eqn:Hm.
  { apply p_at_Some in Hm as (c & Hc & Hm). intros [H|H]%IH; [|by right|lia]. left.
    destruct (is_star c) eqn:Hs; [apply (M_star_skip _ _ _ _ (S ti) c); auto with lia|].
    by rewrite (M_plain p t pi ti c x), Hm, H by done. }
  destruct (p_at is_star p pi) eqn:Hs.
  { apply p_at_Some in Hs as (c & Hc & Hs). intros H%IH; [|lia]. left.
    destruct H as [H|(sp & k & [= <-] & Hk & H)];
      [apply (M_star_skip _ _ _ _ ti c)|apply (M_star_skip _ _ _ _ k c)]; auto with lia. }
  destruct star as [sp|]; [|done]. intros H%IH; [|lia]. right.
  destruct H as [H|(sp' & k & [= <-] & Hk & H)].
  - exists sp, (S mark). split_and!; [done|lia|lia|done].
  - exists sp, k. split_and!; [done|lia|lia|done].
Qed.

Lemma glob_run_sound p t : glob_run p t = true → glob_spec p t = true.
Proof.
  unfold glob_run. destruct (glob_loop _ _ _ _ _ _ _) as [[]|] eqn:E; try done. intros _.
  apply glob_loop_sound in E as [H|(sp & k & ? & _)]; [|done|lia].
  unfold M in H. by rewrite !drop_0 in H.
Qed.

Lemma glob_run_total p t : is_Some (glob_loop (glob_fuel p t) p t 0 0 None 0).
Proof. apply glob_loop_total; try done; unfold measure, glob_fuel; lia. Qed.
End greedy.

(** Two runs agree when their elements correspond. *)
Lemma glob_loop_map {A B} (f : A → B) q1 s1 e1 q2 s2 e2 fuel p t :
  (∀ c, c ∈ p → q2 (f c) = q1 c ∧ s2 (f c) = s1 c) →
  (∀ c x, c ∈ p → x ∈ t → e2 (f c) (f x) = e1 c x) →
  ∀ pi ti star mark,
    glob_loop q2 s2 e2 fuel (map f p) (map f t) pi ti star mark
    = glob_loop q1 s1 e1 fuel p t pi ti star mark.
Proof.
  intros Hc He. induction fuel as [|fuel IH]; intros pi ti star mark; [done|]. cbn.
  change (map f t) with (f <$> t). change (map f p) with (f <$> p). rewrite !list_lookup_fmap.
  destruct (t !! ti) as [x|] eqn:Hx; cbn.
  - apply list_elem_of_lookup_2 in Hx. unfold p_at. rewrite list_lookup_fmap.
    destruct (p !! pi) as [c|] eqn:Hp; cbn; [|destruct star; [apply IH|done]].
    apply list_elem_of_lookup_2 in Hp. destruct (Hc c Hp) as [-> ->]. rewrite He by done.
    destruct (q1 c || e1 c x); [apply IH|]. destruct (s1 c); [apply IH|].
    destruct star; [apply IH|done].
  - f_equal. unfold glob_tail. rewrite <- fmap_drop.
    assert (∀ c, c ∈ drop pi p → s2 (f c) = s1 c) as H.
    { intros c Hin. apply Hc. rewrite <- (take_drop pi p). set_solver. }
    induction (drop pi p) as [|c l IHl]; cbn; [done|].
    rewrite H by set_solver. f_equal. apply IHl. set_solver.
Qed.

Lemma glob_run_map {A B} (f : A → B) q1 s1 e1 q2 s2 e2 p t :
  (∀ c, c ∈ p → q2 (f c) = q1 c ∧ s2 (f c) = s1 c) →
  (∀ c x, c ∈ p → x ∈ t → e2 (f c) (f x) = e1 c x) →
  glob_run q2 s2 e2 (map f p) (map f t) = glob_run q1 s1 e1 p t.
Proof.
  intros. unfold glob_run, glob_fuel. rewrite !length_map.
  by erewrite glob_loop_map.
Qed.

(** ** The two instances *)

Definition byte_q (b : ascii) : bool := bool_decide (b = "?"%char).
Definition byte_star (b : ascii) : bool := bool_decide (b = "*"%char).
Definition char_q (c : string) : bool := bool_decide (c = "?").
Definition char_star (c : string) : bool := bool_decide (c = "*").
Definition char_same (c x : string) : bool := bool_decide (c = x).

Definition glob_bytes (p t : list ascii) : bool := glob_run byte_q byte_star byte_eq_ignore_case p t.
Definition glob_chars (p t : list string) : bool := glob_run char_q char_star char_same p t.

(** [str::to_lowercase] is the Unicode case mapping of the standard library;
    of its table only the ASCII part matters to the statements below. *)
Class UnicodeLower := {
  to_lowercase : string → string;
  to_lowercase_ascii : ∀ s, is_ascii s = true → to_lowercase s = to_ascii_lowercase s;
}.

(** The case mapping that knows ASCII only. *)
Definition ascii_only : UnicodeLower :=
  {| to_lowercase := to_ascii_lowercase; to_lowercase_ascii := λ s _, eq_refl |}.

Definition glob_match `{UnicodeLower} (pat s : string) : bool :=
  if is_ascii pat && is_ascii s then glob_bytes (as_bytes pat) (as_bytes s)
  else glob_chars (chars (to_lowercase pat)) (chars (to_lowercase s)).

(** [normalize_mask] and [normalize_ban_mask]. *)
Definition normalize_mask (m : string) : string :=
  match contains_byte "!" m, contains_byte "@" m with
  | true, true => m
  | false, true => "*!" +:+ m
  | true, false => m +:+ "@*"
  | false, false => m +:+ "!*@*"
  end.

(** The letters whose value is a name, a channel or a number, not a mask. *)
Definition verbatim_ext (b : ascii) : bool :=
  existsb (λ c, bool_decide (b = c)) ["a"; "g"; "y"; "r"; "j"; "s"; "G"; "b"; "C"]%char.

Definition normalize_ban_mask (m : string) : string :=
  match m with
  | String b0 (String b1 rest) =>
      if bool_decide (b1 = ":"%char) && is_alphabetic b0 then
        if verbatim_ext b0 then m
        else chr b0 +:+ ":" +:+ normalize_mask rest
      else normalize_mask m
  | _ => normalize_mask m
  end.

(** ** Lemmas *)

Lemma byte_star_not_q c : byte_star c = true → byte_q c = false.
Proof. unfold byte_star, byte_q. rewrite bool_decide_eq_true. by intros ->. Qed.

Lemma char_star_not_q c : char_star c = true → char_q c = false.
Proof. unfold char_star, char_q. rewrite bool_decide_eq_true. by intros ->. Qed.

Lemma star_same_star x : byte_eq_ignore_case "*" x = bool_decide (x = "*"%char).
Proof. by_bytes (byte_eq_ignore_case "*") (λ x, bool_decide (x = "*"%char)). Qed.

Lemma elem_of_as_bytes c s : c ∈ as_bytes s ↔ contains_byte c s = true.
Proof.
  induction s as [|b s IH]; cbn; [set_solver|].
  rewrite elem_of_cons, orb_true_iff, bool_decide_eq_true, IH. naive_solver.
Qed.

Lemma as_bytes_map f s : as_bytes (str_map f s) = map f (as_bytes s).
Proof. induction s as [|b s IH]; cbn; [done|]. by rewrite IH. Qed.

Lemma lower_ascii b : is_ascii_byte (lower_byte b) = is_ascii_byte b.
Proof. by_bytes (λ b, is_ascii_byte (lower_byte b)) is_ascii_byte. Qed.

Lemma is_ascii_lower s : is_ascii (to_ascii_lowercase s) = is_ascii s.
Proof.
  unfold is_ascii, to_ascii_lowercase.
  induction s as [|b s IH]; cbn; [done|]. by rewrite lower_ascii, IH.
Qed.

Lemma contains_app_r c s : contains_byte c (s +:+ chr c) = true.
Proof. rewrite contains_byte_app. cbn. by rewrite bool_decide_true, orb_true_r. Qed.

Lemma normalize_mask_full m :
  contains_byte "!" (normalize_mask m) = true ∧ contains_byte "@" (normalize_mask m) = true.
Proof.
  unfold normalize_mask.
  destruct (contains_byte "!" m) eqn:E1, (contains_byte "@" m) eqn:E2;
    rewrite ?contains_byte_app, ?E1, ?E2; done.
Qed.

Lemma normalize_mask_id m :
  contains_byte "!" m = true → contains_byte "@" m = true → normalize_mask m = m.
Proof. unfold normalize_mask. by intros -> ->. Qed.

(** Is the mask of the extended form [letter:value]? *)
Definition is_extban (m : string) : bool :=
  match m with
  | String b0 (String b1 _) => bool_decide (b1 = ":"%char) && is_alphabetic b0
  | _ => false
  end.

Lemma normalize_ban_plain m : is_extban m = false → normalize_ban_mask m = normalize_mask m.
Proof. destruct m as [|b0 [|b1 m]]; try done. cbn. by intros ->. Qed.

Lemma normalize_mask_plain m : is_extban m = false → is_extban (normalize_mask m) = false.
Proof.
  unfold normalize_mask.
  destruct (contains_byte "!" m) eqn:E1, (contains_byte "@" m) eqn:E2; try done.
  all: by destruct m as [|b0 [|b1 m]].
Qed.

(** ** Properties *)

(** C40: The greedy glob loop decides exactly the declarative meaning of the mask ([*] any
    run, [?] one character, ASCII case ignored) for every subject without a literal
    asterisk. *)
Theorem glob_bytes_correct (p t : string) :
  contains_byte "*" t = false →
  glob_bytes (as_bytes p) (as_bytes t) =
  glob_spec byte_q byte_star byte_eq_ignore_case (as_bytes p) (as_bytes t).
Proof.
  intros Ht. apply glob_run_spec; [apply byte_star_not_q|].
  intros c x Hx Hc. apply bool_decide_eq_true in Hc as ->. rewrite star_same_star.
  apply bool_decide_eq_false. intros ->. apply elem_of_as_bytes in Hx. congruence.
Qed.

Lemma glob_bytes_correct_witness :
  contains_byte "*" "bob!user@a.b.EXAMPLE.com" = false ∧
  glob_bytes (as_bytes "*!*@*.example.com") (as_bytes "bob!user@a.b.EXAMPLE.com") = true.
Proof.
  split; [reflexivity|].
  rewrite (glob_bytes_correct "*!*@*.example.com" "bob!user@a.b.EXAMPLE.com" eq_refl).
  vm_compute. reflexivity.
Defined.

(** The glob loop returns within its fuel on every mask and subject, and whatever it accepts
    the mask means. *)
Theorem glob_bytes_sound (p t : list ascii) :
  is_Some (glob_loop byte_q byte_star byte_eq_ignore_case (glob_fuel p t) p t 0 0 None 0) ∧
  (glob_bytes p t = true → glob_spec byte_q byte_star byte_eq_ignore_case p t = true).
Proof. split; [apply glob_run_total|apply glob_run_sound]. Qed.

(** A subject that contains an asterisk can escape a mask that means to cover it: [*spam*]
    does not match [*-spam]. *)
Theorem glob_star_evasion `{UnicodeLower} :
  glob_match "*spam*" "*-spam" = false ∧
  glob_spec byte_q byte_star byte_eq_ignore_case (as_bytes "*spam*") (as_bytes "*-spam") = true.
Proof. by vm_compute. Qed.

(** On ASCII operands the allocation-free byte path and the Unicode character path of the
    mask matcher agree. *)
Theorem glob_fastpath_agrees `{UnicodeLower} (pat s : string) :
  is_ascii pat = true → is_ascii s = true →
  glob_match pat s = glob_chars (chars (to_lowercase pat)) (chars (to_lowercase s)).
Proof.
  intros Hp Hs. unfold glob_match. rewrite Hp, Hs. cbn.
  rewrite !to_lowercase_ascii, !chars_ascii by (by rewrite ?is_ascii_lower).
  unfold to_ascii_lowercase. rewrite !as_bytes_map, !map_map. symmetry. apply glob_run_map.
  - intros c _. split.
    + by_bytes (λ c, char_q (chr (lower_byte c))) byte_q.
    + by_bytes (λ c, char_star (chr (lower_byte c))) byte_star.
  - intros c x _ _. unfold char_same, byte_eq_ignore_case, chr.
    apply bool_decide_ext. split; [by intros [= ->]|by intros ->].
Qed.

Lemma glob_fastpath_agrees_witness :
  @glob_match ascii_only "A*Z" "aXXXz" =
  glob_chars (chars "a*z") (chars "axxxz") ∧ @glob_match ascii_only "A*Z" "aXXXz" = true.
Proof.
  split; [|vm_compute; reflexivity].
  exact (@glob_fastpath_agrees ascii_only "A*Z" "aXXXz" eq_refl eq_refl).
Defined.

(** Normalising a ban mask twice is normalising it once, and a mask that is not an extban
    always comes out with both a [!] and an [@]. *)
Theorem normalize_ban_mask_idempotent (m : string) :
  normalize_ban_mask (normalize_ban_mask m) = normalize_ban_mask m ∧
  (is_extban m = false →
   contains_byte "!" (normalize_ban_mask m) = true ∧
   contains_byte "@" (normalize_ban_mask m) = true).
Proof.
  split.
  2:{ intros H. rewrite normalize_ban_plain by done. apply normalize_mask_full. }
  destruct (is_extban m) eqn:E.
  - destruct m as [|b0 [|b1 m]]; try done. cbn in E. apply andb_true_iff in E as [E1 E2].
    unfold normalize_ban_mask. rewrite E1, E2. cbn [andb].
    destruct (verbatim_ext b0) eqn:Ev; [by rewrite E1, E2, Ev|].
    change (chr b0 +:+ ":" +:+ normalize_mask m)
      with (String b0 (String ":" (normalize_mask m))).
    destruct (normalize_mask_full m) as [Hb Ha].
    rewrite (normalize_mask_id (normalize_mask m)) by done.
    change (bool_decide (":"%char = ":"%char)) with true. cbn [andb]. by rewrite E2, Ev.
  - rewrite !(normalize_ban_plain m) by done.
    rewrite normalize_ban_plain by (by apply normalize_mask_plain).
    destruct (normalize_mask_full m). by rewrite normalize_mask_id.
Qed.
