(* ===== verification/Clock.v ===== *)
(** * Calendar time: [civil], [iso_time], [long_date], [parse_iso] of
    [src/src/server.rs]

    Unix seconds are a [u64] in the source; the calendar arithmetic is done in
    [i64], modelled by [Z]. *)

From Stdlib Require Import Ascii ZArith DecimalString DecimalN.
From S2P Require Import Prelude RustStr.

Local Open Scope Z_scope.
Local Open Scope stdpp_scope.

Definition i64_min : Z := -9223372036854775808.
Definition i64_max : Z := 9223372036854775807.

(** Division of [i64] truncates towards zero. *)
Infix "/i" := Z.quot (at level 40, left associativity) : Z_scope.

(** The date of a day number counted from 0000-03-01, as [(year, month, day)]. *)
Definition civil_date (z : Z) : Z * Z * Z :=
  let era := (if 0 <=? z then z else z - 146096) /i 146097 in
  let doe := z - era * 146097 in
  let yoe := (doe - doe /i 1460 + doe /i 36524 - doe /i 146096) /i 365 in
  let y := yoe + era * 400 in
  let doy := doe - (365 * yoe + yoe /i 4 - yoe /i 100) in
  let mp := (5 * doy + 2) /i 153 in
  let d := doy - (153 * mp + 2) /i 5 + 1 in
  let m := if mp <? 10 then mp + 3 else mp - 9 in
  let y := if m <=? 2 then y + 1 else y in
  (y, m, d).

(** [civil]: year, month, day, hour, minute, second. *)
Definition civil (secs : N) : Z * Z * Z * N * N * N :=
  let days := Z.of_N (secs / 86400) in
  let '(y, m, d) := civil_date (days + 719468) in
  (y, m, d, ((secs mod 86400) / 3600)%N, ((secs mod 3600) / 60)%N, (secs mod 60)%N).

(** [format!("{n:0w$}")] of a number that is not negative. *)
Definition zero_pad (w : nat) (s : string) : string :=
  str_concat (replicate (w - str_len s) "0") +:+ s.
Definition pad_N (w : nat) (n : N) : string := zero_pad w (to_string n).
Definition pad_Z (w : nat) (n : Z) : string := pad_N w (Z.to_N n).

Definition iso_time (secs : N) : string :=
  let '(y, m, d, h, mi, s) := civil secs in
  pad_Z 4 y +:+ "-" +:+ pad_Z 2 m +:+ "-" +:+ pad_Z 2 d +:+ "T" +:+
  pad_N 2 h +:+ ":" +:+ pad_N 2 mi +:+ ":" +:+ pad_N 2 s +:+ ".000Z".

Definition WD : list string := ["Sun"; "Mon"; "Tue"; "Wed"; "Thu"; "Fri"; "Sat"].
Definition MO : list string :=
  ["Jan"; "Feb"; "Mar"; "Apr"; "May"; "Jun"; "Jul"; "Aug"; "Sep"; "Oct"; "Nov"; "Dec"].

Definition long_date (secs : N) : string :=
  let '(y, m, d, h, mi, s) := civil secs in
  let wd := ((secs / 86400 + 4) mod 7)%N in
  default "" (WD !! N.to_nat wd) +:+ " " +:+ pad_Z 2 d +:+ " " +:+
  default "" (MO !! Z.to_nat (m - 1)) +:+ " " +:+ pad_Z 4 y +:+ " " +:+
  pad_N 2 h +:+ ":" +:+ pad_N 2 mi +:+ ":" +:+ pad_N 2 s.

(** [s.parse::<i64>()]. *)
Definition digits_value (d : string) : option N :=
  if is_empty d then None
  else match NilEmpty.uint_of_string d with Some u => Some (N.of_uint u) | None => None end.

Definition parse_i64 (s : string) : option Z :=
  let neg := starts_with "-" s in
  let d := if neg || starts_with "+" s then str_drop 1 s else s in
  match digits_value d with
  | Some n =>
      let z := if neg then - Z.of_N n else Z.of_N n in
      if (i64_min <=? z) && (z <=? i64_max) then Some z else None
  | None => None
  end.

(** [s.trim_end_matches(c)]. *)
Fixpoint trim_end_matches (c : ascii) (s : string) : string :=
  match s with
  | "" => ""
  | String b r =>
      let r' := trim_end_matches c r in
      if bool_decide (b = c) && is_empty r' then "" else String b r'
  end.

Definition in_range (lo hi x : Z) : bool := (lo <=? x) && (x <=? hi).

(** The civil date back to a day number counted from 1970-01-01. *)
Definition days_from_civil (y mo da : Z) : Z :=
  let yy := y - (if mo <=? 2 then 1 else 0) in
  let era := (if 0 <=? yy then yy else yy - 399) /i 400 in
  let yoe := yy - era * 400 in
  let mp := if 2 <? mo then mo - 3 else mo + 9 in
  let doy := (153 * mp + 2) /i 5 + da - 1 in
  let doe := yoe * 365 + yoe /i 4 - yoe /i 100 + doy in
  era * 146097 + doe - 719468.

Definition parse_iso_fields (y mo da h mi se : Z) : option N :=
  if negb (in_range 0 9999 y) || negb (in_range 1 12 mo) || negb (in_range 1 31 da)
     || negb (in_range 0 23 h) || negb (in_range 0 59 mi) || negb (in_range 0 60 se)
  then None
  else Some (Z.to_N (Z.max (days_from_civil y mo da * 86400 + h * 3600 + mi * 60 + se) 0)).

Definition parse_iso (s : string) : option N :=
  match split_once "T" s with
  | None => None
  | Some (date, time) =>
      let d := split "-" date in
      let time := default "" (head (split "." (trim_end_matches "Z" time))) in
      let t := split ":" time in
      y ← d !! 0%nat ≫= parse_i64; mo ← d !! 1%nat ≫= parse_i64; da ← d !! 2%nat ≫= parse_i64;
      h ← t !! 0%nat ≫= parse_i64; mi ← t !! 1%nat ≫= parse_i64;
      se ← parse_i64 (default "0" (t !! 2%nat));
      parse_iso_fields y mo da h mi se
  end.

(** ** The calendar arithmetic *)

Ltac div_lia := Z.to_euclidean_division_equations; lia.

(** Year of era and day of year for a day of a 400-year era. *)
Lemma yoe_bounds doe :
  0 <= doe < 146097 →
  let yoe := (doe - doe /i 1460 + doe /i 36524 - doe /i 146096) /i 365 in
  0 <= yoe < 400 ∧ 0 <= doe - (365 * yoe + yoe /i 4 - yoe /i 100) <= 365.
Proof. intros H yoe. subst yoe. div_lia. Qed.

(** Month (counted from March) and day for a day of the year. *)
Lemma month_bounds doy :
  0 <= doy <= 365 →
  let mp := (5 * doy + 2) /i 153 in
  0 <= mp <= 11 ∧ 1 <= doy - (153 * mp + 2) /i 5 + 1 <= 31.
Proof. intros H mp. subst mp. div_lia. Qed.

Lemma era_split z : 0 <= z → let era := z /i 146097 in 0 <= z - era * 146097 < 146097 ∧ 0 <= era.
Proof. intros H era. subst era. div_lia. Qed.

Lemma era_of_year yoe era : 0 <= yoe < 400 → 0 <= era → (yoe + era * 400) /i 400 = era.
Proof. intros. div_lia. Qed.

(** [civil_date] and [days_from_civil] are inverse. *)
Lemma days_from_civil_date z y m d :
  0 <= z → civil_date z = (y, m, d) →
  days_from_civil y m d = z - 719468 ∧ 1 <= m <= 12 ∧ 1 <= d <= 31 ∧ 0 <= y.
Proof.
  intros Hz. unfold civil_date. rewrite (proj2 (Z.leb_le 0 z) Hz).
  destruct (era_split z Hz) as [Hdoe Hera].
  set (era := z /i 146097) in *. set (doe := z - era * 146097) in *.
  destruct (yoe_bounds doe Hdoe) as [Hyoe Hdoy].
  set (yoe := (doe - _ + _ - _) /i 365) in *.
  set (doy := doe - (365 * yoe + yoe /i 4 - yoe /i 100)) in *.
  destruct (month_bounds doy Hdoy) as [Hmp Hd].
  set (mp := (5 * doy + 2) /i 153) in *.
  intros [= <- <- <-]. unfold days_from_civil.
  pose proof (era_of_year yoe era Hyoe Hera) as Hey.
  destruct (Z.ltb_spec mp 10) as [Hm|Hm].
  - rewrite (proj2 (Z.leb_gt (mp + 3) 2)) by lia.
    rewrite (proj2 (Z.ltb_lt 2 (mp + 3))) by lia.
    replace (yoe + era * 400 - 0) with (yoe + era * 400) by lia.
    rewrite (proj2 (Z.leb_le 0 (yoe + era * 400))), Hey by lia.
    replace (mp + 3 - 3) with mp by lia. subst doy doe.
    replace (yoe + era * 400 - era * 400) with yoe by lia. lia.
  - rewrite (proj2 (Z.leb_le (mp - 9) 2)) by lia.
    rewrite (proj2 (Z.ltb_ge 2 (mp - 9))) by lia.
    replace (yoe + era * 400 + 1 - 1) with (yoe + era * 400) by lia.
    rewrite (proj2 (Z.leb_le 0 (yoe + era * 400))), Hey by lia.
    replace (mp - 9 + 9) with mp by lia. subst doy doe.
    replace (yoe + era * 400 - era * 400) with yoe by lia. lia.
Qed.

(** The years of a day number are bounded by the day number. *)
Lemma civil_year_bound z y m d :
  0 <= z <= 2932896 + 719468 → civil_date z = (y, m, d) → 0 <= y <= 9999.
Proof.
  intros [Hz Hle] Hc. destruct (days_from_civil_date z y m d Hz Hc) as (Hd & Hm & Hda & Hy).
  split; [done|]. destruct (decide (y <= 9999)) as [|Hgt]; [done|]. exfalso.
  revert Hd. unfold days_from_civil.
  set (b := if m <=? 2 then 1 else 0).
  assert (b = 0 ∨ b = 1) as Hb by (unfold b; destruct (m <=? 2); auto).
  assert (b = 1 → (if 2 <? m then m - 3 else m + 9) = m + 9) as Hb1.
  { unfold b. destruct (Z.leb_spec m 2), (Z.ltb_spec 2 m); lia. }
  set (mp := if 2 <? m then m - 3 else m + 9) in *.
  assert (0 <= mp <= 11) as Hmp by (unfold mp; destruct (Z.ltb_spec 2 m); lia).
  rewrite (proj2 (Z.leb_le 0 (y - b))) by lia.
  intros Hd. assert (y - b >= 9999) by lia.
  destruct (decide (y - b >= 10000)); clearbody b mp; clear Hc.
  - revert Hd. div_lia.
  - assert (y - b = 9999) as Hyb by lia. rewrite Hyb in Hd.
    assert (b = 1) as Hb' by lia. specialize (Hb1 Hb'). subst b. revert Hd. div_lia.
Qed.

(** ** The text form *)

Section text.
#[local] Arguments String.append !_ _ / : simpl nomatch.

Lemma trim_end_app c s t :
  trim_end_matches c t ≠ "" → trim_end_matches c (s +:+ t) = s +:+ trim_end_matches c t.
Proof.
  intros Ht. induction s as [|b s IH]; [done|]. cbn. rewrite IH.
  destruct (s +:+ trim_end_matches c t) eqn:E; [|by rewrite andb_false_r].
  apply str_app_nil in E as [_ ?]. done.
Qed.

Lemma zeros_value k u :
  NilEmpty.uint_of_string (str_concat (replicate k "0") +:+ NilEmpty.string_of_uint u)
  = Some (Nat.iter k Decimal.D0 u).
Proof. induction k as [|k IH]; cbn; [apply NilEmpty.usu|]. by rewrite IH. Qed.

Lemma zeros_of_uint k u : N.of_uint (Nat.iter k Decimal.D0 u) = N.of_uint u.
Proof. induction k as [|k IH]; [done|exact IH]. Qed.

Lemma zeros_digits k : str_all is_digit (str_concat (replicate k "0")) = true.
Proof. by induction k. Qed.

Lemma pad_digits w n : str_all is_digit (pad_N w n) = true.
Proof. unfold pad_N, zero_pad. by rewrite str_all_app, zeros_digits, to_string_digits. Qed.

Lemma pad_no_byte w n c : is_digit c = false → contains_byte c (pad_N w n) = false.
Proof. apply digits_no_byte, pad_digits. Qed.

Lemma digits_no_sign s c : str_all is_digit s = true → is_digit c = false → starts_byte c s = false.
Proof.
  destruct s as [|b s]; cbn; [done|]. intros [Hb _]%andb_true_iff Hc.
  apply bool_decide_eq_false. congruence.
Qed.

Lemma parse_i64_pad w n : (Z.of_N n <= i64_max)%Z → parse_i64 (pad_N w n) = Some (Z.of_N n).
Proof.
  intros Hn. unfold parse_i64. rewrite !starts_with_chr.
  rewrite !digits_no_sign by (done || apply pad_digits). cbn [orb].
  unfold digits_value, pad_N, zero_pad.
  destruct (is_empty _) eqn:E.
  { apply is_empty_spec, str_app_nil in E as [_ ?]. by destruct (to_string_nonempty n). }
  unfold to_string. rewrite zeros_value, zeros_of_uint, DecimalN.Unsigned.of_to.
  unfold i64_min, i64_max in *.
  destruct (Z.leb_spec (-9223372036854775808) (Z.of_N n)); [|lia].
  destruct (Z.leb_spec (Z.of_N n) 9223372036854775807); [done|lia].
Qed.

(** Reading a printed time stamp gives its fields. *)
Lemma parse_iso_print y m d h mi s :
  0 <= y <= 9999 → 0 <= m <= 12 → 0 <= d <= 31 → (h <= 23)%N → (mi <= 59)%N → (s <= 60)%N →
  parse_iso (pad_Z 4 y +:+ "-" +:+ pad_Z 2 m +:+ "-" +:+ pad_Z 2 d +:+ "T" +:+
             pad_N 2 h +:+ ":" +:+ pad_N 2 mi +:+ ":" +:+ pad_N 2 s +:+ ".000Z")
  = parse_iso_fields y m d (Z.of_N h) (Z.of_N mi) (Z.of_N s).
Proof.
  intros Hy Hm Hd Hh Hmi Hs. unfold parse_iso, pad_Z.
  set (date := pad_N 4 (Z.to_N y) +:+ "-" +:+ pad_N 2 (Z.to_N m) +:+ "-" +:+ pad_N 2 (Z.to_N d)).
  set (clock := pad_N 2 h +:+ ":" +:+ pad_N 2 mi +:+ ":" +:+ pad_N 2 s).
  replace (pad_N 4 (Z.to_N y) +:+ _) with (date +:+ String "T" (clock +:+ ".000Z")).
  2:{ unfold date, clock. by rewrite ?str_app_assoc. }
  rewrite split_once_app.
  2:{ unfold date. rewrite !contains_byte_app, !pad_no_byte by done. done. }
  rewrite trim_end_app by done.
  assert (split "." (clock +:+ trim_end_matches "Z" ".000Z") = [clock; "000"]) as ->.
  { change (trim_end_matches "Z" ".000Z") with (String "." "000").
    rewrite split_app; [done|]. unfold clock.
    rewrite !contains_byte_app, !pad_no_byte by done. done. }
  assert (split "-" date = [pad_N 4 (Z.to_N y); pad_N 2 (Z.to_N m); pad_N 2 (Z.to_N d)]) as ->.
  { unfold date. cbn [String.append].
    rewrite !split_app by (by apply pad_no_byte). by rewrite split_none by (by apply pad_no_byte). }
  assert (split ":" clock = [pad_N 2 h; pad_N 2 mi; pad_N 2 s]) as E2.
  { unfold clock. cbn [String.append].
    rewrite !split_app by (by apply pad_no_byte). by rewrite split_none by (by apply pad_no_byte). }
  cbn. rewrite E2. cbn. rewrite !parse_i64_pad by (unfold i64_max; lia). cbn.
  by rewrite !Z2N.id by lia.
Qed.
End text.

(** The clock fields of a second count. *)
Lemma clock_fields secs :
  (secs mod 86400 / 3600 <= 23)%N ∧ (secs mod 3600 / 60 <= 59)%N ∧ (secs mod 60 <= 60)%N ∧
  (secs = secs / 86400 * 86400 + secs mod 86400 / 3600 * 3600
          + secs mod 3600 / 60 * 60 + secs mod 60)%N.
Proof.
  zify. Z.to_euclidean_division_equations. lia.
Qed.

(** Parsing a printed server time gives the timestamp back, for every second up to the end
    of year 9999. *)
Theorem iso_time_roundtrip (secs : N) :
  (secs <= 253402300799)%N → parse_iso (iso_time secs) = Some secs.
Proof.
  intros Hs. unfold iso_time, civil.
  destruct (clock_fields secs) as (Hh & Hmi & Hse & Hsum).
  assert (secs / 86400 <= 2932896)%N as Hday.
  { apply (N.Div0.div_le_mono _ _ 86400) in Hs.
    by change (253402300799 / 86400)%N with 2932896%N in Hs. }
  generalize dependent (secs mod 86400 / 3600)%N. generalize dependent (secs mod 3600 / 60)%N.
  generalize dependent (secs mod 60)%N. generalize dependent (secs / 86400)%N.
  intros days Hday se Hse mi Hmi h Hh Hsum.
  destruct (civil_date (Z.of_N days + 719468)) as [[y m] d] eqn:Ec.
  assert (0 <= y <= 9999) as Hy by (apply (civil_year_bound _ y m d) in Ec; [done|lia]).
  apply days_from_civil_date in Ec as (Hd & Hm & Hda & _); [|lia].
  rewrite parse_iso_print by lia. unfold parse_iso_fields, in_range. rewrite Hd.
  rewrite !(proj2 (Z.leb_le _ _)) by lia. cbn [negb andb orb]. f_equal. lia.
Qed.

Lemma iso_time_roundtrip_witness : parse_iso "2026-08-05T07:58:03.000Z" = Some 1785916683%N.
Proof.
  assert (iso_time 1785916683 = "2026-08-05T07:58:03.000Z") as <- by (vm_compute; reflexivity).
  apply iso_time_roundtrip. vm_compute. discriminate.
Defined.
