(* ===== verification/I18n.v ===== *)
(** * Localisation: [src/src/i18n.rs]

    The catalogue of the active locale, its lookup, the template filler and the
    parser of catalogue entries.  Reading the file from disk is not modelled:
    [load_text] starts from its text. *)

From Stdlib Require Import Ascii.
From S2P Require Import Prelude RustStr.

Local Open Scope stdpp_scope.

(** English msgid to translation; empty is English passthrough. *)
Abbreviation Catalog := (gmap string string).

Definition is_passthrough (c : Catalog) : bool := bool_decide (c = ∅).

Definition tr (c : Catalog) (english : string) : string := default english (c !! english).

(** [s.find(" :")]: the text up to and including the first [" :"], and the rest. *)
Fixpoint find_trailing (s : string) : option (string * string) :=
  match s with
  | String b r =>
      match strip_prefix " :" s with
      | Some t => Some (" :", t)
      | None => match find_trailing r with
                | Some (h, t) => Some (String b h, t)
                | None => None
                end
      end
  | "" => None
  end.

Definition split_trailing (rest : string) : option (string * string) :=
  match find_trailing rest with
  | Some ht => Some ht
  | None => match strip_prefix ":" rest with Some t => Some (":", t) | None => None end
  end.

(** Only the trailing prose of a numeric is translated. *)
Definition tr_numeric (c : Catalog) (rest : string) : string :=
  if is_passthrough c then rest
  else match split_trailing rest with
       | Some (head, trail) => head +:+ tr c trail
       | None => rest
       end.

(** [s.find('}')]. *)
Definition find_close (s : string) : option (string * string) := split_once "}" s.

(** [render]: one turn of the loop consumes at least one byte of the template. *)
Fixpoint render_go (fuel : nat) (t : string) (args : list string) : string :=
  match fuel with
  | O => ""
  | S fuel' =>
      match t with
      | "" => ""
      | String b r =>
          match b, r with
          | "{"%char, String "{"%char r' => "{" +:+ render_go fuel' r' args
          | "}"%char, String "}"%char r' => "}" +:+ render_go fuel' r' args
          | "{"%char, _ =>
              match find_close r with
              | Some (inner, after) =>
                  match parse_uint u64_max inner with
                  | Some idx =>
                      default "" (args !! N.to_nat idx) +:+ render_go fuel' after args
                  | None => "{" +:+ render_go fuel' r args
                  end
              | None => "{" +:+ render_go fuel' r args
              end
          | _, _ =>
              str_take (utf8_len b) t +:+ render_go fuel' (str_drop (utf8_len b) t) args
          end
      end
  end.

Definition render (template : string) (args : list string) : string :=
  if contains_byte "{" template then render_go (str_len template) template args else template.

(** [placeholders]: the indices [{N}] a template uses. *)
Fixpoint placeholders_go (fuel : nat) (t : string) : gset N :=
  match fuel with
  | O => ∅
  | S fuel' =>
      match t with
      | "" => ∅
      | String "{"%char r =>
          match r with
          | String "{"%char r' => placeholders_go fuel' r'
          | _ =>
              match find_close r with
              | Some (inner, after) =>
                  match parse_uint u64_max inner with
                  | Some idx => {[idx]} ∪ placeholders_go fuel' after
                  | None => placeholders_go fuel' after
                  end
              | None => placeholders_go fuel' r
              end
          end
      | String _ r => placeholders_go fuel' r
      end
  end.

Definition placeholders (t : string) : gset N := placeholders_go (str_len t) t.

(** [u8::from_str_radix(_, 16)] of two characters, and the character of a byte. *)
Definition hex_digit (c : string) : option N :=
  match char_byte c with
  | Some b =>
      let v := byte_val b in
      if is_digit b then Some (v - 48)%N
      else if ((97 <=? v) && (v <=? 102))%N then Some (v - 87)%N
      else if ((65 <=? v) && (v <=? 70))%N then Some (v - 55)%N
      else None
  | None => None
  end.

Definition hex_byte (h1 h2 : string) : option N :=
  if String.eqb h1 "+" then hex_digit h2
  else match hex_digit h1, hex_digit h2 with
       | Some a, Some b => Some (a * 16 + b)%N
       | _, _ => None
       end.

Definition char_of_byte (n : N) : string :=
  if (n <? 128)%N then chr (ascii_of_N n)
  else String (ascii_of_N (192 + n / 64)) (chr (ascii_of_N (128 + n mod 64))).

(** [read_quoted]: the unescaped text of a leading ["..."] and the remainder. *)
Fixpoint read_quoted_go (out : string) (cs : list string) : option (string * string) :=
  match cs with
  | [] => None
  | c :: cs1 =>
      if String.eqb c "\" then
        match cs1 with
        | [] => None
        | e :: cs2 =>
            if String.eqb e "n" then read_quoted_go (out +:+ chr (ascii_of_N 10)) cs2
            else if String.eqb e "t" then read_quoted_go (out +:+ chr (ascii_of_N 9)) cs2
            else if String.eqb e (chr (ascii_of_N 34)) then read_quoted_go (out +:+ e) cs2
            else if String.eqb e "\" then read_quoted_go (out +:+ e) cs2
            else if String.eqb e "x" then
              match cs2 with
              | h1 :: h2 :: cs3 =>
                  match hex_byte h1 h2 with
                  | Some b => read_quoted_go (out +:+ char_of_byte b) cs3
                  | None => read_quoted_go (out +:+ "\x" +:+ h1 +:+ h2) cs3
                  end
              | _ => None
              end
            else read_quoted_go (out +:+ "\" +:+ e) cs2
        end
      else if String.eqb c (chr (ascii_of_N 34)) then Some (out, str_concat cs1)
      else read_quoted_go (out +:+ c) cs1
  end.

Definition read_quoted (s : string) : option (string * string) :=
  match chars s with
  | c :: cs => if String.eqb c (chr (ascii_of_N 34)) then read_quoted_go "" cs else None
  | [] => None
  end.

Definition parse_entry (line : string) : option (string * string) :=
  match read_quoted line with
  | None => None
  | Some (key, rest) =>
      match strip_prefix "=" (trim_start rest) with
      | None => None
      | Some rest =>
          match read_quoted (trim_start rest) with
          | None => None
          | Some (val, tail) => if is_empty (trim tail) then Some (key, val) else None
          end
      end
  end.

(** What [Catalog::load] does with one line of the file. *)
Definition load_line (c : Catalog) (raw : string) : Catalog :=
  let line := trim raw in
  if is_empty line || starts_with "#" line then c
  else match parse_entry line with
       | Some (key, val) =>
           if negb (bool_decide (placeholders key = placeholders val)) then c
           else if is_empty val then c
           else <[key := val]> c
       | None => c
       end.

Definition load_text (lines : list string) : Catalog := foldl load_line ∅ lines.

(** ** Properties *)

(** Every entry of a loaded catalog uses exactly the placeholders of its English text and is
    not empty. *)
Theorem load_keeps_placeholders lines key val :
  load_text lines !! key = Some val → placeholders val = placeholders key ∧ val ≠ "".
Proof.
  unfold load_text. set (P := λ c : Catalog, c !! key = Some val →
    placeholders val = placeholders key ∧ val ≠ "").
  enough (∀ c, P c → P (foldl load_line c lines)) as H by (apply H; unfold P; by rewrite lookup_empty).
  induction lines as [|l ls IH]; intros c Hc; [done|]. cbn. apply IH.
  unfold P, load_line in *. repeat case_match; try done.
  intros [[-> ->]|[_ ?]]%lookup_insert_Some; [|by apply Hc].
  match goal with H : negb _ = false |- _ => apply negb_false_iff, bool_decide_eq_true in H end.
  split; [done|]. by apply is_empty_false.
Qed.

Lemma load_keeps_placeholders_witness :
  placeholders "{1} est {0}" = placeholders "{0} is {1}" ∧ "{1} est {0}" ≠ "".
Proof.
  apply (load_keeps_placeholders
    [String (ascii_of_N 34) ("{0} is {1}" +:+ chr (ascii_of_N 34) +:+ " = "
       +:+ chr (ascii_of_N 34) +:+ "{1} est {0}" +:+ chr (ascii_of_N 34))]).
  vm_compute. reflexivity.
Defined.

(** An out-of-range placeholder is dropped from the rendered text, while a malformed one is
    kept verbatim. *)
Theorem render_drops_out_of_range :
  render "see {7}!" ["x"] = "see !" ∧ render "see {x}!" ["x"] = "see {x}!".
Proof. by vm_compute. Qed.

(** Without a catalogue every numeric leaves the server unchanged. *)
Lemma tr_numeric_passthrough rest : tr_numeric ∅ rest = rest.
Proof. done. Qed.

Lemma find_trailing_app s h t : find_trailing s = Some (h, t) → s = h +:+ t.
Proof.
  revert h t. induction s as [|b s IH]; intros h t; [done|]. cbn [find_trailing].
  destruct (strip_prefix " :" (String b s)) as [u|] eqn:E.
  - intros [= <- <-]. by apply strip_prefix_Some in E.
  - destruct (find_trailing s) as [[h' t']|]; [|done]. intros [= <- <-].
    rewrite (IH h' t') by done. done.
Qed.

(** Translating a numeric replaces at most the trailing text; the parameters before it are
    untouched. *)
Theorem tr_numeric_keeps_params c rest :
  (∃ head trail, rest = head +:+ trail ∧ tr_numeric c rest = head +:+ tr c trail ∧
     split_trailing rest = Some (head, trail)) ∨ tr_numeric c rest = rest.
Proof.
  unfold tr_numeric. destruct (is_passthrough c); [by right|].
  destruct (split_trailing rest) as [[h t]|] eqn:E; [|by right]. left. exists h, t.
  split; [|done]. unfold split_trailing in E.
  destruct (find_trailing rest) as [[h' t']|] eqn:F; simplify_eq; [by apply find_trailing_app|].
  destruct (strip_prefix ":" rest) as [u|] eqn:G; simplify_eq. by apply strip_prefix_Some in G.
Qed.
