(* ===== verification/Channel.v ===== *)
(** * Channel records: [src/src/channels.rs] (data and pure methods) and
    [src/src/modules/customprefix.rs]

    Membership prefixes, channel modes, the channel record, and the prefix
    configuration read once at boot. *)

From Stdlib Require Import Ascii.
From S2P Require Import Prelude RustStr Glob.

Local Open Scope stdpp_scope.

(** A connection id; never reused. *)
Abbreviation Uid := N.

(** ** Custom prefixes *)

Definition yesish (v : string) : bool :=
  negb (existsb (String.eqb (to_ascii_lowercase v)) ["off"; "no"; "false"; "0"]).

Definition TIER_NAMES : list string := ["oper"; "founder"; "admin"; "op"; "halfop"; "voice"].
Definition LETTERS : list string := ["y"; "q"; "a"; "o"; "h"; "v"].
Definition DEFAULT_SIGILS : list string := ["!"; "~"; "&"; "@"; "%"; "+"].
Definition RANKS : list N := [60; 50; 40; 30; 20; 10]%N.

Record PrefixDef := mkPrefixDef {
  pd_letter : string; pd_sigil : string; pd_rank : N;
  pd_ranktoset : N; pd_ranktounset : N; pd_depriv : bool }.

Record PrefixCfg := mkPrefixCfg {
  cfg_sigils : list string;
  cfg_ranktoset : list (option N);
  cfg_ranktounset : list (option N);
  cfg_depriv : list bool;
  cfg_custom : list PrefixDef }.

#[export] Instance eta_PrefixCfg : Eta PrefixCfg := λ c,
  mkPrefixCfg (cfg_sigils c) (cfg_ranktoset c) (cfg_ranktounset c) (cfg_depriv c) (cfg_custom c).

Fixpoint position {A} (p : A → bool) (l : list A) : option nat :=
  match l with
  | [] => None
  | x :: r => if p x then Some 0 else S <$> position p r
  end.

(** A rank is a number or a tier name. *)
Definition parse_rank (v : string) : option N :=
  match parse_uint u8_max v with
  | Some n => Some n
  | None => i ← position (λ t, eq_ignore_ascii_case t v) TIER_NAMES; RANKS !! i
  end.

Definition default_prefix_cfg : PrefixCfg :=
  mkPrefixCfg DEFAULT_SIGILS (replicate 6 None) (replicate 6 None) (replicate 6 true) [].

Definition builtin_tok (i : nat) (cfg : PrefixCfg) (tok : string) : PrefixCfg :=
  match split_once "=" tok with
  | Some (k, v) =>
      if String.eqb k "ranktoset" then cfg <| cfg_ranktoset ::= <[i := parse_rank v]> |>
      else if String.eqb k "ranktounset" then cfg <| cfg_ranktounset ::= <[i := parse_rank v]> |>
      else if String.eqb k "depriv" then cfg <| cfg_depriv ::= <[i := yesish v]> |>
      else cfg
  | None =>
      match chars tok with
      | c :: _ => cfg <| cfg_sigils ::= <[i := c]> |>
      | [] => cfg
      end
  end.

Record NewPrefix := mkNewPrefix {
  np_letter : option string; np_sigil : option string; np_rank : N;
  np_rts : option N; np_rtu : option N; np_depriv : bool }.

#[export] Instance eta_NewPrefix : Eta NewPrefix := λ n,
  mkNewPrefix (np_letter n) (np_sigil n) (np_rank n) (np_rts n) (np_rtu n) (np_depriv n).

Definition new_tok (n : NewPrefix) (tok : string) : NewPrefix :=
  match split_once "=" tok with
  | Some (k, v) =>
      if String.eqb k "letter" then n <| np_letter := head (chars v) |>
      else if String.eqb k "prefix" then n <| np_sigil := head (chars v) |>
      else if String.eqb k "rank" then n <| np_rank := default 1%N (parse_rank v) |>
      else if String.eqb k "ranktoset" then n <| np_rts := parse_rank v |>
      else if String.eqb k "ranktounset" then n <| np_rtu := parse_rank v |>
      else if String.eqb k "depriv" then n <| np_depriv := yesish v |>
      else n
  | None => n
  end.

(** One [customprefix] line; [is_mode] is [chan_mode(l).is_some()]. *)
Definition init_line (is_mode : string → bool) (cfg : PrefixCfg) (line : string) : PrefixCfg :=
  match split_whitespace line with
  | [] => cfg
  | name :: it =>
      match position (λ t, eq_ignore_ascii_case t name) TIER_NAMES with
      | Some i => foldl (builtin_tok i) cfg it
      | None =>
          let n := foldl new_tok (mkNewPrefix None None 1%N None None true) it in
          match np_letter n, np_sigil n with
          | Some l, Some sy =>
              if existsb (String.eqb l) LETTERS || is_mode l
                 || existsb (λ d, String.eqb (pd_letter d) l) (cfg_custom cfg)
              then cfg
              else
                let ranktoset := default (np_rank n) (np_rts n) in
                cfg <| cfg_custom ::= (λ c, c ++
                  [mkPrefixDef l sy (np_rank n) ranktoset
                     (default ranktoset (np_rtu n)) (np_depriv n)]) |>
          | _, _ => cfg
          end
      end
  end.

Definition customprefix_init (is_mode : string → bool) (lines : list string) : PrefixCfg :=
  foldl (init_line is_mode) default_prefix_cfg lines.

(** [CFG.get()] is [None] until [init] has run. *)
Definition sigil (cfg : option PrefixCfg) (i : nat) : string :=
  match cfg with
  | Some c => default "" (cfg_sigils c !! i)
  | None => default "" (DEFAULT_SIGILS !! i)
  end.

Definition custom_defs (cfg : option PrefixCfg) : list PrefixDef :=
  match cfg with Some c => cfg_custom c | None => [] end.

Definition def_for_letter (cfg : option PrefixCfg) (c : string) : option PrefixDef :=
  find_first (λ d, String.eqb (pd_letter d) c) (custom_defs cfg).

Definition builtin_index (letter : string) : option nat := position (String.eqb letter) LETTERS.

Definition rank_to_set (cfg : option PrefixCfg) (letter : string) : option N :=
  match builtin_index letter with
  | Some i => c ← cfg; default None (cfg_ranktoset c !! i)
  | None => pd_ranktoset <$> def_for_letter cfg letter
  end.

Definition rank_to_unset (cfg : option PrefixCfg) (letter : string) : option N :=
  match builtin_index letter with
  | Some i => c ← cfg; default None (cfg_ranktounset c !! i)
  | None => pd_ranktounset <$> def_for_letter cfg letter
  end.

Definition can_depriv (cfg : option PrefixCfg) (letter : string) : bool :=
  match builtin_index letter with
  | Some i => map_or true (λ c, default true (cfg_depriv c !! i)) cfg
  | None => map_or true pd_depriv (def_for_letter cfg letter)
  end.

(** ** Members *)

Definition PFX_OPER : N := 32.
Definition PFX_OWNER : N := 16.
Definition PFX_ADMIN : N := 8.
Definition PFX_OP : N := 4.
Definition PFX_HALFOP : N := 2.
Definition PFX_VOICE : N := 1.

Definition RANK_OPER : N := 60.
Definition RANK_OWNER : N := 50.
Definition RANK_ADMIN : N := 40.
Definition RANK_OP : N := 30.
Definition RANK_HALFOP : N := 20.
Definition RANK_VOICE : N := 10.

Record Member := mkMember {
  prefixes : N;
  custom_prefixes : list string;
  joined : N;
  recent_msgs : list string;
  slow_hits : list N;
  hidden : bool }.

#[export] Instance eta_Member : Eta Member := λ m,
  mkMember (prefixes m) (custom_prefixes m) (joined m) (recent_msgs m) (slow_hits m) (hidden m).

Definition default_member : Member := mkMember 0 [] 0 [] [] false.

Definition has_bit (m : Member) (bit : N) : bool := negb (N.land (prefixes m) bit =? 0)%N.
Definition oprefix (m : Member) : bool := has_bit m PFX_OPER.
Definition owner (m : Member) : bool := has_bit m PFX_OWNER.
Definition admin (m : Member) : bool := has_bit m PFX_ADMIN.
Definition op (m : Member) : bool := has_bit m PFX_OP.
Definition halfop (m : Member) : bool := has_bit m PFX_HALFOP.
Definition voice (m : Member) : bool := has_bit m PFX_VOICE.

(** [!bit] on a [u8]. *)
Definition not_u8 (n : N) : N := N.lxor n u8_max.

Definition set_bit (bit : N) (on : bool) (m : Member) : Member :=
  if on then m <| prefixes ::= (λ p, N.lor p bit) |>
  else m <| prefixes ::= (λ p, N.land p (not_u8 bit)) |>.

Definition builtin_rank (m : Member) : N :=
  if oprefix m then RANK_OPER
  else if owner m then RANK_OWNER
  else if admin m then RANK_ADMIN
  else if op m then RANK_OP
  else if halfop m then RANK_HALFOP
  else if voice m then RANK_VOICE
  else 0.

Definition member_rank (cfg : option PrefixCfg) (m : Member) : N :=
  foldl (λ r c, match def_for_letter cfg c with Some d => N.max r (pd_rank d) | None => r end)
    (builtin_rank m) (custom_prefixes m).

(** The prefixes held, high to low: [sort_by] is stable, hence an insertion
    sort that keeps equal ranks in order. *)
Fixpoint insert_rank (x : N * string) (l : list (N * string)) : list (N * string) :=
  match l with
  | [] => [x]
  | y :: r => if (fst y <? fst x)%N then x :: y :: r else y :: insert_rank x r
  end.

Definition sort_rank (l : list (N * string)) : list (N * string) :=
  foldl (λ acc x, insert_rank x acc) [] l.

Definition builtin_held (cfg : option PrefixCfg) (m : Member) : list (N * string) :=
  map (λ '(_, r, i), (r, sigil cfg i))
    (filter (λ '(on, _, _), on = true)
       [(oprefix m, RANK_OPER, 0); (owner m, RANK_OWNER, 1); (admin m, RANK_ADMIN, 2);
        (op m, RANK_OP, 3); (halfop m, RANK_HALFOP, 4); (voice m, RANK_VOICE, 5)]).

Definition held (cfg : option PrefixCfg) (m : Member) : list (N * string) :=
  sort_rank (builtin_held cfg m ++
    omap (λ c, d ← def_for_letter cfg c; Some (pd_rank d, pd_sigil d)) (custom_prefixes m)).

Definition prefix_char (cfg : option PrefixCfg) (m : Member) : string :=
  match custom_prefixes m with
  | [] =>
      if oprefix m then sigil cfg 0
      else if owner m then sigil cfg 1
      else if admin m then sigil cfg 2
      else if op m then sigil cfg 3
      else if halfop m then sigil cfg 4
      else if voice m then sigil cfg 5
      else ""
  | _ => map_or "" snd (head (held cfg m))
  end.

Definition all_prefixes (cfg : option PrefixCfg) (m : Member) : string :=
  match custom_prefixes m with
  | [] => str_concat (map snd (builtin_held cfg m))
  | _ => str_concat (map snd (held cfg m))
  end.

Definition clear_status (m : Member) : Member :=
  m <| prefixes ::= (λ p, N.land p
    (not_u8 (N.lor PFX_OWNER (N.lor PFX_ADMIN (N.lor PFX_OP (N.lor PFX_HALFOP PFX_VOICE)))))) |>.

Definition prefix_bit (letter : string) : option N :=
  if String.eqb letter "y" then Some PFX_OPER
  else if String.eqb letter "q" then Some PFX_OWNER
  else if String.eqb letter "a" then Some PFX_ADMIN
  else if String.eqb letter "o" then Some PFX_OP
  else if String.eqb letter "h" then Some PFX_HALFOP
  else if String.eqb letter "v" then Some PFX_VOICE
  else None.

Definition set_prefix (cfg : option PrefixCfg) (letter : string) (on : bool) (m : Member) : Member :=
  match prefix_bit letter with
  | Some bit => set_bit bit on m
  | None =>
      match def_for_letter cfg letter with
      | Some _ =>
          m <| custom_prefixes ::= (λ l,
            let l' := retain (λ c, negb (String.eqb c letter)) l in
            if on then l' ++ [letter] else l') |>
      | None => m
      end
  end.

Definition mode_letters (cfg : option PrefixCfg) (m : Member) : string :=
  str_concat (map snd (filter (λ '(on, _), on = true)
    [(oprefix m, "y"); (owner m, "q"); (admin m, "a"); (op m, "o"); (halfop m, "h");
     (voice m, "v")]))
  +:+ str_concat (filter (λ c, is_some (def_for_letter cfg c) = true) (custom_prefixes m)).

(** ** Channel modes *)

Record MsgFlood := mkMsgFlood { mf_lines : N; mf_secs : N; mf_ban : bool }.
Record Rate := mkRate { r_count : N; r_secs : N }.

Record ChanModes := mkChanModes {
  moderated : bool; topic_ops : bool; no_external : bool; invite_only : bool; secret : bool;
  key : option string; limit : option N; secure_only : bool; private : bool; oper_only : bool;
  no_nick : bool; no_ctcp : bool; no_notice : bool; no_color : bool; strip_color : bool;
  reg_only : bool; reg_moderated : bool; censor : bool; auditorium : bool;
  flood : option MsgFlood; joinflood : option Rate; nickflood : option Rate;
  slowmode : option Rate; redirect : option string; history : option (N * N);
  anticaps : option N; nokicks : bool; allowinvite : bool; permanent : bool;
  kicknorejoin : option N; opmoderated : bool; delaymsg : option N; repeat_ : option N;
  delayjoin : bool; encrypted : bool; registered : bool }.

#[export] Instance eta_ChanModes : Eta ChanModes := λ m,
  mkChanModes (moderated m) (topic_ops m) (no_external m) (invite_only m) (secret m)
    (key m) (limit m) (secure_only m) (private m) (oper_only m)
    (no_nick m) (no_ctcp m) (no_notice m) (no_color m) (strip_color m)
    (reg_only m) (reg_moderated m) (censor m) (auditorium m)
    (flood m) (joinflood m) (nickflood m) (slowmode m) (redirect m) (history m)
    (anticaps m) (nokicks m) (allowinvite m) (permanent m)
    (kicknorejoin m) (opmoderated m) (delaymsg m) (repeat_ m)
    (delayjoin m) (encrypted m) (registered m).

Definition default_modes : ChanModes :=
  mkChanModes false false false false false None None false false false
    false false false false false false false false false None None None None None None
    None false false false None false None None false false false.

(** [set_by_letter]: the flag modes as a peer server sets them. *)
Definition set_by_letter (c : string) (on : bool) (m : ChanModes) : ChanModes :=
  if String.eqb c "m" then m <| moderated := on |>
  else if String.eqb c "n" then m <| no_external := on |>
  else if String.eqb c "t" then m <| topic_ops := on |>
  else if String.eqb c "i" then m <| invite_only := on |>
  else if String.eqb c "s" then m <| secret := on |>
  else if String.eqb c "z" then m <| secure_only := on |>
  else if String.eqb c "p" then m <| private := on |>
  else if String.eqb c "O" then m <| oper_only := on |>
  else if String.eqb c "N" then m <| no_nick := on |>
  else if String.eqb c "C" then m <| no_ctcp := on |>
  else if String.eqb c "T" then m <| no_notice := on |>
  else if String.eqb c "c" then m <| no_color := on |>
  else if String.eqb c "S" then m <| strip_color := on |>
  else if String.eqb c "R" then m <| reg_only := on |>
  else if String.eqb c "M" then m <| reg_moderated := on |>
  else if String.eqb c "G" then m <| censor := on |>
  else if String.eqb c "u" then m <| auditorium := on |>
  else if String.eqb c "Q" then m <| nokicks := on |>
  else if String.eqb c "A" then m <| allowinvite := on |>
  else if String.eqb c "P" then m <| permanent := on |>
  else if String.eqb c "U" then m <| opmoderated := on |>
  else if String.eqb c "D" then m <| delayjoin := on |>
  else if String.eqb c "E" then m <| encrypted := on |>
  else if String.eqb c "r" then m <| registered := on |>
  else m.

(** The flag modes in the order [render] prints them. *)
Definition render_flags (m : ChanModes) : list (bool * string) :=
  [(registered m, "r"); (invite_only m, "i"); (moderated m, "m"); (no_external m, "n");
   (secret m, "s"); (topic_ops m, "t"); (secure_only m, "z"); (private m, "p");
   (oper_only m, "O"); (no_nick m, "N"); (no_ctcp m, "C"); (no_notice m, "T");
   (no_color m, "c"); (strip_color m, "S"); (reg_only m, "R"); (reg_moderated m, "M");
   (censor m, "G"); (auditorium m, "u"); (permanent m, "P"); (nokicks m, "Q");
   (allowinvite m, "A"); (opmoderated m, "U"); (delayjoin m, "D"); (encrypted m, "E")].

Definition rate_str (r : Rate) : string := to_string (r_count r) +:+ ":" +:+ to_string (r_secs r).

(** The parameter modes with the text of their parameter. *)
Definition render_params (m : ChanModes) : list (string * option string) :=
  [("k", key m); ("l", to_string <$> limit m);
   ("f", (λ f, (if mf_ban f then "*" else "") +:+ to_string (mf_lines f) +:+ ":"
               +:+ to_string (mf_secs f)) <$> flood m);
   ("j", rate_str <$> joinflood m); ("F", rate_str <$> nickflood m);
   ("W", rate_str <$> slowmode m); ("L", redirect m);
   ("H", (λ '(n, t), to_string n +:+ ":" +:+ to_string t) <$> history m);
   ("B", to_string <$> anticaps m); ("J", to_string <$> kicknorejoin m);
   ("d", to_string <$> delaymsg m); ("K", to_string <$> repeat_ m)].

Definition modes_render (m : ChanModes) (params : bool) : string :=
  "+" +:+ str_concat (map snd (filter (λ '(on, _), on = true) (render_flags m)))
  +:+ str_concat (map fst (filter (λ '(_, p), is_some p = true) (render_params m)))
  +:+ (if params then
         str_concat (omap (λ '(_, p), s ← p; Some (" " +:+ s)) (render_params m))
       else "").

(** ** Channels *)

Record Topic := mkTopic { t_text : string; t_setter : string; t_ts : N }.
Record Ban := mkBan { b_mask : string; b_setter : string; b_ts : N; b_expires : option N }.

Record Channel := mkChannel {
  ch_name : string;
  ch_topic : option Topic;
  members : gmap Uid Member;
  rmembers : gmap string Member;
  modes : ChanModes;
  bans : list Ban; excepts : list Ban; invex : list Ban;
  filters : list Ban; exemptchanops : list Ban; autoop : list Ban;
  invites : gset Uid;
  created : N;
  msgflood_hits : gmap Uid (list N);
  joinflood_hits : list N; joinflood_until : N;
  nickflood_hits : list N; nickflood_until : N;
  recent_kicks : gmap Uid N }.

#[export] Instance eta_Channel : Eta Channel := λ c,
  mkChannel (ch_name c) (ch_topic c) (members c) (rmembers c) (modes c) (bans c) (excepts c)
    (invex c) (filters c) (exemptchanops c) (autoop c) (invites c) (created c)
    (msgflood_hits c) (joinflood_hits c) (joinflood_until c) (nickflood_hits c)
    (nickflood_until c) (recent_kicks c).

(** [Channel::new]: the default [+nt] modes. *)
Definition new_channel (now : N) (name : string) : Channel :=
  mkChannel name None ∅ ∅
    (default_modes <| no_external := true |> <| topic_ops := true |>)
    [] [] [] [] [] [] ∅ now ∅ [] 0 [] 0 ∅.

Definition chan_is_empty (c : Channel) : bool :=
  bool_decide (members c = ∅) && bool_decide (rmembers c = ∅).

Definition keep_alive (c : Channel) : bool :=
  negb (chan_is_empty c) || permanent (modes c) || registered (modes c).

(** [valid_chan]: the length limit counts bytes. *)
Definition valid_chan (name : string) (maxlen : N) : bool :=
  starts_with "#" name && (1 <? str_len name) && (N.of_nat (str_len name) <=? maxlen)%N
  && negb (existsb (λ c, String.eqb c " " || String.eqb c ","
                         || char_is (λ b, (byte_val b <? 32)%N) c) (chars name)).
