(* ===== verification/Numeric.v ===== *)
(** * Numeric replies: [src/src/numeric.rs]

    The numerics the modelled commands send. *)

From Stdlib Require Import NArith.

Local Open Scope N_scope.

Definition RPL_MAP : N := 6.
Definition RPL_MAPEND : N := 7.
Definition RPL_STATSLINKINFO : N := 211.
Definition RPL_ENDOFSTATS : N := 219.
Definition RPL_STATSXLINE : N := 223.
Definition RPL_STATSUPTIME : N := 242.
Definition RPL_STATSOLINE : N := 243.
Definition RPL_ADMINME : N := 256.
Definition RPL_ADMINLOC1 : N := 257.
Definition RPL_ADMINLOC2 : N := 258.
Definition RPL_ADMINEMAIL : N := 259.
Definition RPL_USERHOST : N := 302.
Definition RPL_ISON : N := 303.
Definition RPL_WHOISSERVER : N := 312.
Definition RPL_WHOWASUSER : N := 314.
Definition RPL_ENDOFWHO : N := 315.
Definition RPL_LISTSTART : N := 321.
Definition RPL_LIST : N := 322.
Definition RPL_LISTEND : N := 323.
Definition RPL_WHOREPLY : N := 352.
Definition RPL_WHOSPCRPL : N := 354.
Definition RPL_LINKS : N := 364.
Definition RPL_ENDOFLINKS : N := 365.
Definition RPL_ENDOFWHOWAS : N := 369.
Definition RPL_INFO : N := 371.
Definition RPL_ENDOFINFO : N := 374.
Definition RPL_TIME : N := 391.
Definition ERR_WASNOSUCHNICK : N := 406.
Definition RPL_SNOMASKIS : N := 8.
Definition RPL_UMODEIS : N := 221.
Definition RPL_CHANNELMODEIS : N := 324.
Definition RPL_CREATIONTIME : N := 329.
Definition RPL_TOPIC : N := 332.
Definition RPL_TOPICWHOTIME : N := 333.
Definition RPL_INVEXLIST : N := 346.
Definition RPL_ENDOFINVEXLIST : N := 347.
Definition RPL_EXCEPTLIST : N := 348.
Definition RPL_ENDOFEXCEPTLIST : N := 349.
Definition RPL_NAMREPLY : N := 353.
Definition RPL_ENDOFNAMES : N := 366.
Definition RPL_BANLIST : N := 367.
Definition RPL_ENDOFBANLIST : N := 368.
Definition RPL_HOSTHIDDEN : N := 396.
Definition ERR_NOSUCHNICK : N := 401.
Definition ERR_NOSUCHCHANNEL : N := 403.
Definition ERR_TOOMANYCHANNELS : N := 405.
Definition ERR_UNAVAILRESOURCE : N := 437.
Definition ERR_USERNOTINCHANNEL : N := 441.
Definition ERR_LINKCHANNEL : N := 470.
Definition ERR_CHANNELISFULL : N := 471.
Definition ERR_UNKNOWNMODE : N := 472.
Definition ERR_INVITEONLYCHAN : N := 473.
Definition ERR_BANNEDFROMCHAN : N := 474.
Definition ERR_BADCHANNELKEY : N := 475.
Definition ERR_NEEDREGGEDNICK : N := 477.
Definition ERR_BANLISTFULL : N := 478.
Definition ERR_BADCHANNAME : N := 479.
Definition ERR_NOPRIVILEGES : N := 481.
Definition ERR_CHANOPRIVSNEEDED : N := 482.
Definition ERR_SECUREONLYCHAN : N := 489.
Definition ERR_ALLMUSTSSL : N := 490.
Definition ERR_DELAYREJOIN : N := 495.
Definition ERR_UMODEUNKNOWNFLAG : N := 501.
Definition ERR_USERSDONTMATCH : N := 502.
Definition ERR_CANTJOINOPERSONLY : N := 520.
Definition RPL_LOGON : N := 600.
Definition RPL_LOGOFF : N := 601.
Definition ERR_INVALIDMODEPARAM : N := 696.
Definition RPL_MONONLINE : N := 730.
Definition RPL_MONOFFLINE : N := 731.
Definition RPL_AUTOOPLIST : N := 910.
Definition RPL_ENDOFAUTOOP : N := 911.
Definition ERR_BADCHANNEL : N := 926.
Definition ERR_E2EONLYCHAN : N := 927.
Definition RPL_SPAMFILTER : N := 941.
Definition RPL_ENDOFSPAMFILTER : N := 940.
Definition RPL_EXEMPTIONLIST : N := 954.
Definition RPL_ENDOFEXEMPTIONLIST : N := 953.
Definition RPL_NOWON : N := 604.
Definition RPL_NOWOFF : N := 605.
Definition RPL_WATCHOFF : N := 602.
Definition RPL_WATCHSTAT : N := 603.
Definition RPL_WATCHLIST : N := 606.
Definition RPL_ENDOFWATCHLIST : N := 607.
Definition ERR_TOOMANYWATCH : N := 512.
Definition ERR_MONLISTFULL : N := 734.
Definition RPL_MONLIST : N := 732.
Definition RPL_ENDOFMONLIST : N := 733.
Definition RPL_SILELIST : N := 271.
Definition RPL_ENDOFSILENCE : N := 272.
Definition ERR_SILELISTFULL : N := 511.
Definition RPL_ACCEPTLIST : N := 281.
Definition RPL_ENDOFACCEPT : N := 282.
Definition ERR_ACCEPTEXIST : N := 457.
Definition ERR_ACCEPTFULL : N := 456.
Definition ERR_ACCEPTNOT : N := 458.
Definition RPL_INVITING : N := 341.
Definition RPL_KNOCK : N := 710.
Definition RPL_KNOCKDLVR : N := 711.
Definition RPL_NOTOPIC : N := 331.
Definition ERR_NOTONCHANNEL : N := 442.
Definition ERR_USERONCHANNEL : N := 443.
Definition RPL_AWAY : N := 301.
Definition ERR_CANNOTSENDTOCHAN : N := 404.
Definition ERR_NORECIPIENT : N := 411.
Definition ERR_NOTEXTTOSEND : N := 412.
Definition ERR_YOUREBANNEDCREEP : N := 465.
Definition ERR_CANTSENDTOUSER : N := 531.
Definition RPL_TARGUMODEG : N := 716.
Definition RPL_TARGNOTIFY : N := 717.
Definition RPL_UMODEGMSG : N := 718.
Definition RPL_YOUREOPER : N := 381.
Definition RPL_LOGGEDIN : N := 900.
Definition RPL_SASLSUCCESS : N := 903.
Definition ERR_SASLFAIL : N := 904.
Definition ERR_NOSUCHSERVER : N := 402.
Definition RPL_TRYAGAIN : N := 263.
Definition ERR_TOOMANYTARGETS : N := 407.
Definition ERR_TARGETTOOFAST : N := 439.
Definition ERR_INPUTTOOLONG : N := 417.
Definition ERR_UNKNOWNCOMMAND : N := 421.
Definition ERR_ERRONEUSNICKNAME : N := 432.
Definition ERR_NICKNAMEINUSE : N := 433.
Definition ERR_NOTREGISTERED : N := 451.
Definition ERR_NEEDMOREPARAMS : N := 461.
Definition ERR_PASSWDMISMATCH : N := 464.
Definition ERR_CANTKILLSERVER : N := 483.
Definition ERR_NOPRIVS : N := 723.
Definition RPL_RSACHALLENGE2 : N := 386.
Definition RPL_ENDOFRSACHALLENGE2 : N := 387.
Definition RPL_WELCOME : N := 1.
Definition RPL_YOURHOST : N := 2.
Definition RPL_CREATED : N := 3.
Definition RPL_MYINFO : N := 4.
Definition RPL_ISUPPORT : N := 5.
Definition RPL_LUSERCLIENT : N := 251.
Definition RPL_LUSEROP : N := 252.
Definition RPL_LUSERUNKNOWN : N := 253.
Definition RPL_LUSERCHANNELS : N := 254.
Definition RPL_LUSERME : N := 255.
Definition RPL_LOCALUSERS : N := 265.
Definition RPL_GLOBALUSERS : N := 266.
Definition RPL_UNAWAY : N := 305.
Definition RPL_NOWAWAY : N := 306.
Definition RPL_MOTD : N := 372.
Definition RPL_MOTDSTART : N := 375.
Definition RPL_ENDOFMOTD : N := 376.
Definition ERR_NOMOTD : N := 422.
Definition ERR_NONICKNAMEGIVEN : N := 431.
Definition ERR_CANTCHANGENICK : N := 447.
Definition ERR_ALREADYREGISTERED : N := 462.
Definition ERR_SASLTOOLONG : N := 905.
Definition ERR_SASLABORTED : N := 906.
Definition ERR_SASLALREADY : N := 907.
Definition RPL_SASLMECHS : N := 908.
