(* ===== verification/Duration.v ===== *)
(** * Durations: [parse_duration], [short_duration], [human_duration] of
    [src/src/xline.rs] *)

From Stdlib Require Import Ascii.
From S2P Require Import Prelude RustStr.

Local Open Scope stdpp_scope.

Definition unit_size (c : string) : option N :=
  if String.eqb c "s" then Some 1%N
  else if String.eqb c "m" then Some 60%N
  else if String.eqb c "h" then Some 3600%N
  else if String.eqb c "d" then Some 86400%N
  else if String.eqb c "w" then Some 604800%N
  else None.

Definition parse_duration (s : string) : option N :=
  if is_empty s || String.eqb s "0" then Some 0%N
  else
    l ← last (chars s);
    if char_is is_digit l then parse_uint u64_max s
    else
      n ← parse_uint u64_max (str_take (str_len s - str_len l) s);
      mul ← unit_size l;
      Some (sat_mul64 n mul).

(** Seconds as the largest single exact unit. *)
Fixpoint short_units (units : list (N * string)) (secs : N) : string :=
  match units with
  | [] => to_string secs
  | (size, unit) :: r =>
      if (secs mod size =? 0)%N then to_string (secs / size) +:+ unit else short_units r secs
  end.

Definition short_duration (secs : N) : string :=
  if (secs =? 0)%N then "0"
  else short_units [(604800%N, "w"); (86400%N, "d"); (3600%N, "h"); (60%N, "m")] secs.

Fixpoint human_parts (units : list (N * string)) (secs : N) : list string :=
  match units with
  | [] => []
  | (size, lbl) :: r =>
      let n := (secs / size)%N in
      if (0 <? n)%N then
        (to_string n +:+ " " +:+ lbl +:+ (if (n =? 1)%N then "" else "s"))
          :: human_parts r (secs - n * size)%N
      else human_parts r secs
  end.

Definition human_duration (secs : N) : string :=
  if (secs =? 0)%N then "0 seconds"
  else str_join " " (human_parts
    [(604800%N, "week"); (86400%N, "day"); (3600%N, "hour"); (60%N, "minute"); (1%N, "second")]
    secs).

Section lemmas.
#[local] Arguments String.append !_ _ / : simpl nomatch.

Lemma digit_is_ascii b : is_digit b = true → is_ascii_byte b = true.
Proof.
  assert (implb (is_digit b) (is_ascii_byte b) = true) as H.
  { by_bytes (λ b, implb (is_digit b) (is_ascii_byte b)) (λ _ : ascii, true). }
  intros Hb. by rewrite Hb in H.
Qed.

Lemma digits_ascii s : str_all is_digit s = true → is_ascii s = true.
Proof.
  unfold is_ascii. induction s as [|b s IH]; cbn; [done|].
  intros [Hb Hs]%andb_true_iff. by rewrite IH, digit_is_ascii.
Qed.

Lemma as_bytes_app s t : as_bytes (s +:+ t) = as_bytes s ++ as_bytes t.
Proof. induction s as [|b s IH]; cbn; [done|]. by rewrite IH. Qed.

Lemma is_ascii_app s t : is_ascii (s +:+ t) = is_ascii s && is_ascii t.
Proof.
  unfold is_ascii. induction s as [|b s IH]; cbn; [done|]. by rewrite IH, andb_assoc.
Qed.

Lemma last_char_app s b :
  is_ascii s = true → is_ascii_byte b = true → last (chars (s +:+ chr b)) = Some (chr b).
Proof.
  intros Hs Hb. rewrite chars_ascii.
  - rewrite as_bytes_app, map_app. change (map chr (as_bytes (chr b))) with [chr b].
    by rewrite last_snoc.
  - rewrite is_ascii_app, Hs. unfold is_ascii. cbn. by rewrite Hb.
Qed.

Lemma str_snoc s : s ≠ "" → ∃ t b, s = t +:+ chr b.
Proof.
  induction s as [|x s IH]; [done|]. intros _. destruct s as [|y s]; [by exists "", x|].
  destruct IH as (t & b & ->); [done|]. by exists (String x t), b.
Qed.

Lemma str_take_app s t : str_take (str_len (s +:+ t) - str_len t) (s +:+ t) = s.
Proof.
  assert (str_len (s +:+ t) - str_len t = str_len s) as ->.
  { unfold str_len. induction s as [|b s IH]; cbn in *; [lia|].
    enough (String.length t ≤ String.length (s +:+ t)) by lia.
    clear. induction s; cbn; lia. }
  unfold str_len. induction s as [|b s IH]; cbn; [by destruct t|]. by rewrite IH.
Qed.

(** A suffixed number parses to its product. *)
Lemma parse_suffixed n b u :
  is_ascii_byte b = true → is_digit b = false → unit_size (chr b) = Some u →
  (n <= u64_max)%N → parse_duration (to_string n +:+ chr b) = Some (sat_mul64 n u).
Proof.
  intros Ha Hb Hu Hn. unfold parse_duration.
  assert (is_empty (to_string n +:+ chr b) = false) as ->.
  { apply is_empty_false. intros [_ ?]%str_app_nil. done. }
  assert (String.eqb (to_string n +:+ chr b) "0" = false) as ->.
  { apply String.eqb_neq. intros E. pose proof (contains_byte_app b (to_string n) (chr b)) as C.
    rewrite E in C. cbn in C. rewrite (bool_decide_true (b = b)), orb_true_r in C by done.
    rewrite orb_false_r in C. apply bool_decide_eq_true in C as <-. done. }
  cbn [orb]. rewrite last_char_app by (done || apply digits_ascii, to_string_digits).
  cbn [mbind option_bind]. unfold char_is, char_byte, chr at 1. rewrite Ha. cbn [map_or].
  rewrite Hb. rewrite str_take_app, parse_to_string by done. cbn. by rewrite Hu.
Qed.

Lemma parse_plain n : (n <= u64_max)%N → n ≠ 0%N → parse_duration (to_string n) = Some n.
Proof.
  intros Hn H0. unfold parse_duration.
  rewrite (proj2 (is_empty_false _) (to_string_nonempty n)).
  assert (String.eqb (to_string n) "0" = false) as ->.
  { apply String.eqb_neq. intros E. apply (f_equal (parse_uint u64_max)) in E.
    rewrite parse_to_string in E by done. by injection E. }
  cbn [orb]. destruct (str_snoc (to_string n) (to_string_nonempty n)) as (t & b & E).
  pose proof (to_string_digits n) as D. rewrite E in D.
  assert (str_all is_digit t = true ∧ is_digit b = true) as [Ht Hb].
  { revert D. clear. induction t as [|x t IH]; cbn; [by rewrite andb_true_r|].
    intros [-> ?]%andb_true_iff. by destruct IH. }
  rewrite E at 1. rewrite last_char_app by auto using digits_ascii, digit_is_ascii.
  cbn [mbind option_bind]. unfold char_is, char_byte, chr at 1.
  rewrite digit_is_ascii by done. cbn [map_or]. rewrite Hb. by apply parse_to_string.
Qed.
End lemmas.

(** Parsing a duration printed in its largest exact unit gives the seconds back, for every
    64-bit value. *)
Theorem short_duration_roundtrip (secs : N) :
  (secs <= u64_max)%N → parse_duration (short_duration secs) = Some secs.
Proof.
  intros Hs. unfold short_duration. destruct (N.eqb_spec secs 0) as [->|H0]; [done|].
  assert (∀ size, (size ≠ 0)%N → (secs mod size)%N = 0%N →
    (secs / size <= u64_max)%N ∧ sat_mul64 (secs / size) size = secs) as Hdiv.
  { intros size Hz Hm. pose proof (N.Div0.div_mod secs size) as E. rewrite Hm in E.
    assert (secs / size <= secs)%N by (apply N.Div0.div_le_upper_bound; nia).
    split; [lia|]. unfold sat_mul64. lia. }
  cbn [short_units].
  repeat match goal with
  | |- context [(secs mod ?k =? 0)%N] =>
      destruct (N.eqb_spec (secs mod k) 0) as [Hm|_];
        [destruct (Hdiv k ltac:(done) Hm) as [Hb He]|]
  end.
  - rewrite (parse_suffixed _ "w" 604800) by done. by rewrite He.
  - rewrite (parse_suffixed _ "d" 86400) by done. by rewrite He.
  - rewrite (parse_suffixed _ "h" 3600) by done. by rewrite He.
  - rewrite (parse_suffixed _ "m" 60) by done. by rewrite He.
  - by apply parse_plain.
Qed.

Lemma short_duration_roundtrip_witness : parse_duration "1h" = Some 3600%N.
Proof. apply (short_duration_roundtrip 3600). vm_compute. discriminate. Defined.
