(* ===== verification/Bcrypt.v ===== *)
(** * The password hash: [src/src/bcrypt.rs]

    The exact fixed-point integers from which the constants of Blowfish are
    computed as the fractional digits of pi, the cipher with the expensive key
    schedule, the base64 of bcrypt, and hashing and verifying passwords.  Words
    and limbs are [Z] with the width of the machine type written out; arrays are
    lists, indexed within their length. *)

From Stdlib Require Import Ascii ZArith.
From S2P Require Import Prelude RustStr Clock.

Local Open Scope stdpp_scope.
Local Open Scope Z_scope.

(** [x as u8], [x as u32], and a [u64] that has wrapped around. *)
Definition u8 (x : Z) : Z := x mod 2 ^ 8.
Definition u32 (x : Z) : Z := x mod 2 ^ 32.
Definition u64 (x : Z) : Z := x mod 2 ^ 64.

(** ** Fixed-point integers *)

Definition BITS : Z := 33408.
Definition NLIMB : nat := 1046.

(** Limbs of 32 bits, least significant first. *)
Abbreviation Big := (list Z).

Definition big_zero : Big := replicate NLIMB 0.

Definition pow2 (bits : Z) : Big :=
  alter (λ w, Z.lor w (Z.shiftl 1 (bits mod 32))) (Z.to_nat (bits / 32)) big_zero.

(** The loop runs from the most significant limb down; the remainder it carries
    is the second component. *)
Fixpoint div_limbs (d : Z) (l : Big) : Big * Z :=
  match l with
  | [] => ([], 0)
  | w :: r =>
      let '(q, rem) := div_limbs d r in
      let cur := Z.lor (u64 (Z.shiftl rem 32)) w in
      (u32 (cur / d) :: q, cur mod d)
  end.

Definition div_small_upto (d : Z) (hi : nat) (b : Big) : Big :=
  (div_limbs d (take (S hi) b)).1 ++ drop (S hi) b.

Definition div_small (d : Z) (b : Big) : Big := div_small_upto d (NLIMB - 1) b.

Fixpoint mul_limbs (m carry : Z) (l : Big) : Big :=
  match l with
  | [] => []
  | w :: r => let cur := u64 (w * m + carry) in u32 cur :: mul_limbs m (Z.shiftr cur 32) r
  end.

Definition mul_small (m : Z) (b : Big) : Big := mul_limbs m 0 b.

Fixpoint add_limbs (carry : Z) (a o : Big) : Big * Z :=
  match a, o with
  | x :: a, y :: o =>
      let s := u64 (x + y + carry) in
      let '(l, c) := add_limbs (Z.shiftr s 32) a o in
      (u32 s :: l, c)
  | _, _ => ([], carry)
  end.

Fixpoint carry_limbs (carry : Z) (l : Big) : Big :=
  match l with
  | [] => []
  | w :: r => if carry =? 0 then l
              else let s := u64 (w + carry) in u32 s :: carry_limbs (Z.shiftr s 32) r
  end.

Definition add_assign_upto (b o : Big) (hi : nat) : Big :=
  let '(l, c) := add_limbs 0 (take (S hi) b) (take (S hi) o) in
  l ++ carry_limbs c (drop (S hi) b).

(** The new limb and the borrow of a difference. *)
Definition borrow_out (d : Z) : Z * Z :=
  if d <? 0 then (u32 (d + 2 ^ 32), 1) else (u32 d, 0).

Fixpoint sub_limbs (borrow : Z) (a o : Big) : Big * Z :=
  match a, o with
  | x :: a, y :: o =>
      let '(w, borrow) := borrow_out (x - y - borrow) in
      let '(l, b) := sub_limbs borrow a o in
      (w :: l, b)
  | _, _ => ([], borrow)
  end.

Fixpoint borrow_limbs (borrow : Z) (l : Big) : Big :=
  match l with
  | [] => []
  | w :: r => if borrow =? 0 then l
              else let '(w, borrow) := borrow_out (w - borrow) in w :: borrow_limbs borrow r
  end.

Definition sub_assign_upto (b o : Big) (hi : nat) : Big :=
  let '(l, c) := sub_limbs 0 (take (S hi) b) (take (S hi) o) in
  l ++ borrow_limbs c (drop (S hi) b).

Definition sub_assign (b o : Big) : Big := (sub_limbs 0 b o).1.

(** ** The arctangent of an inverse *)

Definition limb (b : Big) (i : nat) : Z := default 0 (b !! i).

(** [while hi > 0 && term.0[hi] == 0 { hi -= 1; }]. *)
Fixpoint lower_hi (b : Big) (hi : nat) : nat :=
  match hi with
  | O => O
  | S h => if limb b hi =? 0 then lower_hi b h else hi
  end.

Record Series := mkSeries { sr_term : Big; sr_sum : Big; sr_c : Big; sr_k : Z; sr_hi : nat }.

(** One turn of the loop: the next state, or the sum. *)
Definition series_turn (x2 : Z) (s : Series) : Series + Big :=
  let hi := sr_hi s in
  let c := div_small_upto (2 * sr_k s + 1) hi (take (S hi) (sr_term s) ++ drop (S hi) (sr_c s)) in
  let sum := if sr_k s mod 2 =? 0 then add_assign_upto (sr_sum s) c hi
             else sub_assign_upto (sr_sum s) c hi in
  let term := div_small_upto x2 hi (sr_term s) in
  let hi := lower_hi term hi in
  if (hi =? 0)%nat && (limb term 0 =? 0) then inr sum
  else inl (mkSeries term sum c (sr_k s + 1) hi).

Fixpoint series_loop (fuel : nat) (x2 : Z) (s : Series) : option Big :=
  match fuel with
  | O => None
  | S f => match series_turn x2 s with inr sum => Some sum | inl s => series_loop f x2 s end
  end.

(** More turns than [2 ^ BITS] has bits. *)
Definition series_fuel : nat := Z.to_nat (BITS + 1).

Definition atan_inv (x : Z) : option Big :=
  series_loop series_fuel (x * x)
    (mkSeries (div_small x (pow2 BITS)) big_zero big_zero 0 (NLIMB - 1)).

(** ** The digits of pi *)

(** [pi_words] and [Bf::init] are functions without arguments. *)
Definition pi_fixed (_ : unit) : option Big :=
  a5 ← atan_inv 5;
  a239 ← atan_inv 239;
  Some (sub_assign (sub_assign (mul_small 16 a5) (mul_small 4 a239)) (mul_small 3 (pow2 BITS))).

Definition pi_words (_ : unit) : option (list Z) :=
  pi ← pi_fixed (); Some (map (λ i, limb pi (1043 - i)) (seq 0 1042)).

(** ** Blowfish *)

Record Bf := mkBf { bf_p : list Z; bf_s : list (list Z) }.

Definition bf_of (w : list Z) : Bf :=
  mkBf (take 18 w) (map (λ i, take 256 (drop (18 + i * 256) w)) (seq 0 4)).

Definition bf_init (_ : unit) : option Bf := bf_of <$> pi_words ().

Definition sbox (bf : Bf) (i : nat) (j : Z) : Z := nth (Z.to_nat j) (nth i (bf_s bf) []) 0.

Definition bf_f (bf : Bf) (x : Z) : Z :=
  let a := Z.land (Z.shiftr x 24) 255 in
  let b := Z.land (Z.shiftr x 16) 255 in
  let c := Z.land (Z.shiftr x 8) 255 in
  let d := Z.land x 255 in
  u32 (Z.lxor (u32 (sbox bf 0 a + sbox bf 1 b)) (sbox bf 2 c) + sbox bf 3 d).

Definition bf_round (bf : Bf) (lr : Z * Z) (i : nat) : Z * Z :=
  let l := Z.lxor lr.1 (nth i (bf_p bf) 0) in
  let r := Z.lxor lr.2 (bf_f bf l) in
  (r, l).

Definition encrypt (bf : Bf) (l r : Z) : Z * Z :=
  let '(l, r) := foldl (bf_round bf) (l, r) (seq 0 16) in
  let '(l, r) := (r, l) in
  (Z.lxor l (nth 17 (bf_p bf) 0), Z.lxor r (nth 16 (bf_p bf) 0)).

(** ** The key schedule *)

Fixpoint next_word_go (n : nat) (bytes : list Z) (v : Z) (off : nat) : Z * nat :=
  match n with
  | O => (v, off)
  | S n => next_word_go n bytes (Z.lor (u32 (Z.shiftl v 8)) (nth off bytes 0))
             ((off + 1) mod length bytes)%nat
  end.

Definition next_word (bytes : list Z) (off : nat) : Z * nat := next_word_go 4 bytes 0 off.

(** XOR the key, cycled, into P. *)
Fixpoint mix_p (key p : list Z) (kp : nat) : list Z :=
  match p with
  | [] => []
  | w :: p => let '(v, kp) := next_word key kp in Z.lxor w v :: mix_p key p kp
  end.

(** The running block, and the position in the salt. *)
Record Run := mkRun { run_bf : Bf; run_l : Z; run_r : Z; run_sp : nat }.

Definition run_block (salt : list Z) (store : nat → Z → Z → Bf → Bf) (s : Run) (j : nat) : Run :=
  let '(w1, sp) := next_word salt (run_sp s) in
  let '(w2, sp) := next_word salt sp in
  let '(l, r) := encrypt (run_bf s) (Z.lxor (run_l s) w1) (Z.lxor (run_r s) w2) in
  mkRun (store j l r (run_bf s)) l r sp.

Definition store_p (j : nat) (l r : Z) (bf : Bf) : Bf :=
  mkBf (<[S j := r]> (<[j := l]> (bf_p bf))) (bf_s bf).
Definition store_s (i j : nat) (l r : Z) (bf : Bf) : Bf :=
  mkBf (bf_p bf) (alter (λ row, <[S j := r]> (<[j := l]> row)) i (bf_s bf)).

(** [(0..n).step_by(2)] for an even [n]. *)
Definition evens (n : nat) : list nat := map (λ i, 2 * i)%nat (seq 0 (n / 2)).

Definition expand_key (salt key : list Z) (bf : Bf) : Bf :=
  let bf := mkBf (mix_p key (bf_p bf) 0) (bf_s bf) in
  let run := foldl (run_block salt store_p) (mkRun bf 0 0 0) (evens 18) in
  run_bf (foldl (λ run i, foldl (run_block salt (store_s i)) run (evens 256)) run (seq 0 4)).

(** ** Hashing *)

Definition MAGIC : list Z := [0x4f727068; 0x65616e42; 0x65686f6c; 0x64657253; 0x63727944; 0x6f756274].

Definition to_be_bytes (w : Z) : list Z :=
  [u8 (Z.shiftr w 24); u8 (Z.shiftr w 16); u8 (Z.shiftr w 8); u8 w].

Definition bytes_of (s : string) : list Z := map (λ b, Z.of_N (byte_val b)) (as_bytes s).

(** The password up to 72 bytes, and a NUL. *)
Definition bcrypt_key (password : string) : list Z := take 72 (bytes_of password) ++ [0].

Definition encrypt_pair (bf : Bf) (ct : list Z) (i : nat) : list Z :=
  let '(l, r) := encrypt bf (nth i ct 0) (nth (S i) ct 0) in <[S i := r]> (<[i := l]> ct).

Definition eks_setup (cost : N) (salt key : list Z) (bf : Bf) : Bf :=
  let zero := replicate 16 0 in
  N.iter (N.shiftl 1 cost) (λ bf, expand_key zero salt (expand_key zero key bf))
    (expand_key salt key bf).

Definition bcrypt_with (bf : Bf) (cost : N) (salt : list Z) (password : string) : list Z :=
  let bf := eks_setup cost salt (bcrypt_key password) bf in
  let ct := Nat.iter 64 (λ ct, foldl (encrypt_pair bf) ct (evens 6)) MAGIC in
  take 23 (concat (map to_be_bytes ct)).

Definition bcrypt_raw (cost : N) (salt : list Z) (password : string) : option (list Z) :=
  bf ← bf_init (); Some (bcrypt_with bf cost salt password).

(** ** Base64 *)

Definition B64 : string := "./ABCDEFGHIJKLMNOPQRSTUVWXYZabcdefghijklmnopqrstuvwxyz0123456789".

Definition b64_char (i : Z) : ascii := default "."%char (String.get (Z.to_nat i) B64).

Fixpoint b64_encode (data : list Z) : string :=
  match data with
  | [] => ""
  | [b0] => String (b64_char (Z.shiftr b0 2)) (chr (b64_char (Z.shiftl (Z.land b0 3) 4)))
  | [b0; b1] =>
      String (b64_char (Z.shiftr b0 2))
        (String (b64_char (Z.lor (Z.shiftl (Z.land b0 3) 4) (Z.shiftr b1 4)))
           (chr (b64_char (Z.shiftl (Z.land b1 15) 2))))
  | b0 :: b1 :: b2 :: r =>
      String (b64_char (Z.shiftr b0 2))
        (String (b64_char (Z.lor (Z.shiftl (Z.land b0 3) 4) (Z.shiftr b1 4)))
           (String (b64_char (Z.lor (Z.shiftl (Z.land b1 15) 2) (Z.shiftr b2 6)))
              (String (b64_char (Z.land b2 63)) (b64_encode r))))
  end.

Fixpoint str_position (c : ascii) (s : string) : option nat :=
  match s with
  | "" => None
  | String x r => if Ascii.eqb x c then Some O else S <$> str_position c r
  end.

Definition b64_val (c : ascii) : option Z := Z.of_nat <$> str_position c B64.

Fixpoint b64_decode (s : string) (n : nat) : option (list Z) :=
  match n, s with
  | O, _ => Some []
  | S n1, String c0 (String c1 s1) =>
      v0 ← b64_val c0;
      v1 ← b64_val c1;
      let o0 := Z.lor (u8 (Z.shiftl v0 2)) (Z.shiftr v1 4) in
      match n1, s1 with
      | O, _ => Some [o0]
      | S n2, String c2 s2 =>
          v2 ← b64_val c2;
          let o1 := Z.lor (u8 (Z.shiftl (Z.land v1 15) 4)) (Z.shiftr v2 2) in
          match n2, s2 with
          | O, _ => Some [o0; o1]
          | S n3, String c3 s3 =>
              v3 ← b64_val c3;
              let o2 := Z.lor (u8 (Z.shiftl (Z.land v2 3) 6)) v3 in
              rest ← b64_decode s3 n3;
              Some (o0 :: o1 :: o2 :: rest)
          | _, _ => None
          end
      | _, _ => None
      end
  | _, _ => None
  end.

(** ** The two functions other modules call *)

Definition str_slice (i j : nat) (s : string) : string := str_take (j - i) (str_drop i s).

(** [rand] is the random salt, [None] when the generator fails. *)
Definition bcrypt_hash (rand : option (list Z)) (cost : N) (password : string) : option string :=
  let cost := N.min (N.max cost 4) 31 in
  salt ← rand;
  raw ← bcrypt_raw cost salt password;
  Some ("$2b$" +:+ pad_N 2 cost +:+ "$" +:+ b64_encode salt +:+ b64_encode raw).

Definition bcrypt_verify (stored password : string) : option bool :=
  if negb (str_len stored =? 60)%nat || negb (String.eqb (str_slice 0 2 stored) "$2") then Some false
  else if negb (String.eqb (str_slice 3 4 stored) "$") || negb (String.eqb (str_slice 6 7 stored) "$")
  then Some false
  else match parse_uint u32_max (str_slice 4 6 stored) with
  | None => Some false
  | Some cost =>
      if negb ((4 <=? cost)%N && (cost <=? 31)%N) then Some false
      else match b64_decode (str_slice 7 29 stored) 16 with
      | None => Some false
      | Some salt =>
          raw ← bcrypt_raw cost salt password;
          Some (String.eqb (b64_encode raw) (str_slice 29 60 stored))
      end
  end.
