(* ===== verification/Limbs.v ===== *)
(** * The fixed-point integers of the password hash are exact

    The limb arithmetic of [Bcrypt] against the integers it stands for: division,
    multiplication, addition and subtraction of lists of 32-bit limbs, within the
    bounds in which the machine words do not overflow. *)

From Stdlib Require Import ZArith.
From S2P Require Import Prelude Bcrypt.

Local Open Scope Z_scope.

(** ** What a list of limbs stands for *)

Definition W : Z := 2 ^ 32.

Fixpoint value (l : Big) : Z :=
  match l with [] => 0 | w :: r => w + W * value r end.

Definition word (w : Z) : Prop := 0 <= w < W.
Definition limbs_ok (l : Big) : Prop := Forall word l.

(** [W] to the number of limbs. *)
Definition span (l : Big) : Z := W ^ Z.of_nat (length l).

Lemma W_pos : 0 < W.
Proof. done. Qed.

Lemma span_pos l : 0 < span l.
Proof. apply Z.pow_pos_nonneg; [done|lia]. Qed.

Lemma span_cons w l : span (w :: l) = W * span l.
Proof. unfold span. cbn [length]. rewrite Nat2Z.inj_succ, Z.pow_succ_r by lia. done. Qed.

Lemma span_app a b : span (a ++ b) = span a * span b.
Proof. unfold span. rewrite length_app, Nat2Z.inj_add, Z.pow_add_r by lia. done. Qed.

Lemma span_length a b : length a = length b → span a = span b.
Proof. unfold span. by intros ->. Qed.

Lemma value_app a b : value (a ++ b) = value a + span a * value b.
Proof.
  induction a as [|w a IH]; [cbn; unfold span; cbn; lia|]. cbn [app value].
  rewrite IH, span_cons. lia.
Qed.

Lemma value_bound l : limbs_ok l → 0 <= value l < span l.
Proof.
  unfold limbs_ok. induction 1 as [|w l Hw Hl IH]; [done|]. cbn [value]. rewrite span_cons.
  unfold word in Hw. pose proof W_pos. nia.
Qed.

Lemma value_split n l : value l = value (take n l) + span (take n l) * value (drop n l).
Proof. by rewrite <-value_app, take_drop. Qed.

Lemma span_split n l : span l = span (take n l) * span (drop n l).
Proof. by rewrite <-span_app, take_drop. Qed.

Lemma limbs_take n l : limbs_ok l → limbs_ok (take n l).
Proof. apply Forall_take. Qed.
Lemma limbs_drop n l : limbs_ok l → limbs_ok (drop n l).
Proof. apply Forall_drop. Qed.
Lemma limbs_app a b : limbs_ok a → limbs_ok b → limbs_ok (a ++ b).
Proof. intros. by apply Forall_app. Qed.

Create HintDb limbs.
#[export] Hint Resolve limbs_take limbs_drop limbs_app value_bound : limbs.

Lemma value_zeros n : value (replicate n 0) = 0.
Proof. induction n as [|n IH]; cbn; [done|]. by rewrite IH. Qed.

Lemma limbs_zeros n : limbs_ok (replicate n 0).
Proof. apply Forall_replicate. done. Qed.

(** ** Machine words *)

Lemma u32_word x : word (u32 x).
Proof. apply Z.mod_pos_bound. done. Qed.

Lemma u32_small x : 0 <= x < W → u32 x = x.
Proof. apply Z.mod_small. Qed.

Lemma u64_small x : 0 <= x < W * W → u64 x = x.
Proof. apply Z.mod_small. Qed.

(** A limb and what is above it, put together by shift and or. *)
Lemma lor_disjoint n hi lo :
  0 <= n → 0 <= lo < 2 ^ n → Z.lor (Z.shiftl hi n) lo = 2 ^ n * hi + lo.
Proof.
  intros Hn Hl. pose proof (Z.add_lor_land (Z.shiftl hi n) lo) as E.
  assert (Z.land (Z.shiftl hi n) lo = 0) as E0.
  { apply Z.bits_inj'. intros i Hi. rewrite Z.land_spec, Z.bits_0, Z.shiftl_spec by lia.
    destruct (Z.lt_ge_cases i n) as [Hlt|Hge].
    - by rewrite Z.testbit_neg_r by lia.
    - rewrite <-(Z.mod_small lo (2 ^ n)), Z.mod_pow2_bits_high by lia. apply andb_false_r. }
  rewrite Z.shiftl_mul_pow2 in * by lia. lia.
Qed.

(** ** Division by a small number *)

Lemma div_limbs_spec d l :
  0 < d <= W → limbs_ok l →
  limbs_ok (div_limbs d l).1 ∧ length (div_limbs d l).1 = length l
  ∧ value (div_limbs d l).1 = value l / d ∧ (div_limbs d l).2 = value l mod d.
Proof.
  intros Hd. unfold limbs_ok. induction 1 as [|w l Hw Hl (IHq & IHl & IHv & IHr)].
  { cbn. by rewrite Z.div_0_l, Z.mod_0_l by lia. }
  cbn [div_limbs]. destruct (div_limbs d l) as [q rem]. cbn [fst snd] in *.
  assert (0 <= rem < d) as Hr by (subst rem; apply Z.mod_pos_bound; lia).
  assert (Z.lor (u64 (Z.shiftl rem 32)) w = W * rem + w) as ->.
  { rewrite u64_small; [by apply (lor_disjoint 32)|].
    rewrite Z.shiftl_mul_pow2 by lia. change (2 ^ 32) with W. nia. }
  pose proof (Z.div_mod (value l) d ltac:(lia)) as E. rewrite <-IHv, <-IHr in E.
  assert (0 <= (W * rem + w) / d < W) as Hq.
  { unfold word in Hw. split; [apply Z.div_pos; nia|]. apply Z.div_lt_upper_bound; nia. }
  rewrite (u32_small _ Hq). cbn [value length].
  pose proof (Z.div_mod (W * rem + w) d ltac:(lia)) as E2.
  pose proof (Z.mod_pos_bound (W * rem + w) d ltac:(lia)).
  split_and!.
  - by constructor.
  - by rewrite IHl.
  - apply (Z.div_unique_pos _ _ _ ((W * rem + w) mod d)); nia.
  - apply (Z.mod_unique_pos _ _ (value q * W + (W * rem + w) / d)); nia.
Qed.

(** Everything above the limb [hi] is zero. *)
Definition fits (hi : nat) (b : Big) : Prop := value (drop (S hi) b) = 0.

Lemma fits_value hi b : fits hi b → value b = value (take (S hi) b).
Proof. intros H. rewrite (value_split (S hi) b), H. lia. Qed.

Lemma div_small_upto_spec d hi b :
  0 < d <= W → limbs_ok b → fits hi b →
  limbs_ok (div_small_upto d hi b) ∧ length (div_small_upto d hi b) = length b
  ∧ value (div_small_upto d hi b) = value b / d ∧ fits hi (div_small_upto d hi b).
Proof.
  intros Hd Hb Hf. unfold div_small_upto.
  destruct (div_limbs_spec d (take (S hi) b) Hd ltac:(auto with limbs)) as (Ho & Hl & Hv & _).
  set (q := (div_limbs d (take (S hi) b)).1) in *. split_and!.
  - auto with limbs.
  - by rewrite length_app, Hl, <-length_app, take_drop.
  - rewrite value_app, Hf, Hv, (fits_value hi b Hf). lia.
  - unfold fits. destruct (decide (S hi <= length b)%nat) as [Hle|Hlt].
    + rewrite drop_app_length' by (rewrite Hl, length_take; lia). done.
    + rewrite drop_ge; [done|]. rewrite length_app, Hl, length_take, length_drop. lia.
Qed.

(** ** Multiplication by a small number *)

Lemma mul_limbs_spec m carry l :
  0 <= m < W → 0 <= carry < W → limbs_ok l →
  limbs_ok (mul_limbs m carry l) ∧ length (mul_limbs m carry l) = length l
  ∧ value (mul_limbs m carry l) = (value l * m + carry) mod span l.
Proof.
  intros Hm Hc Hl. revert carry Hc. unfold limbs_ok in *. induction Hl as [|w l Hw Hl IH]; intros carry Hc.
  { cbn. unfold span. cbn. by rewrite Z.mod_1_r. }
  unfold word in Hw. cbn [mul_limbs]. rewrite u64_small by nia.
  set (cur := w * m + carry). assert (0 <= cur < W * W) as Hcur by (unfold cur; nia).
  rewrite Z.shiftr_div_pow2 by lia. change (2 ^ 32) with W.
  assert (0 <= cur / W < W) as Hdiv.
  { split; [apply Z.div_pos; lia|]. apply Z.div_lt_upper_bound; lia. }
  destruct (IH _ Hdiv) as (Ho & Hlen & Hv). cbn [value length]. split_and!.
  - constructor; [apply u32_word|done].
  - by rewrite Hlen.
  - rewrite Hv, span_cons. unfold u32. change (2 ^ 32) with W. pose proof (span_pos l).
    symmetry. rewrite Z.rem_mul_r by lia.
    pose proof (Z.div_mod cur W ltac:(lia)) as E.
    replace ((w + W * value l) * m + carry) with (cur + (value l * m) * W) by (unfold cur; ring).
    rewrite Z.div_add, Z.mod_add by lia. f_equal. do 2 f_equal. lia.
Qed.

(** ** Addition *)

Lemma add_limbs_spec carry a o :
  0 <= carry <= 1 → length a = length o → limbs_ok a → limbs_ok o →
  limbs_ok (add_limbs carry a o).1 ∧ length (add_limbs carry a o).1 = length a
  ∧ 0 <= (add_limbs carry a o).2 <= 1
  ∧ value (add_limbs carry a o).1 + span a * (add_limbs carry a o).2 = value a + value o + carry.
Proof.
  intros Hc Hlen Ha. revert o carry Hc Hlen. unfold limbs_ok. induction Ha as [|x a Hx Ha IH];
    intros [|y o] carry Hc Hlen Ho; try done.
  { cbn. unfold span. cbn. split_and!; try done; lia. }
  cbn in Hlen. apply Forall_cons in Ho as [Hy Ho]. unfold word in Hx, Hy. cbn [add_limbs].
  rewrite u64_small by (unfold W in *; lia). rewrite Z.shiftr_div_pow2 by lia. change (2 ^ 32) with W.
  set (s := x + y + carry). pose proof (Z.div_mod s W ltac:(unfold W; lia)) as E.
  assert (0 <= s / W <= 1) as Hd.
  { split; [apply Z.div_pos; unfold s, W in *; lia|].
    apply Z.lt_succ_r, Z.div_lt_upper_bound; unfold s, W in *; lia. }
  specialize (IH o _ Hd ltac:(lia) Ho). destruct (add_limbs _ a o) as [l c]. cbn [fst snd value length] in *.
  destruct IH as (I1 & I2 & I3 & I4). split_and!; try lia.
  - constructor; [apply u32_word|done].
  - rewrite span_cons. unfold u32. change (2 ^ 32) with W. unfold s in *. nia.
Qed.

Lemma carry_limbs_spec carry l :
  0 <= carry <= 1 → limbs_ok l →
  limbs_ok (carry_limbs carry l) ∧ length (carry_limbs carry l) = length l
  ∧ value (carry_limbs carry l) = (value l + carry) mod span l.
Proof.
  intros Hc Hl. revert carry Hc. unfold limbs_ok in *. induction Hl as [|w l Hw Hl IH]; intros carry Hc.
  { cbn. unfold span. cbn. by rewrite Z.mod_1_r. }
  cbn [carry_limbs]. destruct (Z.eqb_spec carry 0) as [->|Hne].
  { split_and!; [by constructor|done|]. rewrite Z.add_0_r, Z.mod_small; [done|].
    apply value_bound. by constructor. }
  unfold word in Hw. rewrite u64_small by (unfold W in *; lia). rewrite Z.shiftr_div_pow2 by lia.
  change (2 ^ 32) with W. set (s := w + carry). pose proof (Z.div_mod s W ltac:(unfold W; lia)) as E.
  assert (0 <= s / W <= 1) as Hd.
  { split; [apply Z.div_pos; unfold s, W in *; lia|].
    apply Z.lt_succ_r, Z.div_lt_upper_bound; unfold s, W in *; lia. }
  destruct (IH _ Hd) as (I1 & I2 & I3). cbn [value length]. split_and!.
  - constructor; [apply u32_word|done].
  - by rewrite I2.
  - rewrite I3, span_cons. unfold u32. change (2 ^ 32) with W. pose proof (span_pos l). pose proof W_pos.
    symmetry. rewrite Z.rem_mul_r by lia.
    replace (w + W * value l + carry) with (s + value l * W) by (unfold s; ring).
    rewrite Z.div_add, Z.mod_add by lia. f_equal. do 2 f_equal. lia.
Qed.

Lemma add_assign_upto_spec b o hi :
  length b = length o → limbs_ok b → limbs_ok o →
  let r := add_assign_upto b o hi in
  limbs_ok r ∧ length r = length b
  ∧ (value b + value (take (S hi) o) < span b → value r = value b + value (take (S hi) o)).
Proof.
  intros Hlen Hb Ho. unfold add_assign_upto. cbn zeta.
  destruct (add_limbs_spec 0 (take (S hi) b) (take (S hi) o) ltac:(lia)
              ltac:(rewrite !length_take; lia) ltac:(auto with limbs) ltac:(auto with limbs))
    as (I1 & I2 & I3 & I4).
  destruct (add_limbs 0 _ _) as [l c]. cbn [fst snd] in *.
  destruct (carry_limbs_spec c (drop (S hi) b) I3 ltac:(auto with limbs)) as (J1 & J2 & J3).
  split_and!; [auto with limbs|by rewrite length_app, I2, J2, <-length_app, take_drop|].
  intros Hlt. rewrite value_app, J3, (span_length l (take (S hi) b) I2). rewrite Z.mod_small.
  - rewrite (value_split (S hi) b). lia.
  - pose proof (value_bound _ (limbs_drop (S hi) b Hb)). split; [lia|].
    pose proof (value_bound _ I1) as Bl. rewrite (span_length l (take (S hi) b) I2) in Bl.
    rewrite (value_split (S hi) b), (span_split (S hi) b) in Hlt.
    pose proof (span_pos (take (S hi) b)). nia.
Qed.

(** ** Subtraction *)

Lemma borrow_out_spec d :
  - W <= d < W →
  word (borrow_out d).1 ∧ 0 <= (borrow_out d).2 <= 1 ∧ (borrow_out d).1 - W * (borrow_out d).2 = d.
Proof.
  intros Hd. unfold borrow_out. destruct (Z.ltb_spec d 0) as [H|H]; cbn [fst snd];
    rewrite u32_small by (unfold W in *; lia); unfold word, W in *; lia.
Qed.

Lemma sub_limbs_spec borrow a o :
  0 <= borrow <= 1 → length a = length o → limbs_ok a → limbs_ok o →
  limbs_ok (sub_limbs borrow a o).1 ∧ length (sub_limbs borrow a o).1 = length a
  ∧ 0 <= (sub_limbs borrow a o).2 <= 1
  ∧ value (sub_limbs borrow a o).1 - span a * (sub_limbs borrow a o).2 = value a - value o - borrow.
Proof.
  intros Hc Hlen Ha. revert o borrow Hc Hlen. unfold limbs_ok. induction Ha as [|x a Hx Ha IH];
    intros [|y o] borrow Hc Hlen Ho; try done.
  { cbn. unfold span. cbn. split_and!; try done; lia. }
  cbn in Hlen. apply Forall_cons in Ho as [Hy Ho]. unfold word in Hx, Hy. cbn [sub_limbs].
  destruct (borrow_out_spec (x - y - borrow) ltac:(lia)) as (Hw & Hb & E).
  destruct (borrow_out _) as [w b']. cbn [fst snd] in *.
  specialize (IH o _ Hb ltac:(lia) Ho). destruct (sub_limbs _ a o) as [l c]. cbn [fst snd value length] in *.
  destruct IH as (I1 & I2 & I3 & I4). split_and!; try lia; [by constructor|]. rewrite span_cons. nia.
Qed.

Lemma borrow_limbs_spec borrow l :
  0 <= borrow <= 1 → limbs_ok l → borrow <= value l →
  limbs_ok (borrow_limbs borrow l) ∧ length (borrow_limbs borrow l) = length l
  ∧ value (borrow_limbs borrow l) = value l - borrow.
Proof.
  intros Hc Hl. revert borrow Hc. unfold limbs_ok in *. induction Hl as [|w l Hw Hl IH]; intros borrow Hc Hle.
  { cbn in *. split_and!; try done; lia. }
  cbn [borrow_limbs]. destruct (Z.eqb_spec borrow 0) as [->|Hne].
  { split_and!; [by constructor|done|lia]. }
  unfold word in Hw. destruct (borrow_out_spec (w - borrow) ltac:(unfold W in *; lia)) as (Hw' & Hb & E).
  destruct (borrow_out _) as [w' b']. cbn [fst snd value length] in *.
  destruct (IH b' Hb) as (I1 & I2 & I3); [unfold word, W in *; lia|].
  split_and!; [by constructor|by rewrite I2|]. rewrite I3. lia.
Qed.

Lemma sub_assign_upto_spec b o hi :
  length b = length o → limbs_ok b → limbs_ok o → value (take (S hi) o) <= value b →
  let r := sub_assign_upto b o hi in
  limbs_ok r ∧ length r = length b ∧ value r = value b - value (take (S hi) o).
Proof.
  intros Hlen Hb Ho Hle. unfold sub_assign_upto. cbn zeta.
  destruct (sub_limbs_spec 0 (take (S hi) b) (take (S hi) o) ltac:(lia)
              ltac:(rewrite !length_take; lia) ltac:(auto with limbs) ltac:(auto with limbs))
    as (I1 & I2 & I3 & I4).
  destruct (sub_limbs 0 _ _) as [l c]. cbn [fst snd] in *.
  pose proof (value_bound _ I1) as Bl. rewrite (span_length l (take (S hi) b) I2) in Bl.
  pose proof (span_pos (take (S hi) b)). rewrite (value_split (S hi) b) in Hle.
  destruct (borrow_limbs_spec c (drop (S hi) b) I3 ltac:(auto with limbs)) as (J1 & J2 & J3).
  { pose proof (value_bound _ (limbs_drop (S hi) b Hb)).
    assert (c = 0 ∨ c = 1) as [-> | ->] by lia; [lia|].
    destruct (Z.eq_dec (value (drop (S hi) b)) 0) as [E|E]; [rewrite E in *; lia|lia]. }
  split_and!; [auto with limbs|by rewrite length_app, I2, J2, <-length_app, take_drop|].
  rewrite value_app, J3, (span_length l (take (S hi) b) I2), (value_split (S hi) b). lia.
Qed.

Lemma sub_assign_spec b o :
  length b = length o → limbs_ok b → limbs_ok o → value o <= value b →
  limbs_ok (sub_assign b o) ∧ length (sub_assign b o) = length b ∧ value (sub_assign b o) = value b - value o.
Proof.
  intros Hlen Hb Ho Hle. unfold sub_assign.
  destruct (sub_limbs_spec 0 b o ltac:(lia) Hlen Hb Ho) as (I1 & I2 & I3 & I4). split_and!; try done.
  pose proof (value_bound _ I1) as Bl. rewrite (span_length _ b I2) in Bl. pose proof (span_pos b).
  assert ((sub_limbs 0 b o).2 = 0 ∨ (sub_limbs 0 b o).2 = 1) as [E|E] by lia; rewrite E in I4; lia.
Qed.

(** ** The position of the highest limb *)

Lemma fits_S h b : limb b (S h) = 0 → fits (S h) b → fits h b.
Proof.
  unfold fits, limb. intros Hl Hf. destruct (b !! S h) as [w|] eqn:E.
  - rewrite (drop_S _ _ _ E). cbn in *. subst w. rewrite Hf. lia.
  - rewrite drop_ge; [done|]. by apply lookup_ge_None in E.
Qed.

Lemma lower_hi_fits b hi : fits hi b → fits (lower_hi b hi) b.
Proof.
  induction hi as [|h IH]; intros Hf; cbn [lower_hi]; [done|].
  destruct (Z.eqb_spec (limb b (S h)) 0) as [E|_]; [|done]. by apply IH, fits_S.
Qed.

Lemma lower_hi_le b hi : (lower_hi b hi <= hi)%nat.
Proof. induction hi as [|h IH]; cbn [lower_hi]; [done|]. destruct (_ =? _); lia. Qed.

Lemma lower_hi_top b hi : lower_hi b hi ≠ 0%nat → limb b (lower_hi b hi) ≠ 0.
Proof.
  induction hi as [|h IH]; cbn [lower_hi]; [done|].
  destruct (Z.eqb_spec (limb b (S h)) 0) as [E|E]; [apply IH|done].
Qed.

Lemma limb_value b i : limbs_ok b → limb b i ≠ 0 → value b ≠ 0.
Proof.
  unfold limb. intros Hb Hn. destruct (b !! i) as [w|] eqn:E; [|done]. cbn in Hn.
  rewrite (value_split i b), (drop_S _ _ _ E). cbn [value].
  pose proof (value_bound _ (limbs_take i b Hb)). pose proof (value_bound _ (limbs_drop (S i) b Hb)).
  pose proof (span_pos (take i b)). unfold limbs_ok in Hb. rewrite Forall_lookup in Hb.
  specialize (Hb _ _ E). unfold word in Hb. pose proof W_pos. nia.
Qed.

(** The test with which the loop ends. *)
Lemma lower_hi_zero b hi :
  limbs_ok b → fits hi b →
  ((lower_hi b hi =? 0)%nat && (limb b 0 =? 0) = true ↔ value b = 0).
Proof.
  intros Hb Hf. pose proof (lower_hi_fits b hi Hf) as Hf'.
  rewrite andb_true_iff, Nat.eqb_eq, Z.eqb_eq. split.
  - intros [E0 E1]. rewrite E0 in Hf'. rewrite (fits_value 0 b Hf'). unfold limb in E1.
    destruct b as [|w b]; [done|]. cbn in E1. subst w. cbn [take value]. rewrite take_0. cbn. lia.
  - intros Hv. destruct (decide (lower_hi b hi = 0%nat)) as [E|E].
    + split; [done|]. destruct (decide (limb b 0 = 0)) as [|Hn]; [done|].
      by destruct (limb_value b 0 Hb Hn).
    + by destruct (limb_value b _ Hb (lower_hi_top b hi E)).
Qed.
