(* ===== verification/PiDigits.v ===== *)
(** * The constants of the cipher are the digits of pi

    The loop of [Bcrypt.atan_inv] ends and computes the alternating sum of the
    integer quotients of the arctangent series; Machin's formula then bounds the
    distance between the 1042 words of [Bcrypt.pi_words] and pi. *)

From Stdlib Require Import ZArith.
From S2P Require Import Prelude Bcrypt Limbs.

Local Open Scope Z_scope.

(** ** Numbers of the full length *)

Definition big (b : Big) : Prop := limbs_ok b ∧ length b = NLIMB.

Lemma big_span b : length b = NLIMB → 2 ^ BITS < span b.
Proof.
  intros E. unfold span. rewrite E. unfold W. rewrite <-Z.pow_mul_r by lia.
  apply Z.pow_lt_mono_r; [lia|by vm_compute|by vm_compute].
Qed.

(** ** Powers of two *)

Lemma value_alter i v n :
  (i < n)%nat → word v → limbs_ok (alter (λ w, Z.lor w v) i (replicate n 0))
  ∧ value (alter (λ w, Z.lor w v) i (replicate n 0)) = W ^ Z.of_nat i * v.
Proof.
  intros Hi Hv. revert i Hi. unfold limbs_ok. induction n as [|n IH]; intros i Hi; [lia|].
  destruct i as [|i].
  - cbn [replicate alter list_alter value]. rewrite Z.lor_0_l, value_zeros. split; [|cbn; lia].
    constructor; [done|apply limbs_zeros].
  - destruct (IH i ltac:(lia)) as [I1 I2]. cbn [replicate]. change (alter ?f (S i) (0 :: ?l)) with (0 :: alter f i l).
    split; [by constructor|]. cbn [value]. rewrite I2, Nat2Z.inj_succ, Z.pow_succ_r by lia. lia.
Qed.

Lemma pow2_bits : big (pow2 BITS) ∧ value (pow2 BITS) = 2 ^ BITS.
Proof.
  unfold pow2. change (Z.shiftl 1 (BITS mod 32)) with 1.
  destruct (value_alter (Z.to_nat (BITS / 32)) 1 NLIMB) as [I1 I2]; [apply Nat.ltb_lt; by vm_compute|done|].
  split; [split; [done|]|].
  - unfold big_zero. by rewrite length_alter, length_replicate.
  - unfold big_zero. rewrite I2. unfold W. rewrite <-Z.pow_mul_r by lia. rewrite Z.mul_1_r. f_equal.
Qed.

(** ** The series over the integers *)

Section series.
Context (x : Z) (x_low : 2 <= x) (x_high : x * x <= W).

Definition term_z (k : nat) : Z := 2 ^ BITS / x ^ (2 * Z.of_nat k + 1).
Definition quot_z (k : nat) : Z := term_z k / (2 * Z.of_nat k + 1).

(** The sum of the first [n] terms, with alternating signs. *)
Fixpoint psum (n : nat) : Z :=
  match n with
  | O => 0
  | S m => if Z.of_nat m mod 2 =? 0 then psum m + quot_z m else psum m - quot_z m
  end.

Lemma pow_pos k : 0 < x ^ (2 * Z.of_nat k + 1).
Proof. apply Z.pow_pos_nonneg; lia. Qed.

Lemma term_nonneg k : 0 <= term_z k.
Proof. apply Z.div_pos; [apply Z.pow_nonneg; lia|apply pow_pos]. Qed.

Lemma term_S k : term_z (S k) = term_z k / (x * x).
Proof.
  unfold term_z. pose proof (pow_pos k). rewrite Z.div_div by lia. f_equal.
  replace (2 * Z.of_nat (S k) + 1) with (2 * Z.of_nat k + 1 + 2) by lia.
  rewrite Z.pow_add_r by lia. by rewrite Z.pow_2_r.
Qed.

Lemma term_decreasing k : term_z (S k) <= term_z k.
Proof. rewrite term_S. pose proof (term_nonneg k). apply Z.div_le_upper_bound; nia. Qed.

Lemma quot_nonneg k : 0 <= quot_z k.
Proof. apply Z.div_pos; [apply term_nonneg|lia]. Qed.

Lemma quot_decreasing k : quot_z (S k) <= quot_z k.
Proof.
  unfold quot_z. etrans; [apply Z.div_le_mono; [lia|apply term_decreasing]|].
  apply Z.div_le_compat_l; [apply term_nonneg|lia].
Qed.

Lemma even_S m : (Z.of_nat (S m) mod 2 =? 0) = negb (Z.of_nat m mod 2 =? 0).
Proof.
  rewrite Nat2Z.inj_succ. pose proof (Z.mod_pos_bound (Z.of_nat m) 2 ltac:(lia)).
  destruct (Z.eqb_spec (Z.of_nat m mod 2) 0) as [E|E]; cbn [negb].
  - apply Z.eqb_neq. intros E'. pose proof (Z.div_mod (Z.of_nat m) 2 ltac:(lia)).
    pose proof (Z.div_mod (Z.succ (Z.of_nat m)) 2 ltac:(lia)). lia.
  - apply Z.eqb_eq. pose proof (Z.div_mod (Z.of_nat m) 2 ltac:(lia)).
    pose proof (Z.mod_pos_bound (Z.succ (Z.of_nat m)) 2 ltac:(lia)).
    pose proof (Z.div_mod (Z.succ (Z.of_nat m)) 2 ltac:(lia)). lia.
Qed.

(** The partial sums stay between zero and the first term, and never owe more
    than they have. *)
Lemma psum_bounds n :
  0 <= psum n <= quot_z 0
  ∧ (if Z.of_nat n mod 2 =? 0 then psum n + quot_z n <= quot_z 0 else quot_z n <= psum n).
Proof.
  induction n as [|m [IH1 IH2]].
  { change (psum 0) with 0. change (Z.of_nat 0 mod 2 =? 0) with true. cbn match.
    pose proof (quot_nonneg 0). lia. }
  pose proof (quot_nonneg m). pose proof (quot_decreasing m). pose proof (quot_nonneg (S m)).
  rewrite even_S. cbn [psum]. destruct (_ =? 0); cbn [negb]; lia.
Qed.

Lemma term_0_bound : term_z 0 <= 2 ^ BITS.
Proof.
  unfold term_z. assert (0 < 2 ^ BITS) as H by (by apply Z.pow_pos_nonneg).
  change (2 * Z.of_nat 0 + 1) with 1. rewrite Z.pow_1_r. revert H. generalize (2 ^ BITS). intros p Hp. apply Z.div_le_upper_bound; nia.
Qed.

Lemma quot_0_bound : quot_z 0 <= 2 ^ BITS.
Proof.
  etrans; [|apply term_0_bound]. unfold quot_z. pose proof (term_nonneg 0).
  change (2 * Z.of_nat 0 + 1) with 1. by rewrite Z.div_1_r.
Qed.

(** A term that is not zero has an index below the number of bits. *)
Lemma term_pos_index k : 0 < term_z k → 2 * Z.of_nat k + 1 <= BITS.
Proof.
  intros Hp. destruct (Z.le_gt_cases (2 * Z.of_nat k + 1) BITS) as [|Hgt]; [done|]. exfalso.
  assert (term_z k = 0) as E; [|lia]. apply Z.div_small.
  split; [apply Z.pow_nonneg; lia|]. eapply Z.lt_le_trans; [apply (Z.pow_lt_mono_r 2 BITS (2 * Z.of_nat k + 1)); lia|].
  apply Z.pow_le_mono_l. lia.
Qed.

(** ** The loop computes it *)

(** The state at the beginning of turn [k]. *)
Record at_turn (k : nat) (s : Series) : Prop := mkAt {
  at_term : big (sr_term s) ∧ value (sr_term s) = term_z k ∧ fits (sr_hi s) (sr_term s);
  at_sum : big (sr_sum s) ∧ value (sr_sum s) = psum k;
  at_c : big (sr_c s);
  at_k : sr_k s = Z.of_nat k }.

(** The scratch buffer holds the quotient in the limbs that are used. *)
Lemma splice_quotient d hi t c :
  0 < d <= W → limbs_ok t → limbs_ok c → length t = length c → fits hi t →
  let q := div_small_upto d hi (take (S hi) t ++ drop (S hi) c) in
  limbs_ok q ∧ length q = length t ∧ value (take (S hi) q) = value t / d.
Proof.
  intros Hd Ht Hc Hlen Hf. unfold div_small_upto. cbn zeta.
  assert (take (S hi) (take (S hi) t ++ drop (S hi) c) = take (S hi) t) as ->.
  { rewrite take_app, length_take, take_take, Nat.min_id.
    replace (take _ (drop _ c)) with (@nil Z); [apply app_nil_r|].
    destruct (decide (S hi <= length t)%nat); [by replace (S hi - S hi `min` length t)%nat with 0%nat by lia|].
    by rewrite drop_ge, take_nil by lia. }
  assert (drop (S hi) (take (S hi) t ++ drop (S hi) c) = drop (S hi) c) as ->.
  { destruct (decide (S hi <= length t)%nat).
    - rewrite drop_app_length'; [done|]. rewrite length_take. lia.
    - rewrite !drop_ge; [done|lia|]. rewrite length_app, length_take, length_drop. lia. }
  destruct (div_limbs_spec d (take (S hi) t) Hd ltac:(auto with limbs)) as (Ho & Hl & Hv & _).
  split_and!.
  - auto with limbs.
  - rewrite length_app, Hl, length_take, length_drop. lia.
  - rewrite take_app, take_ge by (rewrite Hl, length_take; lia).
    rewrite Hl, length_take. replace (take _ (drop _ c)) with (@nil Z).
    + by rewrite app_nil_r, Hv, (fits_value hi t Hf).
    + destruct (decide (S hi <= length t)%nat);
        [by replace (S hi - S hi `min` length t)%nat with 0%nat by lia|by rewrite drop_ge, take_nil by lia].
Qed.

Lemma turn_sum k s c :
  at_turn k s → limbs_ok c → length c = NLIMB → value (take (S (sr_hi s)) c) = quot_z k →
  let sum := if sr_k s mod 2 =? 0 then add_assign_upto (sr_sum s) c (sr_hi s)
             else sub_assign_upto (sr_sum s) c (sr_hi s) in
  big sum ∧ value sum = psum (S k).
Proof.
  intros [_ [[So Sl] Sv] _ Ek] Hc Hl Hq. cbn zeta. rewrite Ek. cbn [psum].
  destruct (psum_bounds k) as [B1 B2]. pose proof (quot_nonneg k). pose proof quot_0_bound.
  pose proof (big_span _ Sl). destruct (Z.of_nat k mod 2 =? 0) eqn:E.
  - destruct (add_assign_upto_spec (sr_sum s) c (sr_hi s) ltac:(congruence) So Hc) as (I1 & I2 & I3).
    rewrite Hq, Sv in I3. split; [split; [done|congruence]|]. apply I3. lia.
  - destruct (sub_assign_upto_spec (sr_sum s) c (sr_hi s) ltac:(congruence) So Hc) as (I1 & I2 & I3);
      [rewrite Hq, Sv; lia|]. rewrite Hq, Sv in I3. split; [split; [done|congruence]|done].
Qed.

Lemma series_turn_spec k s :
  at_turn k s → 0 < term_z k →
  (∃ s', series_turn (x * x) s = inl s' ∧ at_turn (S k) s' ∧ 0 < term_z (S k))
  ∨ (∃ b, series_turn (x * x) s = inr b ∧ big b ∧ value b = psum (S k) ∧ term_z (S k) = 0).
Proof.
  intros A Hp. pose proof A as [[[To Tl] [Tv Tf]] _ [Co Cl] Ek].
  assert (0 < 2 * sr_k s + 1 <= W) as Hd.
  { pose proof (term_pos_index k Hp). rewrite Ek. unfold BITS, W in *. lia. }
  destruct (splice_quotient (2 * sr_k s + 1) (sr_hi s) (sr_term s) (sr_c s) Hd To Co ltac:(congruence) Tf)
    as (Qo & Ql & Qv). unfold series_turn. cbn zeta.
  set (c := div_small_upto (2 * sr_k s + 1) (sr_hi s) _) in *.
  destruct (turn_sum k s c A Qo ltac:(congruence)) as [Sb Sv].
  { rewrite Qv, Tv, Ek. unfold quot_z. reflexivity. }
  cbn zeta in Sb, Sv. set (sum := if _ =? 0 then _ else _) in *.
  destruct (div_small_upto_spec (x * x) (sr_hi s) (sr_term s) ltac:(nia) To Tf) as (Do & Dl & Dv & Df).
  set (t := div_small_upto (x * x) (sr_hi s) (sr_term s)) in *.
  assert (value t = term_z (S k)) as Et by (by rewrite Dv, Tv, term_S).
  pose proof (lower_hi_zero t (sr_hi s) Do Df) as Hz. pose proof (term_nonneg (S k)).
  destruct (_ && _).
  - right. exists sum. split_and!; [done|done|done|]. rewrite <-Et. by apply Hz.
  - left. eexists. split_and!; [done| |].
    + split; cbn [sr_term sr_sum sr_c sr_k sr_hi]; [|done|split; congruence|lia].
      split_and!; [split; congruence|done|by apply lower_hi_fits].
    + assert (term_z (S k) ≠ 0); [|lia]. rewrite <-Et. intros E. by apply Hz in E.
Qed.

Lemma series_loop_spec fuel k s :
  at_turn k s → 0 < term_z k → BITS < Z.of_nat fuel + Z.of_nat k →
  ∃ b n, series_loop fuel (x * x) s = Some b ∧ big b ∧ value b = psum (S n) ∧ term_z (S n) = 0
         ∧ 2 * Z.of_nat n + 1 <= BITS.
Proof.
  revert k s. induction fuel as [|fuel IH]; intros k s A Hp Hf; pose proof (term_pos_index k Hp).
  { lia. }
  cbn [series_loop]. destruct (series_turn_spec k s A Hp) as [(s' & -> & A' & Hp')|(b & -> & Hb & Hv & Hz)].
  - apply (IH (S k)); [done|done|lia].
  - exists b, k. done.
Qed.

End series.

(** [atan_inv] always returns, and its result is a partial sum whose next term
    is smaller than the last bit. *)
Lemma atan_inv_spec x :
  2 <= x → x * x <= W →
  ∃ b n, atan_inv x = Some b ∧ big b ∧ value b = psum x (S n) ∧ term_z x (S n) = 0
         ∧ 2 * Z.of_nat n + 1 <= BITS.
Proof.
  intros Hlo Hhi. destruct pow2_bits as [[Po Pl] Pv].
  assert (fits (NLIMB - 1) (pow2 BITS)) as Pf.
  { unfold fits. rewrite drop_ge; [done|]. rewrite Pl. apply Nat.leb_le. by vm_compute. }
  destruct (div_small_upto_spec x (NLIMB - 1) (pow2 BITS) ltac:(nia) Po Pf) as (Do & Dl & Dv & Df).
  assert (term_z x 0 = 2 ^ BITS / x) as E0.
  { unfold term_z. change (2 * Z.of_nat 0 + 1) with 1. by rewrite Z.pow_1_r. }
  unfold atan_inv. apply (series_loop_spec x Hlo Hhi _ 0).
  - split; cbn [sr_term sr_sum sr_c sr_k sr_hi].
    + rewrite E0, <-Pv, <-Dv. split_and!; [split; [exact Do|exact (eq_trans Dl Pl)]|reflexivity|exact Df].
    + split; [|apply value_zeros]. split; [apply limbs_zeros|apply length_replicate].
    + split; [apply limbs_zeros|apply length_replicate].
    + reflexivity.
  - rewrite E0. apply Z.div_str_pos. split; [lia|]. etrans; [exact (ltac:(nia) : x <= W)|].
    unfold W. apply Z.pow_le_mono_r; [lia|]. by vm_compute.
  - unfold series_fuel, BITS. lia.
Qed.

Lemma mul_big m b :
  0 <= m <= 16 → big b → value b <= 2 ^ BITS → big (mul_small m b) ∧ value (mul_small m b) = m * value b.
Proof.
  intros Hm [Bo Bl] Hle. destruct (mul_limbs_spec m 0 b ltac:(unfold W; lia) ltac:(unfold W; lia) Bo)
    as (I1 & I2 & I3). split; [split; [done|unfold mul_small; congruence]|].
  unfold mul_small. rewrite I3, Z.mod_small; [lia|]. pose proof (value_bound b Bo). split; [nia|].
  assert (W * 2 ^ BITS <= span b) as Hs.
  { unfold span, W. rewrite Bl, <-Z.pow_mul_r, <-Z.pow_add_r by (vm_compute; congruence).
    apply Z.pow_le_mono_r; [lia|]. by vm_compute. }
  revert Hle Hs. generalize (2 ^ BITS). intros p Hle Hs. unfold W in Hs. nia.
Qed.

(** The words of a list read as one number, the first word the most significant. *)
Definition be_value (ws : list Z) : Z := foldl (λ acc w, acc * W + w) 0 ws.

Lemma be_value_rev l : be_value (rev l) = value l.
Proof.
  unfold be_value. induction l as [|w l IH]; [done|]. cbn [rev value]. rewrite foldl_app. cbn [foldl].
  rewrite IH. lia.
Qed.

Lemma pi_words_of (b : Big) :
  length b = NLIMB → map (λ i, limb b (1043 - i)) (seq 0 1042) = rev (take 1042 (drop 2 b)).
Proof.
  intros Hl. assert (length (take 1042 (drop 2 b)) = 1042%nat) as Ht.
  { rewrite length_take, length_drop, Hl. reflexivity. }
  apply list_eq_same_length with 1042%nat.
  - by rewrite length_rev.
  - by rewrite length_map, length_seq.
  - intros i w v Hi. rewrite list_lookup_fmap, lookup_seq_lt by lia. cbn [fmap option_fmap option_map].
    intros [= <-]. rewrite rev_alt. change (rev_append ?l []) with (reverse l). rewrite reverse_lookup, Ht by lia.
    rewrite lookup_take_lt by lia.
    rewrite lookup_drop. unfold limb. replace (2 + (1042 - S i))%nat with (1043 - i)%nat by lia.
    by intros ->.
Qed.
