(* ===== verification/PiBound.v ===== *)
(** * How close the constants of the cipher are to pi

    The partial sums of [PiDigits] against the arctangent of the real numbers,
    and Machin's formula. *)

From Stdlib Require Import ZArith Reals Machin Lra.
From S2P Require Import Prelude Bcrypt Limbs PiDigits.

Local Open Scope R_scope.
#[local] Opaque BITS.

(** ** The alternating series *)

Lemma atan_series y :
  0 < y < 1 → Un_cv (λ n, sum_f_R0 (tg_alt (Ratan_seq y)) n) (atan y).
Proof.
  intros Hy. rewrite (atan_eq_ps_atan y Hy). unfold ps_atan.
  destruct (Ratan.in_int y) as [Hi|Hn]; [|exfalso; apply Hn; lra].
  by destruct (ps_atan_exists_1 y Hi).
Qed.

(** A partial sum is as close to the limit as its first missing term. *)
Lemma alternating_error (T : nat → R) l n :
  Un_decreasing T → Un_cv T 0 → Un_cv (λ n, sum_f_R0 (tg_alt T) n) l →
  Rabs (sum_f_R0 (tg_alt T) n - l) <= T (S n).
Proof.
  intros Hd H0 Hl. destruct (Nat.Even_or_Odd n) as [[N ->]|[N ->]].
  - destruct (alternated_series_ineq T l N Hd H0 Hl) as [A B]. cbn [sum_f_R0] in A.
    assert (tg_alt T (S (2 * N)) = - T (S (2 * N))) as E by (unfold tg_alt; rewrite pow_1_odd; ring).
    rewrite E in A. apply Rabs_le. lra.
  - rewrite Nat.add_1_r. destruct (alternated_series_ineq T l N Hd H0 Hl) as [A _].
    destruct (alternated_series_ineq T l (S N) Hd H0 Hl) as [_ B].
    replace (2 * S N)%nat with (S (S (2 * N))) in B by lia. cbn [sum_f_R0] in A, B |- *.
    assert (tg_alt T (S (S (2 * N))) = T (S (S (2 * N)))) as E.
    { unfold tg_alt. replace (S (S (2 * N))) with (2 * S N)%nat at 1 by lia. rewrite pow_1_even. ring. }
    rewrite E in B. apply Rabs_le. lra.
Qed.

(** ** Integer quotients against the real terms *)

Lemma IZR_div a b : (0 < b)%Z → IZR (a / b) <= IZR a / IZR b < IZR (a / b) + 1.
Proof.
  intros Hb. pose proof (IZR_lt 0 b Hb) as Hb'. pose proof (Z.div_mod a b ltac:(lia)) as E.
  pose proof (Z.mod_pos_bound a b Hb) as M.
  assert (IZR a = IZR b * IZR (a / b) + IZR (a mod b)) as ER by (by rewrite <-mult_IZR, <-plus_IZR, <-E).
  assert (0 <= IZR (a mod b) < IZR b) as MR by (split; [apply IZR_le|apply IZR_lt]; lia).
  assert (IZR a / IZR b = IZR (a / b) + IZR (a mod b) / IZR b) as -> by (rewrite ER; field; lra).
  assert (0 <= IZR (a mod b) / IZR b < 1); [|lra]. split.
  - apply Rmult_le_pos; [lra|]. apply Rlt_le, Rinv_0_lt_compat. lra.
  - apply (Rmult_lt_reg_r (IZR b)); [lra|]. unfold Rdiv. rewrite Rmult_assoc, Rinv_l by lra. lra.
Qed.

(** One, in fixed point. *)
Definition scale : R := IZR (2 ^ BITS).

Lemma scale_eq : IZR (2 ^ BITS) = scale.
Proof. reflexivity. Qed.

Section arctangent.
Context (x : Z) (x_low : (2 <= x)%Z).

Let y : R := / IZR x.
Lemma y_range : 0 < y < 1.
Proof.
  unfold y. pose proof (IZR_le 2 x x_low). split; [apply Rinv_0_lt_compat; lra|].
  rewrite <-Rinv_1. apply Rinv_lt_contravar; lra.
Qed.

Lemma scaled_term p k :
  p * Ratan_seq y k = p / IZR (x ^ (2 * Z.of_nat k + 1) * (2 * Z.of_nat k + 1)).
Proof.
  unfold Ratan_seq, y. pose proof (IZR_le 2 x x_low).
  rewrite pow_inv, pow_IZR, INR_IZR_INZ, mult_IZR.
  replace (Z.of_nat (2 * k + 1)) with (2 * Z.of_nat k + 1)%Z by lia.
  assert (IZR (x ^ (2 * Z.of_nat k + 1)) ≠ 0).
  { apply not_0_IZR, Z.pow_nonzero; lia. }
  assert (IZR (2 * Z.of_nat k + 1) ≠ 0) by (apply not_0_IZR; lia).
  field. split; assumption.
Qed.

Lemma quot_z_term k : quot_z x k = (2 ^ BITS / (x ^ (2 * Z.of_nat k + 1) * (2 * Z.of_nat k + 1)))%Z.
Proof.
  unfold quot_z, term_z. apply Z.div_div; [|lia]. apply Z.pow_nonzero; lia.
Qed.

Lemma quot_error k : Rabs (IZR (quot_z x k) - scale * Ratan_seq y k) <= 1.
Proof.
  rewrite quot_z_term, scaled_term.
  destruct (IZR_div (2 ^ BITS) (x ^ (2 * Z.of_nat k + 1) * (2 * Z.of_nat k + 1))) as [A B].
  { apply Z.mul_pos_pos; [|lia]. apply Z.pow_pos_nonneg; lia. }
  rewrite scale_eq in A, B. apply Rabs_le. lra.
Qed.

Lemma sign_even k : (Z.of_nat k mod 2 =? 0)%Z = true → (-1) ^ k = 1.
Proof.
  intros E%Z.eqb_eq. pose proof (Z.div_mod (Z.of_nat k) 2 ltac:(lia)) as D.
  replace k with (2 * Z.to_nat (Z.of_nat k / 2))%nat by lia. apply pow_1_even.
Qed.

Lemma sign_odd k : (Z.of_nat k mod 2 =? 0)%Z = false → (-1) ^ k = -1.
Proof.
  intros E%Z.eqb_neq. pose proof (Z.div_mod (Z.of_nat k) 2 ltac:(lia)) as D.
  pose proof (Z.mod_pos_bound (Z.of_nat k) 2 ltac:(lia)).
  replace k with (S (2 * Z.to_nat (Z.of_nat k / 2)))%nat by lia. apply pow_1_odd.
Qed.

(** Rounding loses at most one unit a term. *)
Lemma psum_error n :
  Rabs (IZR (psum x (S n)) - scale * sum_f_R0 (tg_alt (Ratan_seq y)) n) <= INR (S n).
Proof.
  induction n as [|n IH].
  - cbn [sum_f_R0]. pose proof (quot_error 0) as Q. unfold tg_alt. cbn [pow INR psum].
    change (Z.of_nat 0 mod 2 =? 0)%Z with true. cbn match. rewrite Z.add_0_l, Rmult_1_l. exact Q.
  - rewrite S_INR. cbn [sum_f_R0]. pose proof (quot_error (S n)) as Q.
    set (A := sum_f_R0 _ n) in *. unfold tg_alt. change (psum x (S (S n))) with
      (if (Z.of_nat (S n) mod 2 =? 0)%Z then psum x (S n) + quot_z x (S n) else psum x (S n) - quot_z x (S n))%Z.
    destruct (_ =? 0)%Z eqn:E.
    + rewrite (sign_even _ E), plus_IZR. revert IH Q. unfold Rabs. repeat destruct Rcase_abs; lra.
    + rewrite (sign_odd _ E), minus_IZR. revert IH Q. unfold Rabs. repeat destruct Rcase_abs; lra.
Qed.

(** The term the loop stops at is worth less than the last bit. *)
Lemma last_term n : term_z x (S n) = 0%Z → scale * Ratan_seq y (S n) <= 1.
Proof.
  intros Hz. rewrite scaled_term.
  destruct (IZR_div (2 ^ BITS) (x ^ (2 * Z.of_nat (S n) + 1) * (2 * Z.of_nat (S n) + 1))) as [A B].
  { apply Z.mul_pos_pos; [|lia]. apply Z.pow_pos_nonneg; lia. }
  rewrite <-quot_z_term in A, B. rewrite scale_eq in B. unfold quot_z in B. rewrite Hz, Z.div_0_l in B by lia. lra.
Qed.

Lemma psum_atan n :
  term_z x (S n) = 0%Z → Rabs (IZR (psum x (S n)) - scale * atan y) <= INR n + 2.
Proof.
  intros Hz. pose proof (psum_error n) as P. pose proof (last_term n Hz) as L. pose proof y_range as Hy.
  assert (Rabs (sum_f_R0 (tg_alt (Ratan_seq y)) n - atan y) <= Ratan_seq y (S n)) as A.
  { apply alternating_error; [apply Ratan_seq_decreasing; lra|apply Ratan_seq_converging; lra|by apply atan_series]. }
  assert (0 < scale) as Hs by (apply (IZR_lt 0), Z.pow_pos_nonneg; [lia|by vm_compute]).
  rewrite S_INR in P. set (A' := sum_f_R0 _ n) in *.
  apply (Rmult_le_compat_l scale) in A; [|lra]. rewrite <-(Rabs_pos_eq scale) in A at 1 by lra.
  rewrite <-Rabs_mult in A. replace (scale * (A' - atan y)) with (scale * A' - scale * atan y) in A by ring.
  revert P A. unfold Rabs. repeat destruct Rcase_abs; lra.
Qed.
End arctangent.

(** ** Machin's formula *)

Lemma atan_between y : 0 < y < 1 → y - y ^ 3 / 3 <= atan y <= y.
Proof.
  intros Hy. destruct (alternated_series_ineq (Ratan_seq y) (atan y) 0
    ltac:(apply Ratan_seq_decreasing; lra) ltac:(apply Ratan_seq_converging; lra) (atan_series y Hy)) as [A B].
  cbn [sum_f_R0 Nat.mul Nat.add] in A, B. unfold tg_alt, Ratan_seq in A, B. cbn in A, B. split; lra.
Qed.

Lemma machin : PI = 16 * atan (/ 5) - 4 * atan (/ 239).
Proof. pose proof Machin_4_5_239. lra. Qed.

Lemma pi_range : 3 + 1 / 10 < PI < 4 - 1 / 2.
Proof.
  rewrite machin. pose proof (atan_between (/ 5) ltac:(lra)). pose proof (atan_between (/ 239) ltac:(lra)).
  lra.
Qed.

(** An arctangent in fixed point is off by less than 16705 units. *)
Lemma atan_inv_error x :
  (2 <= x)%Z → (x * x <= W)%Z →
  ∃ b, atan_inv x = Some b ∧ big b ∧ Rabs (IZR (value b) - scale * atan (/ IZR x)) <= 16705
       ∧ (value b <= 2 ^ BITS)%Z.
Proof.
  intros Hlo Hhi. destruct (atan_inv_spec x Hlo Hhi) as (b & n & E & Hb & Hv & Hz & Hn).
  exists b. split_and!; [done|done| |].
  - rewrite Hv. etrans; [by apply psum_atan|]. rewrite INR_IZR_INZ. apply Rle_trans with (IZR 16703 + 2); [|lra].
    apply Rplus_le_compat_r, IZR_le. change BITS with 33408%Z in Hn. lia.
  - rewrite Hv. destruct (psum_bounds x Hlo (S n)) as [B _]. pose proof (quot_0_bound x Hlo). lia.
Qed.

Lemma scale_big : 1000000000 <= scale.
Proof.
  unfold scale. apply IZR_le. etrans; [|apply (Z.pow_le_mono_r 2 30)]; [done|lia|by vm_compute].
Qed.

Lemma pi_fixed_error :
  ∃ b, pi_fixed () = Some b ∧ big b ∧ Rabs (IZR (value b) - (PI - 3) * scale) <= 334100
       ∧ (0 <= value b < 2 ^ BITS)%Z.
Proof.
  destruct (atan_inv_error 5 ltac:(lia) ltac:(by vm_compute)) as (a & Ea & Ba & Ra & La).
  destruct (atan_inv_error 239 ltac:(lia) ltac:(by vm_compute)) as (c & Ec & Bc & Rc & Lc).
  destruct (mul_big 16 a ltac:(lia) Ba La) as [[M1 N1] V1].
  destruct (mul_big 4 c ltac:(lia) Bc Lc) as [[M2 N2] V2].
  destruct pow2_bits as [P3 W3]. destruct (mul_big 3 (pow2 BITS) ltac:(lia) P3 ltac:(lia)) as [[M3 N3] V3].
  rewrite W3 in V3. pose proof machin as HM. pose proof pi_range as HR. pose proof scale_big as HS.
  set (t := PI * scale). assert (16 * (scale * atan (/ 5)) - 4 * (scale * atan (/ 239)) = t) as Et.
  { unfold t. rewrite HM. ring. }
  assert (Rabs (IZR (16 * value a - 4 * value c) - t) <= 334100) as H1.
  { rewrite minus_IZR, !mult_IZR, <-Et. revert Ra Rc. unfold Rabs. repeat destruct Rcase_abs; lra. }
  assert (3 * scale + 334100 < t ∧ t + 334100 < 4 * scale) as [H2 H3].
  { unfold t. split; nra. }
  assert (3 * 2 ^ BITS <= 16 * value a - 4 * value c < 4 * 2 ^ BITS)%Z as [H4 H5].
  { split; [apply le_IZR|apply lt_IZR]; rewrite (mult_IZR _ (2 ^ BITS)), scale_eq;
      revert H1; unfold Rabs; destruct Rcase_abs; lra. }
  destruct (sub_assign_spec (mul_small 16 a) (mul_small 4 c) ltac:(congruence) M1 M2) as (S1 & S2 & S3).
  { rewrite V1, V2. revert H4. generalize (2 ^ BITS)%Z (Z.pow_nonneg 2 BITS ltac:(lia)). lia. }
  rewrite V1, V2 in S3.
  destruct (sub_assign_spec (sub_assign (mul_small 16 a) (mul_small 4 c)) (mul_small 3 (pow2 BITS))
              ltac:(congruence) S1 M3) as (T1 & T2 & T3).
  { rewrite S3, V3. lia. }
  rewrite S3, V3 in T3. unfold pi_fixed. rewrite Ea, Ec. cbn [mbind option_bind]. eexists.
  split_and!; [reflexivity|split; [done|congruence]| |rewrite T3; lia|rewrite T3; lia].
  rewrite T3, minus_IZR, (mult_IZR 3), scale_eq.
  replace (IZR (16 * value a - 4 * value c) - 3 * scale - (PI - 3) * scale)
    with (IZR (16 * value a - 4 * value c) - t) by (unfold t; ring). exact H1.
Qed.

(** The words are what is left of the fixed-point number without its two guard
    limbs; the two limbs above them are zero. *)
Lemma pi_limbs b :
  big b → (0 <= value b < 2 ^ BITS)%Z →
  (W * W * value (take 1042 (drop 2 b)) <= value b < W * W * value (take 1042 (drop 2 b)) + W * W)%Z.
Proof.
  intros [Bo Bl] Hv. set (lo := take 2 b). set (mid := take 1042 (drop 2 b)). set (hi := drop 1042 (drop 2 b)).
  assert (value b = value lo + span lo * (value mid + span mid * value hi))%Z as E.
  { unfold lo, mid, hi. by rewrite <-value_split, <-value_split. }
  assert (length lo = 2%nat) as L1 by (unfold lo; rewrite length_take, Bl; reflexivity).
  assert (length mid = 1042%nat) as L2 by (unfold mid; rewrite length_take, length_drop, Bl; reflexivity).
  pose proof (value_bound lo ltac:(unfold lo; auto with limbs)) as B1.
  pose proof (value_bound mid ltac:(unfold mid; auto with limbs)) as B2.
  pose proof (value_bound hi ltac:(unfold hi; auto with limbs)) as B3.
  assert (span lo = W * W)%Z as S1 by (unfold span; rewrite L1; reflexivity).
  assert (2 ^ BITS = span lo * span mid)%Z as S2.
  { unfold span, W. rewrite L1, L2, <-!Z.pow_mul_r, <-Z.pow_add_r by (vm_compute; congruence). reflexivity. }
  rewrite S2 in Hv. pose proof (span_pos lo). pose proof (span_pos mid).
  assert (value hi = 0)%Z as Hz by nia. rewrite Hz in E. rewrite <-S1. lia.
Qed.

Lemma scale_split : scale = 2 ^ 64 * IZR (2 ^ (32 * 1042)).
Proof.
  rewrite <-scale_eq, (pow_IZR 2), <-mult_IZR. apply (f_equal IZR).
  rewrite <-Z.pow_add_r by lia. apply (f_equal (Z.pow 2)). by vm_compute.
Qed.

(** Dropping 64 guard bits turns an error of 334100 units into little more than
    one. *)
Lemma guard_bits (v b a p : R) :
  2 ^ 64 * v <= b < 2 ^ 64 * v + 2 ^ 64 → Rabs (b - a * (2 ^ 64 * p)) <= 334100 →
  Rabs (v - a * p) < 1 + / 2 ^ 44.
Proof.
  intros Hb. replace (a * (2 ^ 64 * p)) with (2 ^ 64 * (a * p)) by ring. generalize (a * p). intros q.
  unfold Rabs. repeat destruct Rcase_abs; lra.
Qed.

Lemma pi_words_value b : length b = NLIMB → pi_fixed () = Some b → pi_words () = Some (rev (take 1042 (drop 2 b))).
Proof. intros Hb E. unfold pi_words. rewrite E. cbn [mbind option_bind]. by rewrite pi_words_of. Qed.

Lemma pi_words_shape : ∃ ws, pi_words () = Some ws ∧ length ws = 1042%nat ∧ Forall word ws.
Proof.
  destruct pi_fixed_error as (b & E & [Bo Bl] & _). rewrite (pi_words_value b Bl E). eexists. split_and!; [reflexivity|..].
  - rewrite length_rev, length_take, length_drop, Bl. reflexivity.
  - apply Forall_rev. unfold limbs_ok in Bo. by apply Forall_take, Forall_drop.
Qed.

(** C20: The 1042 words the bcrypt cipher starts from, which the code computes in fixed
    point with Machin's formula, are the binary digits of pi: read as one number of
    33344 bits they differ from the fractional part of pi by less than one unit in the
    last place and a rounding error below 2^-44. *)
Theorem pi_words_digits :
  ∃ ws, pi_words () = Some ws ∧ length ws = 1042%nat
        ∧ Rabs (IZR (be_value ws) - (PI - 3) * IZR (2 ^ (32 * 1042))) < 1 + / 2 ^ 44.
Proof.
  destruct pi_fixed_error as (b & E & [Bo Bl] & HR & HV). pose proof (pi_limbs b (conj Bo Bl) HV) as [L1 L2].
  rewrite (pi_words_value b Bl E). eexists. split; [reflexivity|]. rewrite be_value_rev. split.
  - rewrite length_rev, length_take, length_drop, Bl. reflexivity.
  - rewrite scale_split in HR. apply (guard_bits _ (IZR (value b))); [|exact HR].
    apply IZR_le in L1. apply IZR_lt in L2. rewrite plus_IZR, mult_IZR in L2. rewrite mult_IZR in L1.
    assert (IZR (W * W) = 2 ^ 64) as E64 by (rewrite pow_IZR; reflexivity). rewrite E64 in L1, L2.
    split; assumption.
Qed.
