(* ===== verification/BcryptFacts.v ===== *)
(** * The password hash: types, the cipher, and the round trip

    Every table of the cipher keeps its shape and its words their width; a block
    of the cipher is a permutation; what is hashed verifies, and passwords are
    told apart by their first 72 bytes only. *)

From Stdlib Require Import Ascii ZArith.
From S2P Require Import Prelude RustStr Clock Bcrypt Limbs PiDigits PiBound.

Local Open Scope stdpp_scope.
Local Open Scope Z_scope.

(** ** Bits *)

Lemma lxor_mod n a b : 0 <= n → Z.lxor a b mod 2 ^ n = Z.lxor (a mod 2 ^ n) (b mod 2 ^ n).
Proof.
  intros Hn. rewrite <-!Z.land_ones by done. apply Z.bits_inj'. intros i Hi.
  rewrite !Z.land_spec, !Z.lxor_spec, !Z.land_spec. by destruct (Z.testbit a i), (Z.testbit b i), (Z.testbit _ i).
Qed.

Lemma lxor_word a b : word a → word b → word (Z.lxor a b).
Proof.
  intros Ha Hb. unfold word in *. unfold W in *. rewrite <-(Z.mod_small a (2 ^ 32)), <-(Z.mod_small b (2 ^ 32)) by done.
  rewrite <-lxor_mod by lia. by apply Z.mod_pos_bound.
Qed.

Lemma lxor_cancel a b : Z.lxor (Z.lxor a b) b = a.
Proof. by rewrite Z.lxor_assoc, Z.lxor_nilpotent, Z.lxor_0_r. Qed.

(** ** Shapes *)

Definition words (n : nat) (l : list Z) : Prop := length l = n ∧ Forall word l.

Record bf_ok (bf : Bf) : Prop := mkBfOk {
  ok_p : words 18 (bf_p bf);
  ok_s : length (bf_s bf) = 4%nat ∧ Forall (words 256) (bf_s bf) }.

Lemma words_nth n l i : words n l → word (nth i l 0).
Proof.
  intros [_ Hw]. rewrite Forall_forall in Hw. destruct (nth_in_or_default i l 0) as [Hi| ->]; [|done].
  by apply Hw, list_elem_of_In.
Qed.

Lemma sbox_word bf i j : bf_ok bf → word (sbox bf i j).
Proof.
  intros [_ [_ Hs]]. unfold sbox. rewrite Forall_forall in Hs.
  destruct (nth_in_or_default i (bf_s bf) []) as [Hi| ->].
  - apply (words_nth 256), Hs, list_elem_of_In, Hi.
  - by destruct (Z.to_nat j).
Qed.

Lemma bf_f_word bf x : word (bf_f bf x).
Proof. apply u32_word. Qed.

Definition pair_word (lr : Z * Z) : Prop := word lr.1 ∧ word lr.2.

Lemma bf_round_word bf lr i : bf_ok bf → pair_word lr → pair_word (bf_round bf lr i).
Proof.
  intros Hb [Hl Hr]. pose proof (words_nth 18 (bf_p bf) i (ok_p _ Hb)).
  split; cbn [fst snd bf_round]; apply lxor_word; auto using bf_f_word.
Qed.

Lemma rounds_word bf ns lr : bf_ok bf → pair_word lr → pair_word (foldl (bf_round bf) lr ns).
Proof. intros Hb. revert lr. induction ns as [|i ns IH]; intros lr Hl; cbn [foldl]; [exact Hl|].
  apply IH, bf_round_word; assumption. Qed.

Lemma encrypt_word bf l r : bf_ok bf → word l → word r → pair_word (encrypt bf l r).
Proof.
  intros Hb Hl Hr. unfold encrypt. pose proof (rounds_word bf (seq 0 16) (l, r) Hb (conj Hl Hr)) as [H1 H2].
  destruct (foldl _ _ _) as [l' r']. pose proof (words_nth 18 (bf_p bf)) as Hn.
  split; cbn in *; apply lxor_word; auto; apply Hn, Hb.
Qed.

(** ** A block of the cipher is a permutation *)

(** The round that undoes [bf_round]. *)
Definition unround (bf : Bf) (lr : Z * Z) (i : nat) : Z * Z :=
  (Z.lxor lr.2 (nth i (bf_p bf) 0), Z.lxor lr.1 (bf_f bf lr.2)).

Lemma unround_round bf lr i : unround bf (bf_round bf lr i) i = lr.
Proof. destruct lr as [l r]. unfold unround, bf_round. cbn. by rewrite !lxor_cancel. Qed.

Lemma unrounds bf ns lr : foldl (unround bf) (foldl (bf_round bf) lr ns) (rev ns) = lr.
Proof.
  induction ns as [|i ns IH] using rev_ind; [done|].
  rewrite rev_app_distr, (foldl_app (bf_round bf)). cbn [rev app foldl]. by rewrite unround_round.
Qed.

Definition decrypt (bf : Bf) (c : Z * Z) : Z * Z :=
  foldl (unround bf) (Z.lxor c.2 (nth 16 (bf_p bf) 0), Z.lxor c.1 (nth 17 (bf_p bf) 0)) (rev (seq 0 16)).

Theorem decrypt_encrypt bf l r : decrypt bf (encrypt bf l r) = (l, r).
Proof.
  unfold encrypt, decrypt. pose proof (unrounds bf (seq 0 16) (l, r)) as E.
  destruct (foldl (bf_round bf) (l, r) (seq 0 16)) as [a b]. cbn [fst snd]. by rewrite !lxor_cancel.
Qed.

(** ** The key schedule keeps the shape *)

Definition byte (b : Z) : Prop := 0 <= b < 256.

Lemma byte_word b : byte b → word b.
Proof. unfold byte, word, W. lia. Qed.

Lemma nth_byte l i : Forall byte l → byte (nth i l 0).
Proof.
  rewrite Forall_forall. intros Hw. destruct (nth_in_or_default i l 0) as [Hi| ->]; [|done].
  by apply Hw, list_elem_of_In.
Qed.

Lemma lor_byte v b : word v → byte b → word (Z.lor (u32 (Z.shiftl v 8)) b).
Proof.
  intros Hv Hb. unfold u32. rewrite Z.shiftl_mul_pow2 by lia.
  assert ((v * 2 ^ 8) mod 2 ^ 32 = Z.shiftl (v mod 2 ^ 24) 8) as ->.
  { rewrite Z.shiftl_mul_pow2 by lia. change (2 ^ 32) with (2 ^ 24 * 2 ^ 8).
    by rewrite Z.mul_mod_distr_r by lia. }
  rewrite lor_disjoint by (unfold byte in Hb; lia). unfold byte in Hb.
  pose proof (Z.mod_pos_bound v (2 ^ 24) ltac:(lia)). unfold word, W. lia.
Qed.

Lemma next_word_word bytes off : Forall byte bytes → word (next_word bytes off).1.
Proof.
  intros Hb. unfold next_word. assert (word 0) as H0 by done. revert H0. generalize 0 as v, 4%nat as n.
  intros v n. revert v off. induction n as [|n IH]; intros v off Hv; cbn [next_word_go]; [done|].
  by apply IH, lor_byte, nth_byte.
Qed.

Lemma mix_p_words n key p kp : Forall byte key → words n p → words n (mix_p key p kp).
Proof.
  intros Hk [Hl Hp]. unfold words. rewrite <-Hl. clear Hl. revert kp.
  induction Hp as [|w p Hw Hp IH]; intros kp; cbn [mix_p]; [done|].
  pose proof (next_word_word key kp Hk) as Hn. destruct (next_word key kp) as [v kp']. cbn in Hn.
  destruct (IH kp') as [I1 I2]. split; [cbn; by rewrite I1|]. constructor; [by apply lxor_word|done].
Qed.

Lemma insert_words n l i v : words n l → word v → words n (<[i := v]> l).
Proof. intros [Hl Hw] Hv. split; [by rewrite length_insert|]. by apply Forall_insert. Qed.

(** A store operation that keeps the tables in shape. *)
Definition stores (store : nat → Z → Z → Bf → Bf) : Prop :=
  ∀ j l r bf, word l → word r → bf_ok bf → bf_ok (store j l r bf).

Lemma store_p_ok : stores store_p.
Proof. intros j l r bf Hl Hr [Hp Hs]. split; [by apply insert_words, Hr; apply insert_words|done]. Qed.

Lemma store_s_ok i : stores (store_s i).
Proof.
  intros j l r bf Hl Hr [Hp [Hs Hw]]. split; [done|]. cbn. split; [by rewrite length_alter|].
  apply Forall_alter; [done|]. intros row _ Hrow. by apply insert_words, Hr; apply insert_words.
Qed.

Record run_ok (s : Run) : Prop := mkRunOk {
  ro_bf : bf_ok (run_bf s); ro_l : word (run_l s); ro_r : word (run_r s) }.

Lemma run_block_ok salt store s j : Forall byte salt → stores store → run_ok s → run_ok (run_block salt store s j).
Proof.
  intros Hs Hst [Hb Hl Hr]. unfold run_block.
  pose proof (next_word_word salt (run_sp s) Hs) as H1. destruct (next_word salt (run_sp s)) as [w1 sp].
  pose proof (next_word_word salt sp Hs) as H2. destruct (next_word salt sp) as [w2 sp']. cbn in H1, H2.
  pose proof (encrypt_word (run_bf s) _ _ Hb (lxor_word _ _ Hl H1) (lxor_word _ _ Hr H2)) as [E1 E2].
  destruct (encrypt _ _ _) as [l r]. cbn in *. split; cbn; [by apply Hst|done|done].
Qed.

Lemma run_blocks_ok salt store js s :
  Forall byte salt → stores store → run_ok s → run_ok (foldl (run_block salt store) s js).
Proof. intros Hs Hst. revert s. induction js as [|j js IH]; intros s Hr; cbn [foldl]; [exact Hr|].
  apply IH, run_block_ok; assumption. Qed.

Lemma expand_key_ok salt key bf : Forall byte salt → Forall byte key → bf_ok bf → bf_ok (expand_key salt key bf).
Proof.
  intros Hs Hk [Hp Hb]. unfold expand_key. apply ro_bf. set (run := foldl _ _ (evens 18)).
  assert (run_ok run) as Hr.
  { apply run_blocks_ok; [done|apply store_p_ok|]. split; cbn; [|done|done].
    split; cbn; [by apply mix_p_words|done]. }
  clearbody run. revert run Hr. generalize (seq 0 4). intros ns.
  induction ns as [|i ns IH]; intros run Hr; cbn [foldl]; [exact Hr|].
  apply IH, run_blocks_ok; [exact Hs|apply store_s_ok|exact Hr].
Qed.

(** The tables a hash starts from. *)
Lemma bf_init_ok : ∃ bf, bf_init () = Some bf ∧ bf_ok bf.
Proof.
  destruct pi_words_shape as (ws & E & Hl & Hw). unfold bf_init. rewrite E. cbn [fmap option_fmap option_map].
  eexists. split; [reflexivity|]. split; cbn [bf_of bf_p bf_s].
  - split; [by rewrite length_take, Hl|by apply Forall_take].
  - split; [done|]. rewrite Forall_forall. intros row (i & -> & Hi)%list_elem_of_fmap.
    apply elem_of_seq in Hi. split; [rewrite length_take, length_drop, Hl; lia|].
    by apply Forall_take, Forall_drop.
Qed.

Lemma zeros_bytes n : Forall byte (replicate n 0).
Proof. by apply Forall_replicate. Qed.

Lemma bytes_of_bytes s : Forall byte (bytes_of s).
Proof.
  unfold bytes_of. rewrite Forall_forall. intros x (b & -> & _)%list_elem_of_fmap.
  unfold byte, byte_val. pose proof (N_ascii_bounded b). lia.
Qed.

Lemma bcrypt_key_bytes p : Forall byte (bcrypt_key p).
Proof. apply Forall_app. split; [apply Forall_take, bytes_of_bytes|by repeat constructor]. Qed.

Lemma eks_setup_ok cost salt key bf :
  Forall byte salt → Forall byte key → bf_ok bf → bf_ok (eks_setup cost salt key bf).
Proof.
  intros Hs Hk Hb. unfold eks_setup. apply N.iter_invariant.
  - intros b Hb'. auto using expand_key_ok, zeros_bytes.
  - auto using expand_key_ok.
Qed.

(** The tables of the cipher are 18 and four times 256 words of 32 bits before and after the
    key schedule, for every cost, salt and password, and a block encrypted with them is
    two such words. *)
Theorem key_schedule_typed cost salt p :
  Forall byte salt →
  ∃ bf, bf_init () = Some bf ∧ bf_ok bf ∧ bf_ok (eks_setup cost salt (bcrypt_key p) bf)
    ∧ ∀ l r, word l → word r → pair_word (encrypt (eks_setup cost salt (bcrypt_key p) bf) l r).
Proof.
  intros Hs. destruct bf_init_ok as (bf & E & Hb). exists bf. split; [exact E|]. split; [exact Hb|].
  assert (bf_ok (eks_setup cost salt (bcrypt_key p) bf)) as He by (apply eks_setup_ok; auto using bcrypt_key_bytes).
  split; [exact He|]. intros l r. by apply encrypt_word.
Qed.

Lemma key_schedule_typed_witness :
  ∃ bf, bf_init () = Some bf ∧ bf_ok bf ∧ bf_ok (eks_setup 4 (replicate 16 0) (bcrypt_key "pw") bf)
    ∧ ∀ l r, word l → word r → pair_word (encrypt (eks_setup 4 (replicate 16 0) (bcrypt_key "pw") bf) l r).
Proof. apply (key_schedule_typed 4 (replicate 16 0) "pw"). apply zeros_bytes. Defined.

Lemma u8_byte x : byte (u8 x).
Proof. by apply Z.mod_pos_bound. Qed.

Lemma encrypt_pair_length bf ct i : length (encrypt_pair bf ct i) = length ct.
Proof. unfold encrypt_pair. destruct (encrypt _ _ _). by rewrite !length_insert. Qed.

Lemma be_bytes ct : length ct = 6%nat → length (take 23 (concat (map to_be_bytes ct))) = 23%nat
  ∧ Forall byte (take 23 (concat (map to_be_bytes ct))).
Proof.
  intros Hl. do 6 (destruct ct as [|? ct]; [done|]). destruct ct; [|done]. split; [reflexivity|].
  cbn [map concat to_be_bytes app take]. repeat constructor; apply u8_byte.
Qed.

Lemma bcrypt_with_bytes bf cost salt p :
  length (bcrypt_with bf cost salt p) = 23%nat ∧ Forall byte (bcrypt_with bf cost salt p).
Proof.
  unfold bcrypt_with. set (b := eks_setup _ _ _ _). clearbody b. apply be_bytes. apply Nat.iter_invariant; [|done].
  intros ct Hc. etrans; [|exact Hc]. clear Hc. revert ct. induction (evens 6) as [|i l IH]; intros ct; cbn [foldl]; [done|].
  rewrite IH. apply encrypt_pair_length.
Qed.

(** Hashing never fails for want of the constants. *)
Lemma bcrypt_raw_total cost salt p :
  ∃ raw, bcrypt_raw cost salt p = Some raw ∧ length raw = 23%nat ∧ Forall byte raw.
Proof.
  destruct bf_init_ok as (bf & E & _). unfold bcrypt_raw. rewrite E. cbn [mbind option_bind].
  eexists. split; [reflexivity|]. apply bcrypt_with_bytes.
Qed.

(** ** Base64 *)

Lemma b64_val_char i : 0 <= i < 64 → b64_val (b64_char i) = Some i.
Proof.
  intros Hi. assert (forallb (λ n, bool_decide (b64_val (b64_char (Z.of_nat n)) = Some (Z.of_nat n))) (seq 0 64) = true)
    as H by (by vm_compute). rewrite forallb_forall in H.
  specialize (H (Z.to_nat i)). rewrite Z2Nat.id in H by lia. apply (bool_decide_eq_true_1 _), H.
  apply list_elem_of_In, elem_of_seq. lia.
Qed.

(** A property of two bytes, checked for all of them. *)
Definition all_bytes2 (p : Z → Z → bool) : bool :=
  forallb (λ a, forallb (λ b, p (Z.of_nat a) (Z.of_nat b)) (seq 0 256)) (seq 0 256).

Lemma all_bytes2_spec p a b : all_bytes2 p = true → byte a → byte b → p a b = true.
Proof.
  unfold all_bytes2, byte. rewrite forallb_forall. intros H Ha Hb.
  specialize (H (Z.to_nat a) ltac:(apply list_elem_of_In, elem_of_seq; lia)). rewrite forallb_forall in H.
  specialize (H (Z.to_nat b) ltac:(apply list_elem_of_In, elem_of_seq; lia)). by rewrite !Z2Nat.id in H by lia.
Qed.

(** The four values of a group of three bytes. *)
Definition group1 (b0 b1 : Z) : Z := Z.lor (Z.shiftl (Z.land b0 3) 4) (Z.shiftr b1 4).
Definition group2 (b1 b2 : Z) : Z := Z.lor (Z.shiftl (Z.land b1 15) 2) (Z.shiftr b2 6).

Definition group1_ok (b0 b1 : Z) : bool :=
  let v0 := Z.shiftr b0 2 in let v1 := group1 b0 b1 in
  (0 <=? v0) && (v0 <? 64) && (0 <=? v1) && (v1 <? 64)
  && (Z.lor (u8 (Z.shiftl v0 2)) (Z.shiftr v1 4) =? b0) && (Z.land v1 15 =? Z.shiftr b1 4).

Definition group2_ok (b1 b2 : Z) : bool :=
  let v2 := group2 b1 b2 in let v3 := Z.land b2 63 in
  (0 <=? v2) && (v2 <? 64) && (0 <=? v3) && (v3 <? 64)
  && (Z.lor (u8 (Z.shiftl (Z.shiftr b1 4) 4)) (Z.shiftr v2 2) =? b1)
  && (Z.lor (u8 (Z.shiftl (Z.land v2 3) 6)) v3 =? b2).

Lemma group1_spec b0 b1 : byte b0 → byte b1 →
  let v0 := Z.shiftr b0 2 in let v1 := group1 b0 b1 in
  b64_val (b64_char v0) = Some v0 ∧ b64_val (b64_char v1) = Some v1
  ∧ Z.lor (u8 (Z.shiftl v0 2)) (Z.shiftr v1 4) = b0 ∧ Z.land v1 15 = Z.shiftr b1 4.
Proof.
  intros H0 H1. assert (all_bytes2 group1_ok = true) as H by (by vm_compute).
  pose proof (all_bytes2_spec _ _ _ H H0 H1) as E. unfold group1_ok in E. cbn zeta in *.
  rewrite !andb_true_iff, !Z.leb_le, !Z.ltb_lt, !Z.eqb_eq in E. destruct_and?.
  split_and!; [apply b64_val_char; lia|apply b64_val_char; lia|done|done].
Qed.

Lemma group2_spec b1 b2 : byte b1 → byte b2 →
  let v2 := group2 b1 b2 in let v3 := Z.land b2 63 in
  b64_val (b64_char v2) = Some v2 ∧ b64_val (b64_char v3) = Some v3
  ∧ Z.lor (u8 (Z.shiftl (Z.shiftr b1 4) 4)) (Z.shiftr v2 2) = b1
  ∧ Z.lor (u8 (Z.shiftl (Z.land v2 3) 6)) v3 = b2.
Proof.
  intros H0 H1. assert (all_bytes2 group2_ok = true) as H by (by vm_compute).
  pose proof (all_bytes2_spec _ _ _ H H0 H1) as E. unfold group2_ok in E. cbn zeta in *.
  rewrite !andb_true_iff, !Z.leb_le, !Z.ltb_lt, !Z.eqb_eq in E. destruct_and?.
  split_and!; [apply b64_val_char; lia|apply b64_val_char; lia|done|done].
Qed.

Lemma group1_end b0 : Z.shiftl (Z.land b0 3) 4 = group1 b0 0.
Proof. unfold group1. by rewrite Z.shiftr_0_l, Z.lor_0_r. Qed.
Lemma group2_end b1 : Z.shiftl (Z.land b1 15) 2 = group2 b1 0.
Proof. unfold group2. by rewrite Z.shiftr_0_l, Z.lor_0_r. Qed.

Lemma b64_cons3 b0 b1 b2 r :
  b64_encode (b0 :: b1 :: b2 :: r) =
    String (b64_char (Z.shiftr b0 2)) (String (b64_char (group1 b0 b1))
      (String (b64_char (group2 b1 b2)) (String (b64_char (Z.land b2 63)) (b64_encode r)))).
Proof. reflexivity. Qed.

(** Decoding what was encoded gives the bytes back. *)
Theorem b64_roundtrip data : Forall byte data → b64_decode (b64_encode data) (length data) = Some data.
Proof.
  remember (length data) as n eqn:En. revert data En.
  induction n as [n IH] using (well_founded_induction lt_wf). intros data -> Hd.
  assert (byte 0) as H0 by done. destruct data as [|b0 [|b1 [|b2 r]]]; [done|..].
  - apply Forall_cons in Hd as [B0 _]. destruct (group1_spec b0 0 B0 H0) as (V0 & V1 & E0 & _).
    cbn [b64_encode length b64_decode chr]. rewrite group1_end, V0, V1. cbn [mbind option_bind]. by rewrite E0.
  - apply Forall_cons in Hd as [B0 Hd]. apply Forall_cons in Hd as [B1 _].
    destruct (group1_spec b0 b1 B0 B1) as (V0 & V1 & E0 & E1). destruct (group2_spec b1 0 B1 H0) as (V2 & _ & E2 & _).
    cbn [b64_encode length b64_decode chr]. fold (group1 b0 b1). rewrite group2_end, V0, V1, V2.
    cbn [mbind option_bind]. by rewrite E0, E1, E2.
  - apply Forall_cons in Hd as [B0 Hd]. apply Forall_cons in Hd as [B1 Hd]. apply Forall_cons in Hd as [B2 Hd].
    destruct (group1_spec b0 b1 B0 B1) as (V0 & V1 & E0 & E1). destruct (group2_spec b1 b2 B1 B2) as (V2 & V3 & E2 & E3).
    rewrite b64_cons3. cbn [length b64_decode]. rewrite V0, V1, V2, V3. cbn [mbind option_bind].
    rewrite E0, E1, E2, E3. rewrite (IH (length r)); [done|cbn; lia|done|done].
Qed.

Lemma b64_length data : str_len (b64_encode data) = ((4 * length data + 2) / 3)%nat.
Proof.
  remember (length data) as n eqn:En. revert data En.
  induction n as [n IH] using (well_founded_induction lt_wf). intros data ->.
  destruct data as [|b0 [|b1 [|b2 r]]]; [done..|].
  rewrite b64_cons3. unfold str_len. cbn [String.length]. change (String.length ?x) with (str_len x).
  rewrite (IH (length r)); [|cbn; lia|done]. cbn [length].
  replace (4 * S (S (S (length r))) + 2)%nat with (4 * length r + 2 + 4 * 3)%nat by lia.
  rewrite Nat.div_add by lia. lia.
Qed.

(** ** What is hashed verifies *)

Lemma drop_app_len a b : str_drop (str_len a) (a +:+ b) = b.
Proof. induction a as [|c a IH]; [done|]. exact IH. Qed.

Lemma take_app_len a b : str_take (str_len a) (a +:+ b) = a.
Proof. induction a as [|c a IH]; [by destruct b|]. exact (f_equal (String c) IH). Qed.

Lemma take_len a : str_take (str_len a) a = a.
Proof. induction a as [|c a IH]; [done|]. exact (f_equal (String c) IH). Qed.

(** The two digits of a cost. *)
Lemma cost_digits cost :
  (4 <= cost <= 31)%N →
  ∃ c1 c2, pad_N 2 cost = String c1 (chr c2) ∧ parse_uint u32_max (String c1 (chr c2)) = Some cost.
Proof.
  intros Hc. assert (forallb (λ n, match pad_N 2 (N.of_nat n) with
      | String c1 (String c2 "") => bool_decide (parse_uint u32_max (String c1 (chr c2)) = Some (N.of_nat n))
      | _ => false end) (seq 4 28) = true) as H by (by vm_compute).
  rewrite forallb_forall in H. specialize (H (N.to_nat cost)). rewrite N2Nat.id in H.
  specialize (H ltac:(apply list_elem_of_In, elem_of_seq; lia)).
  destruct (pad_N 2 cost) as [|c1 [|c2 [|]]]; try done. exists c1, c2. split; [done|].
  by apply (bool_decide_eq_true_1 _).
Qed.

(** The parts of a stored hash. *)
Lemma stored_parts c1 c2 es er :
  str_len es = 22%nat → str_len er = 31%nat →
  let h := "$2b$" +:+ String c1 (chr c2) +:+ "$" +:+ es +:+ er in
  str_len h = 60%nat ∧ str_slice 0 2 h = "$2" ∧ str_slice 3 4 h = "$" ∧ str_slice 6 7 h = "$"
  ∧ str_slice 4 6 h = String c1 (chr c2) ∧ str_slice 7 29 h = es ∧ str_slice 29 60 h = er.
Proof.
  intros H1 H2. cbn zeta. split_and!; try reflexivity.
  - rewrite !app_len, H1, H2. reflexivity.
  - change (str_slice 7 29 _) with (str_take 22 (es +:+ er)). rewrite <-H1. apply take_app_len.
  - change (str_slice 29 60 _) with (str_take 31 (str_drop 22 (es +:+ er))).
    pose proof (drop_app_len es er) as D. rewrite H1 in D. rewrite D.
    pose proof (take_len er) as T. by rewrite H2 in T.
Qed.

(** The answer to a well-formed stored hash. *)
Lemma verify_parts c1 c2 es er cost salt p :
  str_len es = 22%nat → str_len er = 31%nat → parse_uint u32_max (String c1 (chr c2)) = Some cost →
  (4 <= cost <= 31)%N → b64_decode es 16 = Some salt →
  bcrypt_verify ("$2b$" +:+ String c1 (chr c2) +:+ "$" +:+ es +:+ er) p =
    (raw ← bcrypt_raw cost salt p; Some (String.eqb (b64_encode raw) er)).
Proof.
  intros H1 H2 Hp Hc Hd. destruct (stored_parts c1 c2 es er H1 H2) as (E1 & E2 & E3 & E4 & E5 & E6 & E7).
  cbn zeta in *. unfold bcrypt_verify. rewrite E1, E2, E3, E4, E5, E6, E7, Hp. cbn [Nat.eqb negb orb String.eqb].
  rewrite Hd. assert (((4 <=? cost)%N && (cost <=? 31)%N) = true) as ->.
  - apply andb_true_iff. rewrite !N.leb_le. lia.
  - cbn [negb]. reflexivity.
Qed.

Lemma with_key bf cost salt p q : bcrypt_key p = bcrypt_key q → bcrypt_with bf cost salt p = bcrypt_with bf cost salt q.
Proof. unfold bcrypt_with. generalize (bcrypt_key p), (bcrypt_key q). by intros k k' ->. Qed.

Lemma raw_key p q : bcrypt_key p = bcrypt_key q → ∀ cost salt, bcrypt_raw cost salt p = bcrypt_raw cost salt q.
Proof.
  intros E cost salt. unfold bcrypt_raw. generalize (bf_init ()). intros [bf|]; cbn [mbind option_bind]; [|reflexivity].
  exact (f_equal Some (with_key bf cost salt p q E)).
Qed.

#[local] Opaque bcrypt_raw.

Lemma hash_parts salt cost p raw c1 c2 :
  bcrypt_raw (N.min (N.max cost 4) 31) salt p = Some raw →
  pad_N 2 (N.min (N.max cost 4) 31) = String c1 (chr c2) →
  bcrypt_hash (Some salt) cost p =
    Some ("$2b$" +:+ String c1 (chr c2) +:+ "$" +:+ b64_encode salt +:+ b64_encode raw).
Proof.
  unfold bcrypt_hash. generalize bcrypt_raw. intros R Er Ep. cbn [mbind option_bind]. cbn zeta.
  rewrite Er, Ep. reflexivity.
Qed.

Theorem hash_then_verify salt cost p :
  length salt = 16%nat → Forall byte salt →
  ∃ h, bcrypt_hash (Some salt) cost p = Some h ∧ str_len h = 60%nat ∧ bcrypt_verify h p = Some true.
Proof.
  intros Hl Hs. set (c := N.min (N.max cost 4) 31). assert (4 <= c <= 31)%N as Hc by lia.
  destruct (bcrypt_raw_total c salt p) as (raw & Er & Rl & Rb).
  destruct (cost_digits c Hc) as (c1 & c2 & Ep & Pp).
  assert (str_len (b64_encode salt) = 22%nat) as L1 by (by rewrite b64_length, Hl).
  assert (str_len (b64_encode raw) = 31%nat) as L2 by (by rewrite b64_length, Rl).
  destruct (stored_parts c1 c2 _ _ L1 L2) as [E1 _].
  eexists. split; [exact (hash_parts _ _ _ _ _ _ Er Ep)|]. split; [exact E1|].
  assert (b64_decode (b64_encode salt) 16 = Some salt) as Ed by (rewrite <-Hl; by apply b64_roundtrip).
  rewrite (verify_parts c1 c2 _ _ c salt p L1 L2 Pp Hc Ed), Er. cbn [mbind option_bind].
  rewrite String.eqb_refl. reflexivity.
Qed.

(** Only the first 72 bytes of a password count. *)
Theorem verify_72 stored p q :
  take 72 (bytes_of p) = take 72 (bytes_of q) → bcrypt_verify stored p = bcrypt_verify stored q.
Proof.
  intros E. assert (bcrypt_key p = bcrypt_key q) as Ek by (unfold bcrypt_key; by rewrite E).
  assert (∀ cost salt, bcrypt_raw cost salt p = bcrypt_raw cost salt q) as Er by (apply raw_key, Ek).
  unfold bcrypt_verify. revert Er. generalize bcrypt_raw. intros R Er.
  repeat (case_match; [|..]; try reflexivity). by rewrite Er.
Qed.

(** Verifying always answers. *)
Theorem verify_total stored p : is_Some (bcrypt_verify stored p).
Proof.
  unfold bcrypt_verify. destruct (_ || _); [by eexists|]. destruct (_ || _); [by eexists|].
  destruct (parse_uint _ _) as [cost|]; [|by eexists]. destruct (negb _); [by eexists|].
  destruct (b64_decode _ _) as [salt|]; [|by eexists].
  destruct (bcrypt_raw_total cost salt p) as (raw & -> & _). cbn [mbind option_bind]. by eexists.
Qed.
