(* ===== verification/Regex.v ===== *)
(** * Regular expressions: [src/src/regex.rs]

    The engine behind R-lines and the spam filter: a recursive-descent parser,
    a compiler to a Thompson program, and two simulations of that program,
    [is_match] for one pattern and [set_matches] for a set of them.

    A [Vec<char>] with a cursor is the list of characters still to read.  The
    parser's [depth] counter bounds the recursion of the source, so it is the
    structural argument here: [levels] is [MAX_DEPTH - depth].  An index out of
    range, which panics in Rust, is [None]. *)

From Stdlib Require Import Ascii.
From S2P Require Import Prelude RustStr.

Local Open Scope stdpp_scope.

(** ** Results *)

Abbreviation Res A := (string + A)%type.
#[local] Abbreviation Err := inl.
#[local] Abbreviation Ok := inr.

Definition res_bind {A B} (r : Res A) (f : A → Res B) : Res B :=
  match r with inl e => inl e | inr a => f a end.
Notation "'try' x := r ; k" := (res_bind r (λ x, k))
  (at level 10, x pattern, r at level 100, k at level 200) : stdpp_scope.

(** ** Characters *)

(** The scalar value a character encodes. *)
Definition code_point (c : string) : N :=
  match map byte_val (as_bytes c) with
  | [a] => a
  | [a; b] => (a - 192) * 64 + (b - 128)
  | [a; b; d] => (a - 224) * 4096 + (b - 128) * 64 + (d - 128)
  | [a; b; d; e] => (a - 240) * 262144 + (b - 128) * 4096 + (d - 128) * 64 + (e - 128)
  | _ => 0
  end%N.

Definition is_ascii_whitespace (b : ascii) : bool :=
  let v := byte_val b in ((v =? 32) || (v =? 9) || (v =? 10) || (v =? 12) || (v =? 13))%N.

Definition NEWLINE : string := chr "010".

Inductive ClassItem :=
  | Range (lo hi : string) | Digit | NotDigit | Word | NotWord | Space | NotSpace.

Definition item_matches (it : ClassItem) (c : string) : bool :=
  match it with
  | Range lo hi => (code_point lo <=? code_point c)%N && (code_point c <=? code_point hi)%N
  | Digit => char_is is_digit c
  | NotDigit => negb (char_is is_digit c)
  | Word => char_is is_alphanumeric c || String.eqb c "_"
  | NotWord => negb (char_is is_alphanumeric c || String.eqb c "_")
  | Space => char_is is_ascii_whitespace c
  | NotSpace => negb (char_is is_ascii_whitespace c)
  end.

Definition class_hit (items : list ClassItem) (negated : bool) (c : string) : bool :=
  xorb (existsb (λ it, item_matches it c) items) negated.

(** ** Syntax and instructions *)

Inductive Ast :=
  | AEmpty
  | AChar (c : string)
  | AAny
  | AClass (items : list ClassItem) (neg : bool)
  | AStart
  | AEnd
  | AConcat (v : list Ast)
  | AAlt (v : list Ast)
  | AStar (a : Ast)
  | APlus (a : Ast)
  | AQuest (a : Ast)
  | ARepeat (a : Ast) (min : N) (max : option N).

Inductive Inst :=
  | IChar (c : string)
  | IAny
  | IClass (items : list ClassItem) (neg : bool)
  | ISplit (x y : nat)
  | IJmp (x : nat)
  | IStart
  | IEnd
  | IMatch
  | IMatchN (id : nat).

Definition MAX_DEPTH : nat := 200.
Definition MAX_REPEAT : N := 1000.
Definition MAX_PROG : N := 200000.

(** ** The parser *)

Abbreviation Parse A := (list string → Res (A * list string)).

Definition peek (cs : list string) : option string := head cs.
Definition at_off (cs : list string) (off : nat) : option string := cs !! off.
Definition is_char (o : option string) (c : string) : bool := map_or false (String.eqb c) o.

Definition eat (c : string) (cs : list string) : bool * list string :=
  if is_char (peek cs) c then (true, drop 1 cs) else (false, cs).

(** [parse_int]: the digits at the cursor; [None] when there are none, or when
    their value does not fit in a [u32]. *)
Fixpoint take_digits (cs : list string) : string * list string :=
  match cs with
  | c :: r => if char_is is_digit c then let '(d, r') := take_digits r in (c +:+ d, r') else ("", cs)
  | [] => ("", [])
  end.

Definition parse_int (cs : list string) : option N * list string :=
  let '(d, r) := take_digits cs in
  if is_empty d then (None, cs) else (parse_uint u32_max d, r).

Definition check_bound (min : N) (max : option N) (r : list string)
    : Res (option (N * option N) * list string) :=
  if ((MAX_REPEAT <? min) || map_or false (λ m, MAX_REPEAT <? m) max)%N
  then Err "repetition count too large"
  else if map_or false (λ m, (m <? min)%N) max then Err "bad repetition range"
  else Ok (Some (min, max), r).

(** [try_bound], at a cursor on the opening brace. *)
Definition try_bound : Parse (option (N * option N)) := λ cs,
  let '(min, r) := parse_int (drop 1 cs) in
  match peek r, min with
  | Some "}", Some m => check_bound m (Some m) (drop 1 r)
  | Some ",", _ =>
      let '(max, r) := parse_int (drop 1 r) in
      let '(closed, r) := eat "}" r in
      if closed then check_bound (default 0%N min) max r else Ok (None, cs)
  | _, _ => Ok (None, cs)
  end.

Definition escape_char (c : string) : string :=
  if String.eqb c "n" then NEWLINE
  else if String.eqb c "t" then chr "009"
  else if String.eqb c "r" then chr "013" else c.

Definition shorthand (c : string) : option ClassItem :=
  if String.eqb c "d" then Some Digit else if String.eqb c "D" then Some NotDigit
  else if String.eqb c "w" then Some Word else if String.eqb c "W" then Some NotWord
  else if String.eqb c "s" then Some Space else if String.eqb c "S" then Some NotSpace
  else None.

Definition parse_escape : Parse Ast := λ cs,
  match cs with
  | [] => Err "trailing backslash"
  | c :: r =>
      Ok (match shorthand c with
          | Some it => AClass [it] false
          | None => AChar (escape_char c)
          end, r)
  end.

Definition UNTERMINATED : string := "unterminated `[`".

Definition class_range (items : list ClassItem) (lo hi : string) (r : list string)
    : Res (list ClassItem * list string) :=
  if (code_point hi <? code_point lo)%N then Err "bad character range"
  else Ok (items ++ [Range lo hi], r).

Definition class_maybe_range (items : list ClassItem) (lo : string) : Parse (list ClassItem) :=
  λ cs,
  if is_char (peek cs) "-" && map_or false (λ c, negb (String.eqb c "]")) (at_off cs 1) then
    match drop 1 cs with
    | "\" :: hi :: r => class_range items lo (escape_char hi) r
    | "\" :: [] => Err UNTERMINATED
    | hi :: r => class_range items lo hi r
    | [] => Err UNTERMINATED
    end
  else Ok (items ++ [Range lo lo], cs).

(** One member of a class: a shorthand, or a (possibly ranged) character. *)
Definition class_member (items : list ClassItem) : Parse (list ClassItem) := λ cs,
  match cs with
  | "\" :: c :: r =>
      match shorthand c with
      | Some it => Ok (items ++ [it], r)
      | None => class_maybe_range items (escape_char c) r
      end
  | "\" :: [] => Err UNTERMINATED
  | lo :: r => class_maybe_range items lo r
  | [] => Err UNTERMINATED
  end.

(** The loop of [parse_class]; each turn consumes a character. *)
Fixpoint class_loop (fuel : nat) (negated first : bool) (items : list ClassItem) : Parse Ast :=
  λ cs,
  match fuel with
  | O => Err UNTERMINATED
  | S fuel =>
      match peek cs with
      | None => Err UNTERMINATED
      | Some c =>
          if String.eqb c "]" && negb first then Ok (AClass items negated, drop 1 cs)
          else try (items, r) := class_member items cs;
               class_loop fuel negated false items r
      end
  end.

Definition parse_class : Parse Ast := λ cs,
  let '(negated, cs) := eat "^" cs in
  class_loop (S (length cs)) negated true [] cs.

(** The flags of [(?...)]: skip past the first [:] or [)]. *)
Fixpoint skip_flags (cs : list string) : list string :=
  match cs with
  | c :: r => if String.eqb c ":" || String.eqb c ")" then r else skip_flags r
  | [] => []
  end.

Section levels.
Variable inner : Parse Ast.

Definition parse_group : Parse Ast := λ cs,
  let cs := if is_char (peek cs) "?" then skip_flags (drop 1 cs) else cs in
  try (a, r) := inner cs;
  let '(closed, r) := eat ")" r in
  if closed then Ok (a, r) else Err "unmatched `(`".

Definition parse_atom : Parse Ast := λ cs,
  match cs with
  | [] => Ok (AEmpty, [])
  | c :: r =>
      if String.eqb c "(" then parse_group r
      else if String.eqb c "[" then parse_class r
      else if String.eqb c "." then Ok (AAny, r)
      else if String.eqb c "^" then Ok (AStart, r)
      else if String.eqb c "$" then Ok (AEnd, r)
      else if String.eqb c "\" then parse_escape r
      else if String.eqb c "*" || String.eqb c "+" || String.eqb c "?" then Err "nothing to repeat"
      else Ok (AChar c, r)
  end.
End levels.

Section sequences.
Variable atom : Parse Ast.

Definition lazy (r : Ast * list string) : Res (Ast * list string) :=
  Ok (r.1, (eat "?" r.2).2).

Definition parse_repeat : Parse Ast := λ cs,
  try (a, r) := atom cs;
  match peek r with
  | Some "*" => lazy (AStar a, drop 1 r)
  | Some "+" => lazy (APlus a, drop 1 r)
  | Some "?" => lazy (AQuest a, drop 1 r)
  | Some "{" =>
      try (b, r) := try_bound r;
      match b with
      | Some (min, max) => lazy (ARepeat a min max, r)
      | None => Ok (a, r)
      end
  | _ => Ok (a, r)
  end.

(** The loop of [parse_concat]; each turn consumes a character. *)
Fixpoint concat_loop (fuel : nat) (items : list Ast) : Parse (list Ast) := λ cs,
  match fuel with
  | O => Ok (items, cs)
  | S fuel =>
      match peek cs with
      | None => Ok (items, cs)
      | Some c =>
          if String.eqb c "|" || String.eqb c ")" then Ok (items, cs)
          else try (a, r) := parse_repeat cs; concat_loop fuel (items ++ [a]) r
      end
  end.

Definition parse_concat : Parse Ast := λ cs,
  try (items, r) := concat_loop (S (length cs)) [] cs;
  Ok (match items with [] => AEmpty | [a] => a | _ => AConcat items end, r).

(** The loop of [parse_alt]; each turn consumes a bar. *)
Fixpoint alt_loop (fuel : nat) (alts : list Ast) : Parse (list Ast) := λ cs,
  match fuel with
  | O => Ok (alts, cs)
  | S fuel =>
      let '(bar, r) := eat "|" cs in
      if bar then try (a, r) := parse_concat r; alt_loop fuel (alts ++ [a]) r
      else Ok (alts, cs)
  end.

Definition parse_alt_with : Parse Ast := λ cs,
  try (a, r) := parse_concat cs;
  try (alts, r) := alt_loop (S (length r)) [a] r;
  Ok (match alts with [a] => a | _ => AAlt alts end, r).
End sequences.

(** [parse_alt] with [levels] nestings left; with none left [parse_atom]
    refuses, which is the source's depth guard. *)
Fixpoint parse_alt (levels : nat) : Parse Ast :=
  parse_alt_with
    match levels with
    | O => λ _, Err "pattern too deeply nested"
    | S l => parse_atom (parse_alt l)
    end.

Definition parse_pattern (pattern : string) : Res Ast :=
  try (ast, r) := parse_alt MAX_DEPTH (chars pattern);
  match r with
  | [] => Ok ast
  | c :: _ => Err ("unexpected `" +:+ c +:+ "`")
  end.

(** ** The compiler *)

Abbreviation Prog := (list Inst).
Abbreviation Emit := (Prog → Res Prog).

(** The size checks at the start and at the end of [compile]. *)
Definition too_large (p : Prog) : bool := (MAX_PROG <? N.of_nat (length p))%N.
Definition sized (f : Emit) : Emit := λ p,
  if too_large p then Err "pattern too large"
  else try p' := f p; if too_large p' then Err "pattern too large" else Ok p'.

Definition push (i : Inst) : Emit := λ p, Ok (p ++ [i]).

Definition emit_star (body : Emit) : Emit := λ p,
  let l1 := length p in
  let p := p ++ [ISplit 0 0] in
  let b := length p in
  try p := body p;
  let p := p ++ [IJmp l1] in
  let l3 := length p in
  Ok (<[l1 := ISplit b l3]> p).

Definition emit_plus (body : Emit) : Emit := λ p,
  let l1 := length p in
  try p := body p;
  let split := length p in
  let p := p ++ [ISplit 0 0] in
  Ok (<[split := ISplit l1 (length p)]> p).

Definition emit_quest (body : Emit) : Emit := λ p,
  let split := length p in
  let p := p ++ [ISplit 0 0] in
  let l1 := length p in
  try p := body p;
  Ok (<[split := ISplit l1 (length p)]> p).

Fixpoint emit_all (fs : list Emit) : Emit := λ p,
  match fs with
  | [] => Ok p
  | f :: fs => try p := f p; emit_all fs p
  end.

(** The alternatives of [Alt]: [jmps] are the jumps to patch with the end. *)
Fixpoint emit_alts (fs : list Emit) (jmps : list nat) (p : Prog) : Res Prog :=
  match fs with
  | [] => Ok (foldl (λ p j, <[j := IJmp (length p)]> p) p jmps)
  | [f] => try p := f p; Ok (foldl (λ p j, <[j := IJmp (length p)]> p) p jmps)
  | f :: fs =>
      let split := length p in
      let p := p ++ [ISplit 0 0] in
      let l1 := length p in
      try p := f p;
      let jmp := length p in
      let p := p ++ [IJmp 0] in
      let l2 := length p in
      emit_alts fs (jmps ++ [jmp]) (<[split := ISplit l1 l2]> p)
  end.

Fixpoint compile (ast : Ast) : Emit :=
  sized
    match ast with
    | AEmpty => λ p, Ok p
    | AChar c => push (IChar c)
    | AAny => push IAny
    | AClass items neg => push (IClass items neg)
    | AStart => push IStart
    | AEnd => push IEnd
    | AConcat v => emit_all (map compile v)
    | AAlt v => emit_alts (map compile v) []
    | AStar a => emit_star (compile a)
    | APlus a => emit_plus (compile a)
    | AQuest a => emit_quest (compile a)
    | ARepeat a min max =>
        λ p, try p := emit_all (replicate (N.to_nat min) (compile a)) p;
             match max with
             | None => sized (emit_star (compile a)) p
             | Some mx => emit_all (replicate (N.to_nat (mx - min)) (sized (emit_quest (compile a)))) p
             end
    end.

(** [Regex::new]: the program begins with an unanchored search. *)
Definition SEARCH : Prog := [ISplit 1 3; IAny; IJmp 0].

Definition regex_new (pattern : string) : Res Prog :=
  try ast := parse_pattern pattern;
  try p := compile ast SEARCH;
  Ok (p ++ [IMatch]).

(** ** The simulation *)

(** The instructions [add_thread] follows without consuming: from [pc] at
    position [pos] of a text of [n] characters. *)
Definition eps_next (i : Inst) (pc pos n : nat) : option (list nat) :=
  match i with
  | IJmp x => Some [x]
  | ISplit x y => Some [x; y]
  | IStart => Some (if Nat.eqb pos 0 then [pc + 1] else [])
  | IEnd => Some (if Nat.eqb pos n then [pc + 1] else [])
  | _ => None
  end.

(** The loop of [add_thread]; [stack] has the top first. *)
Fixpoint closure (fuel : nat) (prog : Prog) (gen : N) (pos n : nat)
    (stack : list nat) (lst : list nat) (seen : list N) : option (list nat * list N) :=
  match fuel, stack with
  | _, [] => Some (lst, seen)
  | O, _ => None
  | S fuel, pc :: stack =>
      match seen !! pc, prog !! pc with
      | Some g, Some i =>
          if (g =? gen)%N then closure fuel prog gen pos n stack lst seen
          else
            let seen := <[pc := gen]> seen in
            match eps_next i pc pos n with
            | Some next => closure fuel prog gen pos n (next ++ stack) lst seen
            | None => closure fuel prog gen pos n stack (lst ++ [pc]) seen
            end
      | _, _ => None
      end
  end.

Definition add_thread (prog : Prog) (lst : list nat) (seen : list N) (gen : N)
    (start pos n : nat) : option (list nat * list N) :=
  closure (2 * length prog + 2) prog gen pos n [start] lst seen.

(** Whether an instruction consumes the character at [pos]. *)
Definition consumes (i : Inst) (text : list string) (pos : nat) : bool :=
  match i with
  | IChar c => map_or false (String.eqb c) (text !! pos)
  | IAny => map_or false (λ x, negb (String.eqb x NEWLINE)) (text !! pos)
  | IClass items neg => map_or false (class_hit items neg) (text !! pos)
  | _ => false
  end.

(** The threads of one position; [Some None] is the source's [return true]. *)
Fixpoint run_threads (prog : Prog) (text : list string) (gen : N) (pos : nat)
    (clist nlist : list nat) (seen : list N) : option (option (list nat * list N)) :=
  match clist with
  | [] => Some (Some (nlist, seen))
  | pc :: clist =>
      match prog !! pc with
      | None => None
      | Some IMatch => Some None
      | Some i =>
          if consumes i text pos then
            match add_thread prog nlist seen gen (pc + 1) (pos + 1) (length text) with
            | Some (nlist, seen) => run_threads prog text gen pos clist nlist seen
            | None => None
            end
          else run_threads prog text gen pos clist nlist seen
      end
  end.

Fixpoint search (prog : Prog) (text : list string) (positions : list nat) (gen : N)
    (clist : list nat) (seen : list N) : option bool :=
  match positions with
  | [] => Some false
  | pos :: positions =>
      let gen := as_u32 (gen + 1) in
      match run_threads prog text gen pos clist [] seen with
      | None => None
      | Some None => Some true
      | Some (Some (nlist, seen)) =>
          if Nat.eqb pos (length text) then Some false
          else search prog text positions gen nlist seen
      end
  end.

Definition is_match_chars (prog : Prog) (text : list string) : option bool :=
  match add_thread prog [] (replicate (length prog) 0%N) 1 0 0 (length text) with
  | Some (clist, seen) => search prog text (seq 0 (length text + 1)) 1 clist seen
  | None => None
  end.

Definition is_match (prog : Prog) (text : string) : option bool :=
  is_match_chars prog (chars text).

(** ** Sets of patterns *)

Definition relocate (i : Inst) (base id : nat) : Inst :=
  match i with
  | ISplit x y => ISplit (x + base) (y + base)
  | IJmp x => IJmp (x + base)
  | IMatch => IMatchN id
  | IMatchN _ => IMatchN id
  | _ => i
  end.

Record RegexSet := mkRegexSet { rs_prog : Prog; rs_starts : list nat; rs_npat : nat }.

Fixpoint set_add (pats : list string) (id : nat) (prog : Prog) (starts : list nat)
    : Res (Prog * list nat) :=
  match pats with
  | [] => Ok (prog, starts)
  | pat :: pats =>
      try re := regex_new pat;
      let base := length prog in
      if (MAX_PROG <? N.of_nat (base + length re))%N then Err "combined pattern set too large"
      else set_add pats (S id) (prog ++ map (λ i, relocate i base id) re) (starts ++ [base])
  end.

Definition set_new (patterns : list string) : Res RegexSet :=
  try (prog, starts) := set_add patterns 0 [] [];
  Ok (mkRegexSet prog starts (length patterns)).

Fixpoint add_starts (prog : Prog) (starts : list nat) (n : nat) (lst : list nat) (seen : list N)
    : option (list nat * list N) :=
  match starts with
  | [] => Some (lst, seen)
  | st :: starts =>
      match add_thread prog lst seen 1 st 0 n with
      | Some (lst, seen) => add_starts prog starts n lst seen
      | None => None
      end
  end.

(** One position of the set: hits are recorded and the scan goes on. *)
Fixpoint set_threads (prog : Prog) (text : list string) (gen : N) (pos : nat)
    (clist nlist : list nat) (seen : list N) (hit : list bool) (nhit : nat)
    : option (list nat * list N * list bool * nat) :=
  match clist with
  | [] => Some (nlist, seen, hit, nhit)
  | pc :: clist =>
      match prog !! pc with
      | None => None
      | Some (IMatchN id) =>
          match hit !! id with
          | None => None
          | Some true => set_threads prog text gen pos clist nlist seen hit nhit
          | Some false => set_threads prog text gen pos clist nlist seen (<[id := true]> hit) (nhit + 1)
          end
      | Some i =>
          if consumes i text pos then
            match add_thread prog nlist seen gen (pc + 1) (pos + 1) (length text) with
            | Some (nlist, seen) => set_threads prog text gen pos clist nlist seen hit nhit
            | None => None
            end
          else set_threads prog text gen pos clist nlist seen hit nhit
      end
  end.

Fixpoint set_search (prog : Prog) (npat : nat) (text : list string) (positions : list nat)
    (gen : N) (clist : list nat) (seen : list N) (hit : list bool) (nhit : nat)
    : option (list bool) :=
  match positions with
  | [] => Some hit
  | pos :: positions =>
      let gen := as_u32 (gen + 1) in
      match set_threads prog text gen pos clist [] seen hit nhit with
      | None => None
      | Some (nlist, seen, hit, nhit) =>
          if Nat.eqb nhit npat then Some hit
          else if Nat.eqb pos (length text) then Some hit
          else set_search prog npat text positions gen nlist seen hit nhit
      end
  end.

Definition hit_ids (hit : list bool) : list nat :=
  map fst (filter (λ '(_, h), h = true) (imap pair hit)).

Definition set_matches_chars (rs : RegexSet) (text : list string) : option (list nat) :=
  if Nat.eqb (rs_npat rs) 0 then Some []
  else
    match add_starts (rs_prog rs) (rs_starts rs) (length text) []
            (replicate (length (rs_prog rs)) 0%N) with
    | None => None
    | Some (clist, seen) =>
        hit_ids <$> set_search (rs_prog rs) (rs_npat rs) text (seq 0 (length text + 1)) 1
                      clist seen (replicate (rs_npat rs) false) 0
    end.

Definition set_matches (rs : RegexSet) (text : string) : option (list nat) :=
  set_matches_chars rs (chars text).
