(* ===== verification/State.v ===== *)
(** * Server state and output: [src/src/server.rs], [src/src/users.rs] (records),
    [src/src/link.rs] (records and propagation)

    The source's [Server] is split in two records: [Core], the tables the
    daemon decides from, and [IO], what has been queued for sockets, links, the
    log and the module hooks.  An output primitive takes [&self] in the source
    and only ever changes [IO]; that is the frame lemma of this file. *)

From Stdlib Require Import Ascii.
From S2P Require Import Prelude RustStr Glob Clock I18n Channel Regex.

Local Open Scope stdpp_scope.

(** ** Users *)

Record UserFlags := mkUserFlags {
  oper : bool; invisible : bool; wallops : bool; cloak_on : bool; bot : bool; deaf : bool;
  hidechans : bool; hideoper : bool; logged_in : bool; reg_only_pm : bool; ssl_pm : bool;
  noctcp : bool; snomask : bool; snomask_cats : string; callerid : bool; showwhois : bool;
  helpop : bool; deny_uncommon : bool; nick_locked : bool; servprotect : bool;
  away : option string }.

#[export] Instance eta_UserFlags : Eta UserFlags := λ f,
  mkUserFlags (oper f) (invisible f) (wallops f) (cloak_on f) (bot f) (deaf f)
    (hidechans f) (hideoper f) (logged_in f) (reg_only_pm f) (ssl_pm f)
    (noctcp f) (snomask f) (snomask_cats f) (callerid f) (showwhois f)
    (helpop f) (deny_uncommon f) (nick_locked f) (servprotect f) (away f).

Definition DEFAULT_SNOMASK : string := "acdfgjklnoqrtuvwx".

Definition default_flags : UserFlags :=
  mkUserFlags false false false false false false false false false false false false false ""
    false false false false false false None.

(** The mode letters a user wears, in the order of [umodes]. *)
Definition umode_table (f : UserFlags) : list (bool * string) :=
  [(invisible f, "i"); (wallops f, "w"); (oper f, "o"); (cloak_on f, "x"); (bot f, "B");
   (servprotect f, "k"); (deaf f, "D"); (hidechans f, "I"); (hideoper f, "H");
   (logged_in f, "r"); (reg_only_pm f, "R"); (ssl_pm f, "z"); (noctcp f, "T");
   (snomask f, "s"); (callerid f, "g"); (showwhois f, "W"); (helpop f, "h");
   (deny_uncommon f, "c")].

Definition umodes (f : UserFlags) : string :=
  "+" +:+ str_concat (map snd (filter (λ '(on, _), on = true) (umode_table f))).

(** The enabled capabilities, by token: the booleans the [define_caps] macro
    generates, as a set. *)
Abbreviation Caps := (gset string).

Definition SUPPORTED_CAPS : list string :=
  ["sasl"; "server-time"; "message-tags"; "multi-prefix"; "away-notify"; "account-notify";
   "extended-join"; "chghost"; "userhost-in-names"; "echo-message"; "invite-notify"; "setname";
   "extended-monitor"; "account-tag"; "standard-replies"; "labeled-response"; "batch";
   "draft/chathistory"; "draft/event-playback"; "draft/message-redaction"; "draft/pre-away";
   "draft/metadata-2"; "draft/multiline"; "draft/account-registration"; "draft/json-log";
   "draft/metrics"; "echoircd/e2e"; "draft/extended-isupport"; "reverse.im/filehost";
   "draft/relaymsg"; "draft/channel-rename"; "draft/read-marker"; "draft/webpush";
   "no-implicit-names"; "cap-notify"].

Definition cap_known (name : string) : bool := existsb (String.eqb name) SUPPORTED_CAPS.
Definition cap_has (c : Caps) (name : string) : bool := bool_decide (name ∈ c).
Definition cap_set (c : Caps) (name : string) (on : bool) : bool * Caps :=
  if cap_known name then (true, if on then {[name]} ∪ c else c ∖ {[name]}) else (false, c).

Inductive ModeAllow := MA_All | MA_Only (letters : gset string).

Definition allows (a : ModeAllow) (c : string) : bool :=
  match a with MA_All => true | MA_Only l => bool_decide (c ∈ l) end.

Record OperType := mkOperType {
  ot_title : string; ot_color : option N; all_commands : bool; commands : gset string;
  deny_commands : gset string; all_privs : bool; privs : gset string; deny_privs : gset string;
  usermodes : ModeAllow; chanmodes : ModeAllow }.

(** A pending CHALLENGE: the oper name, the expected answer, when it was issued. *)
Record RsaChallenge := mkRsaChallenge { rc_name : string; rc_expected : string; rc_at : N }.

(** What a connection needs until it has registered, and to be kept alive: the
    CAP negotiation, the password of PASS, the holds on its registration, the
    reason of a QUIT that is under way, the lines held back, when it was last
    heard of and whether a PING is out, when it last went away, the port it came
    in by, the answer of its ident server, and the network name it is shown; then
    what the flood and the target limits remember of it, and whether it came in
    through a web gateway. *)
Record Session := mkSession {
  ss_cap : bool; ss_cap_302 : bool; ss_pass : option string; ss_waitpong : option string;
  ss_dns_pending : bool; ss_ident_pending : bool; ss_auth_pending : bool;
  ss_quitting : option string; ss_deferred : list string; ss_last_active : N;
  ss_ping_sent : bool; ss_last_away : N; ss_port : N; ss_ident_result : option (option string);
  ss_brand_network : option string; ss_flood_times : list N; ss_flood_warned : bool;
  ss_recent_targets : list N; ss_target_credit : N; ss_via_webirc : bool }.

#[export] Instance eta_Session : Eta Session := λ s,
  mkSession (ss_cap s) (ss_cap_302 s) (ss_pass s) (ss_waitpong s) (ss_dns_pending s)
    (ss_ident_pending s) (ss_auth_pending s) (ss_quitting s) (ss_deferred s) (ss_last_active s)
    (ss_ping_sent s) (ss_last_away s) (ss_port s) (ss_ident_result s) (ss_brand_network s)
    (ss_flood_times s) (ss_flood_warned s) (ss_recent_targets s) (ss_target_credit s) (ss_via_webirc s).

Record User := mkUser {
  u_uuid : string; u_nick : string; u_ident : string; u_realname : string; u_host : string;
  u_cloak : string; u_vhost : option string; u_secure : bool; u_brand_server : option string;
  u_account : option string; u_signon : N; u_nick_ts : N; u_ip : string; u_registered : bool;
  u_class : option string; u_caps : Caps; u_channels : gset string; u_invited : gset string;
  u_watch : list string; u_monitor : list string; u_silence : list string;
  u_signore : list string; u_accept : list string; u_flags : UserFlags;
  u_opertype : option OperType; u_last_msg : N; u_certfp : option string;
  u_swhois : option string; u_sasl_mech : option string; u_oper_level : option N;
  u_challenge : option RsaChallenge; u_session : Session }.

#[export] Instance eta_User : Eta User := λ u,
  mkUser (u_uuid u) (u_nick u) (u_ident u) (u_realname u) (u_host u) (u_cloak u) (u_vhost u)
    (u_secure u) (u_brand_server u) (u_account u) (u_signon u) (u_nick_ts u) (u_ip u)
    (u_registered u) (u_class u) (u_caps u) (u_channels u) (u_invited u) (u_watch u)
    (u_monitor u) (u_silence u) (u_signore u) (u_accept u) (u_flags u) (u_opertype u)
    (u_last_msg u) (u_certfp u) (u_swhois u) (u_sasl_mech u) (u_oper_level u) (u_challenge u)
    (u_session u).

Definition host_display (u : User) : string :=
  match u_vhost u with
  | Some v => v
  | None => if cloak_on (u_flags u) && negb (is_empty (u_cloak u)) then u_cloak u else u_host u
  end.

Definition user_prefix (u : User) : string :=
  u_nick u +:+ "!" +:+ u_ident u +:+ "@" +:+ host_display u.

(** ** Other servers *)

Record Link := mkLink {
  l_outbound : bool; l_registered : bool; l_sent_server : bool; l_sid : option string;
  l_name : option string; l_bursting : bool; l_last_seen : N }.

#[export] Instance eta_Link : Eta Link := λ l,
  mkLink (l_outbound l) (l_registered l) (l_sent_server l) (l_sid l) (l_name l) (l_bursting l)
    (l_last_seen l).

Record LinkBlock := mkLinkBlock {
  lb_name : string; lb_ip : string; lb_port : N; lb_password : string; lb_autoconnect : bool }.

(** An operator login of the configuration. *)
Record OperBlock := mkOperBlock {
  ob_name : string; ob_password : string; ob_level : N; ob_fingerprint : option string;
  ob_type : option string; ob_rsa_key : option string; ob_ldap_dn : option string }.

#[export] Instance eta_OperBlock : Eta OperBlock := λ b,
  mkOperBlock (ob_name b) (ob_password b) (ob_level b) (ob_fingerprint b) (ob_type b)
    (ob_rsa_key b) (ob_ldap_dn b).

Record RemoteServer := mkRemoteServer {
  rs_sid : string; rs_name : string; rs_desc : string; rs_via : Uid; rs_service : bool;
  rs_silent : bool }.

Record RemoteUser := mkRemoteUser {
  ru_nick : string; ru_ident : string; ru_host : string; ru_realname : string;
  ru_account : option string; ru_ip : string; ru_modes : string; ru_sid : string; ru_via : Uid;
  ru_nick_ts : N; ru_away : option string }.

#[export] Instance eta_RemoteUser : Eta RemoteUser := λ r,
  mkRemoteUser (ru_nick r) (ru_ident r) (ru_host r) (ru_realname r) (ru_account r) (ru_ip r)
    (ru_modes r) (ru_sid r) (ru_via r) (ru_nick_ts r) (ru_away r).

Definition ru_prefix (r : RemoteUser) : string :=
  ru_nick r +:+ "!" +:+ ru_ident r +:+ "@" +:+ ru_host r.

Inductive XKind :=
  | Kline | Gline | Zline | Eline | Shun | Qline | Cban | Svshold | Rline | Jupe | Aline | Galine.

#[export] Instance XKind_eq_dec : EqDecision XKind.
Proof. solve_decision. Defined.

Record XLine := mkXLine {
  x_kind : XKind; x_mask : string; x_reason : string; x_setter : string;
  x_expires : N; x_set_at : N }.

Record WhowasEntry := mkWhowas {
  w_nick : string; w_ident : string; w_host : string; w_realname : string;
  w_account : option string; w_ts : N }.

Record HistMsg := mkHistMsg {
  h_ts : N; h_msgid : string; h_prefix : string; h_verb : string; h_target : string;
  h_text : string; h_raw : option string }.

Inductive Hook :=
  | HConnect (u : Uid)
  | HJoin (u : Uid) (chan : string)
  | HPart (u : Uid) (chan reason : string)
  | HQuit (u : Uid) (reason : string).

(** ** Spam filters *)

(** A compiled pattern of [src/src/modules/pattern.rs]. *)
Inductive Matcher := GlobMatcher (pattern : string) | RegexMatcher (re : Prog).

Record SpamFilter := mkSpamFilter {
  sf_pattern : string; sf_engine : string; sf_action : string; sf_duration : N;
  sf_reason : string; sf_matcher : Matcher }.

(** The rules, the combined set of the regular expressions among them, and the
    rule each pattern of the set comes from. *)
Record Filters := mkFilters {
  f_rules : list SpamFilter; f_set : option RegexSet; f_set_idx : list nat }.

(** ** The two halves of the server *)

(** A long message being sent in parts. *)
Record MlineBatch := mkMlineBatch {
  mb_ref : string; mb_target : string; mb_notice : bool; mb_parts : list (string * bool);
  mb_bytes : N; mb_overflowed : bool }.

#[export] Instance eta_MlineBatch : Eta MlineBatch := λ b,
  mkMlineBatch (mb_ref b) (mb_target b) (mb_notice b) (mb_parts b) (mb_bytes b) (mb_overflowed b).

Record Core := mkCore {
  s_name : string; s_sid : string; s_created : N;
  users : gmap Uid User;
  nick_index : gmap string Uid;
  channels : gmap string Channel;
  links : gmap Uid Link;
  uuid_local : gmap string Uid;
  remote_users : gmap string RemoteUser;
  remote_nick : gmap string string;
  xlines : list XLine;
  whowas : list WhowasEntry;
  mode_sudo : bool;
  in_redirect : bool;
  redir_depth : N;
  raw_config : gmap string (list string);
  catalog : Catalog;
  prefix_cfg : option PrefixCfg;
  accepted_nicks : gmap string N;
  watch_by : gmap string (gset Uid);
  monitor_by : gmap string (gset Uid);
  s_history : gmap string (list HistMsg);
  s_metadata : gmap string (gmap string string);
  servers : gmap string RemoteServer;
  sasl_server : string;
  link_blocks : list LinkBlock;
  opers : list OperBlock;
  server_desc : string;
  s_filters : Filters;
  per_ip : gmap string N;
  per_class : gmap string N;
  per_ip_class : gmap (string * string) N;
  unreg_count : N;
  unreg_flood : bool;
  uuid_counter : N;
  msgid_counter : N;
  line_ctags : string;
  censor_rules : list (string * string);
  mlines : gmap Uid MlineBatch;
  s_network : string;
  s_motd : list string;
  max_local : N;
  max_global : N;
  clock : N }.

#[export] Instance eta_Core : Eta Core := λ c,
  mkCore (s_name c) (s_sid c) (s_created c) (users c) (nick_index c) (channels c) (links c)
    (uuid_local c) (remote_users c) (remote_nick c) (xlines c) (whowas c) (mode_sudo c)
    (in_redirect c) (redir_depth c) (raw_config c) (catalog c) (prefix_cfg c)
    (accepted_nicks c) (watch_by c) (monitor_by c) (s_history c) (s_metadata c)
    (servers c) (sasl_server c) (link_blocks c) (opers c) (server_desc c) (s_filters c) (per_ip c) (per_class c) (per_ip_class c) (unreg_count c)
    (unreg_flood c) (uuid_counter c)
    (msgid_counter c) (line_ctags c) (censor_rules c) (mlines c) (s_network c)
    (s_motd c) (max_local c) (max_global c) (clock c).

(** Work handed to other threads: checking a password against a slow hash or a
    directory, hashing one, and dialling a server. *)
Inductive Check :=
  | CheckHash (stored plain : string)
  | CheckLdap (server dn password : string) (verify_tls : bool).

Inductive Job :=
  | JobOper (uid : Uid) (check : Check) (level : N) (otype : option string)
  | JobHash (uid : Uid) (algo plain : string)
  | JobClass (uid : Uid) (stored : string) (sent : option string)
  | JobDial (addr : string) (max_line : N).

Record IO := mkIO {
  out : gmap Uid (list string);
  link_q : gmap Uid (list string);
  label_capture : option (Uid * list string);
  log_seq : N;
  log_ring : list (N * N * string);
  events : list Hook;
  bus : list string;
  disk : gmap string string;
  db_rows : gmap string (list (list string));
  jobs : list Job }.

#[export] Instance eta_IO : Eta IO := λ i,
  mkIO (out i) (link_q i) (label_capture i) (log_seq i) (log_ring i) (events i) (bus i)
    (disk i) (db_rows i) (jobs i).

Record Server := mkServer { core : Core; io : IO }.

#[export] Instance eta_Server : Eta Server := λ s, mkServer (core s) (io s).

(** What the modelled code asks of data and components outside this model: the
    GeoIP and ASN databases (files in a third-party format), the reputation
    table, the security groups, the JSON form of a server notice, the Redis event
    bus ([None] when it is not configured, else the categories it is restricted
    to), whether a database is configured, the public key of the push service, the
    first bytes of a file (when they can be read and are UTF-8), and the path of
    the configuration file. *)
Class Outside := {
  geo_country : string → option string;
  asn_number : string → option N;
  score_of : Core → Uid → N;
  in_group : Core → Uid → string → bool;
  json_tag : Core → string → string;
  redis_bus : option (option (list string));
  pgsql_on : bool;
  vapid_key : option string;
  read_text : N → string → option string;
  conf_file : string;
}.

(** An environment with no databases, groups or files. *)
Definition bare_outside : Outside :=
  {| geo_country := λ _, None; asn_number := λ _, None; score_of := λ _ _, 0%N;
     in_group := λ _ _ _, false; json_tag := λ _ _, "";
     redis_bus := None; pgsql_on := false; vapid_key := None; read_text := λ _ _, None; conf_file := "echoircd.conf" |}.

(** ** Configuration *)

Definition conf_all (c : Core) (k : string) : list string := default [] (raw_config c !! k).
Definition conf (c : Core) (k : string) : option string := last (conf_all c k).
Definition conf_bool (c : Core) (k : string) (d : bool) : bool := map_or d yesish (conf c k).
Definition conf_num (c : Core) (max : N) (k : string) (d : N) : N :=
  default d (v ← conf c k; parse_uint max v).

Definition trf (c : Core) (template : string) (args : list string) : string :=
  render (tr (catalog c) template) args.

(** ** Reads of the tables *)

Definition find_nick (c : Core) (nick : string) : option Uid :=
  nick_index c !! to_ascii_lowercase nick.

Definition is_oper (c : Core) (uid : Uid) : bool :=
  map_or false (λ u, oper (u_flags u)) (users c !! uid).

Definition find_remote (c : Core) (nick : string) : option (string * Uid) :=
  uuid ← remote_nick c !! to_ascii_lowercase nick;
  ru ← remote_users c !! uuid;
  Some (uuid, ru_via ru).

Definition user_has_priv (u : User) (name : string) : bool :=
  if negb (oper (u_flags u)) then false
  else match u_opertype u with
       | None => true
       | Some t => (all_privs t || bool_decide (name ∈ privs t))
                   && negb (bool_decide (name ∈ deny_privs t))
       end.

Definition has_priv (c : Core) (uid : Uid) (name : string) : bool :=
  map_or false (λ u, user_has_priv u name) (users c !! uid).

Definition can_use_mode (c : Core) (uid : Uid) (letter : string) (chan : bool) : bool :=
  match users c !! uid ≫= u_opertype with
  | None => true
  | Some t => if chan then allows (chanmodes t) letter else allows (usermodes t) letter
  end.

(** [Server::rank]: SAMODE/SAKICK authority makes every rank check pass. *)
Definition rank (c : Core) (uid : Uid) (k : string) : N :=
  if mode_sudo c then RANK_OWNER
  else match channels c !! k ≫= (λ ch, members ch !! uid) with
       | Some m => member_rank (prefix_cfg c) m
       | None => 0
       end.

Definition is_op (c : Core) (uid : Uid) (k : string) : bool := (RANK_OP <=? rank c uid k)%N.

Definition is_member (c : Core) (uid : Uid) (k : string) : bool :=
  map_or false (λ ch, is_some (members ch !! uid)) (channels c !! k).

Definition has_cap (c : Core) (uid : Uid) (cap : string) : bool :=
  map_or false (λ u, cap_has (u_caps u) cap) (users c !! uid).

(** ** Updates *)

Definition upd (f : Core → Core) (s : Server) : Server := s <| core ::= f |>.

Definition with_chan (k : string) (f : Channel → Channel) (c : Core) : Core :=
  c <| channels ::= alter f k |>.

Definition with_user (uid : Uid) (f : User → User) (c : Core) : Core :=
  c <| users ::= alter f uid |>.

(** ** Output primitives *)

Definition push_out (uid : Uid) (line : string) (q : gmap Uid (list string))
    : gmap Uid (list string) :=
  <[uid := default [] (q !! uid) ++ [line]]> q.

Definition emit_to (uid : Uid) (line : string) (s : Server) : Server :=
  match label_capture (io s) with
  | Some (cuid, buf) =>
      if bool_decide (cuid = uid)
      then s <| io ::= (λ i, i <| label_capture := Some (cuid, buf ++ [line]) |>) |>
      else match users (core s) !! uid with
           | Some _ => s <| io ::= (λ i, i <| out ::= push_out uid line |>) |>
           | None => s
           end
  | None =>
      match users (core s) !! uid with
      | Some _ => s <| io ::= (λ i, i <| out ::= push_out uid line |>) |>
      | None => s
      end
  end.

Definition time_tagged (c : Core) (line : string) : string :=
  "@time=" +:+ iso_time (clock c) +:+ " " +:+ line.

Definition send (uid : Uid) (line : string) (s : Server) : Server :=
  match users (core s) !! uid with
  | Some u =>
      emit_to uid (if cap_has (u_caps u) "server-time" && starts_with ":" line
                   then time_tagged (core s) line else line) s
  | None => s
  end.

Definition numeric_line (c : Core) (uid : Uid) (code : N) (rest : string) : string :=
  let u := users c !! uid in
  let target := map_or "*" (λ u, if is_empty (u_nick u) then "*" else u_nick u) u in
  let srv := default (s_name c) (u ≫= u_brand_server) in
  ":" +:+ srv +:+ " " +:+ pad_N 3 code +:+ " " +:+ target +:+ " "
  +:+ tr_numeric (catalog c) rest.

Definition numeric (uid : Uid) (code : N) (rest : string) (s : Server) : Server :=
  send uid (numeric_line (core s) uid code rest) s.

(** IRCv3 standard replies, or a notice for clients without the capability. *)
Definition standard_reply (uid : Uid) (kind command code desc : string) (s : Server) : Server :=
  if has_cap (core s) uid "standard-replies" then
    send uid (":" +:+ s_name (core s) +:+ " " +:+ kind +:+ " " +:+ command +:+ " " +:+ code
              +:+ " :" +:+ desc) s
  else
    let nick := map_or "*" (λ u, if is_empty (u_nick u) then "*" else u_nick u)
                  (users (core s) !! uid) in
    send uid (":" +:+ s_name (core s) +:+ " NOTICE " +:+ nick +:+ " :" +:+ desc) s.

Definition fail_reply (uid : Uid) (command code desc : string) : Server → Server :=
  standard_reply uid "FAIL" command code desc.

Definition for_each {A} (l : list A) (f : A → Server → Server) (s : Server) : Server :=
  foldl (λ s x, f x s) s l.

Definition chan_members (c : Core) (k : string) : list Uid :=
  map_or [] (λ ch, elements (dom (members ch))) (channels c !! k).

Definition to_channel (k line : string) (except : option Uid) (s : Server) : Server :=
  for_each (chan_members (core s) k) (λ uid s,
    if bool_decide (Some uid = except) then s
    else emit_to uid
      (if starts_with ":" line && has_cap (core s) uid "server-time"
       then time_tagged (core s) line else line) s) s.

(** +u: only ops and the actor see the line. *)
Definition to_channel_vis (k line : string) (actor : Uid) (s : Server) : Server :=
  match channels (core s) !! k with
  | None => s
  | Some ch =>
      for_each (elements (dom (members ch))) (λ uid s,
        if auditorium (modes ch) && negb (bool_decide (uid = actor))
           && (map_or 0 (member_rank (prefix_cfg (core s))) (members ch !! uid) <? RANK_OP)%N
        then s else send uid line s) s
  end.

(** *** Server notices *)

Definition log_push (msg : string) (s : Server) : Server :=
  s <| io ::= (λ i,
    let seq := wrap_u64 (log_seq i + 1) in
    let ring := log_ring i ++ [(seq, clock (core s), msg)] in
    i <| log_seq := seq |> <| log_ring := drop (length ring - 1000) ring |>) |>.

Definition deliver_server_notice (uid : Uid) (msg jval : string) (s : Server) : Server :=
  match users (core s) !! uid with
  | None => s
  | Some u =>
      let msg := tr (catalog (core s)) msg in
      let tags :=
        (if cap_has (u_caps u) "server-time" then ["time=" +:+ iso_time (clock (core s))] else [])
        ++ (if cap_has (u_caps u) "draft/json-log" && negb (is_empty jval)
            then ["draft/json-log=" +:+ jval] else []) in
      let base := ":" +:+ s_name (core s) +:+ " NOTICE " +:+ u_nick u +:+ " :*** " +:+ msg in
      emit_to uid (match tags with [] => base | _ => "@" +:+ str_join ";" tags +:+ " " +:+ base end) s
  end.

(** [chanlog::tee]: mirror a notice into the configured log channels. *)
Definition chanlog_tee (cat msg : string) (s : Server) : Server :=
  for_each (conf_all (core s) "chanlog") (λ spec s,
    match split_whitespace spec with
    | [] => s
    | chan :: rest =>
        if map_or false (λ masks, negb (existsb (String.eqb cat) (chars masks))) (head rest)
        then s
        else match channels (core s) !! to_ascii_lowercase chan with
             | None => s
             | Some _ =>
                 to_channel (to_ascii_lowercase chan)
                   (":" +:+ s_name (core s) +:+ " PRIVMSG " +:+ chan +:+ " :" +:+ msg) None s
             end
    end) s.

Definition notice_targets (c : Core) (cat : string) : list Uid :=
  map fst (filter (λ '(_, u), oper (u_flags u)
                    && existsb (String.eqb cat) (chars (snomask_cats (u_flags u))) = true)
             (map_to_list (users c))).

Definition snotice_c `{Outside} (cat msg : string) (s : Server) : Server :=
  let s := log_push msg s in
  let opers := notice_targets (core s) cat in
  let jval := if existsb (λ u, has_cap (core s) u "draft/json-log") opers
              then json_tag (core s) msg else "" in
  chanlog_tee cat msg (for_each opers (λ o, deliver_server_notice o msg jval) s).

(** [redis::publish_event]: one tab-separated line, unless its category is
    filtered out. *)
Definition TAB : string := chr "009".

Definition bus_allows (allow : option (list string)) (fields : list string) : bool :=
  match allow with
  | Some l => map_or false (λ kind, existsb (String.eqb kind) l) (head fields)
  | None => true
  end.

Definition publish_event `{Outside} (fields : list string) (s : Server) : Server :=
  match redis_bus with
  | Some allow =>
      if bus_allows allow fields
      then s <| io ::= (λ i, i <| bus ::= (λ b, b ++ [str_join TAB fields]) |>) |> else s
  | None => s
  end.

(** *** Links *)

Definition link_out (uid : Uid) (line : string) (s : Server) : Server :=
  match links (core s) !! uid with
  | Some _ => s <| io ::= (λ i, i <| link_q ::= push_out uid line |>) |>
  | None => s
  end.

Definition propagate (line : string) (except : option Uid) (s : Server) : Server :=
  for_each
    (map fst (filter (λ '(u, l), l_registered l && negb (bool_decide (Some u = except)) = true)
                (map_to_list (links (core s)))))
    (λ u, link_out u line) s.

Definition no_links (c : Core) : bool := bool_decide (links c = ∅).

Definition propagate_nick (uid : Uid) (newnick : string) (s : Server) : Server :=
  match users (core s) !! uid with
  | Some u =>
      if u_registered u && negb (no_links (core s)) then
        propagate (":" +:+ u_uuid u +:+ " NICK " +:+ newnick +:+ " "
                   +:+ to_string (clock (core s))) None s
      else s
  | None => s
  end.

Definition propagate_join (uid : Uid) (chan : string) (is_new : bool) (s : Server) : Server :=
  if no_links (core s) then s
  else match users (core s) !! uid, channels (core s) !! to_ascii_lowercase chan with
  | Some u, Some ch =>
      if negb (u_registered u) then s
      else
        let letters := map_or "" (mode_letters (prefix_cfg (core s))) (members ch !! uid) in
        if is_new then
          propagate (":" +:+ s_sid (core s) +:+ " FJOIN " +:+ ch_name ch +:+ " "
            +:+ to_string (created ch) +:+ " " +:+ modes_render (modes ch) false +:+ " :"
            +:+ letters +:+ "," +:+ u_uuid u) None s
        else
          let flags := if is_empty letters then "" else " " +:+ letters in
          propagate (":" +:+ u_uuid u +:+ " IJOIN " +:+ ch_name ch +:+ " 1 "
            +:+ to_string (created ch) +:+ flags) None s
  | _, _ => s
  end.

Definition propagate_part (uid : Uid) (chan reason : string) (s : Server) : Server :=
  if no_links (core s) then s
  else match users (core s) !! uid with
  | Some u =>
      if u_registered u then
        propagate (if is_empty reason then ":" +:+ u_uuid u +:+ " PART " +:+ chan
                   else ":" +:+ u_uuid u +:+ " PART " +:+ chan +:+ " :" +:+ reason) None s
      else s
  | None => s
  end.

Definition propagate_topic (uid : Uid) (chan text : string) (s : Server) : Server :=
  if no_links (core s) then s
  else match users (core s) !! uid, channels (core s) !! to_ascii_lowercase chan with
  | Some u, Some ch =>
      if negb (u_registered u) then s
      else propagate (":" +:+ u_uuid u +:+ " FTOPIC " +:+ ch_name ch +:+ " "
             +:+ to_string (created ch) +:+ " "
             +:+ to_string (map_or (clock (core s)) t_ts (ch_topic ch)) +:+ " "
             +:+ user_prefix u +:+ " :" +:+ text) None s
  | _, _ => s
  end.

(** The link a remote user is reached through; [target] is a network id or a
    nick. *)
Definition link_toward (c : Core) (target : string) : option Uid :=
  uuid ← (if is_some (remote_users c !! target) then Some target
          else remote_nick c !! to_ascii_lowercase target);
  ru_via <$> remote_users c !! uuid.

Definition route_invite (inviter target chan : string) (s : Server) : Server :=
  match link_toward (core s) target with
  | Some v => link_out v (":" +:+ inviter +:+ " INVITE " +:+ target +:+ " " +:+ chan) s
  | None => s
  end.

Definition sasl_link (c : Core) : option Uid :=
  if is_empty (sasl_server c) then None
  else rs_via <$> find_first (λ sv, String.eqb (rs_name sv) (sasl_server c))
                    (map snd (map_to_list (servers c))).

Definition push_signore_to_services (uid : Uid) (s : Server) : Server :=
  match sasl_link (core s), users (core s) !! uid with
  | Some via, Some u =>
      if is_some (u_account u) then
        link_out via (":" +:+ s_sid (core s) +:+ " METADATA " +:+ u_uuid u +:+ " signore :"
                      +:+ str_join " " (u_signore u)) s
      else s
  | _, _ => s
  end.

Definition propagate_rename (source oldname newname reason : string) (except : option Uid)
    (s : Server) : Server :=
  if no_links (core s) then s
  else propagate (":" +:+ source +:+ " RENAME " +:+ oldname +:+ " " +:+ newname
                  +:+ " :" +:+ reason) except s.

Definition propagate_from_user (uid : Uid) (rest : string) (s : Server) : Server :=
  if no_links (core s) then s
  else match users (core s) !! uid with
  | Some u =>
      if u_registered u then propagate (":" +:+ u_uuid u +:+ " " +:+ rest) None s else s
  | None => s
  end.

Definition nick_to_uuid (c : Core) (tok : string) : string :=
  match find_nick c tok ≫= (λ l, users c !! l) with
  | Some u => u_uuid u
  | None => match find_remote c tok with Some (uuid, _) => uuid | None => tok end
  end.

Definition propagate_kick (uid : Uid) (chan victim reason : string) (s : Server) : Server :=
  if no_links (core s) then s
  else match users (core s) !! uid with
  | Some u =>
      if negb (u_registered u) then s
      else propagate (":" +:+ u_uuid u +:+ " KICK " +:+ chan +:+ " "
             +:+ nick_to_uuid (core s) victim +:+ " :" +:+ reason) None s
  | None => s
  end.

(** The parameters of an outgoing FMODE: walk the mode string with the index of
    the next parameter, rewriting member nicks to network ids. *)
Definition is_letter_in (l : list string) (c : string) : bool := existsb (String.eqb c) l.

Fixpoint fmode_params (c : Core) (sign : string) (cs : list string) (ps : list string)
    : list string :=
  match cs with
  | [] => ps
  | m :: cs' =>
      if is_letter_in ["+"; "-"] m then fmode_params c m cs' ps
      else if is_letter_in ["y"; "q"; "a"; "o"; "h"; "v"] m then
        match ps with
        | p :: ps' => nick_to_uuid c p :: fmode_params c sign cs' ps'
        | [] => fmode_params c sign cs' []
        end
      else if is_letter_in ["b"; "e"; "I"; "k"] m
              || (String.eqb m "l" && String.eqb sign "+") then
        match ps with
        | p :: ps' => p :: fmode_params c sign cs' ps'
        | [] => fmode_params c sign cs' []
        end
      else fmode_params c sign cs' ps
  end.

Definition propagate_chan_mode (src chan modestring : string) (params : list string)
    (s : Server) : Server :=
  if no_links (core s) then s
  else
    let c := core s in
    let ts := map_or (clock c) created (channels c !! to_ascii_lowercase chan) in
    let out := fmode_params c "+" (chars modestring) params in
    let pstr := match out with [] => "" | _ => " " +:+ str_join " " out end in
    propagate (":" +:+ src +:+ " FMODE " +:+ chan +:+ " " +:+ to_string ts +:+ " "
               +:+ modestring +:+ pstr) None s.

(** ** Output leaves the core alone *)

Class Outputs (f : Server → Server) := outputs : ∀ s, core (f s) = core s.

Section frame.

#[export] Instance emit_to_outputs uid line : Outputs (emit_to uid line).
Proof. intros s. unfold emit_to. repeat case_match; done. Qed.

#[export] Instance send_outputs uid line : Outputs (send uid line).
Proof. intros s. unfold send. case_match; [apply emit_to_outputs|done]. Qed.

#[export] Instance numeric_outputs uid code rest : Outputs (numeric uid code rest).
Proof. intros s. apply send_outputs. Qed.

#[export] Instance standard_reply_outputs uid k c d e : Outputs (standard_reply uid k c d e).
Proof. intros s. unfold standard_reply. case_match; apply send_outputs. Qed.

#[export] Instance fail_reply_outputs uid c d e : Outputs (fail_reply uid c d e).
Proof. apply _. Qed.

Lemma for_each_outputs {A} (l : list A) (f : A → Server → Server) s :
  (∀ x, Outputs (f x)) → core (for_each l f s) = core s.
Proof.
  intros H. unfold for_each. revert s. induction l as [|x l IH]; intros s; [done|].
  cbn. rewrite IH. apply H.
Qed.

#[export] Instance for_each_outputs' {A} (l : list A) (f : A → Server → Server) :
  (∀ x, Outputs (f x)) → Outputs (for_each l f).
Proof. intros H s. by apply for_each_outputs. Qed.

#[export] Instance to_channel_outputs k line ex : Outputs (to_channel k line ex).
Proof.
  intros s. unfold to_channel. apply for_each_outputs. intros x s'.
  case_match; [done|]. apply emit_to_outputs.
Qed.

#[export] Instance to_channel_vis_outputs k line a : Outputs (to_channel_vis k line a).
Proof.
  intros s. unfold to_channel_vis. case_match; [|done]. apply for_each_outputs. intros x s'.
  case_match; [done|]. apply send_outputs.
Qed.

#[export] Instance log_push_outputs msg : Outputs (log_push msg).
Proof. by intros s. Qed.

#[export] Instance deliver_outputs uid msg j : Outputs (deliver_server_notice uid msg j).
Proof. intros s. unfold deliver_server_notice. case_match; [apply emit_to_outputs|done]. Qed.

#[export] Instance chanlog_tee_outputs cat msg : Outputs (chanlog_tee cat msg).
Proof.
  intros s. unfold chanlog_tee. apply for_each_outputs. intros x s'.
  repeat case_match; try done; apply to_channel_outputs.
Qed.

#[export] Instance snotice_c_outputs `{Outside} cat msg : Outputs (snotice_c cat msg).
Proof.
  intros s. unfold snotice_c. rewrite outputs, for_each_outputs; [done|]. intros x. apply _.
Qed.

#[export] Instance publish_event_outputs `{Outside} parts : Outputs (publish_event parts).
Proof. intros s. unfold publish_event. by repeat case_match. Qed.

#[export] Instance link_out_outputs uid line : Outputs (link_out uid line).
Proof. intros s. unfold link_out. by case_match. Qed.

#[export] Instance propagate_outputs line ex : Outputs (propagate line ex).
Proof. intros s. apply for_each_outputs. intros x. apply _. Qed.

#[export] Instance propagate_nick_outputs uid n : Outputs (propagate_nick uid n).
Proof. intros s. unfold propagate_nick. repeat case_match; try done; apply propagate_outputs. Qed.

#[export] Instance propagate_join_outputs uid ch b : Outputs (propagate_join uid ch b).
Proof. intros s. unfold propagate_join. repeat case_match; try done; apply propagate_outputs. Qed.

#[export] Instance propagate_part_outputs uid ch r : Outputs (propagate_part uid ch r).
Proof. intros s. unfold propagate_part. repeat case_match; try done; apply propagate_outputs. Qed.

#[export] Instance propagate_topic_outputs uid ch t : Outputs (propagate_topic uid ch t).
Proof. intros s. unfold propagate_topic. repeat case_match; try done; apply propagate_outputs. Qed.

#[export] Instance route_invite_outputs a b c : Outputs (route_invite a b c).
Proof. intros s. unfold route_invite. case_match; [apply link_out_outputs|done]. Qed.

#[export] Instance push_signore_outputs uid : Outputs (push_signore_to_services uid).
Proof.
  intros s. unfold push_signore_to_services. repeat case_match; try done; apply link_out_outputs.
Qed.

#[export] Instance propagate_rename_outputs a b c d e : Outputs (propagate_rename a b c d e).
Proof. intros s. unfold propagate_rename. case_match; [done|apply propagate_outputs]. Qed.

#[export] Instance propagate_from_user_outputs uid r : Outputs (propagate_from_user uid r).
Proof. intros s. unfold propagate_from_user. repeat case_match; try done; apply propagate_outputs. Qed.

#[export] Instance propagate_kick_outputs a b c d : Outputs (propagate_kick a b c d).
Proof. intros s. unfold propagate_kick. repeat case_match; try done; apply propagate_outputs. Qed.

#[export] Instance propagate_chan_mode_outputs a b c d : Outputs (propagate_chan_mode a b c d).
Proof. intros s. unfold propagate_chan_mode. case_match; [done|apply propagate_outputs]. Qed.

End frame.

(** [frame] removes output primitives from under [core]. *)
Ltac frame := repeat (rewrite outputs); cbn [core upd update_field].
