(* ===== verification/Mode.v ===== *)
(** * Mode handlers: [src/src/mode.rs]

    One value of [ChanMode] per handler object of the source's table, one of
    [UserMode] per user-mode handler; [chan_apply] and [user_apply] dispatch to
    the [apply] method of each. *)

From Stdlib Require Import Ascii.
From S2P Require Import Prelude RustStr Glob Duration I18n Channel State Numeric.

Local Open Scope stdpp_scope.

Inductive Applied := ANo | AYes (echo : option string).

Inductive ListKind := LBan | LExcept | LInvex | LFilter | LExemptChanOps | LAutoOp.

#[export] Instance ListKind_eq_dec : EqDecision ListKind.
Proof. solve_decision. Defined.

Inductive ChanMode :=
  | Prefix (ch : string) (prank : N)
  | ListMode (ch : string) (kind : ListKind)
  | Flag (ch : string) (set : bool → ChanModes → ChanModes)
  | OperFlagChan (ch : string) (set : bool → ChanModes → ChanModes)
  | RegisteredChan | Key | Limit | ChanHistory | SecureOnly | Encrypted
  | MsgFloodMode | JoinFloodMode | NickFloodMode | SlowMode | RedirectMode
  | AntiCapsMode | KickNoRejoinMode | DelayMsgMode | RepeatMode.

(** ** The table *)

Definition OWNER := Prefix "q" RANK_OWNER.
Definition ADMIN := Prefix "a" RANK_ADMIN.
Definition OP := Prefix "o" RANK_OP.
Definition HALFOP := Prefix "h" RANK_HALFOP.
Definition VOICE := Prefix "v" RANK_VOICE.

Definition set_moderated (v : bool) (m : ChanModes) := m <| moderated := v |>.
Definition set_noexternal (v : bool) (m : ChanModes) := m <| no_external := v |>.
Definition set_topiclock (v : bool) (m : ChanModes) := m <| topic_ops := v |>.
Definition set_inviteonly (v : bool) (m : ChanModes) := m <| invite_only := v |>.
Definition set_secret (v : bool) (m : ChanModes) := m <| secret := v |>.
Definition set_private (v : bool) (m : ChanModes) := m <| private := v |>.
Definition set_operonly (v : bool) (m : ChanModes) := m <| oper_only := v |>.
Definition set_nonick (v : bool) (m : ChanModes) := m <| no_nick := v |>.
Definition set_noctcp (v : bool) (m : ChanModes) := m <| no_ctcp := v |>.
Definition set_nonotice (v : bool) (m : ChanModes) := m <| no_notice := v |>.
Definition set_nocolor (v : bool) (m : ChanModes) := m <| no_color := v |>.
Definition set_stripcolor (v : bool) (m : ChanModes) := m <| strip_color := v |>.
Definition set_regonly (v : bool) (m : ChanModes) := m <| reg_only := v |>.
Definition set_regmoderated (v : bool) (m : ChanModes) := m <| reg_moderated := v |>.
Definition set_censor (v : bool) (m : ChanModes) := m <| censor := v |>.
Definition set_auditorium (v : bool) (m : ChanModes) := m <| auditorium := v |>.
Definition set_nokicks (v : bool) (m : ChanModes) := m <| nokicks := v |>.
Definition set_allowinvite (v : bool) (m : ChanModes) := m <| allowinvite := v |>.
Definition set_permanent (v : bool) (m : ChanModes) := m <| permanent := v |>.
Definition set_opmoderated (v : bool) (m : ChanModes) := m <| opmoderated := v |>.
Definition set_delayjoin (v : bool) (m : ChanModes) := m <| delayjoin := v |>.

Definition CHAN_MODES : list ChanMode :=
  [OWNER; ADMIN; OP; HALFOP; VOICE;
   ListMode "b" LBan; ListMode "e" LExcept; ListMode "I" LInvex;
   Key; Limit; SlowMode; RegisteredChan;
   Flag "m" set_moderated; Flag "n" set_noexternal; Flag "t" set_topiclock;
   Flag "i" set_inviteonly; Flag "s" set_secret; SecureOnly; Flag "p" set_private;
   OperFlagChan "O" set_operonly; Flag "N" set_nonick; Flag "C" set_noctcp;
   Flag "T" set_nonotice; Flag "c" set_nocolor; Flag "S" set_stripcolor;
   Flag "R" set_regonly; Flag "M" set_regmoderated; Flag "G" set_censor;
   Flag "u" set_auditorium; Encrypted; ListMode "g" LFilter;
   MsgFloodMode; JoinFloodMode; NickFloodMode; RedirectMode; ChanHistory; AntiCapsMode;
   Flag "Q" set_nokicks; Flag "A" set_allowinvite; OperFlagChan "P" set_permanent;
   KickNoRejoinMode; Flag "U" set_opmoderated; DelayMsgMode; RepeatMode;
   ListMode "X" LExemptChanOps; ListMode "w" LAutoOp; Flag "D" set_delayjoin].

Definition letter (h : ChanMode) : string :=
  match h with
  | Prefix ch _ | ListMode ch _ | Flag ch _ | OperFlagChan ch _ => ch
  | RegisteredChan => "r" | Key => "k" | Limit => "l" | ChanHistory => "H"
  | SecureOnly => "z" | Encrypted => "E" | MsgFloodMode => "f" | JoinFloodMode => "j"
  | NickFloodMode => "F" | SlowMode => "W" | RedirectMode => "L" | AntiCapsMode => "B"
  | KickNoRejoinMode => "J" | DelayMsgMode => "d" | RepeatMode => "K"
  end.

Definition wants_param (h : ChanMode) (adding : bool) : bool :=
  match h with
  | Prefix _ _ | ListMode _ _ | Key => true
  | Flag _ _ | OperFlagChan _ _ | RegisteredChan | SecureOnly | Encrypted => false
  | _ => adding
  end.

Definition is_list (h : ChanMode) : bool := match h with ListMode _ _ => true | _ => false end.
Definition is_prefix (h : ChanMode) : bool := match h with Prefix _ _ => true | _ => false end.

Definition builtin_chan_mode (c : string) : option ChanMode :=
  find_first (λ m, String.eqb (letter m) c) CHAN_MODES.

(** Built-in handlers first, then the configured prefixes. *)
Definition chan_mode (cfg : option PrefixCfg) (c : string) : option ChanMode :=
  match builtin_chan_mode c with
  | Some h => Some h
  | None =>
      d ← find_first (λ d, String.eqb (pd_letter d) c) (custom_defs cfg);
      Some (Prefix (pd_letter d) (pd_rank d))
  end.

(** ** Parsing of mode parameters *)

Definition parse_rate (p : string) : option Rate :=
  match split_once ":" p with
  | None => None
  | Some (a, b) =>
      count ← parse_uint u32_max a;
      secs ← parse_uint u64_max b;
      if ((0 <? count) && (0 <? secs))%N then Some (mkRate count secs) else None
  end.

Definition parse_slow (p : string) : option Rate :=
  if contains_byte ":" p then parse_rate p
  else
    secs ← parse_uint u64_max p;
    if (0 <? secs)%N then Some (mkRate 1 secs) else None.

(** ** Effects shared by the handlers *)

Definition set_modes (k : string) (f : ChanModes → ChanModes) (s : Server) : Server :=
  upd (with_chan k (λ c, c <| modes ::= f |>)) s.

(** +D: announce a hidden member's withheld JOIN. *)
Definition reveal_member (uid : Uid) (k : string) (s : Server) : Server :=
  let hid := map_or false hidden (channels (core s) !! k ≫= (λ c, members c !! uid)) in
  if negb hid then s
  else
    let s := upd (with_chan k (λ c, c <| members ::= alter (λ m, m <| hidden := false |>) uid |>)) s in
    let name := map_or k ch_name (channels (core s) !! k) in
    let aud := map_or false (λ c, auditorium (modes c)) (channels (core s) !! k) in
    match users (core s) !! uid with
    | None => s
    | Some u =>
        let plain := ":" +:+ user_prefix u +:+ " JOIN " +:+ name in
        let extended := plain +:+ " " +:+ default "*" (u_account u) +:+ " :" +:+ u_realname u in
        for_each (chan_members (core s) k) (λ m s,
          if bool_decide (m = uid) then s
          else if aud && (rank (core s) m k <? RANK_OP)%N then s
          else send m (if has_cap (core s) m "extended-join" then extended else plain) s) s
    end.

(** [hidelist]: the rank needed to view a list. *)
Definition rank_value (name : string) : N :=
  let n := to_ascii_lowercase name in
  if is_letter_in ["owner"; "founder"; "q"] n then RANK_OWNER
  else if is_letter_in ["admin"; "protect"; "a"] n then RANK_ADMIN
  else if is_letter_in ["op"; "o"] n then RANK_OP
  else if is_letter_in ["halfop"; "h"] n then RANK_HALFOP
  else if is_letter_in ["voice"; "v"] n then RANK_VOICE
  else RANK_OP.

Definition hidelist_denied (c : Core) (uid : Uid) (k modechar : string) : bool :=
  if is_oper c uid then false
  else
    let req := foldl (λ req line,
      match split_whitespace line with
      | mc :: r :: _ => if starts_with modechar mc then Some (rank_value r) else req
      | _ => req
      end) None (conf_all c "hidelist") in
    match req with Some r => (rank c uid k <? r)%N | None => false end.

(** ** The handlers' [apply] *)

Definition prefix_apply (ch : string) (prank : N) (chan k : string) (uid : Uid) (adding : bool)
    (param : option string) (s : Server) : Applied * Server :=
  match param with
  | None => (ANo, s)
  | Some pn =>
      match find_nick (core s) pn with
      | None => (ANo, numeric uid ERR_NOSUCHNICK (pn +:+ " :No such nick/channel") s)
      | Some tuid =>
          match channels (core s) !! k ≫= (λ c, members c !! tuid) with
          | None =>
              (ANo, numeric uid ERR_USERNOTINCHANNEL
                      (pn +:+ " " +:+ chan +:+ " :They aren't on that channel") s)
          | Some m =>
              let cfg := prefix_cfg (core s) in
              let target_rank := member_rank cfg m in
              if negb adding && bool_decide (tuid = uid) && negb (can_depriv cfg ch) then
                (ANo, numeric uid ERR_CHANOPRIVSNEEDED
                        (chan +:+ " :You may not remove +" +:+ ch +:+ " from yourself") s)
              else
                let needed := default prank (if adding then rank_to_set cfg ch
                                             else rank_to_unset cfg ch) in
                let src := rank (core s) uid k in
                if ((src <? needed) || (src <? target_rank))%N then
                  (ANo, numeric uid ERR_CHANOPRIVSNEEDED
                          (chan +:+ " :You lack the channel rank to set +" +:+ ch) s)
                else
                  let s := upd (with_chan k (λ c,
                             c <| members ::= alter (set_prefix cfg ch adding) tuid |>)) s in
                  let s := if adding then reveal_member tuid k s else s in
                  (AYes (Some pn), s)
          end
      end
  end.

Definition flag_apply (set : bool → ChanModes → ChanModes) (k : string) (adding : bool)
    (s : Server) : Applied * Server :=
  (AYes None, set_modes k (set adding) s).

Definition operflag_apply (ch : string) (set : bool → ChanModes → ChanModes) (chan k : string)
    (uid : Uid) (adding : bool) (s : Server) : Applied * Server :=
  if adding && negb (mode_sudo (core s)) && negb (is_oper (core s) uid) then
    (ANo, numeric uid ERR_NOPRIVILEGES
            (chan +:+ " :Only IRC operators may set channel mode +" +:+ ch) s)
  else if adding && negb (mode_sudo (core s)) && negb (can_use_mode (core s) uid ch true) then
    (ANo, numeric uid ERR_NOPRIVILEGES
            (chan +:+ " :Your oper type may not set channel mode +" +:+ ch) s)
  else (AYes None, set_modes k (set adding) s).

Definition registered_apply (chan k : string) (uid : Uid) (adding : bool) (s : Server)
    : Applied * Server :=
  if negb (mode_sudo (core s)) then
    (ANo, numeric uid ERR_NOPRIVILEGES (chan +:+ " :Channel mode +r may only be set by services") s)
  else (AYes None, set_modes k (λ m, m <| registered := adding |>) s).

(** The member count of a channel and how many of them fail a test: the guard
    of [+z] and [+E]. *)
Definition count_without (c : Core) (k : string) (good : User → bool) : nat * nat :=
  let ms := chan_members c k in
  (length (filter (λ m, map_or false good (users c !! m) = false) ms), length ms).

Definition nat_str (n : nat) : string := to_string (N.of_nat n).

Definition encrypted_apply (chan k : string) (uid : Uid) (adding : bool) (s : Server)
    : Applied * Server :=
  let '(plain, total) := count_without (core s) k (λ u, cap_has (u_caps u) "echoircd/e2e") in
  if adding && (0 <? plain) then
    (ANo, numeric uid ERR_E2EONLYCHAN
      (chan +:+ " :All members must run an end-to-end encryption capable client ("
       +:+ nat_str plain +:+ "/" +:+ nat_str total +:+ " do not)") s)
  else (AYes None, set_modes k (λ m, m <| encrypted := adding |>) s).

Definition secureonly_apply (chan k : string) (uid : Uid) (adding : bool) (s : Server)
    : Applied * Server :=
  let '(nonssl, total) := count_without (core s) k u_secure in
  if adding && (0 <? nonssl) then
    (ANo, numeric uid ERR_ALLMUSTSSL
      (chan +:+ " :All members of the channel must be connected using TLS ("
       +:+ nat_str nonssl +:+ "/" +:+ nat_str total +:+ " are non-TLS)") s)
  else (AYes None, set_modes k (λ m, m <| secure_only := adding |>) s).

Definition key_apply (k : string) (adding : bool) (param : option string) (s : Server)
    : Applied * Server :=
  if adding then
    match opt_filter (λ p, negb (is_empty p) && negb (contains_any [" "; ","; ":"]%char p)) param with
    | None => (ANo, s)
    | Some p => (AYes (Some p), set_modes k (λ m, m <| key := Some p |>) s)
    end
  else (AYes (Some "*"), set_modes k (λ m, m <| key := None |>) s).

Definition limit_apply (k : string) (adding : bool) (param : option string) (s : Server)
    : Applied * Server :=
  if adding then
    match opt_filter (λ n, (0 <? n)%N) (param ≫= parse_uint u32_max) with
    | None => (ANo, s)
    | Some n => (AYes (Some (to_string n)), set_modes k (λ m, m <| limit := Some n |>) s)
    end
  else (AYes None, set_modes k (λ m, m <| limit := None |>) s).

Definition HISTORY_CAP : N := 256.

Definition history_apply (k : string) (adding : bool) (param : option string) (s : Server)
    : Applied * Server :=
  if adding then
    match param with
    | None => (ANo, s)
    | Some p =>
        let '(lines_s, secs_s) := default (p, "0") (split_once ":" p) in
        match opt_filter (λ n, (0 <? n)%N) (parse_uint u32_max lines_s) with
        | None => (ANo, s)
        | Some lines =>
            let lines := N.min lines HISTORY_CAP in
            let secs := default 0%N (parse_duration secs_s) in
            (AYes (Some (to_string lines +:+ ":" +:+ short_duration secs)),
             set_modes k (λ m, m <| history := Some (lines, secs) |>) s)
        end
    end
  else (AYes None, set_modes k (λ m, m <| history := None |>) s).

(** *** List modes *)

Definition kind_list (kind : ListKind) (c : Channel) : list Ban :=
  match kind with
  | LBan => bans c | LExcept => excepts c | LInvex => invex c
  | LFilter => filters c | LExemptChanOps => exemptchanops c | LAutoOp => autoop c
  end.

Definition kind_update (kind : ListKind) (f : list Ban → list Ban) (c : Channel) : Channel :=
  match kind with
  | LBan => c <| bans ::= f |> | LExcept => c <| excepts ::= f |>
  | LInvex => c <| invex ::= f |> | LFilter => c <| filters ::= f |>
  | LExemptChanOps => c <| exemptchanops ::= f |> | LAutoOp => c <| autoop ::= f |>
  end.

Definition kind_numerics (kind : ListKind) : N * N * string :=
  match kind with
  | LBan => (RPL_BANLIST, RPL_ENDOFBANLIST, "ban list")
  | LExcept => (RPL_EXCEPTLIST, RPL_ENDOFEXCEPTLIST, "exception list")
  | LInvex => (RPL_INVEXLIST, RPL_ENDOFINVEXLIST, "invite list")
  | LFilter => (RPL_SPAMFILTER, RPL_ENDOFSPAMFILTER, "spamfilter list")
  | LExemptChanOps => (RPL_EXEMPTIONLIST, RPL_ENDOFEXEMPTIONLIST, "exemptchanops list")
  | LAutoOp => (RPL_AUTOOPLIST, RPL_ENDOFAUTOOP, "autoop list")
  end.

Definition kind_normalizes (kind : ListKind) : bool :=
  match kind with LBan | LExcept | LInvex => true | _ => false end.

(** The rank a prefix letter needs; [None] for anything else. *)
Definition letter_rank (c : option string) : option N :=
  match c with
  | Some l =>
      if String.eqb l "q" then Some RANK_OWNER
      else if String.eqb l "a" then Some RANK_ADMIN
      else if String.eqb l "o" then Some RANK_OP
      else if String.eqb l "h" then Some RANK_HALFOP
      else if String.eqb l "v" then Some RANK_VOICE
      else None
  | None => None
  end.

Definition same_mask (mask : string) (b : Ban) : bool := eq_ignore_ascii_case (b_mask b) mask.

(** No mask: show the list. *)
Definition list_query (ch : string) (kind : ListKind) (chan k : string) (uid : Uid) (s : Server)
    : Server :=
  let '(entry_num, end_num, noun) := kind_numerics kind in
  if hidelist_denied (core s) uid k ch then
    numeric uid ERR_CHANOPRIVSNEEDED (chan +:+ " :You do not have access to view the " +:+ noun) s
  else
    let rows := map_or [] (kind_list kind) (channels (core s) !! k) in
    let s := for_each rows (λ b, numeric uid entry_num
               (chan +:+ " " +:+ b_mask b +:+ " " +:+ b_setter b +:+ " " +:+ to_string (b_ts b))) s in
    numeric uid end_num (chan +:+ " :" +:+ trf (core s) "End of channel {0}" [noun]) s.

Definition list_add (kind : ListKind) (chan k : string) (uid : Uid) (mask : string) (s : Server)
    : Applied * Server :=
  let c := core s in
  let setter := map_or "" u_nick (users c !! uid) in
  let maxlist := conf_num c u64_max "maxbans" 100 in
  match channels c !! k with
  | None => (AYes (Some mask), s)
  | Some ch =>
      if existsb (same_mask mask) (kind_list kind ch) then (ANo, s)
      else if negb (mode_sudo c) && (maxlist <=? N.of_nat (length (kind_list kind ch)))%N then
        (ANo, numeric uid ERR_BANLISTFULL
                (chan +:+ " " +:+ mask +:+ " :Channel list is full") s)
      else
        (AYes (Some mask),
         upd (with_chan k (kind_update kind (λ l, l ++ [mkBan mask setter (clock c) None]))) s)
  end.

Definition list_remove (kind : ListKind) (k mask : string) (s : Server) : Applied * Server :=
  match channels (core s) !! k with
  | None => (ANo, s)
  | Some ch =>
      let l := kind_list kind ch in
      let l' := retain (λ b, negb (same_mask mask b)) l in
      (if length l' <? length l then AYes (Some mask) else ANo,
       upd (with_chan k (kind_update kind (retain (λ b, negb (same_mask mask b))))) s)
  end.

Definition list_apply (ch : string) (kind : ListKind) (chan k : string) (uid : Uid)
    (adding : bool) (param : option string) (s : Server) : Applied * Server :=
  match param with
  | None => (ANo, list_query ch kind chan k uid s)
  | Some mask =>
      let pfx := match split_once ":" mask with Some (p, _) => head (chars p) | None => None end in
      if adding && (match kind with LAutoOp => true | _ => false end) && negb (mode_sudo (core s))
         && (rank (core s) uid k <? default 0 (letter_rank pfx))%N then
        (ANo, numeric uid ERR_CHANOPRIVSNEEDED
                (chan +:+ " :You lack the channel rank to auto-grant +" +:+ default "?" pfx) s)
      else if adding && (match kind with LBan => true | _ => false end)
              && starts_with "C:" mask && negb (mode_sudo (core s))
              && conf_bool (core s) "classban_operonly" false
              && negb (is_oper (core s) uid) then
        (ANo, numeric uid ERR_CHANOPRIVSNEEDED
                (chan +:+ " :Only operators may set a class ban (C:)") s)
      else
        let mask := if kind_normalizes kind then normalize_ban_mask mask else mask in
        if adding then list_add kind chan k uid mask s else list_remove kind k mask s
  end.

(** *** Rate, redirect and number modes *)

Definition msgflood_apply (k : string) (adding : bool) (param : option string) (s : Server)
    : Applied * Server :=
  if adding then
    match param with
    | None => (ANo, s)
    | Some p =>
        let ban := starts_with "*" p in
        match parse_rate (if ban then str_drop 1 p else p) with
        | None => (ANo, s)
        | Some r =>
            (AYes (Some p),
             set_modes k (λ m, m <| flood := Some (mkMsgFlood (r_count r) (r_secs r) ban) |>) s)
        end
    end
  else (AYes None, set_modes k (λ m, m <| flood := None |>) s).

(** [+j], [+F] and [+W]: a rate, echoed in canonical form. *)
Definition rate_apply (prs : string → option Rate) (set : option Rate → ChanModes → ChanModes)
    (k : string) (adding : bool) (param : option string) (s : Server) : Applied * Server :=
  if adding then
    match param ≫= prs with
    | None => (ANo, s)
    | Some r => (AYes (Some (rate_str r)), set_modes k (set (Some r)) s)
    end
  else (AYes None, set_modes k (set None) s).

Definition joinflood_apply := rate_apply parse_rate (λ r m, m <| joinflood := r |>).
Definition nickflood_apply := rate_apply parse_rate (λ r m, m <| nickflood := r |>).
Definition slowmode_apply := rate_apply parse_slow (λ r m, m <| slowmode := r |>).

Definition redirect_apply (chan k : string) (adding : bool) (param : option string) (s : Server)
    : Applied * Server :=
  if adding then
    match param with
    | None => (ANo, s)
    | Some t =>
        if negb (starts_with "#" t) || eq_ignore_ascii_case t chan then (ANo, s)
        else (AYes (Some t), set_modes k (λ m, m <| redirect := Some t |>) s)
    end
  else (AYes None, set_modes k (λ m, m <| redirect := None |>) s).

(** [+B], [+J], [+d] and [+K]: a positive number, clamped. *)
Definition number_apply (max cap : N) (set : option N → ChanModes → ChanModes) (k : string)
    (adding : bool) (param : option string) (s : Server) : Applied * Server :=
  if adding then
    match opt_filter (λ n, (1 <=? n)%N) (param ≫= parse_uint max) with
    | None => (ANo, s)
    | Some n =>
        let n := N.min n cap in
        (AYes (Some (to_string n)), set_modes k (set (Some n)) s)
    end
  else (AYes None, set_modes k (set None) s).

Definition anticaps_apply := number_apply u8_max 100 (λ n m, m <| anticaps := n |>).
Definition kicknorejoin_apply := number_apply u32_max 3600 (λ n m, m <| kicknorejoin := n |>).
Definition delaymsg_apply := number_apply u32_max 3600 (λ n m, m <| delaymsg := n |>).
Definition repeat_apply := number_apply u32_max 20 (λ n m, m <| repeat_ := n |>).

(** [handler.apply(s, target, key, uid, adding, param)]. *)
Definition chan_apply (h : ChanMode) (chan k : string) (uid : Uid) (adding : bool)
    (param : option string) (s : Server) : Applied * Server :=
  match h with
  | Prefix ch r => prefix_apply ch r chan k uid adding param s
  | ListMode ch kind => list_apply ch kind chan k uid adding param s
  | Flag _ set => flag_apply set k adding s
  | OperFlagChan ch set => operflag_apply ch set chan k uid adding s
  | RegisteredChan => registered_apply chan k uid adding s
  | Key => key_apply k adding param s
  | Limit => limit_apply k adding param s
  | ChanHistory => history_apply k adding param s
  | SecureOnly => secureonly_apply chan k uid adding s
  | Encrypted => encrypted_apply chan k uid adding s
  | MsgFloodMode => msgflood_apply k adding param s
  | JoinFloodMode => joinflood_apply k adding param s
  | NickFloodMode => nickflood_apply k adding param s
  | SlowMode => slowmode_apply k adding param s
  | RedirectMode => redirect_apply chan k adding param s
  | AntiCapsMode => anticaps_apply k adding param s
  | KickNoRejoinMode => kicknorejoin_apply k adding param s
  | DelayMsgMode => delaymsg_apply k adding param s
  | RepeatMode => repeat_apply k adding param s
  end.
