(* ===== verification/UserMode.v ===== *)
(** * User modes: the [UserMode] handlers of [src/src/mode.rs], with
    [src/src/modules/operprefix.rs] *)

From Stdlib Require Import Ascii.
From S2P Require Import Prelude RustStr Channel State Numeric.

Local Open Scope stdpp_scope.

Inductive UserMode :=
  | UFlag (ch : string) (set : bool → UserFlags → UserFlags)
  | OperFlag (ch : string) (set : bool → UserFlags → UserFlags)
  | OperMode | CloakMode | RegisteredMode | ServProtect.

Definition set_invisible (v : bool) (f : UserFlags) := f <| invisible := v |>.
Definition set_wallops (v : bool) (f : UserFlags) := f <| wallops := v |>.
Definition set_bot (v : bool) (f : UserFlags) := f <| bot := v |>.
Definition set_deaf (v : bool) (f : UserFlags) := f <| deaf := v |>.
Definition set_hidechans (v : bool) (f : UserFlags) := f <| hidechans := v |>.
Definition set_hideoper (v : bool) (f : UserFlags) := f <| hideoper := v |>.
Definition set_regdeaf (v : bool) (f : UserFlags) := f <| reg_only_pm := v |>.
Definition set_sslpm (v : bool) (f : UserFlags) := f <| ssl_pm := v |>.
Definition set_unoctcp (v : bool) (f : UserFlags) := f <| noctcp := v |>.
Definition set_callerid (v : bool) (f : UserFlags) := f <| callerid := v |>.
Definition set_showwhois (v : bool) (f : UserFlags) := f <| showwhois := v |>.
Definition set_commonchans (v : bool) (f : UserFlags) := f <| deny_uncommon := v |>.
Definition set_helpop (v : bool) (f : UserFlags) := f <| helpop := v |>.
Definition set_snomask (v : bool) (f : UserFlags) :=
  f <| snomask := v |> <| snomask_cats := (if v then DEFAULT_SNOMASK else "") |>.

Definition USER_MODES : list UserMode :=
  [UFlag "i" set_invisible; UFlag "w" set_wallops; OperFlag "h" set_helpop; OperMode; CloakMode;
   UFlag "B" set_bot; UFlag "D" set_deaf; UFlag "I" set_hidechans; OperFlag "H" set_hideoper;
   UFlag "R" set_regdeaf; RegisteredMode; ServProtect; UFlag "z" set_sslpm;
   UFlag "T" set_unoctcp; OperFlag "s" set_snomask; UFlag "g" set_callerid;
   OperFlag "W" set_showwhois; UFlag "c" set_commonchans].

Definition uletter (h : UserMode) : string :=
  match h with
  | UFlag ch _ | OperFlag ch _ => ch
  | OperMode => "o" | CloakMode => "x" | RegisteredMode => "r" | ServProtect => "k"
  end.

Definition user_mode (c : string) : option UserMode :=
  find_first (λ m, String.eqb (uletter m) c) USER_MODES.

(** ** operprefix *)

Definition operprefix_set (uid : Uid) (k : string) (on : bool) (s : Server) : Server :=
  match users (core s) !! uid with
  | None => s
  | Some u =>
      let nick := u_nick u in
      match channels (core s) !! k ≫= (λ c, members c !! uid) with
      | Some m =>
          if bool_decide (oprefix m = on) then s
          else
            let s := upd (with_chan k (λ c,
                       c <| members ::= alter (set_bit PFX_OPER on) uid |>)) s in
            let sign := if on then "+" else "-" in
            let name := map_or "" ch_name (channels (core s) !! k) in
            let s := to_channel k (":" +:+ s_name (core s) +:+ " MODE " +:+ name +:+ " "
                       +:+ sign +:+ "y " +:+ nick) None s in
            propagate_chan_mode (s_sid (core s)) name (sign +:+ "y") [nick] s
      | None => s
      end
  end.

Definition all_channels (c : Core) (uid : Uid) : list string :=
  map_or [] (λ u, elements (u_channels u)) (users c !! uid).

Definition operprefix_clear_all (uid : Uid) (s : Server) : Server :=
  for_each (all_channels (core s) uid) (λ k, operprefix_set uid k false) s.

Definition operprefix_grant_all (uid : Uid) (s : Server) : Server :=
  if negb (conf_bool (core s) "operprefix" false) then s
  else for_each (all_channels (core s) uid) (λ k, operprefix_set uid k true) s.

(** ** [notify_peers] *)

Definition common_members (c : Core) (ks : list string) : gset Uid :=
  ⋃ ((λ k, list_to_set (chan_members c k)) <$> ks).

Definition peers (c : Core) (uid : Uid) : gset Uid :=
  common_members c (all_channels c uid)
  ∪ match users c !! uid with
    | Some u =>
        let low := to_ascii_lowercase (u_nick u) in
        dom (filter (λ '(_, v), cap_has (u_caps v) "extended-monitor"
                                && existsb (String.eqb low) (u_monitor v) = true) (users c))
    | None => ∅
    end.

Definition notify_peers (uid : Uid) (line want : string) (s : Server) : Server :=
  for_each (elements (peers (core s) uid)) (λ m s,
    if negb (bool_decide (m = uid)) && has_cap (core s) m want then send m line s else s) s.

(** ** The handlers' [apply] *)

Definition set_flags (uid : Uid) (f : UserFlags → UserFlags) (s : Server) : Server :=
  upd (with_user uid (λ u, u <| u_flags ::= f |>)) s.

Definition uflag_apply (set : bool → UserFlags → UserFlags) (uid : Uid) (adding : bool)
    (s : Server) : bool * Server :=
  match users (core s) !! uid with
  | Some _ => (true, set_flags uid (set adding) s)
  | None => (false, s)
  end.

Definition operflag_user_apply (ch : string) (set : bool → UserFlags → UserFlags) (uid : Uid)
    (adding : bool) (s : Server) : bool * Server :=
  if adding && negb (is_oper (core s) uid) then
    (false, numeric uid ERR_NOPRIVILEGES ":Permission Denied- You're not an IRC operator" s)
  else if adding && negb (mode_sudo (core s)) && negb (can_use_mode (core s) uid ch false) then
    (false, numeric uid ERR_NOPRIVILEGES
              ":Permission Denied- your oper type may not set that user mode" s)
  else uflag_apply set uid adding s.

Definition opermode_apply (uid : Uid) (adding : bool) (s : Server) : bool * Server :=
  if adding then (false, s)
  else match users (core s) !! uid with
       | None => (false, s)
       | Some _ =>
           (true, operprefix_clear_all uid (set_flags uid (λ f, f <| oper := false |>) s))
       end.

Definition cloak_apply (uid : Uid) (adding : bool) (s : Server) : bool * Server :=
  let has_cloak := map_or false (λ u, negb (is_empty (u_cloak u))) (users (core s) !! uid) in
  if negb has_cloak then (false, s)
  else if negb adding && negb (is_oper (core s) uid) then
    (false, numeric uid ERR_NOPRIVILEGES ":Only operators may remove the +x host cloak" s)
  else
    let old_prefix := map_or "" user_prefix (users (core s) !! uid) in
    let s := set_flags uid (λ f, f <| cloak_on := adding |>) s in
    let ident := map_or "" u_ident (users (core s) !! uid) in
    let disp := map_or "" host_display (users (core s) !! uid) in
    let s := notify_peers uid (":" +:+ old_prefix +:+ " CHGHOST " +:+ ident +:+ " " +:+ disp)
               "chghost" s in
    (true, numeric uid RPL_HOSTHIDDEN (disp +:+ " :is now your displayed host") s).

Definition servprotect_apply (uid : Uid) (adding : bool) (s : Server) : bool * Server :=
  if negb (mode_sudo (core s)) then (false, s)
  else match users (core s) !! uid with
       | Some _ => (true, set_flags uid (λ f, f <| servprotect := adding |>) s)
       | None => (false, s)
       end.

Definition user_apply (h : UserMode) (uid : Uid) (adding : bool) (s : Server) : bool * Server :=
  match h with
  | UFlag _ set => uflag_apply set uid adding s
  | OperFlag ch set => operflag_user_apply ch set uid adding s
  | OperMode => opermode_apply uid adding s
  | CloakMode => cloak_apply uid adding s
  | RegisteredMode => (false, s)
  | ServProtect => servprotect_apply uid adding s
  end.
