(* ===== verification/CoreMode.v ===== *)
(** * The MODE command: [src/src/coremods/core_mode.rs], with
    [src/src/modules/hidemode.rs] and the event recorder of
    [src/src/modules/chathistory.rs] *)

From Stdlib Require Import Ascii.
From stdpp Require Import sorting.
From S2P Require Import Prelude RustStr Glob I18n Channel State Numeric Mode UserMode.

Local Open Scope stdpp_scope.

Inductive CmdResult := CmdOk | CmdFail.

(** ** History recording *)

Definition history_limit (c : Core) : N :=
  N.min (N.max (conf_num c u64_max "chathistory_limit" HISTORY_CAP) 1) 100000.

Definition next_msgid (s : Server) : string * Server :=
  let s := upd (λ c, c <| msgid_counter := wrap_u64 (msgid_counter c + 1) |>) s in
  (to_hex (s_created (core s)) +:+ "-" +:+ to_hex (msgid_counter (core s)), s).

(** Push on a conversation's ring and trim it to the limit. *)
Definition push_history (k : string) (m : HistMsg) (c : Core) : Core :=
  let buf := default [] (s_history c !! k) ++ [m] in
  c <| s_history ::= <[k := drop (length buf - N.to_nat (history_limit c)) buf]> |>.

Definition record_event (k line : string) (s : Server) : Server :=
  if negb (conf_bool (core s) "event_playback" true) then s
  else
    let '(msgid, s) := next_msgid s in
    let prefix := match strip_prefix ":" line with
                  | Some l => default "" (head (split " " l))
                  | None => ""
                  end in
    upd (push_history k (mkHistMsg (clock (core s)) msgid prefix "*" k "" (Some line))) s.

(** ** The echo string *)

Definition emit (acc : string * string) (sign c : string) : string * string :=
  let '(applied, lst) := acc in
  if String.eqb lst sign then (applied +:+ c, lst) else (applied +:+ sign +:+ c, sign).

(** ** hidemode *)

Fixpoint hidden_rank_in (lines : list string) (modechar : string) : option N :=
  match lines with
  | [] => None
  | line :: r =>
      match split_whitespace line with
      | mc :: rk :: _ =>
          if starts_with modechar mc then Some (rank_value rk) else hidden_rank_in r modechar
      | _ => hidden_rank_in r modechar
      end
  end.

Definition hidden_rank (c : Core) (modechar : string) : option N :=
  hidden_rank_in (conf_all c "hidemode") modechar.

(** A mode change: sign, letter, displayed parameter. *)
Definition Change : Type := string * string * option string.

Definition change_letter (ch : Change) : string := snd (fst ch).

Definition render_changes (changes : list Change) : string * list string :=
  (fst (foldl (λ acc '(sign, l, _), emit acc sign l) ("", " ") changes),
   omap (λ '(_, _, p), p) changes).

Definition params_str (ps : list string) : string :=
  match ps with [] => "" | _ => " " +:+ str_join " " ps end.

Definition visible_changes (c : Core) (mrank : N) (changes : list Change) : list Change :=
  filter (λ ch, match hidden_rank c (change_letter ch) with
                | None => true
                | Some req => (req <=? mrank)%N
                end = true) changes.

Definition hidemode_broadcast (k target : string) (setter : Uid) (prefix : string)
    (changes : list Change) (s : Server) : Server :=
  for_each (chan_members (core s) k) (λ m s,
    let privileged := bool_decide (m = setter) || is_oper (core s) m in
    let mrank := if privileged then u8_max else rank (core s) m k in
    match visible_changes (core s) mrank changes with
    | [] => s
    | visible =>
        let '(md, ps) := render_changes visible in
        send m (":" +:+ prefix +:+ " MODE " +:+ target +:+ " " +:+ md +:+ params_str ps) s
    end) s.

(** ** Channel modes *)

(** What the loop over a mode string carries. *)
Record ModeLoop := mkLoop {
  ml_sign : string; ml_args : list string; ml_echo : string * string;
  ml_echoed : list string; ml_changes : list Change; ml_done : N }.

#[export] Instance eta_ModeLoop : Eta ModeLoop := λ l,
  mkLoop (ml_sign l) (ml_args l) (ml_echo l) (ml_echoed l) (ml_changes l) (ml_done l).

Definition start_loop (args : list string) : ModeLoop := mkLoop "+" args ("", " ") [] [] 0.

(** The parameter a handler consumes, and the arguments left. *)
Definition take_param (h : ChanMode) (adding : bool) (args : list string)
    : option string * list string :=
  if wants_param h adding then
    match args with p :: r => (Some p, r) | [] => (None, []) end
  else (None, args).

Definition note_applied (c : string) (echo : option string) (l : ModeLoop) : ModeLoop :=
  l <| ml_echo := emit (ml_echo l) (ml_sign l) c |>
    <| ml_changes ::= (λ cs, cs ++ [(ml_sign l, c, echo)]) |>
    <| ml_echoed ::= (λ es, match echo with Some p => es ++ [p] | None => es end) |>.

(** One letter of [apply_mode]'s loop. *)
Definition mode_letter (target k : string) (uid : Uid) (c : string) (l : ModeLoop) (s : Server)
    : ModeLoop * Server :=
  let l := l <| ml_done ::= N.succ |> in
  let adding := String.eqb (ml_sign l) "+" in
  match chan_mode (prefix_cfg (core s)) c with
  | None =>
      (l, numeric uid ERR_UNKNOWNMODE
            (c +:+ " :is unknown mode char to me (try /HELP CHMODES for channel modes)") s)
  | Some h =>
      let '(param, args) := take_param h adding (ml_args l) in
      let l := l <| ml_args := args |> in
      let '(res, s) := chan_apply h target k uid adding param s in
      match res with
      | AYes echo => (note_applied c echo l, s)
      | ANo =>
          if adding && is_some param && negb (is_list h) && negb (is_prefix h) then
            (l, numeric uid ERR_INVALIDMODEPARAM
                  (target +:+ " " +:+ c +:+ " " +:+ default "" param
                   +:+ " :Invalid mode parameter") s)
          else (l, s)
      end
  end.

Fixpoint mode_loop (target k : string) (uid : Uid) (max_modes : N) (cs : list string)
    (l : ModeLoop) (s : Server) : ModeLoop * Server :=
  match cs with
  | [] => (l, s)
  | c :: r =>
      if String.eqb c "+" || String.eqb c "-" then
        mode_loop target k uid max_modes r (l <| ml_sign := c |>) s
      else if (max_modes <=? ml_done l)%N then (l, s)
      else
        let '(l, s) := mode_letter target k uid c l s in
        mode_loop target k uid max_modes r l s
  end.

(** Announcing what was applied. *)
Definition announce_modes (target k : string) (uid : Uid) (l : ModeLoop) (s : Server) : Server :=
  if is_empty (fst (ml_echo l)) then s
  else
    let prefix := map_or "" user_prefix (users (core s) !! uid) in
    let s :=
      if existsb (λ ch, is_some (hidden_rank (core s) (change_letter ch))) (ml_changes l) then
        hidemode_broadcast k target uid prefix (ml_changes l) s
      else
        let mline := ":" +:+ prefix +:+ " MODE " +:+ target +:+ " " +:+ fst (ml_echo l)
                     +:+ params_str (ml_echoed l) in
        to_channel k mline None (record_event k mline s) in
    let src := map_or "" u_uuid (users (core s) !! uid) in
    propagate_chan_mode src target (fst (ml_echo l)) (ml_echoed l) s.

(** Destroy a channel with no reason left to exist. *)
Definition cull (k : string) (s : Server) : Server :=
  match channels (core s) !! k with
  | Some c => if keep_alive c then s else upd (λ co, co <| channels ::= delete k |>) s
  | None => s
  end.

Definition mode_letters_of (modestring : string) : list string :=
  filter (λ c, negb (String.eqb c "+" || String.eqb c "-") = true) (chars modestring).

Definition pure_list_query (c : Core) (modestring : string) (args : list string) : bool :=
  match args with
  | [] => forallb (λ m, map_or false is_list (chan_mode (prefix_cfg c) m))
            (mode_letters_of modestring)
  | _ => false
  end.

Definition sensitive_view (c : Core) (modestring : string) (args : list string) : bool :=
  pure_list_query c modestring args
  && existsb (is_letter_in ["w"; "X"; "g"]) (chars modestring).

(** [apply_mode] on a channel; [params] are the arguments after the target. *)
Definition apply_chan_mode (target : string) (uid : Uid) (params : list string) (s : Server)
    : CmdResult * Server :=
  let k := to_ascii_lowercase target in
  match channels (core s) !! k with
  | None =>
      (CmdFail, numeric uid ERR_NOSUCHCHANNEL (target +:+ " :No such channel") s)
  | Some ch =>
      match params with
      | [] =>
          let modestr := modes_render (modes ch) (is_member (core s) uid k) in
          let s := numeric uid RPL_CHANNELMODEIS (target +:+ " " +:+ modestr) s in
          (CmdOk, numeric uid RPL_CREATIONTIME (target +:+ " " +:+ to_string (created ch)) s)
      | modestring :: args =>
          if (negb (pure_list_query (core s) modestring args)
              || sensitive_view (core s) modestring args)
             && (rank (core s) uid k <? RANK_HALFOP)%N then
            (CmdFail, numeric uid ERR_CHANOPRIVSNEEDED
                        (target +:+ " :You're not a channel operator") s)
          else
            let max_modes := N.max (conf_num (core s) u64_max "modes" 20) 1 in
            let '(l, s) := mode_loop target k uid max_modes (chars modestring)
                             (start_loop args) s in
            (CmdOk, cull k (announce_modes target k uid l s))
      end
  end.

(** [svs_set_chan_modes]: the same dispatch with server authority. *)
Fixpoint svs_loop (target k : string) (cs : list string) (l : ModeLoop) (s : Server)
    : ModeLoop * Server :=
  match cs with
  | [] => (l, s)
  | c :: r =>
      if String.eqb c "+" || String.eqb c "-" then svs_loop target k r (l <| ml_sign := c |>) s
      else
        let adding := String.eqb (ml_sign l) "+" in
        match chan_mode (prefix_cfg (core s)) c with
        | None => svs_loop target k r l s
        | Some h =>
            let '(param, args) := take_param h adding (ml_args l) in
            let l := l <| ml_args := args |> in
            let '(res, s) := chan_apply h target k 0 adding param s in
            svs_loop target k r
              (match res with AYes echo => note_applied c echo l | ANo => l end) s
        end
  end.

Definition set_sudo (b : bool) (s : Server) : Server := upd (λ c, c <| mode_sudo := b |>) s.

Definition svs_set_chan_modes (target modestring : string) (args : list string) (s : Server)
    : bool * Server :=
  let k := to_ascii_lowercase target in
  match channels (core s) !! k with
  | None => (false, s)
  | Some _ =>
      let '(l, s) := svs_loop target k (chars modestring) (start_loop args) (set_sudo true s) in
      let s := set_sudo false s in
      if is_empty (fst (ml_echo l)) then (false, s)
      else
        let s := to_channel k (":" +:+ s_name (core s) +:+ " MODE " +:+ target +:+ " "
                   +:+ fst (ml_echo l) +:+ params_str (ml_echoed l)) None s in
        (true, propagate_chan_mode (s_sid (core s)) target (fst (ml_echo l)) (ml_echoed l) s)
  end.

(** ** User modes *)

Fixpoint svs_user_loop (tuid : Uid) (sign : string) (cs : list string) (acc : string * string)
    (s : Server) : string * Server :=
  match cs with
  | [] => (fst acc, s)
  | c :: r =>
      if String.eqb c "+" || String.eqb c "-" then svs_user_loop tuid c r acc s
      else match user_mode c with
           | Some h =>
               let '(ok, s) := user_apply h tuid (String.eqb sign "+") s in
               svs_user_loop tuid sign r (if ok then emit acc sign c else acc) s
           | None => svs_user_loop tuid sign r acc s
           end
  end.

Definition svs_set_user_modes (tuid : Uid) (modestring : string) (s : Server) : Server :=
  let '(applied, s) := svs_user_loop tuid "+" (chars modestring) ("", " ") (set_sudo true s) in
  let s := set_sudo false s in
  if is_empty applied then s
  else
    let nick := map_or "" u_nick (users (core s) !! tuid) in
    let uuid := map_or "" u_uuid (users (core s) !! tuid) in
    let s := send tuid (":" +:+ nick +:+ " MODE " +:+ nick +:+ " :" +:+ applied) s in
    propagate_from_user tuid ("MODE " +:+ uuid +:+ " " +:+ applied) s.

(** The snomask letters: a [BTreeSet<char>] iterates in code point order, which
    is the byte order of the UTF-8 encodings. *)
Definition snomask_all : gset string := list_to_set (chars DEFAULT_SNOMASK).

Fixpoint snomask_edit (sign : string) (cs : list string) (cats : gset string) : gset string :=
  match cs with
  | [] => cats
  | c :: r =>
      if String.eqb c "+" || String.eqb c "-" then snomask_edit c r cats
      else if String.eqb c "*" then
        snomask_edit sign r (if String.eqb sign "+" then snomask_all else ∅)
      else if existsb (String.eqb c) (chars DEFAULT_SNOMASK) then
        snomask_edit sign r (if String.eqb sign "+" then {[c]} ∪ cats else cats ∖ {[c]})
      else snomask_edit sign r cats
  end.

(** [cats.iter().collect::<String>()]. *)
Definition snomask_string (cats : gset string) : string :=
  str_concat (merge_sort String.le (elements cats)).

Definition apply_snomask (uid : Uid) (adding : bool) (param : option string) (s : Server)
    : bool * Server :=
  if negb (is_oper (core s) uid) then
    (false, numeric uid ERR_NOPRIVILEGES
              ":Permission denied - only operators may set a server notice mask" s)
  else
    let cats : gset string :=
      map_or ∅ (λ u, list_to_set (chars (snomask_cats (u_flags u)))) (users (core s) !! uid) in
    let cats :=
      if negb adding then ∅
      else match param with None => snomask_all | Some p => snomask_edit "+" (chars p) cats end in
    let mask := snomask_string cats in
    let on := negb (is_empty mask) in
    let s := set_flags uid (λ f, f <| snomask := on |> <| snomask_cats := mask |>) s in
    let s := numeric uid RPL_SNOMASKIS ("+" +:+ mask +:+ " :Server notice mask") s in
    (if adding then on else true, s).

Fixpoint user_mode_loop (uid : Uid) (sign : string) (cs args : list string)
    (acc : string * string) (s : Server) : string * Server :=
  match cs with
  | [] => (fst acc, s)
  | c :: r =>
      if String.eqb c "+" || String.eqb c "-" then user_mode_loop uid c r args acc s
      else
        let adding := String.eqb sign "+" in
        if String.eqb c "s" then
          let '(param, args) :=
            if adding then match args with p :: q => (Some p, q) | [] => (None, []) end
            else (None, args) in
          if adding && negb (mode_sudo (core s)) && negb (can_use_mode (core s) uid "s" false) then
            user_mode_loop uid sign r args acc
              (numeric uid ERR_NOPRIVILEGES
                 ":Permission Denied- your oper type may not set that user mode" s)
          else
            let '(ok, s) := apply_snomask uid adding param s in
            user_mode_loop uid sign r args (if ok then emit acc sign c else acc) s
        else match user_mode c with
        | None =>
            user_mode_loop uid sign r args acc
              (numeric uid ERR_UMODEUNKNOWNFLAG (":Unknown MODE flag " +:+ c) s)
        | Some h =>
            let '(ok, s) := user_apply h uid adding s in
            user_mode_loop uid sign r args (if ok then emit acc sign c else acc) s
        end
  end.

Definition apply_user_modes (uid : Uid) (target : string) (params : list string) (s : Server)
    : CmdResult * Server :=
  let me := map_or "" u_nick (users (core s) !! uid) in
  if negb (eq_ignore_ascii_case target me) then
    (CmdOk, numeric uid ERR_USERSDONTMATCH ":Can't change mode for other users" s)
  else match params with
  | [] =>
      let um := map_or "+" (λ u, umodes (u_flags u)) (users (core s) !! uid) in
      (CmdOk, numeric uid RPL_UMODEIS um s)
  | modestring :: args =>
      let '(applied, s) := user_mode_loop uid "+" (chars modestring) args ("", " ") s in
      if is_empty applied then (CmdOk, s)
      else
        let s := send uid (":" +:+ me +:+ " MODE " +:+ me +:+ " :" +:+ applied) s in
        let uuid := map_or "" u_uuid (users (core s) !! uid) in
        (CmdOk, propagate_from_user uid ("MODE " +:+ uuid +:+ " " +:+ applied) s)
  end.

(** The body of MODE (and, under [mode_sudo], of SAMODE); the dispatcher
    guarantees the target parameter. *)
Definition apply_mode (uid : Uid) (target : string) (params : list string) (s : Server)
    : CmdResult * Server :=
  if starts_with "#" target then apply_chan_mode target uid params s
  else apply_user_modes uid target params s.
