(* ===== verification/Ban.v ===== *)
(** * Ban lists and x-lines

    [ban_list_hit], [extban_active], [chanop_exempt] of [src/src/channels.rs]; the
    matching extbans of [src/src/modules] ([accountban], [realnameban],
    [channelban], [serverban], [extbanbanlist], [classban], [banredirect],
    [asn], the score ban of [reputation] and the country ban of [geoip]); and
    the matching half of [src/src/xline.rs]. *)

From Stdlib Require Import Ascii.
From S2P Require Import Prelude RustStr Glob Duration Clock Channel State.

Local Open Scope stdpp_scope.

Section ban.
Context `{UnicodeLower} `{Outside}.

Definition user_pfx (c : Core) (uid : Uid) : option string := user_prefix <$> users c !! uid.

(** ** banredirect *)

Definition mask_part (mask : string) : string := default mask (head (split "$" mask)).

Definition redirect_of (who : string) (b : Ban) : option string :=
  match split_once "$" (b_mask b) with
  | Some (mask, redir) => if starts_with "#" redir && glob_match mask who then Some redir else None
  | None => None
  end.

Fixpoint find_map {A B} (f : A → option B) (l : list A) : option B :=
  match l with
  | [] => None
  | x :: r => match f x with Some y => Some y | None => find_map f r end
  end.

Definition redirect_target (c : Core) (uid : Uid) (k : string) : option string :=
  ch ← channels c !! k;
  who ← user_pfx c uid;
  if existsb (λ e, glob_match (mask_part (b_mask e)) who) (excepts ch) then None
  else find_map (redirect_of who) (bans ch).

(** ** Matching extbans *)

Definition accountban (c : Core) (uid : Uid) (mask : string) : bool :=
  match users c !! uid ≫= u_account with Some acct => glob_match mask acct | None => false end.

Definition realnameban (c : Core) (uid : Uid) (mask : string) : bool :=
  map_or false (λ u, glob_match mask (u_realname u)) (users c !! uid).

Definition split_prefix (mask : string) : N * string :=
  match mask with
  | String "~"%char r => (RANK_OWNER, r)
  | String "&"%char r => (RANK_ADMIN, r)
  | String "@"%char r => (RANK_OP, r)
  | String "%"%char r => (RANK_HALFOP, r)
  | String "+"%char r => (RANK_VOICE, r)
  | _ => (0%N, mask)
  end.

Definition channelban (c : Core) (uid : Uid) (mask : string) : bool :=
  let '(min_rank, changlob) := split_prefix mask in
  let changlob := to_ascii_lowercase changlob in
  match users c !! uid with
  | None => false
  | Some u =>
      existsb (λ k,
        glob_match changlob k
        && ((min_rank =? 0)%N
            || map_or false (λ m, (min_rank <=? member_rank (prefix_cfg c) m)%N)
                 (channels c !! k ≫= (λ ch, members ch !! uid))))
        (elements (u_channels u))
  end.

Definition serverban (c : Core) (uid : Uid) (mask : string) : bool :=
  is_some (users c !! uid) && glob_match mask (s_name c).

Definition is_plain (mask : string) : bool :=
  match mask with
  | String b0 (String b1 _) => negb (is_alphabetic b0 && bool_decide (b1 = ":"%char))
  | _ => true
  end.

Definition extbanbanlist (c : Core) (uid : Uid) (chan : string) : bool :=
  match user_pfx c uid, channels c !! to_ascii_lowercase chan with
  | Some who, Some ch =>
      let hit l := existsb (λ b, is_plain (b_mask b) && glob_match (b_mask b) who) l in
      negb (hit (excepts ch)) && hit (bans ch)
  | _, _ => false
  end.

Fixpoint replace_byte (a b : ascii) (s : string) : string :=
  match s with
  | "" => ""
  | String x r => String (if bool_decide (x = a) then b else x) (replace_byte a b r)
  end.

Definition classban (c : Core) (uid : Uid) (spec : string) : bool :=
  match users c !! uid ≫= u_class with
  | Some class => glob_match spec (replace_byte " " "_" class)
  | None => false
  end.

Definition geoban_match (c : Core) (uid : Uid) (spec : string) : bool :=
  match users c !! uid with
  | None => false
  | Some u =>
      match geo_country (u_ip u) with
      | Some iso => existsb (λ want, eq_ignore_ascii_case (trim want) iso) (split "," spec)
      | None => false
      end
  end.

(** [asn::parse_list]: split on commas and spaces, optional [AS] prefix. *)
Definition asn_token (t : string) : option N :=
  let n := match strip_prefix "AS" t with
           | Some r => r
           | None => default t (strip_prefix "as" t)
           end in
  parse_uint u32_max n.

Definition asn_parse_list (v : string) : list N :=
  omap asn_token (filter (λ t, negb (is_empty t) = true)
    (map trim (concat (map (split " ") (split "," v))))).

Definition asn_extban_match (c : Core) (uid : Uid) (spec : string) : bool :=
  let l := asn_parse_list spec in
  match l with
  | [] => false
  | _ => match users c !! uid with
         | Some u => map_or false (λ a, existsb (N.eqb a) l) (asn_number (u_ip u))
         | None => false
         end
  end.

Definition parse_score_spec (spec : string) : option (bool * N) :=
  let '(gt, num) := match strip_prefix ">" spec with
                    | Some n => (true, n)
                    | None => (false, default spec (strip_prefix "<" spec))
                    end in
  t ← parse_uint u32_max (trim num); Some (gt, t).

Definition score_ban_match (c : Core) (uid : Uid) (spec : string) : bool :=
  match parse_score_spec spec with
  | None => false
  | Some (gt, threshold) =>
      if gt then (threshold <? score_of c uid)%N else (score_of c uid <? threshold)%N
  end.

(** ** The list matcher *)

Definition ext_hit (c : Core) (uid : Uid) (b0 : ascii) (v : string) : bool :=
  match b0 with
  | "a"%char => accountban c uid v
  | "g"%char => in_group c uid v
  | "y"%char => score_ban_match c uid v
  | "r"%char => realnameban c uid v
  | "j"%char => channelban c uid v
  | "s"%char => serverban c uid v
  | "G"%char => geoban_match c uid v
  | "A"%char => asn_extban_match c uid v
  | "b"%char => extbanbanlist c uid v
  | "C"%char => classban c uid v
  | _ => false
  end.

Definition ban_hit (c : Core) (uid : Uid) (b : Ban) : bool :=
  match b_mask b with
  | String b0 (String ":"%char v) => ext_hit c uid b0 v
  | mask => glob_match (mask_part mask) (default "" (user_pfx c uid))
  end.

Definition ban_list_hit (c : Core) (uid : Uid) (l : list Ban) : bool := existsb (ban_hit c uid) l.

(** Acting extbans: [m:] mute, [c:] no colour, [n:] no nick change. *)
Definition extban_active (c : Core) (uid : Uid) (k kind : string) : bool :=
  match channels c !! k, user_pfx c uid with
  | Some ch, Some who =>
      let hit l := existsb (λ b, starts_with (kind +:+ ":") (b_mask b)
                                 && glob_match (str_drop 2 (b_mask b)) who) l in
      hit (bans ch) && negb (hit (excepts ch))
  | _, _ => false
  end.

(** +X: is [uid] exempt from [restriction] here? *)
Definition chanop_exempt (c : Core) (uid : Uid) (k restriction : string) : bool :=
  match channels c !! k with
  | None => false
  | Some ch =>
      existsb (λ e,
        match split_once ":" (b_mask e) with
        | None => false
        | Some (r, prefix) =>
            eq_ignore_ascii_case r restriction
            && match head (chars prefix) with
               | Some l =>
                   if String.eqb l "q" then (RANK_OWNER <=? rank c uid k)%N
                   else if String.eqb l "a" then (RANK_ADMIN <=? rank c uid k)%N
                   else if String.eqb l "o" then (RANK_OP <=? rank c uid k)%N
                   else if String.eqb l "h" then (RANK_HALFOP <=? rank c uid k)%N
                   else if String.eqb l "v" then (RANK_VOICE <=? rank c uid k)%N
                   else false
               | None => false
               end
        end) (exemptchanops ch)
  end.

(** ** X-lines *)

Definition xtag (k : XKind) : string :=
  match k with
  | Kline => "K" | Gline => "G" | Zline => "Z" | Eline => "E" | Shun => "SHUN" | Qline => "Q"
  | Cban => "CBAN" | Svshold => "SVSHOLD" | Rline => "R" | Jupe => "JUPE" | Aline => "ALINE"
  | Galine => "GALINE"
  end.

Definition from_tag (t : string) : option XKind :=
  find_first (λ k, String.eqb (xtag k) t)
    [Kline; Gline; Zline; Eline; Shun; Qline; Cban; Svshold; Rline; Jupe; Aline; Galine].

Definition x_active (c : Core) (x : XLine) : bool :=
  (x_expires x =? 0)%N || (clock c <? x_expires x)%N.

Definition x_hit (c : Core) (kind : XKind) (uh ip : string) (x : XLine) : bool :=
  bool_decide (x_kind x = kind) && x_active c x
  && match kind with Zline => glob_match (x_mask x) ip | _ => glob_match (x_mask x) uh end.

Definition xmatch (c : Core) (kind : XKind) (uh ip : string) : bool :=
  existsb (x_hit c kind uh ip) (xlines c).

Definition is_exempt (c : Core) (ident host ip : string) : bool :=
  xmatch c Eline (ident +:+ "@" +:+ host) ip.

Definition is_shunned (c : Core) (ident host ip : string) : bool :=
  if is_exempt c ident host ip then false else xmatch c Shun (ident +:+ "@" +:+ host) ip.

Definition user_shunned (c : Core) (uid : Uid) : bool :=
  map_or false (λ u, is_shunned c (u_ident u) (u_host u) (u_ip u)) (users c !! uid).

(** The reason of the first active line of a kind whose mask matches. *)
Definition matched_name (c : Core) (kind : XKind) (lower : bool) (name : string) : option string :=
  x_reason <$> find_first (λ x,
    bool_decide (x_kind x = kind) && x_active c x
    && glob_match (if lower then to_ascii_lowercase (x_mask x) else x_mask x)
         (if lower then to_ascii_lowercase name else name)) (xlines c).

Definition matched_qline (c : Core) := matched_name c Qline false.
Definition matched_svshold (c : Core) := matched_name c Svshold false.
Definition matched_jupe (c : Core) := matched_name c Jupe true.
Definition matched_cban (c : Core) := matched_name c Cban true.

Definition nick_reserved (c : Core) (nick : string) : option string :=
  opt_or (matched_qline c nick) (matched_svshold c nick).

Definition ban_expiry_suffix (expires now : N) : string :=
  if (now <? expires)%N then
    " (expires in " +:+ human_duration (expires - now) +:+ " on " +:+ long_date expires +:+ ")"
  else "".

Definition matched_xline (c : Core) (ident host ip : string) : option string :=
  if is_exempt c ident host ip then None
  else
    let uh := ident +:+ "@" +:+ host in
    find_map (λ kind,
      if xmatch c kind uh ip then
        let '(reason, expires) :=
          map_or ("", 0%N) (λ x, (x_reason x, x_expires x))
            (find_first (x_hit c kind uh ip) (xlines c)) in
        Some (xtag kind +:+ "-lined: " +:+ reason +:+ ban_expiry_suffix expires (clock c))
      else None) [Kline; Gline; Zline].
End ban.
