(* ===== verification/ConnClass.v ===== *)
(** * Connection classes: [src/src/modules/connclass.rs]

    The classes of the configuration with their inheritance, what a class sets,
    and the masks that decide whether a client belongs to it.  IP addresses are
    read the way [std::net] reads them. *)

From Stdlib Require Import Ascii.
From S2P Require Import Prelude RustStr Glob Clock I18n Channel State Ban.

Local Open Scope stdpp_scope.

(** ** Classes *)

Record ConnClass := mkConnClass {
  cc_name : string; cc_allow : list string; cc_deny : bool; cc_ssl : bool; cc_ssl_trusted : bool;
  cc_password : option string; cc_ports : list N; cc_asn : list N; cc_countries : list string;
  cc_localmax : option N; cc_globalmax : option N; cc_limit : option N; cc_maxchans : option N;
  cc_pingfreq : option N; cc_timeout : option N; cc_modes : option string; cc_recvq : option N;
  cc_hardsendq : option N; cc_softsendq : option N; cc_penaltythreshold : option N;
  cc_commandrate : option N; cc_fakelag : bool; cc_useident : bool; cc_requireident : bool;
  cc_resolvehostnames : bool; cc_maxconnwarn : bool; cc_waitpongexempt : bool }.

#[export] Instance eta_ConnClass : Eta ConnClass := λ c,
  mkConnClass (cc_name c) (cc_allow c) (cc_deny c) (cc_ssl c) (cc_ssl_trusted c) (cc_password c)
    (cc_ports c) (cc_asn c) (cc_countries c) (cc_localmax c) (cc_globalmax c) (cc_limit c)
    (cc_maxchans c) (cc_pingfreq c) (cc_timeout c) (cc_modes c) (cc_recvq c) (cc_hardsendq c)
    (cc_softsendq c) (cc_penaltythreshold c) (cc_commandrate c) (cc_fakelag c) (cc_useident c)
    (cc_requireident c) (cc_resolvehostnames c) (cc_maxconnwarn c) (cc_waitpongexempt c).

(** What [build] starts from. *)
Definition fresh_class (name : string) : ConnClass :=
  mkConnClass name [] false false false None [] [] [] None None None None None None None None None
    None None None true false false true false false.

Definition value_list (v : string) : list string :=
  filter (λ t, is_empty t = false) (map trim (split "," v)).

(** One [key=value] token. *)
Definition class_set (k v : string) (c : ConnClass) : ConnClass :=
  let yes := eq_ignore_ascii_case v "yes" in
  let no := eq_ignore_ascii_case v "no" in
  let num := parse_uint u64_max v in
  match k with
  | "allow" => c <| cc_allow ::= (λ l, l ++ value_list v) |>
  | "deny" => c <| cc_deny := yes |>
  | "ssl" | "requiressl" =>
      c <| cc_ssl := negb no && negb (is_empty v) |> <| cc_ssl_trusted := eq_ignore_ascii_case v "trusted" |>
  | "password" | "pass" => c <| cc_password := Some v |>
  | "port" => c <| cc_ports ::= (λ l, l ++ omap (parse_uint u16_max) (value_list v)) |>
  | "asn" => c <| cc_asn ::= (λ l, l ++ asn_parse_list v) |>
  | "country" | "countries" => c <| cc_countries ::= (λ l, l ++ map to_ascii_uppercase (value_list v)) |>
  | "localmax" => c <| cc_localmax := num |>
  | "globalmax" => c <| cc_globalmax := num |>
  | "limit" => c <| cc_limit := num |>
  | "maxchans" => c <| cc_maxchans := num |>
  | "pingfreq" => c <| cc_pingfreq := num |>
  | "timeout" => c <| cc_timeout := num |>
  | "modes" => c <| cc_modes := Some v |>
  | "recvq" => c <| cc_recvq := num |>
  | "hardsendq" => c <| cc_hardsendq := num |>
  | "softsendq" => c <| cc_softsendq := num |>
  | "penaltythreshold" => c <| cc_penaltythreshold := num |>
  | "commandrate" => c <| cc_commandrate := num |>
  | "fakelag" => c <| cc_fakelag := negb no |>
  | "useident" => c <| cc_useident := yes |>
  | "requireident" => c <| cc_requireident := yes |>
  | "resolvehostnames" => c <| cc_resolvehostnames := negb no |>
  | "maxconnwarn" => c <| cc_maxconnwarn := yes |>
  | "waitpongexempt" => c <| cc_waitpongexempt := yes |>
  | _ => c
  end.

Definition raw_line (c : Core) (name : string) : option string :=
  find_first (λ l, bool_decide (head (split_whitespace l) = Some name)) (conf_all c "connectclass").

(** A key a child does not inherit. *)
Definition class_local (t : string) : bool :=
  starts_with "allow=" t || starts_with "deny=" t || starts_with "parent=" t.

(** [tokens_for], where [levels] is what [depth] leaves of eight. *)
Fixpoint tokens_for (c : Core) (levels : nat) (name : string) : option (list string) :=
  line ← raw_line c name;
  let own := drop 1 (split_whitespace line) in
  let inherited :=
    match head (omap (strip_prefix "parent=") own), levels with
    | Some p, S l => default [] (filter (λ t, class_local t = false) <$> tokens_for c l p)
    | _, _ => []
    end in
  Some (inherited ++ own).

Definition CLASS_LEVELS : nat := 8.

Definition class_token (cc : ConnClass) (tok : string) : ConnClass :=
  match split_once "=" tok with Some (k, v) => class_set k v cc | None => cc end.

(** [hash=] names the algorithm of a bare digest. *)
Definition fold_hash (algo : option string) (cc : ConnClass) : ConnClass :=
  match algo, cc_password cc with
  | Some a, Some pw => cc <| cc_password := Some (if contains_byte ":" pw then pw else a +:+ ":" +:+ pw) |>
  | _, _ => cc
  end.

Definition build (c : Core) (name : string) : option ConnClass :=
  toks ← tokens_for c CLASS_LEVELS name;
  let cc := foldl class_token (fresh_class name) toks in
  let cc := fold_hash (last (omap (strip_prefix "hash=") toks)) cc in
  Some (match cc_allow cc with [] => cc <| cc_allow := ["*"] |> | _ => cc end).

(** The classes are rebuilt whenever the configuration has changed. *)
Definition all_classes (c : Core) : list ConnClass :=
  omap (build c) (omap (λ l, head (split_whitespace l)) (conf_all c "connectclass")).

Definition named (c : Core) (name : string) : option ConnClass :=
  find_first (λ cc, String.eqb (cc_name cc) name) (all_classes c).

Definition class_of (c : Core) (uid : Uid) : option ConnClass :=
  name ← users c !! uid ≫= u_class; named c name.

Definition ping_freq (c : Core) (uid : Uid) : option N := class_of c uid ≫= cc_pingfreq.
Definition reg_timeout (c : Core) (uid : Uid) : option N := class_of c uid ≫= cc_timeout.
Definition max_chans (c : Core) (uid : Uid) : option N := class_of c uid ≫= cc_maxchans.
Definition waitpong_exempt (c : Core) (uid : Uid) : bool := map_or false cc_waitpongexempt (class_of c uid).
Definition ident_policy (c : Core) (uid : Uid) : bool * bool :=
  map_or (false, false) (λ cc, (cc_useident cc, cc_requireident cc)) (class_of c uid).

(** ** IP addresses *)

(** The octets, most significant first. *)
Inductive IpAddr := V4 (octets : list N) | V6 (octets : list N).

Definition ip_octets (a : IpAddr) : list N := match a with V4 o => o | V6 o => o end.

(** [char::to_digit]. *)
Definition to_digit (radix : N) (b : ascii) : option N :=
  let v := byte_val b in
  let d := if is_digit b then Some (v - 48)%N
           else if is_lower b then Some (v - 87)%N
           else if is_upper b then Some (v - 55)%N else None in
  opt_filter (λ d, (d <? radix)%N) d.

(** The digits a number starts with. *)
Fixpoint digits (radix : N) (s : string) : list N * string :=
  match s with
  | "" => ([], "")
  | String b r =>
      match to_digit radix b with
      | Some d => let '(ds, rest) := digits radix r in (d :: ds, rest)
      | None => ([], s)
      end
  end.

(** [read_number]: at most so many digits, a value of at most [max]. *)
Definition read_number (radix max : N) (max_digits : nat) (zero_prefix : bool) (s : string)
    : option (N * string) :=
  let '(ds, rest) := digits radix s in
  let v := foldl (λ acc d, (acc * radix + d)%N) 0%N ds in
  if (length ds =? 0) || (max_digits <? length ds) || (max <? v)%N
     || (negb zero_prefix && starts_with "0" s && (1 <? length ds))
  then None else Some (v, rest).

(** [read_separator]: the separator goes before every part but the first. *)
Definition after_sep {A} (sep : ascii) (index : nat) (p : string → option (A * string)) (s : string)
    : option (A * string) :=
  match index with
  | 0 => p s
  | S _ => match s with String b r => if bool_decide (b = sep) then p r else None | "" => None end
  end.

Definition read_octet (i : nat) : string → option (N * string) :=
  after_sep "." i (read_number 10 u8_max 3 false).

Definition read_ipv4 (s : string) : option (list N * string) :=
  '(a, s) ← read_octet 0 s; '(b, s) ← read_octet 1 s; '(c, s) ← read_octet 2 s; '(d, s) ← read_octet 3 s;
  Some ([a; b; c; d], s).

(** [read_groups]: [i] groups have been read, [left] may follow; the result says
    whether the last two came from an embedded IPv4 address. *)
Fixpoint read_groups (i left : nat) (s : string) : list N * bool * string :=
  match left with
  | 0 => ([], false, s)
  | S l =>
      let v4 := match l with 0 => None | S _ => after_sep ":" i read_ipv4 s end in
      match v4 with
      | Some (octets, rest) => (octets, true, rest)
      | None =>
          match after_sep ":" i (read_number 16 65535 4 true) s with
          | Some (g, rest) =>
              let '(gs, emb, rest) := read_groups (S i) l rest in ((g / 256)%N :: (g mod 256)%N :: gs, emb, rest)
          | None => ([], false, s)
          end
      end
  end.

Definition read_ipv6 (s : string) : option (list N * string) :=
  let '(hd, emb, s) := read_groups 0 8 s in
  if length hd =? 16 then Some (hd, s)
  else if emb then None
  else
    s ← strip_prefix "::" s;
    let '(tl, _, s) := read_groups 0 (7 - length hd / 2) s in
    Some (hd ++ replicate (16 - length hd - length tl) 0%N ++ tl, s).

(** [str::parse::<IpAddr>]. *)
Definition parse_ip (s : string) : option IpAddr :=
  let r := match read_ipv4 s with
           | Some (o, rest) => Some (V4 o, rest)
           | None => '(o, rest) ← read_ipv6 s; Some (V6 o, rest)
           end in
  '(a, rest) ← r; if is_empty rest then Some a else None.

(** ** Masks *)

Definition prefix_eq (a b : list N) (bits : N) : bool :=
  let full := N.to_nat (bits / 8) in
  if negb (bool_decide (take full a = take full b)) then false
  else
    let rem := (bits mod 8)%N in
    if (rem =? 0)%N then true
    else
      let mask := (N.shiftl 255 (8 - rem) mod 256)%N in
      (N.land (nth full a 0%N) mask =? N.land (nth full b 0%N) mask)%N.

Definition cidr_contains (base : IpAddr) (bits : N) (target : IpAddr) : bool :=
  match base, target with
  | V4 b, V4 t => prefix_eq b t (N.min bits 32)
  | V6 b, V6 t => prefix_eq b t (N.min bits 128)
  | _, _ => false
  end.

Section masks.
Context `{UnicodeLower}.

Definition mask_match (mask ip host : string) : bool :=
  match split_once "/" mask with
  | Some (net, bits) =>
      match parse_ip net, parse_uint u8_max bits, parse_ip ip with
      | Some base, Some bits, Some target => cidr_contains base bits target
      | _, _, _ => false
      end
  | None => glob_match mask ip || (negb (is_empty host) && glob_match mask host)
  end.

Definition ip_matches (mask ip : string) : bool := mask_match mask ip "".

End masks.
