(* ===== verification/Membership.v ===== *)
(** * Channel membership: [src/src/channels.rs] ([impl Server]) with the join
    intercepts [src/src/modules/denychans.rs], [restrictchans.rs] and
    [channames.rs]

    [join] with its gates and redirects, [part], [force_part], [flood_kick],
    [rename_channel], the flood counters and the periodic purges.  [join] calls
    itself through a ban, limit or [badchan] redirect, so it runs on fuel;
    [JoinFacts.join_fuel_some] shows the fuel it is given is never used up. *)

From Stdlib Require Import Ascii.
From S2P Require Import Prelude RustStr Glob Clock I18n Channel State Numeric Mode CoreMode Ban ConnClass.

Local Open Scope stdpp_scope.

Section membership.
Context `{UnicodeLower} `{Outside}.

Definition CHANNELS_AUSPEX : string := "channels/auspex".
Definition CHANNELS_OVERRIDE : string := "channels/override".
Definition CHANNELS_RESTRICTED_CREATE : string := "channels/restricted-create".

Definition push_event (h : Hook) (s : Server) : Server :=
  s <| io ::= (λ i, i <| events ::= (λ e, e ++ [h]) |>) |>.

(** [self.channels.retain(|_, c| c.keep_alive())]. *)
Definition retain_alive (c : Core) : Core :=
  c <| channels ::= retain_map (λ _ ch, keep_alive ch) |>.

(** Both halves of a departure: the member entry and the user's own set. *)
Definition drop_member (uid : Uid) (k : string) (c : Core) : Core :=
  with_user uid (λ u, u <| u_channels ::= (λ l, l ∖ {[k]}) |>)
    (with_chan k (λ ch, ch <| members ::= delete uid |>) c).

Definition is_hidden (c : Core) (uid : Uid) (k : string) : bool :=
  map_or false hidden (channels c !! k ≫= (λ ch, members ch !! uid)).

(** ** Join intercepts *)

Record BadChan := mkBadChan {
  bc_glob : string; bc_reason : string; bc_redirect : option string; bc_allowopers : bool }.

#[export] Instance eta_BadChan : Eta BadChan := λ b,
  mkBadChan (bc_glob b) (bc_reason b) (bc_redirect b) (bc_allowopers b).

(** [tokenize]: whitespace outside quotes separates; quotes are dropped. *)
Fixpoint tokenize_go (cs : list string) (cur : string) (in_q has : bool) : list string :=
  match cs with
  | [] => if has then [cur] else []
  | c :: r =>
      if String.eqb c (String "034" EmptyString) then tokenize_go r cur (negb in_q) true
      else if is_whitespace c && negb in_q then
        if has then cur :: tokenize_go r "" in_q false else tokenize_go r cur in_q has
      else tokenize_go r (cur +:+ c) in_q true
  end.

Definition tokenize (line : string) : list string := tokenize_go (chars line) "" false false.

Definition badchan_attr (bc : BadChan) (tok : string) : BadChan :=
  match split_once "=" tok with
  | None => bc
  | Some (k, v) =>
      if String.eqb k "reason" then bc <| bc_reason := v |>
      else if String.eqb k "redirect" then
        if is_empty v then bc else bc <| bc_redirect := Some v |>
      else if String.eqb k "allowopers" then bc <| bc_allowopers := yesish v |>
      else bc
  end.

Definition parse_badchan (line : string) : option BadChan :=
  match tokenize line with
  | [] => None
  | glob :: attrs =>
      if is_empty glob then None
      else Some (foldl badchan_attr (mkBadChan glob "Channel is forbidden." None false) attrs)
  end.

Definition is_good (c : Core) (name : string) : bool :=
  existsb (λ g, glob_match g name) (conf_all c "goodchan").

Definition MAX_REDIR : N := 8.

(** The [badchan] line that forbids a join, if any. *)
Definition denychans_hit (c : Core) (name : string) (oper : bool) : option BadChan :=
  match conf_all c "badchan" with
  | [] => None
  | lines =>
      if is_good c name then None
      else
        bc ← find_first (λ b, glob_match (bc_glob b) name) (omap parse_badchan lines);
        if oper && bc_allowopers bc then None else Some bc
  end.

(** Where a forbidden join is sent instead, while the hop budget lasts. *)
Definition denychans_redirect (c : Core) (name : string) (bc : BadChan) : option string :=
  redir ← bc_redirect bc;
  if negb (eq_ignore_ascii_case redir name) && (redir_depth c <? MAX_REDIR)%N
  then Some redir else None.

Definition restrictchans_blocks (c : Core) (name : string) (may_create : bool) : bool :=
  negb (may_create || negb (conf_bool c "restrictchans" false))
  && negb (is_some (channels c !! to_ascii_lowercase name))
  && negb (existsb (λ g, glob_match g name) (conf_all c "restrictchan")).

Definition channames_blocks (c : Core) (name : string) : bool :=
  match opt_filter (λ d, negb (is_empty d)) (conf c "channames_deny") with
  | None => false
  | Some deny =>
      negb (is_some (channels c !! to_ascii_lowercase name))
      && existsb (λ x, existsb (String.eqb x) (chars deny)) (chars name)
  end.

(** ** Flood counters *)

(** [v.retain(|t| n - t < secs); v.push(n)]: the hits of the current window. *)
Definition window_push (n secs : N) (hits : list N) : list N :=
  retain (λ t, (n - t <? secs)%N) hits ++ [n].

Definition over_limit (hits : list N) (limit : N) : bool :=
  (limit <? as_u32 (N.of_nat (length hits)))%N.

Definition messageflood_hit (uid : Uid) (k : string) (s : Server) : option bool * Server :=
  let n := clock (core s) in
  match channels (core s) !! k with
  | None => (None, s)
  | Some ch =>
      match flood (modes ch) with
      | None => (None, s)
      | Some f =>
          let v := window_push n (mf_secs f) (default [] (msgflood_hits ch !! uid)) in
          if over_limit v (mf_lines f) then
            (Some (mf_ban f), upd (with_chan k (λ c, c <| msgflood_hits ::= delete uid |>)) s)
          else (None, upd (with_chan k (λ c, c <| msgflood_hits ::= <[uid := v]> |>)) s)
      end
  end.

Definition joinflood_check (k : string) (s : Server) : bool * Server :=
  let n := clock (core s) in
  let dur := conf_num (core s) u64_max "joinflood_duration" 60 in
  match channels (core s) !! k with
  | None => (false, s)
  | Some ch =>
      match joinflood (modes ch) with
      | None => (false, s)
      | Some f =>
          if (n <? joinflood_until ch)%N then (true, s)
          else
            let v := window_push n (r_secs f) (joinflood_hits ch) in
            if over_limit v (r_count f) then
              (true, upd (with_chan k (λ c,
                 c <| joinflood_until := wrap_u64 (n + dur) |> <| joinflood_hits := [] |>)) s)
            else (false, upd (with_chan k (λ c, c <| joinflood_hits := v |>)) s)
      end
  end.

(** One channel of [nickflood_blocked]'s loop. *)
Definition nickflood_chan (n dur : N) (k : string) (acc : option string * Server)
    : option string * Server :=
  let '(blocked, s) := acc in
  match channels (core s) !! k with
  | None => acc
  | Some ch =>
      match nickflood (modes ch) with
      | None => acc
      | Some f =>
          if (n <? nickflood_until ch)%N then (opt_or blocked (Some (ch_name ch)), s)
          else
            let v := window_push n (r_secs f) (nickflood_hits ch) in
            if over_limit v (r_count f) then
              (opt_or blocked (Some (ch_name ch)), upd (with_chan k (λ c,
                 c <| nickflood_until := wrap_u64 (n + dur) |> <| nickflood_hits := [] |>)) s)
            else (blocked, upd (with_chan k (λ c, c <| nickflood_hits := v |>)) s)
      end
  end.

Definition nickflood_blocked (uid : Uid) (s : Server) : option string * Server :=
  let n := clock (core s) in
  let dur := conf_num (core s) u64_max "nickflood_duration" 60 in
  foldl (λ acc k, nickflood_chan n dur k acc) (None, s)
    (map_or [] (λ u, elements (u_channels u)) (users (core s) !! uid)).

(** ** Listing and replay *)

(** How one entry is shown: [multi-prefix] and [userhost-in-names]. *)
Definition names_token (cfg : option PrefixCfg) (multi uhost : bool) (m : Member)
    (nick pfx : string) : string :=
  (if multi then all_prefixes cfg m else prefix_char cfg m) +:+ (if uhost then pfx else nick).

(** The visible members, local then remote. *)
Definition names_tokens (c : Core) (uid : Uid) (ch : Channel) : list string :=
  let cfg := prefix_cfg c in
  let multi := has_cap c uid "multi-prefix" in
  let uhost := has_cap c uid "userhost-in-names" in
  let hide := auditorium (modes ch)
              && (map_or 0 (member_rank cfg) (members ch !! uid) <? RANK_OP)%N in
  omap (λ '(m, flags),
      if hide && negb (bool_decide (m = uid)) && (member_rank cfg flags <? RANK_OP)%N then None
      else if hidden flags && negb (bool_decide (m = uid)) then None
      else u ← users c !! m; Some (names_token cfg multi uhost flags (u_nick u) (user_prefix u)))
    (map_to_list (members ch))
  ++ omap (λ '(ruuid, mem),
      if hide && (member_rank cfg mem <? RANK_OP)%N then None
      else ru ← remote_users c !! ruuid;
           Some (names_token cfg multi uhost mem (ru_nick ru) (ru_prefix ru)))
    (map_to_list (rmembers ch)).

(** Fold tokens into lines of at most [budget] bytes where they fit. *)
Fixpoint fold_names (budget : nat) (toks : list string) (line : string) : list string :=
  match toks with
  | [] => if is_empty line then [] else [line]
  | t :: r =>
      if negb (is_empty line) && (budget <? str_len line + 1 + str_len t)
      then line :: fold_names budget r t
      else fold_names budget r ((if is_empty line then "" else line +:+ " ") +:+ t)
  end.

Definition send_names (uid : Uid) (k : string) (s : Server) : Server :=
  let c := core s in
  match channels c !! k with
  | None => numeric uid RPL_ENDOFNAMES (k +:+ " :End of /NAMES list") s
  | Some ch =>
      if (secret (modes ch) || private (modes ch)) && negb (is_some (members ch !! uid))
         && negb (has_priv c uid CHANNELS_AUSPEX) then
        numeric uid RPL_ENDOFNAMES (ch_name ch +:+ " :End of /NAMES list") s
      else
        let vis := if secret (modes ch) then "@" else if private (modes ch) then "*" else "=" in
        let askern := map_or 1 (λ u, str_len (u_nick u)) (users c !! uid) in
        let budget := 500 - (str_len (s_name c) + askern + str_len (ch_name ch) + 12) in
        let s := for_each (fold_names budget (names_tokens c uid ch) "") (λ line,
                   numeric uid RPL_NAMREPLY (vis +:+ " " +:+ ch_name ch +:+ " :" +:+ line)) s in
        numeric uid RPL_ENDOFNAMES (ch_name ch +:+ " :End of /NAMES list") s
  end.

Definition is_event (m : HistMsg) : bool := is_some (h_raw m).

Fixpoint remove_byte (a : ascii) (s : string) : string :=
  match s with
  | "" => ""
  | String x r => if bool_decide (x = a) then remove_byte a r else String x (remove_byte a r)
  end.

Definition replay_line (name : string) (bref : option string) (m : HistMsg) : string :=
  let tags := "time=" +:+ iso_time (h_ts m) +:+ ";msgid=" +:+ h_msgid m
              +:+ map_or "" (λ b, ";batch=" +:+ b) bref in
  match h_raw m with
  | Some raw => "@" +:+ tags +:+ " " +:+ raw
  | None => "@" +:+ tags +:+ " :" +:+ h_prefix m +:+ " " +:+ h_verb m +:+ " " +:+ name
            +:+ " :" +:+ h_text m
  end.

(** The stored messages a joiner is shown: the newest [lines] not older than
    [cutoff]. *)
Definition replay_select (lines cutoff : N) (want_events : bool) (buf : list HistMsg)
    : list HistMsg :=
  let recent := retain (λ m, (cutoff <=? h_ts m)%N && (want_events || negb (is_event m))) buf in
  drop (length recent - N.to_nat lines) recent.

Definition replay_chanhistory (uid : Uid) (k : string) (s : Server) : Server :=
  match channels (core s) !! k ≫= (λ ch, lt ← history (modes ch); Some (ch_name ch, lt)) with
  | None => s
  | Some (name, (lines, secs)) =>
      let cutoff := if (0 <? secs)%N then (clock (core s) - secs)%N else 0%N in
      let '(bref, s) :=
        if has_cap (core s) uid "batch" then
          let '(id, s) := next_msgid s in (Some (remove_byte "-" id), s)
        else (None, s) in
      match s_history (core s) !! k with
      | None => s
      | Some buf =>
          match replay_select lines cutoff (has_cap (core s) uid "draft/event-playback") buf with
          | [] => s
          | picked =>
              let srv := s_name (core s) in
              let s := map_or s (λ b, send uid (":" +:+ srv +:+ " BATCH +" +:+ b
                         +:+ " chathistory " +:+ name) s) bref in
              let s := for_each (map (replay_line name bref) picked) (send uid) s in
              map_or s (λ b, send uid (":" +:+ srv +:+ " BATCH -" +:+ b) s) bref
          end
      end
  end.

(** ** Joining *)

(** What the checks of [join] decide: refuse; send the user to another channel,
    either as a [badchan] hop or as a ban/limit redirect; or admit, recording
    whether an operator override was used. *)
Inductive Gate :=
  | Refuse (s : Server)
  | Hop (target : string) (s : Server)
  | Bounce (target : string) (s : Server)
  | Admit (overrode : bool) (s : Server).

(** A restriction: an override holder passes it and leaves a trace. *)
Definition restrict (can_override blocked : bool) (refuse : Gate) (k : bool → Gate)
    (overrode : bool) : Gate :=
  if blocked then if can_override then k true else refuse else k overrode.

Definition maxchannel (c : Core) : N := conf_num c u64_max "maxchannel" 50.

Definition too_many_chans (c : Core) (uid : Uid) : bool :=
  match max_chans c uid with
  | Some max => (max <=? map_or 0 (λ u, N.of_nat (size (u_channels u))) (users c !! uid))%N
  | None => false
  end.

(** The checks that do not look at the channel's modes. *)
Definition entry_gate (uid : Uid) (name : string) (s : Server) : Gate :=
  let c := core s in
  let k := to_ascii_lowercase name in
  let can_override := has_priv c uid CHANNELS_OVERRIDE in
  if negb (valid_chan name (maxchannel c)) then
    Refuse (numeric uid ERR_BADCHANNAME (name +:+ " :Invalid channel name") s)
  else if map_or true (λ u, bool_decide (k ∈ u_channels u)) (users c !! uid) then Refuse s
  else if negb can_override && too_many_chans c uid then
    Refuse (numeric uid ERR_TOOMANYCHANNELS (name +:+ " :You have joined too many channels") s)
  else match (if can_override then None else matched_cban c k) with
  | Some reason =>
      Refuse (numeric uid ERR_BADCHANNEL (name +:+ " :Channel is CBAN'd: " +:+ reason) s)
  | None =>
      match denychans_hit c name (is_oper c uid) with
      | Some bc =>
          let s := numeric uid ERR_BADCHANNEL (name +:+ " :" +:+ bc_reason bc) s in
          match denychans_redirect c name bc with
          | Some redir =>
              Hop redir (numeric uid ERR_LINKCHANNEL
                           (name +:+ " " +:+ redir +:+ " :You have been redirected.") s)
          | None => Refuse s
          end
      | None =>
          if restrictchans_blocks c name (has_priv c uid CHANNELS_RESTRICTED_CREATE) then
            Refuse (numeric uid ERR_BADCHANNEL
                      (name +:+ " :Only IRC operators may create new channels here") s)
          else if channames_blocks c name then
            Refuse (numeric uid ERR_BADCHANNEL
                      (name +:+ " :Channel name contains characters not permitted here") s)
          else Admit false s
      end
  end.

Definition wrong_key (ch : Channel) (key_arg : option string) : bool :=
  match key (modes ch) with Some k => negb (bool_decide (key_arg = Some k)) | None => false end.

Definition banned (c : Core) (uid : Uid) (ch : Channel) : bool :=
  ban_list_hit c uid (bans ch) && negb (ban_list_hit c uid (excepts ch)).

Definition uninvited (c : Core) (uid : Uid) (ch : Channel) : bool :=
  invite_only (modes ch) && negb (bool_decide (uid ∈ invites ch))
  && negb (ban_list_hit c uid (invex ch)).

(** +J: the kick that still keeps [uid] out, with its window. *)
Definition rejoin_wait (c : Core) (uid : Uid) (ch : Channel) : option N :=
  secs ← kicknorejoin (modes ch);
  kt ← recent_kicks ch !! uid;
  if (clock c - kt <? secs)%N then Some secs else None.

(** A redirect target is followed once, and only to another channel. *)
Definition may_bounce (c : Core) (uid : Uid) (k t : string) : bool :=
  negb (in_redirect c) && negb (String.eqb (to_ascii_lowercase t) k)
  && negb (is_member c uid (to_ascii_lowercase t)).

Definition ban_refusal (uid : Uid) (name k : string) (s : Server) : Gate :=
  match opt_filter (may_bounce (core s) uid k) (redirect_target (core s) uid k) with
  | Some t =>
      Bounce t (numeric uid ERR_LINKCHANNEL
                  (name +:+ " " +:+ t +:+ " :Cannot join channel (+b), redirecting") s)
  | None => Refuse (numeric uid ERR_BANNEDFROMCHAN (name +:+ " :Cannot join channel (+b)") s)
  end.

(** An existing channel can refuse the join: +k +b +i +z +E +O +R +J. *)
Definition mode_gate (uid : Uid) (name : string) (key_arg : option string) (s : Server) : Gate :=
  let c := core s in
  let k := to_ascii_lowercase name in
  let ovr := has_priv c uid CHANNELS_OVERRIDE in
  let say code text := Refuse (numeric uid code (name +:+ " :" +:+ text) s) in
  let user_is (f : User → bool) := map_or false f (users c !! uid) in
  match channels c !! k with
  | None => Admit false s
  | Some ch =>
      let m := modes ch in
      restrict ovr (wrong_key ch key_arg)
        (say ERR_BADCHANNELKEY "Cannot join channel (+k)") (
      restrict ovr (banned c uid ch) (ban_refusal uid name k s) (
      restrict ovr (uninvited c uid ch)
        (say ERR_INVITEONLYCHAN "Cannot join channel (+i)") (
      restrict ovr (secure_only m && negb (user_is u_secure))
        (say ERR_SECUREONLYCHAN "Cannot join channel; TLS users only (+z is set)") (
      restrict ovr (encrypted m && negb (has_cap c uid "echoircd/e2e"))
        (say ERR_E2EONLYCHAN ("Cannot join channel; an end-to-end encryption capable "
                              +:+ "client is required (+E is set)")) (λ o,
      if oper_only m && negb (is_oper c uid) then
        say ERR_CANTJOINOPERSONLY "Cannot join channel; IRC operators only (+O is set)"
      else
      restrict ovr (reg_only m && map_or true (λ u, negb (is_some (u_account u))) (users c !! uid))
        (say ERR_NEEDREGGEDNICK "Cannot join channel; you must be logged in (+R is set)") (
      restrict ovr (is_some (rejoin_wait c uid ch))
        (say ERR_DELAYREJOIN ("You must wait " +:+ to_string (default 0%N (rejoin_wait c uid ch))
                              +:+ "s after a kick to rejoin (+J)")) (
      λ o, Admit o s)) o))))) false
  end.

Definition chan_full (ch : Channel) : bool :=
  map_or false (λ l, (l <=? as_u32 (N.of_nat (size (members ch) + size (rmembers ch))))%N)
    (limit (modes ch)).

(** +l, with the +L redirect, and the +j lockout. *)
Definition limit_gate (uid : Uid) (name : string) (overrode : bool) (s : Server) : Gate :=
  let c := core s in
  let k := to_ascii_lowercase name in
  match channels c !! k with
  | None => Admit overrode s
  | Some ch =>
      if negb (chan_full ch) then Admit overrode s
      else if has_priv c uid CHANNELS_OVERRIDE then Admit true s
      else match opt_filter (may_bounce c uid k) (redirect (modes ch)) with
           | Some t =>
               Bounce t (numeric uid ERR_LINKCHANNEL
                           (name +:+ " " +:+ t +:+ " :Cannot join channel (+l), redirecting") s)
           | None =>
               Refuse (numeric uid ERR_CHANNELISFULL (name +:+ " :Cannot join channel (+l)") s)
           end
  end.

Definition flood_gate (uid : Uid) (name : string) (overrode : bool) (s : Server) : Gate :=
  if has_priv (core s) uid CHANNELS_OVERRIDE then Admit overrode s
  else
    let '(locked, s) := joinflood_check (to_ascii_lowercase name) s in
    if locked then
      Refuse (numeric uid ERR_UNAVAILRESOURCE
                (name +:+ " :This channel is temporarily unavailable (+j join flood)") s)
    else Admit overrode s.

Definition then_gate (g : Gate) (f : bool → Server → Gate) : Gate :=
  match g with Admit o s => f o s | _ => g end.

Definition join_gate (uid : Uid) (name : string) (key_arg : option string) (s : Server) : Gate :=
  then_gate (entry_gate uid name s) (λ _ s,
  then_gate (mode_gate uid name key_arg s) (λ o s,
  then_gate (limit_gate uid name o s) (λ o s, flood_gate uid name o s))).

(** The membership tables after an admitted join. *)
Definition enter (uid : Uid) (name : string) (c : Core) : Core :=
  let k := to_ascii_lowercase name in
  let is_new := negb (is_some (channels c !! k)) in
  let mem := default_member <| prefixes := if is_new then PFX_OP else 0%N |>
                            <| joined := clock c |> in
  let c := c <| channels ::= partial_alter (λ o, Some
             ((default (new_channel (clock c) name) o)
                <| members ::= <[uid := mem]> |>
                <| invites ::= (λ l, l ∖ {[uid]}) |>
                <| recent_kicks ::= delete uid |>)) k |> in
  with_user uid (λ u, u <| u_channels ::= (λ l, {[k]} ∪ l) |>
                        <| u_invited ::= (λ l, l ∖ {[k]}) |>) c.

Definition set_hidden (uid : Uid) (k : string) (c : Core) : Core :=
  with_chan k (λ ch, ch <| members ::= alter (λ m, m <| hidden := true |>) uid |>) c.

Definition chan_mode_on (f : ChanModes → bool) (c : Core) (k : string) : bool :=
  map_or false (λ ch, f (modes ch)) (channels c !! k).

(** The JOIN line to the members who may see it. *)
Definition announce_join (uid : Uid) (name : string) (s : Server) : Server :=
  let k := to_ascii_lowercase name in
  let aud := chan_mode_on auditorium (core s) k in
  let dj := chan_mode_on delayjoin (core s) k in
  match users (core s) !! uid with
  | None => s
  | Some u =>
      let plain := ":" +:+ user_prefix u +:+ " JOIN " +:+ name in
      let extended := plain +:+ " " +:+ default "*" (u_account u) +:+ " :" +:+ u_realname u in
      for_each (chan_members (core s) k) (λ m s,
        if aud && negb (bool_decide (m = uid)) && (rank (core s) m k <? RANK_OP)%N then s
        else if dj && negb (bool_decide (m = uid)) then s
        else send m (if has_cap (core s) m "extended-join" then extended else plain) s) s
  end.

Definition send_topic (uid : Uid) (name k : string) (s : Server) : Server :=
  match channels (core s) !! k ≫= ch_topic with
  | Some t =>
      numeric uid RPL_TOPICWHOTIME (name +:+ " " +:+ t_setter t +:+ " " +:+ to_string (t_ts t))
        (numeric uid RPL_TOPIC (name +:+ " :" +:+ t_text t) s)
  | None => s
  end.

(** The rest of [join] once every check has passed. *)
Definition admit_join (uid : Uid) (name : string) (overrode : bool) (s : Server) : Server :=
  let k := to_ascii_lowercase name in
  let nick := map_or "" u_nick (users (core s) !! uid) in
  let s := if overrode then
             snotice_c "v" (trf (core s) "{0} used oper override to join {1}" [nick; name]) s
           else s in
  let is_new := negb (is_some (channels (core s) !! k)) in
  let s := upd (enter uid name) s in
  let s := if is_new && (conf_bool (core s) "chancreate" false
                         || conf_bool (core s) "announce_channels" false) then
             snotice_c "j" (trf (core s) "{0} created channel {1}" [nick; name]) s
           else s in
  let s := if chan_mode_on delayjoin (core s) k then upd (set_hidden uid k) s else s in
  let s := announce_join uid name s in
  let s := send_topic uid name k s in
  let s := if has_cap (core s) uid "no-implicit-names" then s else send_names uid k s in
  let s := replay_chanhistory uid k s in
  let s := propagate_join uid name is_new s in
  push_event (HJoin uid k) s.

Definition set_depth (f : N → N) (c : Core) : Core := c <| redir_depth ::= f |>.
Definition set_in_redirect (b : bool) (c : Core) : Core := c <| in_redirect := b |>.

Fixpoint join_fuel (fuel : nat) (uid : Uid) (name : string) (key_arg : option string) (s : Server)
    : option Server :=
  match fuel with
  | 0 => None
  | S fuel =>
      match join_gate uid name key_arg s with
      | Refuse s => Some s
      | Admit o s => Some (admit_join uid name o s)
      | Hop t s =>
          s ← join_fuel fuel uid t None (upd (set_depth (λ d, (d + 1)%N)) s);
          Some (upd (set_depth (λ d, (d - 1)%N)) s)
      | Bounce t s =>
          s ← join_fuel fuel uid t None (upd (set_in_redirect true) s);
          Some (upd (set_in_redirect false) s)
      end
  end.

(** Every nested call raises [redir_depth] towards [MAX_REDIR] or sets
    [in_redirect]: at most nine of them. *)
Definition JOIN_FUEL : nat := 10.

Definition join (uid : Uid) (name : string) (key_arg : option string) (s : Server) : Server :=
  default s (join_fuel JOIN_FUEL uid name key_arg s).

(** ** Leaving *)

(** A local user leaves: [false] when they were not on the channel. *)
Definition part (uid : Uid) (target reason : string) (s : Server) : bool * Server :=
  let k := to_ascii_lowercase target in
  match users (core s) !! uid with
  | Some u =>
      if bool_decide (k ∈ u_channels u) then
        let line := ":" +:+ user_prefix u +:+ " PART " +:+ target
                    +:+ (if is_empty reason then "" else " :" +:+ reason) in
        let s := if is_hidden (core s) uid k then send uid line s
                 else to_channel_vis k line uid s in
        let s := propagate_part uid target reason s in
        let s := upd (retain_alive ∘ drop_member uid k) s in
        (true, push_event (HPart uid k reason) s)
      else (false, s)
  | None => (false, s)
  end.

(** Index operations panic on a missing key; [None] is that panic. *)
Definition force_part (uid : Uid) (chan reason : string) (s : Server) : option Server :=
  let k := to_ascii_lowercase chan in
  if negb (is_member (core s) uid k) then Some s
  else
    u ← users (core s) !! uid;
    let line := ":" +:+ user_prefix u +:+ " PART " +:+ chan +:+ " :" +:+ reason in
    let s := if is_hidden (core s) uid k then send uid line s else to_channel k line None s in
    let s := propagate_part uid chan reason s in
    Some (upd (retain_alive ∘ drop_member uid k) s).

Definition add_flood_ban (k mask : string) (c : Core) : Core :=
  with_chan k (λ ch,
    if existsb (λ b, String.eqb (b_mask b) mask) (bans ch) then ch
    else ch <| bans ::= (λ l, l ++ [mkBan mask (s_name c) (clock c) None]) |>) c.

Definition flood_kick (uid : Uid) (k : string) (ban : bool) (s : Server) : Server :=
  match users (core s) !! uid with
  | None => s
  | Some u =>
      let cname := map_or k ch_name (channels (core s) !! k) in
      let s := if ban then upd (add_flood_ban k ("*!*@" +:+ host_display u)) s else s in
      let s := to_channel k (":" +:+ s_name (core s) +:+ " KICK " +:+ cname +:+ " "
                 +:+ u_nick u +:+ " :Flood") None s in
      let s := propagate_kick uid cname (u_nick u) "Flood" s in
      let s := upd (retain_alive ∘ drop_member uid k) s in
      push_event (HPart uid k "flood") s
  end.

(** ** Renaming *)

(** Channel-keyed module state follows the channel. *)
Definition rekey {A} (oldkey newkey : string) (m : gmap string A) : gmap string A :=
  match m !! oldkey with Some v => <[newkey := v]> (delete oldkey m) | None => m end.

Definition rekey_channel_state (oldkey newkey : string) (c : Core) : Core :=
  c <| s_history ::= rekey oldkey newkey |> <| s_metadata ::= rekey oldkey newkey |>.

Definition move_user_chan (oldkey newkey : string) (c : Core) (m : Uid) : Core :=
  with_user m (λ u, u <| u_channels ::= (λ l, {[newkey]} ∪ l ∖ {[oldkey]}) |>) c.

(** The table half of [rename_channel]. *)
Definition rename_tables (oldkey newname : string) (ch : Channel) (c : Core) : Core :=
  let newkey := to_ascii_lowercase newname in
  if String.eqb newkey oldkey then with_chan oldkey (λ ch, ch <| ch_name := newname |>) c
  else
    let c := c <| channels ::= (λ m, <[newkey := ch <| ch_name := newname |>]> (delete oldkey m)) |> in
    let c := foldl (move_user_chan oldkey newkey) c (elements (dom (members ch))) in
    rekey_channel_state oldkey newkey c.

Definition emulate_rename_join (m : Uid) (oldname newname newkey reason : string) (s : Server)
    : Server :=
  match users (core s) !! m with
  | None => s
  | Some u =>
      let pfx := user_prefix u in
      let joinline := ":" +:+ pfx +:+ " JOIN " +:+ newname
        +:+ (if cap_has (u_caps u) "extended-join"
             then " " +:+ default "*" (u_account u) +:+ " :" +:+ u_realname u else "") in
      let partline := ":" +:+ pfx +:+ " PART " +:+ oldname
        +:+ (if is_empty reason then "" else " :" +:+ reason) in
      send_names m newkey (send_topic m newname newkey (send m joinline (send m partline s)))
  end.

Definition rename_channel (oldkey newname src_prefix reason : string) (s : Server)
    : option string * Server :=
  let newkey := to_ascii_lowercase newname in
  let case_only := String.eqb newkey oldkey in
  match channels (core s) !! oldkey with
  | None => (None, s)
  | Some ch =>
      if negb case_only && is_some (channels (core s) !! newkey) then (None, s)
      else
        let renline := ":" +:+ src_prefix +:+ " RENAME " +:+ ch_name ch +:+ " " +:+ newname
                       +:+ " :" +:+ reason in
        let s := upd (rename_tables oldkey newname ch) s in
        (Some newkey, for_each (elements (dom (members ch))) (λ m s,
           if has_cap (core s) m "draft/channel-rename" then send m renline s
           else if negb case_only then emulate_rename_join m (ch_name ch) newname newkey reason s
           else s) s)
  end.

(** ** Periodic work *)

Definition tban_expired (now : N) (b : Ban) : bool :=
  map_or false (λ e, (e <=? now)%N) (b_expires b).

Definition expired_tbans (c : Core) : list (string * string * string) :=
  concat (map (λ '(k, ch),
    map (λ b, (k, ch_name ch, b_mask b)) (retain (tban_expired (clock c)) (bans ch)))
    (map_to_list (channels c))).

Definition lift_tban (e : string * string * string) (s : Server) : Server :=
  let '(k, name, mask) := e in
  let s := upd (with_chan k (λ ch,
             ch <| bans ::= retain (λ b, negb (String.eqb (b_mask b) mask)) |>)) s in
  let s := to_channel k (":" +:+ s_name (core s) +:+ " MODE " +:+ name +:+ " -b " +:+ mask) None s in
  propagate_chan_mode (s_sid (core s)) name "-b" [mask] s.

Definition purge_tbans (s : Server) : Server := for_each (expired_tbans (core s)) lift_tban s.

Definition purge_chan_flood (now : N) (ch : Channel) : Channel :=
  let window := default 0%N (kicknorejoin (modes ch)) in
  ch <| msgflood_hits ::= retain_map (λ uid _, is_some (members ch !! uid)) |>
     <| recent_kicks ::= retain_map (λ _ ts, (0 <? window)%N && (now - ts <? window)%N) |>.

Definition purge_flood_state (s : Server) : Server :=
  upd (λ c, c <| channels ::= fmap (purge_chan_flood (clock c)) |>) s.

End membership.
