(* ===== verification/Watch.v ===== *)
(** * Personal lists: [src/src/watch.rs], [src/src/coremods/core_watch.rs] and the
    accept lists of [src/src/server.rs]

    WATCH, MONITOR, SILENCE, SIGNORE and ACCEPT.  WATCH and MONITOR entries are
    mirrored in a reverse index from nick to watchers, ACCEPT entries in a
    reverse count; the operations keep lists and indexes in step. *)

From Stdlib Require Import Ascii.
From S2P Require Import Prelude RustStr Glob I18n Channel State Numeric CoreMode.

Local Open Scope stdpp_scope.

Definition WATCH_MAX : N := 128.
Definition MONITOR_MAX : N := 128.
Definition SILENCE_MAX : N := 32.
Definition ACCEPT_MAX : N := 64.

Definition contains_str (x : string) (l : list string) : bool := existsb (String.eqb x) l.
Definition without (x : string) (l : list string) : list string :=
  retain (λ y, negb (String.eqb y x)) l.

(** ** Reverse indexes *)

Abbreviation Index := (gmap string (gset Uid)).

(** [entry(n).or_default().insert(uid)]. *)
Definition index_add (n : string) (uid : Uid) (m : Index) : Index :=
  <[n := {[uid]} ∪ default ∅ (m !! n)]> m.

(** Remove [uid] from the set of [n], and the set once it is empty. *)
Definition index_del (n : string) (uid : Uid) (m : Index) : Index :=
  match m !! n with
  | Some set =>
      let set' := set ∖ {[uid]} in
      if bool_decide (set' = ∅) then delete n m else <[n := set']> m
  | None => m
  end.

(** One step down in a counter table; an entry never stays at zero. *)
Definition count_dec {K} `{Countable K} (k : K) (m : gmap K N) : gmap K N :=
  match m !! k with
  | Some c => if (c - 1 =? 0)%N then delete k m else <[k := (c - 1)%N]> m
  | None => m
  end.

Definition count_add {K} `{Countable K} (k : K) (d : N) (m : gmap K N) : gmap K N :=
  <[k := (default 0 (m !! k) + d)%N]> m.

(** ** Mutators *)

Definition watch_index_add (uid : Uid) (low : string) (c : Core) : Core :=
  match users c !! uid with
  | Some u =>
      if contains_str low (u_watch u) then c
      else (with_user uid (λ u, u <| u_watch ::= (λ l, l ++ [low]) |>) c)
             <| watch_by ::= index_add low uid |>
  | None => c
  end.

Definition watch_index_remove (uid : Uid) (low : string) (c : Core) : Core :=
  match users c !! uid with
  | Some u =>
      let l' := without low (u_watch u) in
      let c := with_user uid (λ u, u <| u_watch := l' |>) c in
      if length l' =? length (u_watch u) then c else c <| watch_by ::= index_del low uid |>
  | None => c
  end.

Definition watch_index_clear (uid : Uid) (c : Core) : Core :=
  match users c !! uid with
  | Some u =>
      foldl (λ c n, c <| watch_by ::= index_del n uid |>)
        (with_user uid (λ u, u <| u_watch := [] |>) c) (u_watch u)
  | None => c
  end.

Definition monitor_index_add (uid : Uid) (low : string) (c : Core) : Core :=
  match users c !! uid with
  | Some u =>
      if contains_str low (u_monitor u) then c
      else (with_user uid (λ u, u <| u_monitor ::= (λ l, l ++ [low]) |>) c)
             <| monitor_by ::= index_add low uid |>
  | None => c
  end.

Definition monitor_index_remove (uid : Uid) (low : string) (c : Core) : Core :=
  match users c !! uid with
  | Some u =>
      let l' := without low (u_monitor u) in
      let c := with_user uid (λ u, u <| u_monitor := l' |>) c in
      if length l' =? length (u_monitor u) then c else c <| monitor_by ::= index_del low uid |>
  | None => c
  end.

Definition monitor_index_clear (uid : Uid) (c : Core) : Core :=
  match users c !! uid with
  | Some u =>
      foldl (λ c n, c <| monitor_by ::= index_del n uid |>)
        (with_user uid (λ u, u <| u_monitor := [] |>) c) (u_monitor u)
  | None => c
  end.

Definition accept_add (uid : Uid) (low : string) (c : Core) : Core :=
  match users c !! uid with
  | Some _ =>
      (with_user uid (λ u, u <| u_accept ::= (λ l, l ++ [low]) |>) c)
        <| accepted_nicks ::= count_add low 1 |>
  | None => c
  end.

Definition accept_remove (uid : Uid) (low : string) (c : Core) : Core :=
  match users c !! uid with
  | Some u =>
      let l' := without low (u_accept u) in
      let c := with_user uid (λ u, u <| u_accept := l' |>) c in
      if length l' =? length (u_accept u) then c
      else c <| accepted_nicks ::= count_dec low |>
  | None => c
  end.

(** ** Notifications *)

Definition index_get (m : Index) (n : string) : list Uid :=
  map_or [] (elements : gset Uid → list Uid) (m !! n).

Definition watch_notify_online (nick : string) (s : Server) : Server :=
  let low := to_ascii_lowercase nick in
  match find_nick (core s) nick ≫= (λ tu, users (core s) !! tu) with
  | None => s
  | Some x =>
      let s := for_each (index_get (watch_by (core s)) low) (λ uid,
        numeric uid RPL_LOGON (u_nick x +:+ " " +:+ u_ident x +:+ " " +:+ host_display x +:+ " "
          +:+ to_string (u_signon x) +:+ " :is now online")) s in
      for_each (index_get (monitor_by (core s)) low) (λ uid,
        numeric uid RPL_MONONLINE
          (":" +:+ u_nick x +:+ "!" +:+ u_ident x +:+ "@" +:+ host_display x)) s
  end.

Definition watch_notify_offline (nick : string) (s : Server) : Server :=
  let low := to_ascii_lowercase nick in
  let ts := clock (core s) in
  let s := for_each (index_get (watch_by (core s)) low) (λ uid,
    numeric uid RPL_LOGOFF (nick +:+ " * * " +:+ to_string ts +:+ " :is now offline")) s in
  for_each (index_get (monitor_by (core s)) low) (λ uid,
    numeric uid RPL_MONOFFLINE (":" +:+ nick)) s.

Definition watchers_of (c : Core) (nick : string) : nat :=
  map_or 0 size (watch_by c !! to_ascii_lowercase nick).

(** ** Queries *)

Definition is_accepted (c : Core) (target : Uid) (sender_nick : string) : bool :=
  map_or false (λ u, contains_str (to_ascii_lowercase sender_nick) (u_accept u))
    (users c !! target).

Section masks.
Context `{UnicodeLower}.

Definition is_silenced (c : Core) (by_ : Uid) (sender_mask : string) : bool :=
  map_or false (λ u, existsb (λ m, glob_match m sender_mask) (u_silence u)) (users c !! by_).

Definition signore_one_way (c : Core) (by_ who : Uid) : bool :=
  match users c !! by_ with
  | None => false
  | Some byu =>
      let mask := map_or "" user_prefix (users c !! who) in
      existsb (λ m, glob_match m mask) (u_signore byu)
  end.

Definition signore_blocks (c : Core) (a b : Uid) : bool :=
  signore_one_way c a b || signore_one_way c b a.
End masks.

(** ** Replies split over lines *)

(** [chunk_join]: join with [sep] into lines of at most [budget] bytes. *)
Fixpoint chunk_go (sep : string) (budget : nat) (items : list string) (line : string)
    : list string :=
  match items with
  | [] => if is_empty line then [] else [line]
  | it :: r =>
      if negb (is_empty line) && (budget <? str_len line + 1 + str_len it)
      then line :: chunk_go sep budget r it
      else chunk_go sep budget r ((if is_empty line then "" else line +:+ sep) +:+ it)
  end.

Definition chunk_join (items : list string) (sep : string) (budget : nat) : list string :=
  chunk_go sep budget items "".

(** ** WATCH *)

Definition watch_status (uid : Uid) (nick : string) (s : Server) : Server :=
  match find_nick (core s) nick ≫= (λ tu, users (core s) !! tu) with
  | Some u =>
      numeric uid RPL_NOWON (u_nick u +:+ " " +:+ u_ident u +:+ " " +:+ host_display u +:+ " "
        +:+ to_string (u_signon u) +:+ " :is online") s
  | None => numeric uid RPL_NOWOFF (nick +:+ " * * 0 :is offline") s
  end.

(** A list is full when it has reached its cap and does not hold the entry. *)
Definition list_full (max : N) (x : string) (l : list string) : bool :=
  (max <=? N.of_nat (length l))%N && negb (contains_str x l).

Definition watch_add (uid : Uid) (nick : string) (s : Server) : Server :=
  if is_empty nick then s
  else
    let low := to_ascii_lowercase nick in
    let maxwatch := conf_num (core s) u64_max "maxwatch" WATCH_MAX in
    if map_or true (λ u, list_full maxwatch low (u_watch u)) (users (core s) !! uid) then
      numeric uid ERR_TOOMANYWATCH (nick +:+ " :Maximum size for WATCH-list exceeded") s
    else watch_status uid nick (upd (watch_index_add uid low) s).

Definition watch_list (uid : Uid) (online_only : bool) (s : Server) : Server :=
  let nicks := map_or [] u_watch (users (core s) !! uid) in
  let s := for_each nicks (λ n s,
    if negb online_only || is_some (find_nick (core s) n) then watch_status uid n s else s) s in
  numeric uid RPL_ENDOFWATCHLIST ":End of WATCH list" s.

Definition watch_token (uid : Uid) (tok : string) (s : Server) : Server :=
  if String.eqb tok "C" || String.eqb tok "c" then
    numeric uid RPL_ENDOFWATCHLIST ":End of WATCH list" (upd (watch_index_clear uid) s)
  else if String.eqb tok "S" || String.eqb tok "s" then
    let watched := map_or [] u_watch (users (core s) !! uid) in
    let me := map_or "" u_nick (users (core s) !! uid) in
    let on_me := watchers_of (core s) me in
    let s := numeric uid RPL_WATCHSTAT (":You have " +:+ to_string (N.of_nat (length watched))
               +:+ " and are on " +:+ to_string (N.of_nat on_me) +:+ " WATCH entries") s in
    let s := for_each (chunk_join watched " " 400) (λ chunk,
               numeric uid RPL_WATCHLIST (":" +:+ chunk)) s in
    numeric uid RPL_ENDOFWATCHLIST ":End of WATCH S" s
  else if String.eqb tok "L" then watch_list uid false s
  else if String.eqb tok "l" then watch_list uid true s
  else match strip_prefix "+" tok with
  | Some nick => watch_add uid nick s
  | None =>
      match strip_prefix "-" tok with
      | Some nick =>
          numeric uid RPL_WATCHOFF (nick +:+ " * * 0 :stopped watching")
            (upd (watch_index_remove uid (to_ascii_lowercase nick)) s)
      | None => s
      end
  end.

Definition watch_cmd (uid : Uid) (params : list string) (s : Server) : Server :=
  match params with
  | [] => watch_list uid true s
  | _ => for_each (concat (map split_whitespace params)) (watch_token uid) s
  end.

(** ** MONITOR *)

Definition nonempty (l : list string) : list string := retain (λ x, negb (is_empty x)) l.

Definition monitor_report (uid : Uid) (nicks : list string) (s : Server) : Server :=
  let found n := find_nick (core s) n ≫= (λ tu, users (core s) !! tu) in
  let online := omap (λ n, u ← found n;
    Some (u_nick u +:+ "!" +:+ u_ident u +:+ "@" +:+ host_display u)) nicks in
  let offline := retain (λ n, negb (is_some (found n))) nicks in
  let s := for_each (chunk_join online "," 400) (λ ch, numeric uid RPL_MONONLINE (":" +:+ ch)) s in
  for_each (chunk_join offline "," 400) (λ ch, numeric uid RPL_MONOFFLINE (":" +:+ ch)) s.

(** One target of [MONITOR +]; the accumulator collects what was added. *)
Definition monitor_add (uid : Uid) (acc : list string * Server) (t : string)
    : list string * Server :=
  let '(added, s) := acc in
  let low := to_ascii_lowercase t in
  let maxmon := conf_num (core s) u64_max "maxmonitor" MONITOR_MAX in
  if map_or true (λ u, list_full maxmon low (u_monitor u)) (users (core s) !! uid) then
    (added, numeric uid ERR_MONLISTFULL
              (to_string maxmon +:+ " " +:+ t +:+ " :Monitor list is full") s)
  else (added ++ [t], upd (monitor_index_add uid low) s).

Definition monitor_cmd (uid : Uid) (sub : string) (arg : option string) (s : Server) : Server :=
  let targets := map_or [] (λ t, nonempty (split "," t)) arg in
  if String.eqb sub "+" then
    let '(added, s) := foldl (monitor_add uid) ([], s) targets in
    monitor_report uid added s
  else if String.eqb sub "-" then
    for_each targets (λ t, upd (monitor_index_remove uid (to_ascii_lowercase t))) s
  else if String.eqb sub "C" || String.eqb sub "c" then upd (monitor_index_clear uid) s
  else
    let l := map_or [] u_monitor (users (core s) !! uid) in
    if String.eqb sub "L" || String.eqb sub "l" then
      numeric uid RPL_ENDOFMONLIST ":End of MONITOR list"
        (for_each (chunk_join l "," 400) (λ ch, numeric uid RPL_MONLIST (":" +:+ ch)) s)
    else if String.eqb sub "S" || String.eqb sub "s" then monitor_report uid l s
    else s.

(** ** SILENCE and SIGNORE *)

Definition silence_list (uid : Uid) (s : Server) : Server :=
  let s := for_each (map_or [] u_silence (users (core s) !! uid)) (numeric uid RPL_SILELIST) s in
  numeric uid RPL_ENDOFSILENCE ":End of SILENCE list" s.

Definition push_unique (x : string) (l : list string) : list string :=
  if contains_str x l then l else l ++ [x].

Definition silence_cmd (uid : Uid) (arg : option string) (s : Server) : CmdResult * Server :=
  match arg with
  | None => (CmdOk, silence_list uid s)
  | Some a =>
      let pfx := map_or "" user_prefix (users (core s) !! uid) in
      match strip_prefix "+" a, strip_prefix "-" a with
      | Some m, _ =>
          let mask := normalize_mask m in
          let maxsil := conf_num (core s) u64_max "maxsilence" SILENCE_MAX in
          if map_or true (λ u, list_full maxsil mask (u_silence u)) (users (core s) !! uid) then
            (CmdFail, numeric uid ERR_SILELISTFULL (mask +:+ " :Your SILENCE list is full") s)
          else
            let s := upd (with_user uid (λ u, u <| u_silence ::= push_unique mask |>)) s in
            (CmdOk, send uid (":" +:+ pfx +:+ " SILENCE +" +:+ mask) s)
      | None, Some m =>
          let mask := normalize_mask m in
          let s := upd (with_user uid (λ u, u <| u_silence ::= without mask |>)) s in
          (CmdOk, send uid (":" +:+ pfx +:+ " SILENCE -" +:+ mask) s)
      | None, None => (CmdOk, silence_list uid s)
      end
  end.

Definition notice (uid : Uid) (nick text : string) (s : Server) : Server :=
  send uid (":" +:+ s_name (core s) +:+ " NOTICE " +:+ nick +:+ " :" +:+ text) s.

Definition signore_list (uid : Uid) (s : Server) : Server :=
  let nick := map_or "" u_nick (users (core s) !! uid) in
  let s := match map_or [] u_signore (users (core s) !! uid) with
           | [] => notice uid nick "Your SIGNORE list is empty." s
           | l => for_each l (λ m, notice uid nick ("SIGNORE " +:+ m)) s
           end in
  notice uid nick "End of SIGNORE list." s.

(** Bytes of the two reply templates that are not printable ASCII. *)
Definition BOLD : string := String "002" EmptyString.
Definition EM_DASH : string := String "226" (String "128" (String "148" EmptyString)).

Definition signore_cmd (uid : Uid) (arg : option string) (s : Server) : CmdResult * Server :=
  match arg with
  | None => (CmdOk, signore_list uid s)
  | Some a =>
      let nick := map_or "" u_nick (users (core s) !! uid) in
      let '(add, raw) := match strip_prefix "-" a with
                         | Some m => (false, m)
                         | None => (true, default a (strip_prefix "+" a))
                         end in
      if is_empty raw then (CmdOk, signore_list uid s)
      else
        let mask := normalize_mask raw in
        if add then
          let max := conf_num (core s) u64_max "maxsignore" 64 in
          if map_or true (λ u, list_full max mask (u_signore u)) (users (core s) !! uid) then
            (CmdFail, notice uid nick
              (trf (core s) "Your SIGNORE list is full ({0} max)." [to_string max]) s)
          else
            let s := upd (with_user uid (λ u, u <| u_signore ::= push_unique mask |>)) s in
            let s := notice uid nick (trf (core s)
              ("SIGNORE " +:+ BOLD +:+ "{0}" +:+ BOLD +:+ " added " +:+ EM_DASH
               +:+ " you and they can no longer see each other's messages.") [mask]) s in
            (CmdOk, push_signore_to_services uid s)
        else
          let s := upd (with_user uid (λ u, u <| u_signore ::= without mask |>)) s in
          let s := notice uid nick (trf (core s)
            ("SIGNORE " +:+ BOLD +:+ "{0}" +:+ BOLD +:+ " removed.") [mask]) s in
          (CmdOk, push_signore_to_services uid s)
  end.

(** ** ACCEPT *)

Definition accept_list (uid : Uid) (s : Server) : Server :=
  let s := for_each (map_or [] u_accept (users (core s) !! uid)) (numeric uid RPL_ACCEPTLIST) s in
  numeric uid RPL_ENDOFACCEPT ":End of ACCEPT list" s.

Definition accept_token (uid : Uid) (tok : string) (s : Server) : Server :=
  if String.eqb tok "*" then accept_list uid s
  else
    let '(adding, name) := match strip_prefix "-" tok with
                           | Some n => (false, n)
                           | None => (true, default tok (strip_prefix "+" tok))
                           end in
    if is_empty name then s
    else
      let low := to_ascii_lowercase name in
      let l := map_or [] u_accept (users (core s) !! uid) in
      if adding then
        let maxacc := conf_num (core s) u64_max "maxaccept" ACCEPT_MAX in
        if contains_str low l then
          numeric uid ERR_ACCEPTEXIST (name +:+ " :is already on your accept list") s
        else if map_or true (λ u, (maxacc <=? N.of_nat (length (u_accept u)))%N)
                  (users (core s) !! uid) then
          numeric uid ERR_ACCEPTFULL (name +:+ " :Your accept list is full") s
        else upd (accept_add uid low) s
      else if negb (contains_str low l) then
        numeric uid ERR_ACCEPTNOT (name +:+ " :is not on your accept list") s
      else upd (accept_remove uid low) s.

Definition accept_cmd (uid : Uid) (params : list string) (s : Server) : Server :=
  let first := default "" (head params) in
  if is_empty first || String.eqb first "*" then accept_list uid s
  else for_each (nonempty (concat (map (λ p, concat (map (split " ") (split "," p))) params)))
         (accept_token uid) s.
