(* ===== verification/Users.v ===== *)
(** * Users: [src/src/users.rs] and the connection lifecycle of [src/src/server.rs],
    with the clone counters of [src/src/modules/connclass.rs], the unregistered
    counter of [src/src/connguard.rs] and the network ids of [src/src/link.rs] *)

From Stdlib Require Import Ascii.
From S2P Require Import Prelude RustStr Glob I18n Channel State Numeric CoreMode Watch.
From S2P Require Import Ban Membership.

Local Open Scope stdpp_scope.

(** ** Names *)

Definition ascii_alnum (c : string) : bool := char_is (λ b, is_alphabetic b || is_digit b) c.

Definition valid_host (h : string) : bool :=
  negb (is_empty h) && (str_len h <=? 64)
  && forallb (λ c, ascii_alnum c || is_letter_in ["."; "-"; "_"; "/"] c) (chars h).

Definition valid_ident (i : string) : bool :=
  negb (is_empty i) && (str_len i <=? 20)
  && forallb (λ c, ascii_alnum c || is_letter_in ["."; "-"; "_"] c) (chars i).

Definition nick_special (c : string) : bool :=
  is_letter_in ["["; "]"; "\"; "`"; "_"; "^"; "{"; "}"; "|"] c.

Definition valid_nick (n : string) (maxlen : N) : bool :=
  match chars n with
  | c :: _ =>
      (char_is is_alphabetic c || nick_special c)
      && (N.of_nat (str_len n) <=? maxlen)%N
      && forallb (λ c, ascii_alnum c || nick_special c || String.eqb c "-") (chars n)
  | [] => false
  end.

Definition ident_of (user : string) : string :=
  let s := str_concat (take 10 (filter (λ c,
             ascii_alnum c || is_letter_in ["-"; "_"; "."] c = true) (chars user))) in
  if is_empty s then "user" else s.

(** ** Network ids *)

(** The six base-26 letters of a counter value, most significant first. *)
Fixpoint uuid_suffix (digits : nat) (x : N) (acc : string) : string :=
  match digits with
  | 0 => acc
  | S d => uuid_suffix d (x / 26) (String (ascii_of_N (65 + x mod 26)) acc)
  end.

Definition uuid_at (c : Core) (x : N) : string := s_sid c +:+ uuid_suffix 6 x "".

Definition uuid_taken (c : Core) (uuid : string) : bool :=
  is_some (uuid_local c !! uuid) || is_some (remote_users c !! uuid).

Fixpoint next_uuid_fuel (fuel : nat) (c : Core) : option (string * Core) :=
  match fuel with
  | 0 => None
  | S f =>
      let uuid := uuid_at c (uuid_counter c) in
      let c' := c <| uuid_counter := wrap_u64 (uuid_counter c + 1) |> in
      if uuid_taken c uuid then next_uuid_fuel f c' else Some (uuid, c')
  end.

(** One more attempt than there are ids in use. *)
Definition next_uuid (c : Core) : option (string * Core) :=
  next_uuid_fuel (S (size (uuid_local c) + size (remote_users c))) c.

(** ** Clone counters *)

Definition count_inc {K} `{Countable K} (k : K) (m : gmap K N) : gmap K N := count_add k 1 m.

Definition count_connect (ip : string) (c : Core) : Core := c <| per_ip ::= count_inc ip |>.

Definition count_disconnect (ip : string) (class : option string) (c : Core) : Core :=
  let c := c <| per_ip ::= count_dec ip |> in
  match class with
  | Some name => c <| per_class ::= count_dec name |> <| per_ip_class ::= count_dec (ip, name) |>
  | None => c
  end.

Definition set_class (uid : Uid) (name : string) (c : Core) : Core :=
  match users c !! uid with
  | None => c
  | Some u =>
      if bool_decide (u_class u = Some name) then c
      else
        let c := match u_class u with
                 | Some o => c <| per_class ::= count_dec o |>
                               <| per_ip_class ::= count_dec (u_ip u, o) |>
                 | None => c
                 end in
        let c := c <| per_class ::= count_inc name |>
                   <| per_ip_class ::= count_inc (u_ip u, name) |> in
        with_user uid (λ u, u <| u_class := Some name |>) c
  end.

(** [rebuild]'s counting loop, for one of the three tables: [key] is the entry a
    user contributes to. *)
Definition recount {K} `{Countable K} (key : User → option K) (us : list User) : gmap K N :=
  foldl (λ m u, match key u with Some k => count_inc k m | None => m end) ∅ us.

Definition ip_class_key (u : User) : option (string * string) :=
  cl ← u_class u; Some (u_ip u, cl).

Definition rebuild (c : Core) : Core :=
  let us := map snd (map_to_list (users c)) in
  c <| per_ip := recount (λ u, Some (u_ip u)) us |>
    <| per_class := recount u_class us |>
    <| per_ip_class := recount ip_class_key us |>.

Definition class_count (c : Core) (name : string) (uid : Uid) : N :=
  let self_in := bool_decide ((users c !! uid ≫= u_class) = Some name) in
  (default 0 (per_class c !! name) - (if self_in then 1 else 0))%N.

Definition local_clones (c : Core) (ip name : string) (uid : Uid) : N :=
  let self_in := map_or false (λ u, bool_decide (ip_class_key u = Some (ip, name)))
                   (users c !! uid) in
  (default 0 (per_ip_class c !! (ip, name)) - (if self_in then 1 else 0))%N.

(** ** Connecting *)

(** The record of a fresh connection. *)
Definition new_session (now port : N) (network : option string) : Session :=
  mkSession false false None None false false false None [] now false 0 port None network [] false [] 0 false.

Definition new_user (uuid ip : string) (port : N) (secure : bool) (certfp : option string)
    (brand : option string * option string) (now : N)
    : User :=
  mkUser uuid "" "" "" ip "" None secure brand.1 None now now ip false None ∅ ∅ ∅ [] [] [] [] []
    default_flags None now certfp None None None None (new_session now port brand.2).

(** The table half of [add_conn]: mint an id, insert the user, count it. *)
Definition add_conn_tables (uid : Uid) (ip : string) (port : N) (secure : bool) (certfp : option string)
    (brand : option string * option string) (c : Core) : option Core :=
  '(uuid, c) ← next_uuid c;
  let c := c <| uuid_local ::= <[uuid := uid]> |>
             <| users ::= <[uid := new_user uuid ip port secure certfp brand (clock c)]> |>
             <| unreg_count ::= (λ n, (n + 1)%N) |> in
  Some (count_connect ip c).

(** [welcome]: leave the pool of unregistered connections. *)
Definition register_tables (uid : Uid) (c : Core) : Core :=
  let was_unreg := map_or false (λ u, negb (u_registered u)) (users c !! uid) in
  let c := with_user uid (λ u, u <| u_registered := true |>) c in
  if was_unreg then c <| unreg_count ::= (λ n, (n - 1)%N) |> else c.

(** ** WHOWAS *)

Definition push_whowas (nick ident host realname : string) (account : option string) (c : Core)
    : Core :=
  if is_empty nick then c
  else
    let cap := conf_num c u64_max "whowas_maxentries" 256 in
    c <| whowas ::= (λ l,
      take (N.to_nat (N.min cap (N.of_nat (S (length l)))))
        (mkWhowas nick ident host realname account (clock c) :: l)) |>.

Section users.
Context `{UnicodeLower} `{Outside}.

(** ** Nick changes *)

Definition rename_accept (oldlow newlow : string) (u : User) : User :=
  u <| u_accept ::= map (λ n, if String.eqb n oldlow then newlow else n) |>.

(** Carry the accept lists and their count from the old nick to the new. *)
Definition move_accepts (oldlow newlow : string) (c : Core) : Core :=
  let c := c <| users ::= fmap (rename_accept oldlow newlow) |> in
  match accepted_nicks c !! oldlow with
  | Some n => c <| accepted_nicks ::= (λ m, count_add newlow n (delete oldlow m)) |>
  | None => c
  end.

(** The table half of [set_nick]. *)
Definition set_nick_tables (uid : Uid) (u : User) (newnick : string) (c : Core) : Core :=
  let old := u_nick u in
  let oldlow := to_ascii_lowercase old in
  let newlow := to_ascii_lowercase newnick in
  let c := if u_registered u
           then push_whowas old (u_ident u) (host_display u) (u_realname u) (u_account u) c
           else c in
  let c := if is_empty old then c else c <| nick_index ::= delete oldlow |> in
  let c := c <| nick_index ::= <[newlow := uid]> |> in
  let c := with_user uid (λ u, u <| u_nick := newnick |> <| u_nick_ts := clock c |>) c in
  if negb (is_empty old) && negb (String.eqb oldlow newlow) then move_accepts oldlow newlow c
  else c.

(** Who sees a NICK line: the user and the members of the channels where the
    user is not a hidden (+D) member. *)
Definition nick_targets (c : Core) (uid : Uid) : gset Uid :=
  {[uid]} ∪ ⋃ ((λ k, match channels c !! k with
                     | Some ch => if map_or false hidden (members ch !! uid) then ∅
                                  else dom (members ch)
                     | None => ∅
                     end) <$> map_or [] (λ u, elements (u_channels u)) (users c !! uid)).

Definition set_nick (uid : Uid) (newnick : string) (s : Server) : Server :=
  match users (core s) !! uid with
  | None => s
  | Some u =>
      let s := upd (set_nick_tables uid u newnick) s in
      let s :=
        if u_registered u then
          let line := ":" +:+ user_prefix u +:+ " NICK :" +:+ newnick in
          let chans := map_or [] (λ u, elements (u_channels u)) (users (core s) !! uid) in
          let s := for_each chans (λ k, record_event k line) s in
          let s := for_each (elements (nick_targets (core s) uid)) (λ t, send t line) s in
          let s := if conf_bool (core s) "seenicks" false
                   then snotice_c "n" (trf (core s) "{0} is now known as {1}" [u_nick u; newnick]) s
                   else s in
          let s := watch_notify_offline (u_nick u) s in
          let s := watch_notify_online newnick s in
          publish_event ["nick"; u_nick u; newnick] s
        else s in
      propagate_nick uid newnick s
  end.

(** ** Disconnecting *)

(** The reverse indexes and counters a departing user drops out of. *)
Definition forget_lists (uid : Uid) (u : User) (c : Core) : Core :=
  let c := c <| accepted_nicks ::= (λ m, foldl (λ m n, count_dec n m) m (u_accept u)) |> in
  let c := c <| watch_by ::= (λ m, foldl (λ m n, index_del n uid m) m (u_watch u)) |> in
  let c := c <| monitor_by ::= (λ m, foldl (λ m n, index_del n uid m) m (u_monitor u)) |> in
  c <| uuid_local ::= delete (u_uuid u) |>.

(** Free the nick and, when somebody accepted it, scrub it from every list. *)
Definition free_nick (nick : string) (c : Core) : Core :=
  if is_empty nick then c
  else
    let low := to_ascii_lowercase nick in
    let n := default 0%N (accepted_nicks c !! low) in
    let c := c <| nick_index ::= delete low |> <| accepted_nicks ::= delete low |> in
    if (0 <? n)%N then c <| users ::= fmap (λ u, u <| u_accept ::= without low |>) |> else c.

(** Who sees the QUIT: the other members of the channels where the JOIN had
    been announced. *)
Definition quit_targets (c : Core) (uid : Uid) (ks : list string) : gset Uid :=
  ⋃ ((λ k, match channels c !! k with
           | Some ch => if map_or false hidden (members ch !! uid) then ∅
                        else dom (members ch) ∖ {[uid]}
           | None => ∅
           end) <$> ks).

Definition leave_all (uid : Uid) (ks : list string) (c : Core) : Core :=
  foldl (λ c k, with_chan k (λ ch, ch <| members ::= delete uid |>) c) c ks.

Definition drop_invites (uid : Uid) (ks : list string) (c : Core) : Core :=
  foldl (λ c k, with_chan k (λ ch, ch <| invites ::= (λ l, l ∖ {[uid]}) |>) c) c ks.

Definition remove_user (uid : Uid) (reason : string) (s : Server) : Server :=
  match users (core s) !! uid with
  | None => s
  | Some u =>
      let s := upd (λ c, c <| users ::= delete uid |>) s in
      let s := upd (count_disconnect (u_ip u) (u_class u)) s in
      let s := if u_registered u then publish_event ["quit"; u_nick u; reason] s
               else upd (λ c, c <| unreg_count ::= (λ n, (n - 1)%N) |>) s in
      let s := upd (forget_lists uid u) s in
      let s := if u_registered u then
                 propagate (":" +:+ u_uuid u +:+ " QUIT :" +:+ reason) None
                   (upd (push_whowas (u_nick u) (u_ident u) (host_display u) (u_realname u)
                           (u_account u)) s)
               else s in
      let s := upd (free_nick (u_nick u)) s in
      if u_registered u then
        let line := ":" +:+ user_prefix u +:+ " QUIT :" +:+ reason in
        let ks := elements (u_channels u) in
        let seen := quit_targets (core s) uid ks in
        let s := upd (leave_all uid ks) s in
        let s := for_each (elements seen) (λ m, send m line) s in
        let s := upd (drop_invites uid (elements (u_invited u))) s in
        let s := upd retain_alive s in
        watch_notify_offline (u_nick u) s
      else s
  end.

End users.
