(* ===== verification/Xline.v ===== *)
(** * Server bans: [src/src/xline.rs], the x-line commands of
    [src/src/coremods/core_oper.rs] and the x-line lines of [src/src/link.rs]

    The list [xlines] of the core: matching (the rest of it is in [Ban]),
    adding, removing, enforcing and expiring lines, and the two forms in which
    they are stored (a text file, or rows of a table). *)

From Stdlib Require Import Ascii.
From S2P Require Import Prelude RustStr Message Glob Clock I18n Channel Numeric Duration State Ban.
From S2P Require Import CoreMode Watch Users Regex.

Local Open Scope stdpp_scope.

(** ** Text *)

Definition xline_origin (setter : string) (set_at expires : N) : string :=
  if (set_at =? 0)%N then "set by " +:+ setter
  else
    let when := long_date set_at in
    if (set_at <? expires)%N then
      "set by " +:+ setter +:+ " on " +:+ when +:+ ", duration "
      +:+ human_duration (expires - set_at)
    else "set by " +:+ setter +:+ " on " +:+ when.

(** One line of the on-disk database: [tag mask expires [set_at] setter reason].
    A fourth field of digits only is the set-time. *)
Definition parse_db_line (line : string) : option XLine :=
  match split " " line with
  | tag :: mask :: exp :: fourth :: it =>
      kind ← from_tag tag;
      let expires := default 0%N (parse_uint u64_max exp) in
      '(set_at, setter, reason) ←
        (if negb (is_empty fourth) && str_all is_digit fourth then
           match it with
           | setter :: it => Some (default 0%N (parse_uint u64_max fourth), setter, str_join " " it)
           | [] => None
           end
         else Some (0%N, fourth, str_join " " it));
      if is_empty setter then None
      else Some (mkXLine kind mask reason setter expires set_at)
  | _ => None
  end.

Definition db_line (x : XLine) : string :=
  xtag (x_kind x) +:+ " " +:+ x_mask x +:+ " " +:+ to_string (x_expires x) +:+ " "
  +:+ to_string (x_set_at x) +:+ " " +:+ x_setter x +:+ " " +:+ x_reason x +:+ chr "010".

(** [(n as i64).to_string()]. *)
Definition i64_string (n : N) : string :=
  if (n <? 9223372036854775808)%N then to_string n
  else "-" +:+ to_string (18446744073709551616 - n).

Definition db_row (x : XLine) : list string :=
  [xtag (x_kind x); x_mask x; i64_string (x_expires x); i64_string (x_set_at x);
   x_setter x; x_reason x].

(** One row of the table as it is read back; [None] for a row that is skipped. *)
Definition row_line (now : N) (r : list (option string)) : option XLine :=
  let g i := mjoin (r !! i) in
  match g 0, g 1 with
  | Some tag, Some mask =>
      kind ← from_tag tag;
      let expires := default 0%N (v ← g 2; parse_uint u64_max v) in
      if negb (expires =? 0)%N && (expires <=? now)%N then None
      else Some (mkXLine kind mask (default "" (g 5)) (default "" (g 4)) expires
                   (default 0%N (v ← g 3; parse_uint u64_max v)))
  | _, _ => None
  end.

(** Keep the first line of each kind and mask. *)
Fixpoint dedupe (seen : gset (string * string)) (l : list XLine) : list XLine :=
  match l with
  | [] => []
  | x :: l =>
      let k := (xtag (x_kind x), x_mask x) in
      if bool_decide (k ∈ seen) then dedupe seen l else x :: dedupe ({[k]} ∪ seen) l
  end.

Section xline.
Context `{UnicodeLower} `{Outside}.

(** ** Matching *)

Definition matched_require_auth (c : Core) (ident host ip : string) : option string :=
  let uh := ident +:+ "@" +:+ host in
  (λ x, if is_empty (x_reason x) then "You must be logged into an account to use this server"
        else x_reason x) <$>
    find_first (λ x,
      (bool_decide (x_kind x = Aline) || bool_decide (x_kind x = Galine)) && x_active c x
      && (glob_match (x_mask x) uh || glob_match (x_mask x) ip)) (xlines c).

(** A pattern that does not compile never matches. *)
Definition regex_hits (pattern : string) (texts : list string) : bool :=
  match regex_new pattern with
  | inr re => existsb (λ t, bool_decide (is_match re t = Some true)) texts
  | inl _ => false
  end.

Definition rline_texts (nick ident host ip real : string) : list string :=
  [nick +:+ "!" +:+ ident +:+ "@" +:+ host +:+ " " +:+ real;
   nick +:+ "!" +:+ ident +:+ "@" +:+ ip +:+ " " +:+ real].

Definition matched_rline (c : Core) (nick ident host ip real : string) : option string :=
  (λ x, "R-lined: " +:+ x_reason x +:+ ban_expiry_suffix (x_expires x) (clock c)) <$>
    find_first (λ x, bool_decide (x_kind x = Rline) && x_active c x
                     && regex_hits (x_mask x) (rline_texts nick ident host ip real)) (xlines c).

Definition xline_active (c : Core) (kind : XKind) (mask : string) : bool :=
  existsb (λ x, bool_decide (x_kind x = kind) && String.eqb (x_mask x) mask && x_active c x) (xlines c).

Definition xline_active_exact (c : Core) (kind : XKind) (mask reason : string) : bool :=
  existsb (λ x, bool_decide (x_kind x = kind) && String.eqb (x_mask x) mask
                && String.eqb (x_reason x) reason && x_active c x) (xlines c).

(** ** Storing *)

Definition stores_in_db (c : Core) : bool :=
  pgsql_on && map_or false (λ v, eq_ignore_ascii_case v "pgsql" || eq_ignore_ascii_case v "postgres")
                (conf c "store_backend").

Definition xline_db_path (c : Core) : string :=
  match conf c "xline_database" with
  | Some p => if is_empty p then conf_file +:+ ".xlines" else p
  | None => conf_file +:+ ".xlines"
  end.

Definition save_xlines (s : Server) : Server :=
  let c := core s in
  if stores_in_db c then
    s <| io ::= (λ i, i <| db_rows ::= <["echoircd_xlines" := map db_row (xlines c)]> |>) |>
  else
    s <| io ::= (λ i, i <| disk ::= <[xline_db_path c := str_concat (map db_line (xlines c))]> |>) |>.

(** ** Enforcing *)

Definition refuse_banned (uid : Uid) (reason : string) (s : Server) : Server :=
  let s := numeric uid ERR_YOUREBANNEDCREEP (":" +:+ reason) s in
  let s := send uid ("ERROR :" +:+ trf (core s) "Closing link: ({0})" [reason]) s in
  remove_user uid reason s.

(** The registered users a predicate condemns, with the reason. *)
Definition victims (why : User → option string) (c : Core) : list (Uid * string) :=
  omap (λ '(uid, u), if u_registered u then r ← why u; Some (uid, r) else None)
    (map_to_list (users c)).

Definition ban_reason (c : Core) (u : User) : option string :=
  matched_xline c (u_ident u) (u_host u) (u_ip u).

Definition enforce_xlines (s : Server) : Server :=
  for_each (victims (ban_reason (core s)) (core s)) (λ '(uid, r), refuse_banned uid r) s.

Definition enforce_rline (pattern reason : string) (s : Server) : Server :=
  for_each
    (victims (λ u, if regex_hits pattern
                        (rline_texts (u_nick u) (u_ident u) (u_host u) (u_ip u) (u_realname u))
                   then Some ("R-lined: " +:+ reason) else None) (core s))
    (λ '(uid, r), refuse_banned uid r) s.

(** ** Adding, removing, expiring *)

Definition same_line (kind : XKind) (mask : string) (x : XLine) : bool :=
  bool_decide (x_kind x = kind) && String.eqb (x_mask x) mask.

(** [u64::saturating_add]. *)
Definition expiry (set_at duration : N) : N :=
  if (duration =? 0)%N then 0%N else N.min (set_at + duration) u64_max.

Definition put_xline (x : XLine) (c : Core) : Core :=
  c <| xlines ::= (λ l, retain (λ y, negb (same_line (x_kind x) (x_mask x) y)) l ++ [x]) |>.

Definition add_xline_at (kind : XKind) (mask : string) (duration : N) (setter reason : string)
    (set_at : N) (s : Server) : Server :=
  let expires := expiry set_at duration in
  let s := upd (put_xline (mkXLine kind mask reason setter expires set_at)) s in
  let detail :=
    if (duration =? 0)%N then "permanent " +:+ xtag kind +:+ "-line on " +:+ mask
    else "timed " +:+ xtag kind +:+ "-line on " +:+ mask +:+ ", expires in "
         +:+ human_duration duration +:+ " (on " +:+ long_date expires +:+ ")" in
  let s := snotice_c "x" (trf (core s) "XLINE: {0} added a {1}: {2}" [setter; detail; reason]) s in
  let s := enforce_xlines (save_xlines s) in
  publish_event ["xline"; xtag kind; mask; setter; reason] s.

Definition add_xline (kind : XKind) (mask : string) (duration : N) (setter reason : string)
    (s : Server) : Server :=
  add_xline_at kind mask duration setter reason (clock (core s)) s.

Definition same_line_nocase (kind : XKind) (mask : string) (x : XLine) : bool :=
  bool_decide (x_kind x = kind) && eq_ignore_ascii_case (x_mask x) mask.

Definition removal_detail (c : Core) (kind : XKind) (mask : string) (expires : N) : string :=
  let tag := xtag kind in
  if (clock c <? expires)%N then
    "timed " +:+ tag +:+ "-line on " +:+ mask +:+ " (" +:+ human_duration (expires - clock c)
    +:+ " remaining)"
  else if negb (expires =? 0)%N then "timed " +:+ tag +:+ "-line on " +:+ mask +:+ " (already expired)"
  else "permanent " +:+ tag +:+ "-line on " +:+ mask.

Definition remove_xline (kind : XKind) (mask remover : string) (s : Server) : bool * Server :=
  let c := core s in
  match find_first (same_line_nocase kind mask) (xlines c) with
  | None => (false, s)
  | Some x =>
      let s := upd (λ c, c <| xlines ::= retain (λ y, negb (same_line_nocase kind mask y)) |>) s in
      let m := trf c "XLINE: {0} removed a {1} (set by {2}: {3})"
                 [remover; removal_detail c kind mask (x_expires x); x_setter x; x_reason x] in
      (true, save_xlines (snotice_c "x" m s))
  end.

Definition purge_xlines (s : Server) : Server :=
  let c := core s in
  match retain (λ x, negb (x_active c x)) (xlines c) with
  | [] => s
  | expired =>
      let s := upd (λ c, c <| xlines ::= retain (x_active c) |>) s in
      let s := for_each expired (λ x s,
        snotice_c "x" (trf (core s) "XLINE: {0}-line on {1} expired ({2}): {3}"
          [xtag (x_kind x); x_mask x; xline_origin (x_setter x) (x_set_at x) (x_expires x); x_reason x]) s) s in
      save_xlines s
  end.

(** ** Loading at startup *)

Definition load_xlines_text (text : option string) (c : Core) : Core :=
  match text with
  | None => c
  | Some t =>
      c <| xlines ::= (λ l, l ++ retain (x_active c) (omap parse_db_line (lines t))) |>
  end.

(** [rows] is what the table gives ([None] when there is none or it cannot be
    read), [text] the stored text. *)
Definition load_xlines (rows : option (list (list (option string)))) (text : option string)
    (s : Server) : Server :=
  let s :=
    match (if stores_in_db (core s) then rows else None) with
    | Some [] => save_xlines (upd (load_xlines_text text) s)
    | Some rs => upd (λ c, c <| xlines ::= (λ l, l ++ omap (row_line (clock c)) rs) |>) s
    | None => upd (load_xlines_text text) s
    end in
  let kept := dedupe ∅ (xlines (core s)) in
  let changed := negb (length kept =? length (xlines (core s))) in
  let s := upd (λ c, c <| xlines := kept |>) s in
  if changed then save_xlines s else s.

(** ** Commands *)

Definition propagate_addline (kind mask setter : string) (duration : N) (reason : string)
    (s : Server) : Server :=
  propagate (":" +:+ s_sid (core s) +:+ " ADDLINE " +:+ kind +:+ " " +:+ mask +:+ " " +:+ setter
             +:+ " " +:+ to_string (clock (core s)) +:+ " " +:+ to_string duration +:+ " :" +:+ reason)
    None s.

Definition propagate_delline (kind mask : string) (s : Server) : Server :=
  propagate (":" +:+ s_sid (core s) +:+ " DELLINE " +:+ kind +:+ " " +:+ mask) None s.

Definition require_oper (uid : Uid) (s : Server) : bool * Server :=
  if is_oper (core s) uid then (true, s)
  else (false, numeric uid ERR_NOPRIVILEGES ":Permission Denied- You're not an IRC operator" s).

Definition nick_of (c : Core) (uid : Uid) : string := map_or "" u_nick (users c !! uid).

Definition tell (uid : Uid) (nick msg : string) (s : Server) : Server :=
  send uid (":" +:+ s_name (core s) +:+ " NOTICE " +:+ nick +:+ " :" +:+ msg) s.

(** The duration and reason of [<mask> [<duration>] <reason...>]; [rest] is what
    follows the mask, not empty. *)
Definition xline_args (rest : list string) : N * string :=
  match rest with
  | [] => (0%N, "")
  | p :: ps =>
      match parse_duration p with
      | Some d => let r := str_join " " ps in
                  (d, if is_empty (trim r) then "No reason given" else r)
      | None => (0%N, str_join " " rest)
      end
  end.

Definition do_xline (uid : Uid) (mask : string) (rest : list string) (kind : XKind) (s : Server)
    : CmdResult * Server :=
  let '(okay, s) := require_oper uid s in
  if negb okay then (CmdFail, s)
  else
    let nick := nick_of (core s) uid in
    match rest with
    | [] =>
        let '(removed, s) := remove_xline kind mask nick s in
        (CmdOk, if removed then propagate_delline (xtag kind) mask s
                else tell uid nick (trf (core s) "{0}-line not found: {1}" [xtag kind; mask]) s)
    | _ =>
        let '(dur, reason) := xline_args rest in
        if xline_active_exact (core s) kind mask reason then
          (CmdOk, tell uid nick (trf (core s) "{0}-line already set on {1}" [xtag kind; mask]) s)
        else
          (CmdOk, propagate_addline (xtag kind) mask nick dur reason
                    (add_xline kind mask dur nick reason s))
    end.

Definition rline_cmd (uid : Uid) (pattern : string) (rest : list string) (s : Server)
    : CmdResult * Server :=
  let '(okay, s) := require_oper uid s in
  if negb okay then (CmdFail, s)
  else
    let nick := nick_of (core s) uid in
    match rest with
    | [] =>
        let '(removed, s) := remove_xline Rline pattern nick s in
        (CmdOk, if removed then propagate_delline "R" pattern s
                else tell uid nick (trf (core s) "R-line not found: {0}" [pattern]) s)
    | p :: ps =>
        match regex_new pattern with
        | inl e => (CmdFail, tell uid nick (trf (core s) "Invalid RLINE regex: {0}" [e]) s)
        | inr _ =>
            let dur := default 0%N (parse_duration p) in
            let reason := default "No reason given" (head ps) in
            let s := add_xline Rline pattern dur nick reason s in
            let s := propagate_addline "R" pattern nick dur reason s in
            (CmdOk, enforce_rline pattern reason s)
        end
    end.

(** The lines sent to a freshly linked server. *)
Definition burst_line (c : Core) (x : XLine) : string :=
  let dur := if (x_expires x =? 0)%N then 0%N else (x_expires x - clock c)%N in
  ":" +:+ s_sid c +:+ " ADDLINE " +:+ xtag (x_kind x) +:+ " " +:+ x_mask x +:+ " " +:+ x_setter x
  +:+ " " +:+ to_string (clock c) +:+ " " +:+ to_string dur +:+ " :" +:+ x_reason x.

Definition burst_xlines (link : Uid) (s : Server) : Server :=
  for_each (retain (λ x, negb (bool_decide (x_kind x = Svshold))) (xlines (core s)))
    (λ x s, link_out link (burst_line (core s) x) s) s.

(** *** The lines received from a linked server *)

(** Whether a message source sits behind the link it arrived on. *)
Definition source_behind (c : Core) (src : string) (via : Uid) : bool :=
  match remote_users c !! src with
  | Some ru => bool_decide (ru_via ru = via)
  | None => map_or false (λ sv, bool_decide (rs_via sv = via)) (servers c !! src)
  end.

Definition link_setter (c : Core) (msg : Message) : string :=
  match source msg with
  | None => "services"
  | Some src =>
      match remote_users c !! src with
      | Some ru => ru_nick ru
      | None => map_or src u_nick (uid ← uuid_local c !! src; users c !! uid)
      end
  end.

Definition link_addline_recv (via : Uid) (msg : Message) (s : Server) : Server :=
  match params msg, source msg with
  | tag :: mask :: setter :: settime :: dur :: reason :: _, Some src =>
      if negb (source_behind (core s) src via) then s
      else
        match from_tag tag, parse_uint u64_max dur with
        | Some kind, Some duration =>
            let set_at := default (clock (core s)) (parse_uint u64_max settime) in
            propagate (to_wire msg) (Some via)
              (add_xline_at kind mask duration setter reason set_at s)
        | _, _ => s
        end
  | _, _ => s
  end.

Definition link_delline_recv (via : Uid) (msg : Message) (s : Server) : Server :=
  match params msg, source msg with
  | tag :: mask :: _, Some src =>
      if negb (source_behind (core s) src via) then s
      else
        match from_tag tag with
        | Some kind =>
            let '(removed, s) := remove_xline kind mask (link_setter (core s) msg) s in
            if removed then propagate (to_wire msg) (Some via) s else s
        | None => s
        end
  | _, _ => s
  end.

(** SVSHOLD from services: reserve a nick, or with the nick alone release it. *)
Definition link_svshold (from : Uid) (msg : Message) (s : Server) : Server :=
  match params msg with
  | [nick] =>
      propagate (to_wire msg) (Some from) (remove_xline Svshold nick (link_setter (core s) msg) s).2
  | nick :: dur :: reason :: _ =>
      match parse_duration dur with
      | Some d =>
          propagate (to_wire msg) (Some from)
            (add_xline Svshold nick d (link_setter (core s) msg) reason s)
      | None => s
      end
  | _ => s
  end.

End xline.
