(* ===== verification/Account.v ===== *)
(** * Accounts and identity: [src/src/accounts.rs], [oper_up] of
    [src/src/users.rs], [change_host_ident] of [src/src/server.rs]

    The changes to a user that other users are told about: logging in and out,
    becoming an operator, a new displayed host or ident. *)

From Stdlib Require Import Ascii.
From S2P Require Import Prelude RustStr Glob Clock I18n Channel Numeric State Mode UserMode Ban.
From S2P Require Import CoreMode Watch Users Membership.

Local Open Scope stdpp_scope.

Section account.
Context `{UnicodeLower} `{Outside}.

Definition set_login (uid : Uid) (account : string) (s : Server) : Server :=
  match users (core s) !! uid with
  | None => s
  | Some u =>
      let s := upd (with_user uid (λ u, u <| u_account := Some account |>
                                          <| u_flags ::= (λ f, f <| logged_in := true |>) |>)) s in
      let s := send uid (":" +:+ s_name (core s) +:+ " MODE " +:+ u_nick u +:+ " :+r") s in
      let s := notify_peers uid (":" +:+ user_prefix u +:+ " ACCOUNT " +:+ account) "account-notify" s in
      if u_registered u then
        let s := propagate (":" +:+ s_sid (core s) +:+ " METADATA " +:+ u_uuid u +:+ " accountname :"
                            +:+ account) None s in
        snotice_c "c" (trf (core s) "Client {0} is now logged in as {1}" [u_nick u; account]) s
      else s
  end.

Definition logout (uid : Uid) (s : Server) : Server :=
  match users (core s) !! uid with
  | Some u =>
      if is_some (u_account u) then
        let s := upd (with_user uid (λ u, u <| u_account := None |>
                                            <| u_flags ::= (λ f, f <| logged_in := false |>) |>)) s in
        let s := send uid (":" +:+ s_name (core s) +:+ " MODE " +:+ u_nick u +:+ " :-r") s in
        let s := notify_peers uid (":" +:+ user_prefix u +:+ " ACCOUNT *") "account-notify" s in
        propagate (":" +:+ s_sid (core s) +:+ " METADATA " +:+ u_uuid u +:+ " accountname :*") None s
      else s
  | None => s
  end.

(** The channels of [operjoin], separated by commas or spaces. *)
Definition oper_channels (c : Core) : list string :=
  nonempty (concat (map (λ v, concat (map (split " ") (split "," v))) (conf_all c "operjoin"))).

Definition oper_up (uid : Uid) (s : Server) : Server :=
  let s := upd (with_user uid (λ u, u <| u_flags ::= (λ f,
             f <| oper := true |> <| snomask := true |> <| snomask_cats := DEFAULT_SNOMASK |>) |>)) s in
  let u := users (core s) !! uid in
  let nick := map_or "" u_nick u in
  let s := numeric uid RPL_YOUREOPER ":You are now an IRC operator" s in
  let s := send uid (":" +:+ s_name (core s) +:+ " MODE " +:+ nick +:+ " :+os") s in
  let s := snotice_c "o" (trf (core s) "{0} is now an IRC operator" [nick]) s in
  let s := publish_event ["oper"; nick; map_or "" (λ u, u_ident u +:+ "@" +:+ host_display u) u] s in
  let s := operprefix_grant_all uid s in
  let s := match opt_or (conf (core s) "opermodes") (conf (core s) "oper_umodes") with
           | Some modes => svs_set_user_modes uid modes s
           | None => s
           end in
  let s := for_each (oper_channels (core s)) (λ chan, join uid chan None) s in
  if no_links (core s) then s
  else match users (core s) !! uid with
       | Some u => propagate (":" +:+ u_uuid u +:+ " OPERTYPE :IRC_Operator") None s
       | None => s
       end.

(** ** Host and ident *)

(** The built-in status letters of a member, highest first. *)
Definition status_letters (m : Member) : string :=
  str_concat (map snd (filter (λ '(on, _), on = true)
    [(owner m, "q"); (admin m, "a"); (op m, "o"); (halfop m, "h"); (voice m, "v")])).

(** A member without the chghost capability sees a PART, a JOIN, and the status
    given back. *)
Definition cycle_member (old_prefix new_prefix nick acct realname name modes : string) (m : Uid)
    (extjoin : bool) (s : Server) : Server :=
  let s := send m (":" +:+ old_prefix +:+ " PART " +:+ name +:+ " :Changing host") s in
  let s := send m (if extjoin
                   then ":" +:+ new_prefix +:+ " JOIN " +:+ name +:+ " " +:+ acct +:+ " :" +:+ realname
                   else ":" +:+ new_prefix +:+ " JOIN " +:+ name) s in
  if is_empty modes then s
  else send m (":" +:+ s_name (core s) +:+ " MODE " +:+ name +:+ " +" +:+ modes +:+ " "
               +:+ str_join " " (replicate (str_len modes) nick)) s.

(** The members of a channel without the chghost capability, with whether they
    take extended joins. *)
Definition cycle_recipients (c : Core) (ch : Channel) (except : option Uid) : list (Uid * bool) :=
  omap (λ m, if bool_decide (Some m = except) then None
             else match users c !! m with
                  | Some u => if cap_has (u_caps u) "chghost" then None
                              else Some (m, cap_has (u_caps u) "extended-join")
                  | None => None
                  end) (elements (dom (members ch))).

Definition set_identity (uid : Uid) (new_ident new_host : option string) (c : Core) : Core :=
  with_user uid (λ u,
    let u := match new_host with Some h => u <| u_vhost := Some h |> | None => u end in
    match new_ident with Some i => u <| u_ident := i |> | None => u end) c.

Definition change_host_ident_inner (uid : Uid) (new_ident new_host : option string) (relay : bool)
    (s : Server) : Server :=
  match users (core s) !! uid with
  | None => s
  | Some u0 =>
      let old_prefix := user_prefix u0 in
      let s := upd (set_identity uid new_ident new_host) s in
      let u := default u0 (users (core s) !! uid) in
      let line := ":" +:+ old_prefix +:+ " CHGHOST " +:+ u_ident u +:+ " " +:+ host_display u in
      let s := notify_peers uid line "chghost" s in
      let s := if cap_has (u_caps u) "chghost" then send uid line s else s in
      let s :=
        if relay && negb (no_links (core s)) then
          let s := match new_ident with
                   | Some i => propagate (":" +:+ s_sid (core s) +:+ " ENCAP * CHGIDENT " +:+ u_uuid u
                                          +:+ " " +:+ i) None s
                   | None => s
                   end in
          match new_host with
          | Some h => propagate (":" +:+ s_sid (core s) +:+ " ENCAP * CHGHOST " +:+ u_uuid u
                                 +:+ " " +:+ h) None s
          | None => s
          end
        else s in
      let s :=
        if is_some new_host || is_some new_ident then
          for_each (elements (u_channels u)) (λ k s,
            match channels (core s) !! k with
            | None => s
            | Some ch =>
                let modes := map_or "" status_letters (members ch !! uid) in
                for_each (cycle_recipients (core s) ch (Some uid)) (λ '(m, ext),
                  cycle_member old_prefix (user_prefix u) (u_nick u) (default "*" (u_account u))
                    (u_realname u) (ch_name ch) modes m ext) s
            end) s
        else s in
      if is_some new_host then
        numeric uid RPL_HOSTHIDDEN (host_display u +:+ " :is now your displayed host") s
      else s
  end.

Definition change_host_ident (uid : Uid) (new_ident new_host : option string) : Server → Server :=
  change_host_ident_inner uid new_ident new_host true.
Definition change_host_ident_quiet (uid : Uid) (new_ident new_host : option string) : Server → Server :=
  change_host_ident_inner uid new_ident new_host false.

End account.
