(* ===== verification/CoreChannel.v ===== *)
(** * Channel commands: [src/src/coremods/core_channel.rs]

    JOIN, PART, RENAME, KICK, TOPIC, NAMES, INVITE, UNINVITE, KNOCK, CYCLE,
    REMOVE and TBAN.  A handler returns [None] where the source would panic by
    indexing a map with a missing key. *)

From Stdlib Require Import Ascii.
From S2P Require Import Prelude RustStr Glob Clock Duration I18n Channel State Numeric CoreMode.
From S2P Require Import Ban Membership Watch Users.

Local Open Scope stdpp_scope.

Definition Handler : Type := Server → option (CmdResult * Server).

Definition ok (s : Server) : option (CmdResult * Server) := Some (CmdOk, s).
Definition failed (s : Server) : option (CmdResult * Server) := Some (CmdFail, s).

(** [numeric] then [return CmdResult::Fail]. *)
Definition refuse (uid : Uid) (code : N) (rest : string) (s : Server)
    : option (CmdResult * Server) :=
  failed (numeric uid code rest s).

Definition no_such_channel (uid : Uid) (chan : string) : Handler :=
  refuse uid ERR_NOSUCHCHANNEL (chan +:+ " :No such channel").
Definition not_operator (uid : Uid) (chan : string) : Handler :=
  refuse uid ERR_CHANOPRIVSNEEDED (chan +:+ " :You're not a channel operator").
Definition not_on_channel (uid : Uid) (chan : string) : Handler :=
  refuse uid ERR_NOTONCHANNEL (chan +:+ " :You're not on that channel").
Definition no_such_nick (uid : Uid) (nick : string) : Handler :=
  refuse uid ERR_NOSUCHNICK (nick +:+ " :No such nick/channel").

Definition uid_servprotected (c : Core) (uid : Uid) : bool :=
  map_or false (λ u, servprotect (u_flags u)) (users c !! uid).

Definition nick_servprotected (c : Core) (n : string) : bool :=
  match find_nick c n with
  | Some uid => uid_servprotected c uid
  | None =>
      map_or false (λ ru, contains_byte "k" (ru_modes ru))
        ('(uuid, _) ← find_remote c n; remote_users c !! uuid)
  end.

Section core_channel.
Context `{UnicodeLower} `{Outside}.

(** ** TBAN *)

Definition tban_cmd (uid : Uid) (chan duration maskarg : string) : Handler := λ s,
  let k := to_ascii_lowercase chan in
  match channels (core s) !! k with
  | None => no_such_channel uid chan s
  | Some ch =>
      if (rank (core s) uid k <? RANK_HALFOP)%N then not_operator uid chan s
      else match opt_filter (λ d, (0 <? d)%N) (parse_duration duration) with
      | None => failed (fail_reply uid "TBAN" "INVALID_DURATION" "TBAN needs a positive duration" s)
      | Some dur =>
          let mask := normalize_ban_mask maskarg in
          u ← users (core s) !! uid;
          if existsb (λ b, String.eqb (b_mask b) mask) (bans ch) then
            failed (notice uid (u_nick u)
                      (trf (core s) "{0} is already banned on {1}" [mask; chan]) s)
          else
            let now := clock (core s) in
            let s := upd (with_chan k (λ c, c <| bans ::= (λ l, l ++
                       [mkBan mask (u_nick u) now (Some (wrap_u64 (now + dur)))]) |>)) s in
            let s := to_channel k (":" +:+ user_prefix u +:+ " MODE " +:+ chan +:+ " +b "
                       +:+ mask) None s in
            ok (propagate_chan_mode (u_uuid u) chan "+b" [mask] s)
      end
  end.

(** ** KNOCK, CYCLE, REMOVE *)

Definition knock_cmd (uid : Uid) (chan : string) (reason : option string) : Handler := λ s,
  let k := to_ascii_lowercase chan in
  match channels (core s) !! k with
  | None => no_such_channel uid chan s
  | Some ch =>
      if negb (invite_only (modes ch) && negb (is_member (core s) uid k)) then
        failed (fail_reply uid "KNOCK" "CANNOT_KNOCK"
          ("Can't KNOCK on " +:+ chan +:+ " (not invite-only, or you're on it)") s)
      else
        u ← users (core s) !! uid;
        let m := trf (core s) "is knocking: {0}" [default "requesting an invite" reason] in
        let s := to_channel k (":" +:+ s_name (core s) +:+ " " +:+ pad_N 3 RPL_KNOCK +:+ " "
                   +:+ chan +:+ " " +:+ user_prefix u +:+ " :" +:+ m) None s in
        ok (numeric uid RPL_KNOCKDLVR (chan +:+ " :Your KNOCK has been delivered") s)
  end.

Definition cycle_cmd (uid : Uid) (chan : string) : Handler := λ s,
  let k := to_ascii_lowercase chan in
  if negb (is_member (core s) uid k) then not_on_channel uid chan s
  else
    u ← users (core s) !! uid;
    let s := to_channel k (":" +:+ user_prefix u +:+ " PART " +:+ chan +:+ " :cycling") None s in
    let s := propagate_part uid chan "cycling" s in
    let s := upd (retain_alive ∘ drop_member uid k) s in
    ok (join uid chan None s).

Definition remove_cmd (uid : Uid) (chan victim : string) (why : option string) : Handler := λ s,
  let k := to_ascii_lowercase chan in
  match channels (core s) !! k with
  | None => no_such_channel uid chan s
  | Some ch =>
      if (rank (core s) uid k <? RANK_HALFOP)%N then not_operator uid chan s
      else match find_nick (core s) victim with
      | None => no_such_nick uid victim s
      | Some tuid =>
          if negb (is_some (members ch !! tuid)) then
            refuse uid ERR_USERNOTINCHANNEL
              (victim +:+ " " +:+ chan +:+ " :They aren't on that channel") s
          else if (rank (core s) uid k <? rank (core s) tuid k)%N then
            refuse uid ERR_CHANOPRIVSNEEDED
              (chan +:+ " :You cannot remove a user of higher rank") s
          else
            u ← users (core s) !! uid;
            let reason := "Removed by " +:+ u_nick u +:+ map_or "" (λ r, ": " +:+ r) why in
            t ← users (core s) !! tuid;
            let s := to_channel k (":" +:+ user_prefix t +:+ " PART " +:+ chan +:+ " :"
                       +:+ reason) None s in
            let s := propagate_part tuid chan reason s in
            ok (upd (retain_alive ∘ drop_member tuid k) s)
      end
  end.

(** ** INVITE, UNINVITE *)

Definition add_invite (tuid : Uid) (k : string) (c : Core) : Core :=
  with_user tuid (λ u, u <| u_invited ::= (λ l, {[k]} ∪ l) |>)
    (with_chan k (λ ch, ch <| invites ::= (λ l, {[tuid]} ∪ l) |>) c).

Definition del_invite (tuid : Uid) (k : string) (c : Core) : Core :=
  with_user tuid (λ u, u <| u_invited ::= (λ l, l ∖ {[k]}) |>)
    (with_chan k (λ ch, ch <| invites ::= (λ l, l ∖ {[tuid]}) |>) c).

(** The invite of a user on another server, or the refusal of an unknown nick. *)
Definition invite_remote (uid : Uid) (tnick chan : string) : Handler := λ s,
  match find_remote (core s) tnick with
  | Some (tuuid, _) =>
      u ← users (core s) !! uid;
      let s := route_invite (u_uuid u) tuuid chan s in
      let rnick := map_or tnick ru_nick (remote_users (core s) !! tuuid) in
      ok (numeric uid RPL_INVITING (rnick +:+ " " +:+ chan) s)
  | None => no_such_nick uid tnick s
  end.

Definition invite_local (uid tuid : Uid) (k tnick chan : string) (ch : Channel) : Handler := λ s,
  if is_some (members ch !! tuid) then
    refuse uid ERR_USERONCHANNEL (tnick +:+ " " +:+ chan +:+ " :is already on channel") s
  else if (conf_num (core s) u64_max "maxinvites" 100 <=? N.of_nat (size (invites ch)))%N
          && negb (bool_decide (tuid ∈ invites ch)) then
    failed (send uid (":" +:+ s_name (core s) +:+ " NOTICE "
              +:+ map_or "" u_nick (users (core s) !! uid) +:+ " :" +:+ chan +:+ " :"
              +:+ trf (core s) "Channel invite list is full" []) s)
  else
    let s := upd (add_invite tuid k) s in
    t ← users (core s) !! tuid;
    let s := numeric uid RPL_INVITING (u_nick t +:+ " " +:+ chan) s in
    u ← users (core s) !! uid;
    let line := ":" +:+ user_prefix u +:+ " INVITE " +:+ u_nick t +:+ " " in
    let s := send tuid (line +:+ ":" +:+ chan) s in
    ok (for_each (chan_members (core s) k) (λ m s,
          if negb (bool_decide (m = uid)) && has_cap (core s) m "invite-notify"
          then send m (line +:+ chan) s else s) s).

Definition invite_cmd (uid : Uid) (tnick chan : string) : Handler := λ s,
  let k := to_ascii_lowercase chan in
  match channels (core s) !! k with
  | None => no_such_channel uid chan s
  | Some ch =>
      if negb (is_member (core s) uid k) then not_on_channel uid chan s
      else if invite_only (modes ch) && negb (allowinvite (modes ch))
              && negb (is_op (core s) uid k) then not_operator uid chan s
      else match find_nick (core s) tnick with
           | None => invite_remote uid tnick chan s
           | Some tuid => invite_local uid tuid k tnick chan ch s
           end
  end.

Definition uninvite_cmd (uid : Uid) (tnick chan : string) : Handler := λ s,
  let k := to_ascii_lowercase chan in
  match channels (core s) !! k with
  | None => no_such_channel uid chan s
  | Some ch =>
      if negb (is_member (core s) uid k) then not_on_channel uid chan s
      else if negb (is_op (core s) uid k) then not_operator uid chan s
      else match find_nick (core s) tnick with
      | None => no_such_nick uid tnick s
      | Some tuid =>
          let removed := bool_decide (tuid ∈ invites ch) in
          let s := upd (del_invite tuid k) s in
          t ← users (core s) !! tuid;
          u ← users (core s) !! uid;
          let word := if removed then "is no longer invited to" else "was not invited to" in
          let s := notice uid (u_nick u) (u_nick t +:+ " " +:+ word +:+ " " +:+ chan) s in
          ok (if removed then
                notice tuid (u_nick t) (trf (core s) "Your invite to {0} was revoked" [chan]) s
              else s)
      end
  end.

(** ** JOIN, PART, NAMES *)

Definition join_cmd (uid : Uid) (targets : string) (keyarg : option string) : Handler := λ s,
  let keys := map_or [] (split ",") keyarg in
  ok (for_each (imap pair (nonempty (split "," targets)))
        (λ '(i, name), join uid name (keys !! i)) s).

Definition part_cmd (uid : Uid) (targets : string) (reason : option string) : Handler := λ s,
  ok (for_each (nonempty (split "," targets)) (λ target s,
        let '(left_it, s) := part uid target (default "" reason) s in
        if left_it then s
        else numeric uid ERR_NOTONCHANNEL (target +:+ " :You're not on that channel") s) s).

Definition names_cmd (uid : Uid) (targets : string) : Handler := λ s,
  ok (for_each (nonempty (split "," targets)) (λ t, send_names uid (to_ascii_lowercase t)) s).

(** ** RENAME *)

Definition cannot_rename (uid : Uid) (code desc : string) : Handler := λ s,
  failed (fail_reply uid "RENAME" code desc s).

Definition rename_cmd (uid : Uid) (old new : string) (reason : option string) : Handler := λ s,
  let c := core s in
  let oldkey := to_ascii_lowercase old in
  let newkey := to_ascii_lowercase new in
  let oper := is_oper c uid in
  match channels c !! oldkey with
  | None => no_such_channel uid old s
  | Some ch =>
      if negb (is_member c uid oldkey) then not_on_channel uid old s
      else if (rank c uid oldkey <? RANK_OP)%N && negb oper then not_operator uid old s
      else if registered (modes ch) && negb oper then
        cannot_rename uid "CANNOT_RENAME"
          ("This channel is registered " +:+ EM_DASH +:+ " ask ChanServ to rename it.") s
      else if negb (valid_chan new (maxchannel c)) then
        cannot_rename uid "CANNOT_RENAME" (new +:+ " is not a valid channel name.") s
      else if negb (bool_decide (head (chars new) = head (chars old))) then
        cannot_rename uid "CANNOT_RENAME" "The channel prefix can't be changed." s
      else if negb (String.eqb oldkey newkey) && is_some (channels c !! newkey) then
        cannot_rename uid "CHANNEL_NAME_IN_USE" (new +:+ " already exists.") s
      else match (if oper then None else matched_cban c newkey) with
      | Some why => cannot_rename uid "CANNOT_RENAME" (new +:+ " is CBAN'd: " +:+ why) s
      | None =>
          u ← users c !! uid;
          let why := default "" reason in
          let '(r, s) := rename_channel oldkey new (user_prefix u) why s in
          match r with
          | None => cannot_rename uid "CANNOT_RENAME" "The channel cannot be renamed." s
          | Some _ =>
              let s := snotice_c "a" (trf (core s) "{0} renamed to {1} by {2}"
                         [ch_name ch; new; user_prefix u]) s in
              ok (propagate_rename (u_uuid u) (ch_name ch) new why None s)
          end
      end
  end.

(** ** KICK *)

Definition no_kick_service (uid : Uid) (chan : string) : Handler :=
  refuse uid ERR_CHANOPRIVSNEEDED (chan +:+ " :You cannot kick a network service").
Definition no_kick_rank (uid : Uid) (chan : string) : Handler :=
  refuse uid ERR_CHANOPRIVSNEEDED (chan +:+ " :You cannot kick a user of higher rank").

(** A victim on another server. *)
Definition kick_remote (uid : Uid) (k chan victim : string) (reason : option string)
    (ch : Channel) : Handler := λ s,
  match ('(vuuid, _) ← find_remote (core s) victim;
         m ← rmembers ch !! vuuid; Some (vuuid, m)) with
  | None => no_such_nick uid victim s
  | Some (vuuid, m) =>
      if nick_servprotected (core s) victim then no_kick_service uid chan s
      else if (rank (core s) uid k <? member_rank (prefix_cfg (core s)) m)%N
      then no_kick_rank uid chan s
      else
        u ← users (core s) !! uid;
        let why := default (u_nick u) reason in
        let vnick := map_or victim ru_nick (remote_users (core s) !! vuuid) in
        let kline := ":" +:+ user_prefix u +:+ " KICK " +:+ chan +:+ " " +:+ vnick +:+ " :" +:+ why in
        let s := to_channel k kline None (record_event k kline s) in
        let s := propagate_kick uid chan victim why s in
        let s := publish_event ["kick"; chan; vnick; u_nick u; why] s in
        ok (upd (with_chan k (λ c, c <| rmembers ::= delete vuuid |>)) s)
  end.

Definition note_kick (tuid : Uid) (k : string) (c : Core) : Core :=
  with_chan k (λ ch, if is_some (kicknorejoin (modes ch))
                     then ch <| recent_kicks ::= <[tuid := clock c]> |> else ch) c.

Definition kick_local (uid tuid : Uid) (k chan victim : string) (reason : option string)
    (ch : Channel) : Handler := λ s,
  let c := core s in
  if negb (is_some (members ch !! tuid)) then
    refuse uid ERR_USERNOTINCHANNEL (victim +:+ " " +:+ chan +:+ " :They aren't on that channel") s
  else if uid_servprotected c tuid then no_kick_service uid chan s
  else if (rank c uid k <? rank c tuid k)%N then no_kick_rank uid chan s
  else if nokicks (modes ch) && negb (is_oper c uid) then
    refuse uid ERR_CHANOPRIVSNEEDED (chan +:+ " :Kicks are disabled here (+Q)") s
  else
    u ← users c !! uid;
    let why := default (u_nick u) reason in
    let kline := ":" +:+ user_prefix u +:+ " KICK " +:+ chan +:+ " " +:+ victim +:+ " :" +:+ why in
    let s := to_channel k kline None (record_event k kline s) in
    let s := propagate_kick uid chan victim why s in
    let s := publish_event ["kick"; chan; victim; u_nick u; why] s in
    ok (upd (retain_alive ∘ drop_member tuid k ∘ note_kick tuid k) s).

Definition kick_cmd (uid : Uid) (chan victim : string) (reason : option string) : Handler := λ s,
  let k := to_ascii_lowercase chan in
  match channels (core s) !! k with
  | None => no_such_channel uid chan s
  | Some ch =>
      if (rank (core s) uid k <? RANK_HALFOP)%N then not_operator uid chan s
      else match find_nick (core s) victim with
           | None => kick_remote uid k chan victim reason ch s
           | Some tuid => kick_local uid tuid k chan victim reason ch s
           end
  end.

(** ** TOPIC *)

Definition topic_cmd (uid : Uid) (target : string) (text : option string) : Handler := λ s,
  let k := to_ascii_lowercase target in
  match channels (core s) !! k with
  | None => no_such_channel uid target s
  | Some ch =>
      match text with
      | None =>
          ok match ch_topic ch with
             | Some t =>
                 numeric uid RPL_TOPICWHOTIME
                   (target +:+ " " +:+ t_setter t +:+ " " +:+ to_string (t_ts t))
                   (numeric uid RPL_TOPIC (target +:+ " :" +:+ t_text t) s)
             | None => numeric uid RPL_NOTOPIC (target +:+ " :No topic is set") s
             end
      | Some text =>
          if negb (map_or false (λ u, bool_decide (k ∈ u_channels u)) (users (core s) !! uid))
          then not_on_channel uid target s
          else if topic_ops (modes ch) && negb (is_op (core s) uid k)
          then not_operator uid target s
          else
            u ← users (core s) !! uid;
            let s := upd (with_chan k (λ c, c <| ch_topic :=
                       Some (mkTopic text (u_nick u) (clock (core s))) |>)) s in
            let tline := ":" +:+ user_prefix u +:+ " TOPIC " +:+ target +:+ " :" +:+ text in
            let s := to_channel k tline None (record_event k tline s) in
            ok (propagate_topic uid target text s)
      end
  end.

End core_channel.
