(* ===== verification/Welcome.v ===== *)
(** * The welcome: [welcome], [send_lusers] and [send_motd] of
    [src/src/users.rs], [isupport_lines] and [send_isupport] of
    [src/src/server.rs], and the modules they consult *)

From Stdlib Require Import Ascii.
From S2P Require Import Prelude RustStr Glob Clock I18n Channel Numeric State Mode UserMode CoreMode.
From S2P Require Import Ban ConnClass Membership Watch Users Xline CoreChannel.

Local Open Scope stdpp_scope.

Definition RELEASE : string := "5".

Definition disp_name (c : Core) (uid : Uid) : string :=
  default (s_name c) (users c !! uid ≫= u_brand_server).

Definition disp_network (c : Core) (uid : Uid) : string :=
  default (s_network c) (u ← users c !! uid; ss_brand_network (u_session u)).

(** ** What the server supports *)

(** [customprefix::isupport]; the sort is stable. *)
Fixpoint insert_tier (x : N * (string * string)) (l : list (N * (string * string)))
    : list (N * (string * string)) :=
  match l with
  | [] => [x]
  | y :: r => if (y.1 <? x.1)%N then x :: y :: r else y :: insert_tier x r
  end.

Definition prefix_tiers (cfg : option PrefixCfg) (include_oper : bool) : list (N * (string * string)) :=
  let builtin := map (λ i, (default 0%N (RANKS !! i), (default "" (LETTERS !! i), sigil cfg i)))
                   (if include_oper then seq 0 6 else seq 1 5) in
  foldl (λ acc x, insert_tier x acc) []
    (builtin ++ map (λ d, (pd_rank d, (pd_letter d, pd_sigil d))) (custom_defs cfg)).

Definition prefix_isupport (cfg : option PrefixCfg) (include_oper : bool) : string :=
  let all := prefix_tiers cfg include_oper in
  "(" +:+ str_concat (map (λ t, t.2.1) all) +:+ ")" +:+ str_concat (map (λ t, t.2.2) all).

(** Tokens of [network_icon], [filehost] and [webpush]. *)
Definition icon_token (c : Core) : option string :=
  url ← conf c "network_icon"; if is_empty url then None else Some ("ICON=" +:+ url).

Definition filehost_token (c : Core) : option string :=
  w ← conf c "filehost_website";
  let w := trim_end_matches "/" w in
  if is_empty w then None else Some ("reverse.im/FILEHOST=" +:+ w).

Definition vapid_token `{Outside} (c : Core) : option string :=
  if negb (conf_bool c "webpush" true) then None else (λ k, "VAPID=" +:+ k) <$> vapid_key.

(** [slice::chunks]. *)
Fixpoint chunks_of {A} (fuel n : nat) (l : list A) : list (list A) :=
  match fuel, l with
  | S f, _ :: _ => take n l :: chunks_of f n (drop n l)
  | _, _ => []
  end.

Definition isupport_text (c : Core) (network : string) : string :=
  let num k d := to_string (conf_num c u64_max k d) in
  "CHANTYPES=# PREFIX="
  +:+ prefix_isupport (prefix_cfg c) (conf_bool c "operprefix" false || conf_bool c "ojoin" false)
  +:+ " CHANMODES=beIgXw,k,lfjFLHBJdKW,ACDEGMNOPQRSTUcimnprstuz EXTBAN=,aGACbcgjmnrsy ACCOUNTEXTBAN=a BOT=B WATCH="
  +:+ num "maxwatch" WATCH_MAX +:+ " MONITOR=" +:+ num "maxmonitor" MONITOR_MAX +:+ " SILENCE="
  +:+ num "maxsilence" SILENCE_MAX +:+ " CALLERID=g WHOX CHATHISTORY=" +:+ to_string (history_limit c)
  +:+ " MSGREFTYPES=timestamp,msgid UTF8ONLY CASEMAPPING=ascii NICKLEN=" +:+ num "maxnick" 30%N
  +:+ " CHANNELLEN=" +:+ num "maxchannel" 50%N
  +:+ " MODES=" +:+ to_string (N.max (conf_num c u64_max "modes" 20) 1) +:+ " NETWORK=" +:+ network.

Definition option_list {A} (o : option A) : list A := match o with Some a => [a] | None => [] end.

Section welcome.
Context `{UnicodeLower} `{Outside}.

Definition isupport_tokens (c : Core) (network : string) : list string :=
  split " " (isupport_text c network)
  ++ option_list (icon_token c) ++ option_list (filehost_token c) ++ option_list (vapid_token c).

Definition isupport_lines (c : Core) (network : string) : list string :=
  let tokens := isupport_tokens c network in
  map (str_join " ") (chunks_of (length tokens) 13 tokens).

Definition remove_dash : string → string := λ s, str_concat (map chr (filter (λ b, b ≠ "-"%char) (as_bytes s))).

Definition send_isupport (uid : Uid) (batched : bool) (s : Server) : Server :=
  let lines := isupport_lines (core s) (disp_network (core s) uid) in
  if batched then
    let nick := nick_of (core s) uid in
    let '(msgid, s) := next_msgid s in
    let bref := remove_dash msgid in
    let name := s_name (core s) in
    let s := send uid (":" +:+ name +:+ " BATCH +" +:+ bref +:+ " draft/isupport") s in
    let s := for_each lines (λ l, send uid ("@batch=" +:+ bref +:+ " :" +:+ name +:+ " " +:+ pad_N 3 RPL_ISUPPORT
               +:+ " " +:+ nick +:+ " " +:+ l +:+ " :are supported by this server")) s in
    send uid (":" +:+ name +:+ " BATCH -" +:+ bref) s
  else for_each lines (λ l, numeric uid RPL_ISUPPORT (l +:+ " :are supported by this server")) s.

(** ** LUSERS and the message of the day *)

Definition count_users (c : Core) (p : User → bool) : N :=
  N.of_nat (length (filter (λ '(_, u), p u = true) (map_to_list (users c)))).

Definition send_lusers (uid : Uid) (s : Server) : Server :=
  let c := core s in
  let global := count_users c u_registered in
  let invis := count_users c (λ u, u_registered u && invisible (u_flags u)) in
  let nopers := count_users c (λ u, u_registered u && oper (u_flags u)) in
  let unknown := count_users c (λ u, negb (u_registered u)) in
  let local := count_users c (λ u, u_registered u && starts_with (s_sid c) (u_uuid u)) in
  let nservers := N.of_nat (size (servers c)) in
  let s := upd (λ c, c <| max_local ::= N.max local |> <| max_global ::= N.max global |>) s in
  let say t args := trf (core s) t (map to_string args) in
  let s := numeric uid RPL_LUSERCLIENT
             (":" +:+ say "There are {0} users and {1} invisible on {2} servers" [global; invis; (nservers + 1)%N]) s in
  let s := numeric uid RPL_LUSEROP (say "{0} :operator(s) online" [nopers]) s in
  let s := numeric uid RPL_LUSERUNKNOWN (say "{0} :unknown connection(s)" [unknown]) s in
  let s := numeric uid RPL_LUSERCHANNELS (say "{0} :channels formed" [N.of_nat (size (channels c))]) s in
  let s := numeric uid RPL_LUSERME (":" +:+ say "I have {0} clients and {1} servers" [local; nservers]) s in
  let ml := max_local (core s) in
  let mg := max_global (core s) in
  let s := numeric uid RPL_LOCALUSERS (to_string local +:+ " " +:+ to_string ml +:+ " :"
             +:+ say "Current local users {0}, max {1}" [local; ml]) s in
  numeric uid RPL_GLOBALUSERS (to_string global +:+ " " +:+ to_string mg +:+ " :"
    +:+ say "Current global users {0}, max {1}" [global; mg]) s.

Definition send_motd (uid : Uid) (s : Server) : Server :=
  match s_motd (core s) with
  | [] => numeric uid ERR_NOMOTD ":MOTD File is missing" s
  | motd =>
      let s := numeric uid RPL_MOTDSTART (":- " +:+ s_name (core s) +:+ " Message of the day -") s in
      let s := for_each motd (λ l, numeric uid RPL_MOTD (":- " +:+ l)) s in
      numeric uid RPL_ENDOFMOTD ":End of /MOTD command." s
  end.

(** ** Welcome *)

(** [require_auth::check]. *)
Definition require_auth_check (c : Core) (uid : Uid) : option string :=
  u ← users c !! uid;
  if oper (u_flags u) || is_some (u_account u) then None
  else matched_require_auth c (u_ident u) (host_display u) (u_ip u).

Definition MYINFO_MODES : string := "iowxsgBkDIHrRzTWhc qaohvbeIklimnpstzCTcSNORMfjFLgGuBQAPJUdKXwDE".

(** The numerics of a fresh registration. *)
Definition greet (uid : Uid) (s : Server) : Server :=
  let nick := nick_of (core s) uid in
  let say t args := trf (core s) t args in
  let s := numeric uid RPL_WELCOME
             (":" +:+ say "Welcome to the {0} IRC Network, {1}" [disp_network (core s) uid; nick]) s in
  let s := numeric uid RPL_YOURHOST
             (":" +:+ say "Your host is {0}, running echoircd-{1}" [disp_name (core s) uid; RELEASE]) s in
  let s := numeric uid RPL_CREATED
             (":" +:+ say "This server was created at unix {0}" [to_string (s_created (core s))]) s in
  let s := numeric uid RPL_MYINFO
             (disp_name (core s) uid +:+ " echoircd-" +:+ RELEASE +:+ " " +:+ MYINFO_MODES) s in
  let s := send_isupport uid (has_cap (core s) uid "draft/extended-isupport" && has_cap (core s) uid "batch") s in
  let s := send_motd uid (send_lusers uid s) in
  for_each (conf_all (core s) "connbanner") (λ l, tell uid nick l) s.

(** The channels of [autojoin] and [conn_join], separated by commas or spaces. *)
Definition welcome_channels (c : Core) : list string :=
  filter (λ t, is_empty t = false)
    (concat (map (λ v, concat (map (split " ") (split "," v))) (conf_all c "autojoin" ++ conf_all c "conn_join"))).

(** The welcome up to the joins. *)
Definition welcomed (uid : Uid) (s : Server) : Server :=
  let s := upd (register_tables uid) s in
  let nick := nick_of (core s) uid in
  let s := greet uid s in
  let s := match opt_or (conf (core s) "conn_umodes") (conf (core s) "autoumodes") with
           | Some modes => svs_set_user_modes uid modes s
           | None => s
           end in
  let s := watch_notify_online nick s in
  let s := push_event (HConnect uid) s in
  match users (core s) !! uid with
  | Some u => publish_event ["connect"; nick; u_ident u +:+ "@" +:+ host_display u; u_ip u] s
  | None => s
  end.

Definition welcome (uid : Uid) (s : Server) : Server :=
  match require_auth_check (core s) uid with
  | Some reason =>
      let s := tell uid (nick_of (core s) uid) reason s in
      let s := send uid ("ERROR :Closing link: (" +:+ reason +:+ ")") s in
      remove_user uid "Requires authentication" s
  | None =>
      let s := welcomed uid s in
      for_each (welcome_channels (core s)) (λ chan, join uid chan None) s
  end.

End welcome.
