(* ===== verification/CoreMessage.v ===== *)
(** * Messages: [src/src/coremods/core_message.rs], with the tagged output of
    [src/src/server.rs], the recorder of [src/src/modules/chathistory.rs] and
    the outgoing half of [src/src/link.rs] that a message takes

    PRIVMSG, NOTICE and TAGMSG: who may speak, what becomes of the text, who
    receives it. *)

From Stdlib Require Import Ascii.
From S2P Require Import Prelude RustStr Glob Clock I18n Channel Numeric State Mode Ban.
From S2P Require Import CoreMode Watch Users Membership.

Local Open Scope stdpp_scope.

(** ** Text *)

(** The formatting control characters. *)
Definition FMT : list ascii :=
  ["002"; "003"; "004"; "015"; "017"; "022"; "029"; "030"; "031"]%char.

Definition is_byte (b : ascii) (c : string) : bool := String.eqb c (chr b).
Definition is_fmt (c : string) : bool := existsb (λ b, is_byte b c) FMT.

Definition CTCP : string := chr "001".
Definition is_ctcp (t : string) : bool := starts_with CTCP t.
Definition is_action (t : string) : bool := starts_with (CTCP +:+ "ACTION") t.
Definition has_formatting (t : string) : bool := existsb is_fmt (chars t).

Definition is_hexdigit (b : ascii) : bool :=
  is_digit b || ((65 <=? byte_val b)%N && (byte_val b <=? 70)%N)
  || ((97 <=? byte_val b)%N && (byte_val b <=? 102)%N).

(** [while n < max && p(cs[i]) { i += 1; n += 1 }]: how many were skipped, and
    the rest. *)
Fixpoint skip_upto (max : nat) (p : string → bool) (cs : list string) : nat * list string :=
  match max, cs with
  | S max, c :: r => if p c then let '(n, r) := skip_upto max p r in (S n, r) else (0, cs)
  | _, _ => (0, cs)
  end.

(** What follows a colour code: the digits of the foreground and, after a comma
    that a digit follows, of the background.  [full] is how many digits of the
    foreground admit a background. *)
Definition skip_colour (max : nat) (full : nat → bool) (p : string → bool) (cs : list string)
    : list string :=
  let '(n, r) := skip_upto max p cs in
  match r with
  | c :: d :: r' => if full n && is_byte "," c && p d then snd (skip_upto max p (d :: r')) else r
  | _ => r
  end.

Definition skip_mirc : list string → list string :=
  skip_colour 2 (λ n, 0 <? n) (char_is is_digit).
Definition skip_hex : list string → list string :=
  skip_colour 6 (λ n, n =? 6) (char_is is_hexdigit).

(** The scan by index, with one unit of [fuel] per character. *)
Fixpoint strip_go (fuel : nat) (cs : list string) : list string :=
  match fuel, cs with
  | S fuel, c :: r =>
      if is_byte "003" c then strip_go fuel (skip_mirc r)
      else if is_byte "004" c then strip_go fuel (skip_hex r)
      else if is_fmt c then strip_go fuel r
      else c :: strip_go fuel r
  | _, _ => []
  end.

Definition strip_formatting (t : string) : string :=
  str_concat (strip_go (length (chars t)) (chars t)).

(** [char::eq_ignore_ascii_case] position by position: [Some rest] when [f] is a
    prefix of [h]. *)
Fixpoint ci_prefix (f h : list string) : option (list string) :=
  match f, h with
  | [], _ => Some h
  | a :: f, b :: h => if eq_ignore_ascii_case b a then ci_prefix f h else None
  | _, [] => None
  end.

Fixpoint ci_find (f h : list string) : bool :=
  is_some (ci_prefix f h) || match h with [] => false | _ :: h => ci_find f h end.

Definition ci_contains (hay find : string) : bool :=
  if is_empty find then false else ci_find (chars find) (chars hay).

Fixpoint ci_replace_go (fuel : nat) (f h : list string) (rep : string) : string :=
  match fuel, h with
  | S fuel, c :: r =>
      match ci_prefix f h with
      | Some rest => rep +:+ ci_replace_go fuel f rest rep
      | None => c +:+ ci_replace_go fuel f r rep
      end
  | _, _ => ""
  end.

Definition ci_replace (hay find rep : string) : string :=
  if is_empty find then hay
  else ci_replace_go (length (chars hay)) (chars find) (chars hay) rep.

(** [None]: a matched word has no replacement, the message is blocked. *)
Fixpoint apply_censor (body : string) (rules : list (string * string)) : option string :=
  match rules with
  | [] => Some body
  | (find, rep) :: rules =>
      if is_empty find || negb (ci_contains body find) then apply_censor body rules
      else if is_empty rep then None
      else apply_censor (ci_replace body find rep) rules
  end.

(** The share of upper-case among the ASCII letters, as the [u8] it is cast to. *)
Definition caps_percent (t : string) : option N :=
  let letters := length (retain (char_is is_alphabetic) (chars t)) in
  if letters <? 8 then None
  else
    let upper := length (retain (char_is is_upper) (chars t)) in
    Some ((N.of_nat (upper * 100 / letters)) mod 256)%N.

(** ** Tagged output *)

Definition tagged (tags : list string) (body : string) : string :=
  match tags with [] => body | _ => "@" +:+ str_join ";" tags +:+ " " +:+ body end.

Definition send_tagged (uid src : Uid) (ctags msgid body : string) (s : Server) : Server :=
  match users (core s) !! uid with
  | None => s
  | Some u =>
      let tags :=
        (if cap_has (u_caps u) "server-time" then ["time=" +:+ iso_time (clock (core s))] else [])
        ++ (if cap_has (u_caps u) "account-tag" then
              match users (core s) !! src ≫= u_account with
              | Some acct => ["account=" +:+ acct]
              | None => []
              end else [])
        ++ (if cap_has (u_caps u) "message-tags" then
              (if is_empty msgid then [] else ["msgid=" +:+ msgid])
              ++ (if is_empty ctags then [] else [ctags]) else []) in
      emit_to uid (tagged tags body) s
  end.

Definition USERS_IGNORE_COMMONCHANS : string := "users/ignore-commonchans".
Definition USERS_IGNORE_CALLERID : string := "users/ignore-callerid".
Definition USERS_IGNORE_NOCTCP : string := "users/ignore-noctcp".
Definition USERS_IGNORE_PRIVDEAF : string := "users/ignore-privdeaf".

Section messages.
Context `{UnicodeLower} `{Outside}.

(** Whether a member receives a channel message of [src]. *)
Definition hears (c : Core) (k : string) (src : Uid) (op_only : bool) (m : Uid) : bool :=
  match users c !! m with
  | None => false
  | Some u =>
      let src_mask := map_or "" user_prefix (users c !! src) in
      let src_signore := map_or [] u_signore (users c !! src) in
      negb (bool_decide (m = src))
      && negb (deaf (u_flags u) && negb (has_priv c src USERS_IGNORE_PRIVDEAF))
      && negb ((negb (bool_decide (src_signore = [])) || negb (bool_decide (u_signore u = [])))
               && (existsb (λ p, glob_match p (user_prefix u)) src_signore
                   || existsb (λ p, glob_match p src_mask) (u_signore u)))
      && negb (op_only && (rank c m k <? RANK_HALFOP)%N)
  end.

(** One cached line per combination of capabilities. *)
Definition cache_index (st at_ mt : bool) : nat :=
  (if st then 1 else 0) + (if at_ then 2 else 0) + (if mt then 4 else 0).

Definition profile_line (time_tag ctags msgid body : string) (account : option string)
    (st at_ mt : bool) : string :=
  tagged ((if st then [time_tag] else [])
          ++ (if at_ then ["account=" +:+ default "" account] else [])
          ++ (if mt then (if is_empty msgid then [] else ["msgid=" +:+ msgid])
                         ++ (if is_empty ctags then [] else [ctags]) else [])) body.

(** One turn of the fan-out: the cache and the server. *)
Definition fan_step (k : string) (src : Uid) (time_tag ctags msgid body : string)
    (account : option string) (op_only : bool) (acc : list (option string) * Server) (m : Uid)
    : list (option string) * Server :=
  let '(cache, s) := acc in
  if negb (hears (core s) k src op_only m) then acc
  else
    let caps := map_or ∅ u_caps (users (core s) !! m) in
    let st := cap_has caps "server-time" in
    let at_ := cap_has caps "account-tag" && is_some account in
    let mt := cap_has caps "message-tags" in
    let idx := cache_index st at_ mt in
    match mjoin (cache !! idx) with
    | Some line => (cache, emit_to m line s)
    | None =>
        let line := profile_line time_tag ctags msgid body account st at_ mt in
        (<[idx := Some line]> cache, emit_to m line s)
    end.

Definition to_channel_tagged (k : string) (src : Uid) (ctags msgid body : string) (op_only : bool)
    (s : Server) : Server :=
  match channels (core s) !! k with
  | None => s
  | Some ch =>
      let time_tag := "time=" +:+ iso_time (clock (core s)) in
      let account := users (core s) !! src ≫= u_account in
      (foldl (fan_step k src time_tag ctags msgid body account op_only)
         (replicate 8 None, s) (elements (dom (members ch)))).2
  end.

(** [chathistory::record]. *)
Definition record (k prefix verb target text msgid : string) (s : Server) : Server :=
  upd (push_history k (mkHistMsg (clock (core s)) msgid prefix verb target text None)) s.

Definition NUL : string := chr "000".

Definition dm_key (a b : string) : string :=
  let a := to_ascii_lowercase a in
  let b := to_ascii_lowercase b in
  if String.leb a b then NUL +:+ a +:+ NUL +:+ b else NUL +:+ b +:+ NUL +:+ a.

(** The distinct links a channel's remote members sit behind. *)
Definition channel_link_targets (c : Core) (k : string) (except : option Uid) : list Uid :=
  match channels c !! k with
  | None => []
  | Some ch =>
      elements (list_to_set (omap (λ uuid,
        opt_filter (λ v, negb (bool_decide (Some v = except))) (ru_via <$> remote_users c !! uuid))
        (elements (dom (rmembers ch)))) : gset Uid)
  end.

Definition send_channel_to_links (sender : Uid) (k target cmd text : string) (s : Server) : Server :=
  match users (core s) !! sender with
  | None => s
  | Some u =>
      for_each (channel_link_targets (core s) k None) (λ l,
        link_out l (":" +:+ u_uuid u +:+ " " +:+ cmd +:+ " " +:+ target +:+ " :" +:+ text)) s
  end.

Definition send_to_remote (sender : Uid) (target_uuid : string) (via : Uid) (cmd text : string)
    (s : Server) : Server :=
  match users (core s) !! sender with
  | None => s
  | Some u =>
      link_out via (":" +:+ u_uuid u +:+ " " +:+ cmd +:+ " " +:+ target_uuid +:+ " :" +:+ text) s
  end.

Definition is_logged_in (c : Core) (uid : Uid) : bool :=
  map_or false (λ u, is_some (u_account u)) (users c !! uid).

(** ** Speaking in a channel *)

(** A refusal: NOTICE never gets an automatic reply, and some refusals are
    silent for PRIVMSG too. *)
Definition refuse_speech (uid : Uid) (notice : bool) (r : option (N * string)) (s : Server)
    : CmdResult * Server :=
  (CmdFail, match r with
            | Some (code, text) => if notice then s else numeric uid code text s
            | None => s
            end).

Definition cannot_send (target why : string) : option (N * string) :=
  Some (ERR_CANNOTSENDTOCHAN, target +:+ " :" +:+ why).

(** The first check that fails, with its reply. *)
Fixpoint first_refusal (checks : list (bool * option (N * string))) : option (option (N * string)) :=
  match checks with
  | [] => None
  | (bad, r) :: checks => if bad then Some r else first_refusal checks
  end.

Definition external_refused (c : Core) (uid : Uid) (k : string) : bool :=
  match channels c !! k with
  | None => true
  | Some ch =>
      negb (is_some (members ch !! uid))
      && (no_external (modes ch)
          || (ban_list_hit c uid (bans ch) && negb (ban_list_hit c uid (excepts ch))))
  end.

(** +U: an unprivileged user's message goes to the operators only. *)
Definition ops_only (c : Core) (k : string) (mrank : N) : bool :=
  chan_mode_on opmoderated c k && (mrank <? RANK_VOICE)%N.

(** +d: seconds still to wait after joining. *)
Definition delayed (c : Core) (uid : Uid) (k : string) (secs : N) : bool :=
  let joined := map_or 0%N joined (channels c !! k ≫= (λ ch, members ch !! uid)) in
  negb (joined =? 0)%N && (clock c - joined <? secs)%N.

Definition chan_param {A} (f : ChanModes → option A) (c : Core) (k : string) : option A :=
  channels c !! k ≫= (λ ch, f (modes ch)).

Definition entry_checks (c : Core) (uid : Uid) (k target text : string) (mrank : N)
    : list (bool * option (N * string)) :=
  [(external_refused c uid k, cannot_send target "Cannot send to channel");
   (chan_mode_on encrypted c k && negb (starts_with "+E2E " text),
    cannot_send target ("Channel is end-to-end encrypted (+E) " +:+ EM_DASH
                        +:+ " your client must send the +E2E envelope"));
   (chan_mode_on moderated c k && (mrank <? RANK_VOICE)%N && negb (ops_only c k mrank)
      && negb (chanop_exempt c uid k "moderated"),
    cannot_send target "Cannot send to channel (+m)");
   (chan_mode_on reg_moderated c k && (mrank <? RANK_VOICE)%N && negb (is_logged_in c uid)
      && negb (chanop_exempt c uid k "regmoderated"),
    Some (ERR_NEEDREGGEDNICK, target +:+ " :You must be logged into an account to speak here (+M)"));
   (map_or false (λ secs, (mrank <? RANK_VOICE)%N && negb (chanop_exempt c uid k "delaymsg")
                          && delayed c uid k secs) (chan_param delaymsg c k),
    cannot_send target ("You must wait " +:+ to_string (default 0%N (chan_param delaymsg c k))
                        +:+ "s after joining to speak (+d)"))].

(** +W: whether the member is over the limit, and the member's hits after. *)
Definition slow_member (now : N) (rate : Rate) (m : Member) : bool * Member :=
  let hits := retain (λ t, (now - r_secs rate <? t)%N) (slow_hits m) in
  if (r_count rate <=? as_u32 (N.of_nat (length hits)))%N
  then (true, m <| slow_hits := hits |>)
  else (false, m <| slow_hits := hits ++ [now] |>).

Definition with_member (k : string) (uid : Uid) (f : Member → Member) : Server → Server :=
  upd (with_chan k (λ ch, ch <| members ::= alter f uid |>)).

Definition member_of (c : Core) (k : string) (uid : Uid) : option Member :=
  channels c !! k ≫= (λ ch, members ch !! uid).

Definition slowmode_check (uid : Uid) (k : string) (mrank : N) (s : Server) : bool * Server :=
  let c := core s in
  match chan_param slowmode c k with
  | Some rate =>
      if (mrank <? RANK_VOICE)%N && negb (chanop_exempt c uid k "slowmode") then
        match member_of c k uid with
        | Some m => ((slow_member (clock c) rate m).1,
                     with_member k uid (λ m, (slow_member (clock c) rate m).2) s)
        | None => (false, s)
        end
      else (false, s)
  | None => (false, s)
  end.

Definition muted (c : Core) (uid : Uid) (k : string) (mrank : N) : bool :=
  extban_active c uid k "m" && (mrank <? RANK_VOICE)%N.

Definition flood_exempt (c : Core) (uid : Uid) (mrank : N) : bool :=
  (RANK_HALFOP <=? mrank)%N || is_oper c uid.

(** The modes that look at the text. *)
Definition content_checks (c : Core) (uid : Uid) (k target text : string) (notice : bool)
    : list (bool * option (N * string)) :=
  [(notice && chan_mode_on no_notice c k && negb (chanop_exempt c uid k "nonotice"), None);
   (chan_mode_on no_ctcp c k && is_ctcp text && negb (is_action text)
      && negb (chanop_exempt c uid k "noctcp"),
    cannot_send target "CTCP is disabled (+C)");
   (chan_mode_on no_color c k && has_formatting text && negb (chanop_exempt c uid k "blockcolor"),
    cannot_send target "Formatting/colour is disabled (+c)");
   (extban_active c uid k "c" && has_formatting text,
    cannot_send target "Formatting/colour is disabled for you (+b c:)");
   (map_or false (λ ch, existsb (λ f, glob_match (b_mask f) text) (filters ch)) (channels c !! k)
      && negb (chanop_exempt c uid k "filter"),
    cannot_send target "Cannot send to channel (blocked by +g filter)")].

(** The text after +S and +G; [None] when the censor blocks it. *)
Definition filtered_body (c : Core) (uid : Uid) (k text : string) : option string :=
  let body := if chan_mode_on strip_color c k && negb (chanop_exempt c uid k "stripcolor")
              then strip_formatting text else text in
  if chan_mode_on censor c k && negb (chan_mode_on encrypted c k)
     && negb (bool_decide (censor_rules c = [])) && negb (chanop_exempt c uid k "censor")
  then apply_censor body (censor_rules c) else Some body.

Definition too_many_caps (c : Core) (uid : Uid) (k body : string) (mrank : N) : bool :=
  negb (chan_mode_on encrypted c k) && negb (flood_exempt c uid mrank)
  && negb (chanop_exempt c uid k "anticaps")
  && map_or false (λ pct, map_or false (λ p, (pct <=? p)%N) (caps_percent body))
       (chan_param anticaps c k).

(** +K: whether the line repeats a remembered one; otherwise it is remembered. *)
Definition repeat_check (uid : Uid) (k body : string) (mrank : N) (s : Server) : bool * Server :=
  let c := core s in
  match chan_param repeat_ c k with
  | Some n =>
      if (mrank <? RANK_HALFOP)%N && negb (chanop_exempt c uid k "repeat") then
        if map_or false (λ m, contains_str body (recent_msgs m)) (member_of c k uid) then (true, s)
        else (false, with_member k uid (λ m,
               let l := recent_msgs m ++ [body] in
               m <| recent_msgs := drop (length l - N.to_nat n) l |>) s)
      else (false, s)
  | None => (false, s)
  end.

Definition echo_to (uid : Uid) (ctags msgid line : string) (s : Server) : Server :=
  if has_cap (core s) uid "echo-message" then send_tagged uid uid ctags msgid line s else s.

(** Delivery once every check has passed. *)
Definition speak (uid : Uid) (prefix target k cmd body : string) (op_only : bool) (s : Server)
    : Server :=
  let s := reveal_member uid k s in
  let line := ":" +:+ prefix +:+ " " +:+ cmd +:+ " " +:+ target +:+ " :" +:+ body in
  let ctags := line_ctags (core s) in
  let '(msgid, s) := next_msgid s in
  let s := if op_only then s else record k prefix cmd target body msgid s in
  let s := to_channel_tagged k uid ctags msgid line op_only s in
  let s := echo_to uid ctags msgid line s in
  send_channel_to_links uid k target cmd body s.

Definition deliver_channel (uid : Uid) (prefix target text : string) (notice : bool) (s : Server)
    : CmdResult * Server :=
  let k := to_ascii_lowercase target in
  let cmd := if notice then "NOTICE" else "PRIVMSG" in
  let mrank := rank (core s) uid k in
  let refuse := refuse_speech uid notice in
  match first_refusal (entry_checks (core s) uid k target text mrank) with
  | Some r => refuse r s
  | None =>
  let op_only := ops_only (core s) k mrank in
  let '(slow, s) := slowmode_check uid k mrank s in
  if slow then refuse (cannot_send target ("Channel is in slow mode (+W) " +:+ EM_DASH
                         +:+ " please wait before sending again")) s
  else if muted (core s) uid k mrank then
    refuse (cannot_send target "Cannot send to channel (you're muted, +b m:)") s
  else
  let '(flood, s) := if negb (flood_exempt (core s) uid mrank)
                        && negb (chanop_exempt (core s) uid k "flood")
                     then messageflood_hit uid k s else (None, s) in
  match flood with
  | Some ban => (CmdFail, flood_kick uid k ban s)
  | None =>
  match first_refusal (content_checks (core s) uid k target text notice) with
  | Some r => refuse r s
  | None =>
  match filtered_body (core s) uid k text with
  | None => refuse (cannot_send target "Cannot send to channel (+G censor)") s
  | Some body =>
  if too_many_caps (core s) uid k body mrank then
    refuse (cannot_send target "Cannot send to channel (+B: too many capitals)") s
  else
  let '(repeated, s) := repeat_check uid k body mrank s in
  if repeated then refuse (cannot_send target "Cannot send to channel (+K: repeated message)") s
  else (CmdOk, speak uid prefix target k cmd body op_only s)
  end end end end.

(** ** Speaking to a user *)

Definition user_flag (f : UserFlags → bool) (c : Core) (uid : Uid) : bool :=
  map_or false (λ u, f (u_flags u)) (users c !! uid).

Definition share_channel (c : Core) (a b : Uid) : bool :=
  match users c !! a, users c !! b with
  | Some ua, Some ub => negb (bool_decide (u_channels ua ∩ u_channels ub = ∅))
  | _, _ => false
  end.

Definition is_secure (c : Core) (uid : Uid) : bool := map_or false u_secure (users c !! uid).

Definition pm_checks (c : Core) (uid tuid : Uid) (text : string) : list (bool * option (N * string)) :=
  let tn := map_or "" u_nick (users c !! tuid) in
  [(user_flag deny_uncommon c tuid && negb (bool_decide (uid = tuid))
      && negb (has_priv c uid USERS_IGNORE_COMMONCHANS) && negb (share_channel c uid tuid),
    Some (ERR_CANTSENDTOUSER, tn +:+ " :You must share a channel to message this user (+c)"));
   (is_ctcp text && negb (is_action text) && negb (bool_decide (uid = tuid))
      && user_flag noctcp c tuid && negb (has_priv c uid USERS_IGNORE_NOCTCP),
    Some (ERR_CANTSENDTOUSER, tn +:+ " :Cannot CTCP this user " +:+ EM_DASH
                              +:+ " they have mode +T set (CTCPs blocked)"));
   (user_flag reg_only_pm c tuid && negb (is_logged_in c uid),
    Some (ERR_NEEDREGGEDNICK, tn +:+ " :You must be logged into an account to message this user (+R)"));
   (user_flag ssl_pm c tuid && negb (is_secure c uid),
    Some (ERR_CANTSENDTOUSER, tn +:+ " :You must use a TLS connection to message this user (+z)"))].

Definition callerid_blocks (c : Core) (uid tuid : Uid) : bool :=
  user_flag callerid c tuid && negb (bool_decide (uid = tuid))
  && negb (is_accepted c tuid (map_or "" u_nick (users c !! uid)))
  && negb (has_priv c uid USERS_IGNORE_CALLERID).

(** +g: the target is told, and a PRIVMSG's sender is told so. *)
Definition callerid_refuse (uid tuid : Uid) (notice : bool) (s : Server) : Server :=
  let c := core s in
  let su := users c !! uid in
  let tnick := map_or "" u_nick (users c !! tuid) in
  let s := numeric tuid RPL_UMODEGMSG
             (map_or "" u_nick su +:+ " " +:+ map_or "" u_ident su +:+ "@"
              +:+ map_or "" host_display su +:+ " :is messaging you, and you have umode +g.") s in
  if notice then s
  else numeric uid RPL_TARGNOTIFY (tnick +:+ " :has been informed that you messaged them.")
         (numeric uid RPL_TARGUMODEG (tnick +:+ " :is in +g mode (server-side ignore).") s).

(** A +g sender accepts whoever they message. *)
Definition auto_accept (uid tuid : Uid) (s : Server) : Server :=
  let c := core s in
  if user_flag callerid c uid then
    let tnick := map_or "" (λ u, to_ascii_lowercase (u_nick u)) (users c !! tuid) in
    let maxacc := conf_num c u64_max "maxaccept" ACCEPT_MAX in
    if map_or false (λ u, negb (is_empty tnick) && (N.of_nat (length (u_accept u)) <? maxacc)%N
                          && negb (contains_str tnick (u_accept u))) (users c !! uid)
    then upd (accept_add uid tnick) s else s
  else s.

Definition deliver_user (uid tuid : Uid) (prefix target text : string) (notice : bool) (s : Server)
    : CmdResult * Server :=
  let cmd := if notice then "NOTICE" else "PRIVMSG" in
  match first_refusal (pm_checks (core s) uid tuid text) with
  | Some r => refuse_speech uid notice r s
  | None =>
  if callerid_blocks (core s) uid tuid then (CmdOk, callerid_refuse uid tuid notice s)
  else
  let silenced := is_silenced (core s) tuid prefix || signore_blocks (core s) uid tuid in
  let pm := ":" +:+ prefix +:+ " " +:+ cmd +:+ " " +:+ target +:+ " :" +:+ text in
  let ctags := line_ctags (core s) in
  let '(msgid, s) := next_msgid s in
  let s := if silenced then s
           else
             let s := send_tagged tuid uid ctags msgid pm s in
             record (dm_key (default "" (head (split "!" prefix))) target) prefix cmd target text msgid s in
  let s := echo_to uid ctags msgid pm s in
  let s := if notice || silenced then s
           else match users (core s) !! tuid ≫= (λ u, away (u_flags u)) with
                | Some msg => numeric uid RPL_AWAY (target +:+ " :" +:+ msg) s
                | None => s
                end in
  (CmdOk, auto_accept uid tuid s)
  end.

(** ** The commands *)

Definition deliver (uid : Uid) (params : list string) (notice : bool) (s : Server)
    : CmdResult * Server :=
  let cmd := if notice then "NOTICE" else "PRIVMSG" in
  match params with
  | [] => refuse_speech uid notice (Some (ERR_NORECIPIENT, ":No recipient given (" +:+ cmd +:+ ")")) s
  | [_] | _ :: "" :: _ => refuse_speech uid notice (Some (ERR_NOTEXTTOSEND, ":No text to send")) s
  | target :: text :: _ =>
      match users (core s) !! uid with
      | None => (CmdFail, s)
      | Some u =>
          let s := upd (with_user uid (λ u, u <| u_last_msg := clock (core s) |>)) s in
          let prefix := user_prefix u in
          if starts_with "#" target then deliver_channel uid prefix target text notice s
          else match find_nick (core s) target with
          | Some tuid => deliver_user uid tuid prefix target text notice s
          | None =>
              match find_remote (core s) target with
              | Some (uuid, via) =>
                  let s := send_to_remote uid uuid via cmd text s in
                  (CmdOk,
                   if has_cap (core s) uid "echo-message" then
                     let ctags := line_ctags (core s) in
                     let '(msgid, s) := next_msgid s in
                     send_tagged uid uid ctags msgid
                       (":" +:+ prefix +:+ " " +:+ cmd +:+ " " +:+ target +:+ " :" +:+ text) s
                   else s)
              | None =>
                  (CmdOk, if notice then s
                          else numeric uid ERR_NOSUCHNICK (target +:+ " :No such nick/channel") s)
              end
          end
      end
  end.

(** The gates of a private TAGMSG. *)
Definition dm_blocked (c : Core) (uid tuid : Uid) : bool :=
  if bool_decide (uid = tuid) then false
  else match users c !! tuid with
  | None => true
  | Some t =>
      let f := u_flags t in
      (deny_uncommon f && negb (has_priv c uid USERS_IGNORE_COMMONCHANS)
       && negb (share_channel c uid tuid))
      || (reg_only_pm f && negb (is_logged_in c uid))
      || (ssl_pm f && negb (is_secure c uid))
      || (callerid f && negb (has_priv c uid USERS_IGNORE_CALLERID)
          && negb (is_accepted c tuid (map_or "" u_nick (users c !! uid))))
      || is_silenced c tuid (map_or "" user_prefix (users c !! uid))
  end.

(** The members a TAGMSG is relayed to. *)
Definition tag_hears (c : Core) (uid : Uid) (m : Uid) : bool :=
  negb (bool_decide (m = uid) && negb (has_cap c uid "echo-message"))
  && negb (user_flag deaf c m && negb (has_priv c uid USERS_IGNORE_PRIVDEAF))
  && has_cap c m "message-tags".

Definition tagmsg_cmd (uid : Uid) (target : string) (s : Server) : CmdResult * Server :=
  let ctags := line_ctags (core s) in
  if is_empty ctags then (CmdOk, s)
  else match users (core s) !! uid with
  | None => (CmdFail, s)
  | Some u =>
      let body := ":" +:+ user_prefix u +:+ " TAGMSG " +:+ target in
      let '(msgid, s) := next_msgid s in
      let c := core s in
      if starts_with "#" target then
        let k := to_ascii_lowercase target in
        let mrank := rank c uid k in
        if negb (is_member c uid k) then (CmdFail, s)
        else if chan_mode_on moderated c k && (mrank <? RANK_VOICE)%N then (CmdFail, s)
        else if extban_active c uid k "m" && (mrank <? RANK_VOICE)%N then (CmdFail, s)
        else (CmdOk, for_each (retain (tag_hears c uid) (chan_members c k)) (λ m,
                send_tagged m uid ctags msgid body) s)
      else match find_nick c target with
      | Some tuid =>
          if dm_blocked c uid tuid then (CmdOk, s)
          else
            let s := if has_cap c tuid "message-tags" then send_tagged tuid uid ctags msgid body s else s in
            (CmdOk, echo_to uid ctags msgid body s)
      | None => (CmdOk, s)
      end
  end.

End messages.
