(* ===== verification/Multiline.v ===== *)
(** * Messages in several lines: [src/src/modules/multiline.rs]

    A client opens a batch, sends its lines tagged with it, and closes it; the
    parts are put together and delivered. *)

From Stdlib Require Import Ascii.
From S2P Require Import Prelude RustStr Glob Clock I18n Channel State Numeric Mode UserMode CoreMode.
From S2P Require Import Ban Membership Watch Users CoreChannel CoreMessage.

Local Open Scope stdpp_scope.

Definition MAX_BYTES : N := 4096.
Definition MAX_LINES : N := 24.

Definition max_bytes (c : Core) : N := conf_num c u64_max "multiline_maxbytes" MAX_BYTES.
Definition max_lines (c : Core) : N := conf_num c u64_max "multiline_maxlines" MAX_LINES.

Definition set_mline (uid : Uid) (b : MlineBatch) : Server → Server := upd (λ c, c <| mlines ::= <[uid := b]> |>).
Definition drop_mline (uid : Uid) : Server → Server := upd (λ c, c <| mlines ::= delete uid |>).

Definition open_batch (uid : Uid) (bref target : string) : Server → Server :=
  set_mline uid (mkMlineBatch bref target false [] 0 false).

Definition add_part (c : Core) (notice : bool) (text : string) (concat : bool) (mb : MlineBatch) : MlineBatch :=
  if (N.of_nat (length (mb_parts mb)) <? max_lines c)%N && (mb_bytes mb + N.of_nat (str_len text) <=? max_bytes c)%N
  then mb <| mb_notice := notice |> <| mb_bytes ::= (λ n, (n + N.of_nat (str_len text))%N) |>
          <| mb_parts ::= (λ l, l ++ [(text, concat)]) |>
  else mb <| mb_overflowed := true |>.

(** [true] when the line was part of the open batch. *)
Definition accumulate (uid : Uid) (bref : string) (notice : bool) (text : string) (concat : bool) (s : Server)
    : bool * Server :=
  match mlines (core s) !! uid with
  | Some mb =>
      if String.eqb (mb_ref mb) bref then (true, set_mline uid (add_part (core s) notice text concat mb) s)
      else (false, s)
  | None => (false, s)
  end.

(** A part that continues the one before it is appended to it. *)
Definition join_part (lines : list string) (part : string * bool) : list string :=
  let '(text, concat) := part in
  match concat, last lines with
  | true, Some l => take (length lines - 1) lines ++ [l +:+ text]
  | _, _ => lines ++ [text]
  end.

Definition close_batch (uid : Uid) (bref : string) (s : Server)
    : option (string * bool * list string) * Server :=
  match mlines (core s) !! uid with
  | Some mb =>
      if negb (String.eqb (mb_ref mb) bref) then (None, s)
      else
        let s := drop_mline uid s in
        if mb_overflowed mb then
          (None, fail_reply uid "BATCH" "MULTILINE_INVALID"
                   "Multiline batch exceeded the size/line limit and was dropped." s)
        else (Some (mb_target mb, mb_notice mb, foldl join_part [] (mb_parts mb)), s)
  | None => (None, s)
  end.

Section multiline.
Context `{UnicodeLower} `{Outside}.

Definition batch_cmd (uid : Uid) (tag : string) (rest : list string) (s : Server) : Server :=
  match strip_prefix "+" tag with
  | Some bref =>
      if bool_decide (head rest = Some "draft/multiline") then open_batch uid bref (default "" (rest !! 1)) s else s
  | None =>
      match strip_prefix "-" tag with
      | Some bref =>
          let '(r, s) := close_batch uid bref s in
          match r with
          | Some (target, notice, lines) => for_each lines (λ l s, (deliver uid [target; l] notice s).2) s
          | None => s
          end
      | None => s
      end
  end.

End multiline.
