(* ===== verification/Tables.v ===== *)
(** * Consistency of the server's tables

    The tables of [Core] are redundant: a membership is recorded in the channel
    and in the user, a nick in the user and in [nick_index], a WATCH entry in the
    list and in the reverse index, and so on.  This file states what makes them
    consistent, as one invariant per pair of tables, over projections of the
    user and channel records so that an operation that leaves a projection alone
    leaves the invariant alone. *)

From Stdlib Require Import Ascii.
From S2P Require Import Prelude RustStr Channel State Watch Users.

Local Open Scope stdpp_scope.

(** ** Projections *)

Definition uget {A} (p : User → A) (c : Core) (uid : Uid) : option A := p <$> users c !! uid.

Definition chan_dom (ch : Channel) : gset Uid := dom (members ch).
Definition rchan_dom (ch : Channel) : gset string := dom (rmembers ch).
Definition cget {A} (p : Channel → A) (c : Core) (k : string) : option A := p <$> channels c !! k.

Lemma uget_with_user_ne {A} (p : User → A) f i c uid :
  (∀ u, p (f u) = p u) → uget p (with_user i f c) uid = uget p c uid.
Proof.
  intros Hp. unfold uget, with_user; cbn.
  destruct (decide (i = uid)) as [->|Hne]; [|by rewrite lookup_alter_ne].
  rewrite lookup_alter_eq. destruct (users c !! uid); cbn; by rewrite ?Hp.
Qed.

Lemma cget_with_chan_ne {A} (p : Channel → A) f i c k :
  (∀ ch, p (f ch) = p ch) → cget p (with_chan i f c) k = cget p c k.
Proof.
  intros Hp. unfold cget, with_chan; cbn.
  destruct (decide (i = k)) as [->|Hne]; [|by rewrite lookup_alter_ne].
  rewrite lookup_alter_eq. destruct (channels c !! k); cbn; by rewrite ?Hp.
Qed.

Lemma uget_with_user {A} (p : User → A) (g : A → A) f i c uid :
  (∀ u, p (f u) = g (p u)) →
  uget p (with_user i f c) uid = if decide (i = uid) then g <$> uget p c uid else uget p c uid.
Proof.
  intros Hp. unfold uget, with_user; cbn.
  case_decide as Hd; [subst i; rewrite lookup_alter_eq|by rewrite lookup_alter_ne].
  destruct (users c !! uid); cbn; by rewrite ?Hp.
Qed.

Lemma cget_with_chan {A} (p : Channel → A) (g : A → A) f i c k :
  (∀ ch, p (f ch) = g (p ch)) →
  cget p (with_chan i f c) k = if decide (i = k) then g <$> cget p c k else cget p c k.
Proof.
  intros Hp. unfold cget, with_chan; cbn.
  case_decide as Hd; [subst i; rewrite lookup_alter_eq|by rewrite lookup_alter_ne].
  destruct (channels c !! k); cbn; by rewrite ?Hp.
Qed.

(** ** Invariants *)

(** Where a user is, said by the user and by the channel. *)
Definition in_list (c : Core) (uid : Uid) (k : string) : Prop :=
  ∃ l, uget u_channels c uid = Some l ∧ k ∈ l.
Definition on_chan (c : Core) (uid : Uid) (k : string) : Prop :=
  ∃ d, cget chan_dom c k = Some d ∧ uid ∈ d.

Definition mem_inv (c : Core) : Prop := ∀ uid k, on_chan c uid k ↔ in_list c uid k.

(** A channel is filed under its lower-cased name. *)
Definition key_inv (c : Core) : Prop :=
  ∀ k name, cget ch_name c k = Some name → to_ascii_lowercase name = k.

(** The nick index is exactly the non-empty nicks, lower-cased; so nicks are
    unique up to case. *)
Definition nick_inv (c : Core) : Prop :=
  ∀ n uid, nick_index c !! n = Some uid ↔
    ∃ nick, uget u_nick c uid = Some nick ∧ nick ≠ "" ∧ to_ascii_lowercase nick = n.

(** The network-id index is exactly the ids of the local users. *)
Definition uuid_inv (c : Core) : Prop :=
  ∀ uuid uid, uuid_local c !! uuid = Some uid ↔ uget u_uuid c uid = Some uuid.

(** A connection that has not registered is in no channel. *)
Definition unreg_inv (c : Core) : Prop :=
  ∀ uid l, uget (λ u, (u_registered u, u_channels u)) c uid = Some (false, l) → l = ∅.

(** The network: every remote server and user is reached through a link that is
    up, and the index of remote nicks has no dangling entry. *)
Definition net_inv (c : Core) : Prop :=
  (∀ uuid ru, remote_users c !! uuid = Some ru → is_Some (links c !! ru_via ru))
  ∧ (∀ sid sv, servers c !! sid = Some sv → is_Some (links c !! rs_via sv))
  ∧ (∀ n uuid, remote_nick c !! n = Some uuid →
       ∃ ru, remote_users c !! uuid = Some ru ∧ to_ascii_lowercase (ru_nick ru) = n).

(** Every remote member of a channel is a known remote user. *)
Definition rmem_inv (c : Core) : Prop :=
  ∀ k d uuid, cget rchan_dom c k = Some d → uuid ∈ d → is_Some (remote_users c !! uuid).

(** A reverse index is exactly the lists it mirrors, with no empty sets. *)
Definition mirrors (m : Index) (p : User → list string) (c : Core) : Prop :=
  (∀ n uid, (∃ set, m !! n = Some set ∧ uid ∈ set) ↔ (∃ l, uget p c uid = Some l ∧ n ∈ l))
  ∧ (∀ n, m !! n ≠ Some ∅).

Definition watch_inv (c : Core) : Prop := mirrors (watch_by c) u_watch c.
Definition monitor_inv (c : Core) : Prop := mirrors (monitor_by c) u_monitor c.

(** ** Sums over the users *)

Definition total (f : User → N) (us : gmap Uid User) : N :=
  map_fold (λ _ u acc, (f u + acc)%N) 0%N us.

Lemma total_insert f i u us : us !! i = None → total f (<[i := u]> us) = (f u + total f us)%N.
Proof. intros. unfold total. rewrite map_fold_insert_L; [done| |done]. intros; lia. Qed.

Lemma total_delete f i u us : us !! i = Some u → total f us = (f u + total f (delete i us))%N.
Proof. intros. unfold total. rewrite (map_fold_delete_L _ _ i u us); [done| |done]. intros; lia. Qed.

Lemma total_fmap f g us : total f (g <$> us) = total (f ∘ g) us.
Proof. unfold total. by rewrite map_fold_fmap. Qed.

Lemma total_ext f g us : (∀ u, f u = g u) → total f us = total g us.
Proof.
  intros Hfg. unfold total. rewrite !map_fold_foldr.
  induction (map_to_list us) as [|[i u] l IH]; cbn; [done|]. by rewrite Hfg, IH.
Qed.

Lemma total_alter f g i us u :
  us !! i = Some u → (total f (alter g i us) + f u = total f us + f (g u))%N.
Proof.
  intros Hi. rewrite (total_delete f i u us Hi).
  rewrite (total_delete f i (g u)) by (by rewrite lookup_alter_eq, Hi).
  rewrite delete_alter_eq. lia.
Qed.

Lemma total_le f i u us : us !! i = Some u → (f u <= total f us)%N.
Proof. intros Hi. rewrite (total_delete f i u us Hi). lia. Qed.

Lemma total_add f g us : total (λ u, (f u + g u)%N) us = (total f us + total g us)%N.
Proof.
  unfold total. rewrite !map_fold_foldr.
  induction (map_to_list us) as [|[i u] l IH]; cbn; [done|]. lia.
Qed.

Lemma total_0 f us : total f us = 0%N → ∀ i u, us !! i = Some u → f u = 0%N.
Proof. intros H0 i u Hi. pose proof (total_le f i u us Hi). lia. Qed.

(** How often a nick occurs in a list, and in all accept lists. *)
Fixpoint occ (n : string) (l : list string) : N :=
  match l with [] => 0 | x :: r => (if String.eqb x n then 1 else 0) + occ n r end%N.

Definition accept_inv (c : Core) : Prop :=
  ∀ n, (total (λ u, occ n (u_accept u)) (users c) <= default 0 (accepted_nicks c !! n))%N.

(** A counter table is the recount of the users by [key]; no entry is zero. *)
Definition hit {K} `{EqDecision K} (k : K) (o : option K) : N :=
  if decide (o = Some k) then 1%N else 0%N.
Definition one {K} `{EqDecision K} (key : User → option K) (k : K) : User → N := hit k ∘ key.

Definition counts {K} `{Countable K} (m : gmap K N) (key : User → option K) (c : Core) : Prop :=
  ∀ k, default 0%N (m !! k) = total (one key k) (users c) ∧ m !! k ≠ Some 0%N.

Definition ip_key (u : User) : option string := Some (u_ip u).

Definition count_inv (c : Core) : Prop :=
  counts (per_ip c) ip_key c ∧ counts (per_class c) u_class c
  ∧ counts (per_ip_class c) ip_class_key c.

(** The counter of connections that have not registered. *)
Definition pending (registered : bool) : N := if registered then 0%N else 1%N.
Definition pool_inv (c : Core) : Prop :=
  unreg_count c = total (pending ∘ u_registered) (users c).

(** The tables together. *)
Record wf (c : Core) : Prop := mkWf {
  wf_mem : mem_inv c; wf_key : key_inv c; wf_nick : nick_inv c; wf_uuid : uuid_inv c;
  wf_unreg : unreg_inv c; wf_watch : watch_inv c; wf_monitor : monitor_inv c;
  wf_accept : accept_inv c; wf_count : count_inv c; wf_pool : pool_inv c;
  wf_net : net_inv c; wf_rmem : rmem_inv c }.

(** ** What each invariant depends on *)

Lemma uget_via {A B} (p : User → A) (r : User → B) (q : B → A) c c' uid :
  (∀ u, p u = q (r u)) → uget r c uid = uget r c' uid → uget p c uid = uget p c' uid.
Proof.
  intros Hp Hs. unfold uget in *.
  destruct (users c !! uid), (users c' !! uid); cbn in *; try done.
  apply (inj Some) in Hs. by rewrite !Hp, Hs.
Qed.

Lemma total_via {A} (p : User → A) (f : A → N) c c' :
  (∀ uid, uget p c uid = uget p c' uid) →
  total (f ∘ p) (users c) = total (f ∘ p) (users c').
Proof.
  unfold uget. generalize (users c) (users c'). intros m1.
  induction m1 as [|i u m1 Hi IH] using map_ind; intros m2 Hs.
  - assert (m2 = ∅) as ->; [|done]. apply map_empty. intros j. specialize (Hs j).
    rewrite lookup_empty in Hs. by destruct (m2 !! j).
  - pose proof (Hs i) as Hsi. rewrite lookup_insert_eq in Hsi. cbn in Hsi.
    destruct (m2 !! i) as [u'|] eqn:Hu'; [|done]. apply (inj Some) in Hsi as Hu.
    rewrite total_insert by done. rewrite (total_delete _ i u' m2) by done. cbn.
    rewrite Hu. f_equal. apply IH. intros j.
    destruct (decide (i = j)) as [->|Hne]; [by rewrite Hi, lookup_delete_eq|].
    specialize (Hs j). rewrite lookup_insert_ne in Hs by done. by rewrite lookup_delete_ne.
Qed.

Section ext.
Context (c c' : Core).

Lemma mem_inv_ext :
  (∀ uid, uget u_channels c uid = uget u_channels c' uid) →
  (∀ k, cget chan_dom c k = cget chan_dom c' k) → mem_inv c → mem_inv c'.
Proof. intros Hu Hk Hm uid k. unfold on_chan, in_list. rewrite <-Hu, <-Hk. apply Hm. Qed.

Lemma key_inv_ext :
  (∀ k, cget ch_name c k = cget ch_name c' k) → key_inv c → key_inv c'.
Proof. intros Hk Hm k name. rewrite <-Hk. apply Hm. Qed.

Lemma unreg_inv_ext :
  (∀ uid, uget (λ u, (u_registered u, u_channels u)) c uid
          = uget (λ u, (u_registered u, u_channels u)) c' uid) → unreg_inv c → unreg_inv c'.
Proof. intros Hu Hr uid l. rewrite <-Hu. apply Hr. Qed.

Lemma nick_inv_ext :
  (∀ uid, uget u_nick c uid = uget u_nick c' uid) → nick_index c = nick_index c' →
  nick_inv c → nick_inv c'.
Proof. intros Hu Hi Hn n uid. rewrite <-Hu, <-Hi. apply Hn. Qed.

Lemma uuid_inv_ext :
  (∀ uid, uget u_uuid c uid = uget u_uuid c' uid) → uuid_local c = uuid_local c' →
  uuid_inv c → uuid_inv c'.
Proof. intros Hu Hi Hn n uid. rewrite <-Hu, <-Hi. apply Hn. Qed.

Lemma mirrors_ext (p : User → list string) m m' :
  (∀ uid, uget p c uid = uget p c' uid) → m = m' → mirrors m p c → mirrors m' p c'.
Proof. intros Hu <- [H1 H2]. split; [|done]. intros n uid. rewrite <-Hu. apply H1. Qed.

Lemma accept_inv_ext :
  (∀ uid, uget u_accept c uid = uget u_accept c' uid) →
  accepted_nicks c = accepted_nicks c' → accept_inv c → accept_inv c'.
Proof.
  intros Hu Hi Ha n. rewrite <-Hi. specialize (Ha n).
  pose proof (total_via u_accept (occ n) c c' Hu) as Ht. unfold compose in Ht. lia.
Qed.

Lemma pool_inv_ext :
  (∀ uid, uget u_registered c uid = uget u_registered c' uid) →
  unreg_count c = unreg_count c' → pool_inv c → pool_inv c'.
Proof. intros Hu Hi Hp. unfold pool_inv. rewrite <-Hi, Hp. by apply total_via. Qed.

Lemma counts_ext {K} `{Countable K} (key : User → option K) m m' :
  (∀ uid, uget key c uid = uget key c' uid) → m = m' → counts m key c → counts m' key c'.
Proof.
  intros Hu <- Hc k. destruct (Hc k) as [H1 H2]. split; [|done]. rewrite H1.
  by apply total_via.
Qed.

End ext.

Lemma count_inv_ext c c' :
  (∀ uid, uget (λ u, (u_ip u, u_class u)) c uid = uget (λ u, (u_ip u, u_class u)) c' uid) →
  (per_ip c, per_class c, per_ip_class c) = (per_ip c', per_class c', per_ip_class c') →
  count_inv c → count_inv c'.
Proof.
  intros Hu [= H1 H2 H3] (C1 & C2 & C3). split_and!; (eapply counts_ext; [|done|done]); intros uid.
  - by eapply (uget_via _ (λ u, (u_ip u, u_class u)) (λ x, Some x.1)).
  - by eapply (uget_via _ (λ u, (u_ip u, u_class u)) snd).
  - by eapply (uget_via _ (λ u, (u_ip u, u_class u)) (λ x, cl ← x.2; Some (x.1, cl))).
Qed.

Lemma net_inv_ext c c' :
  (links c, servers c, remote_users c, remote_nick c)
  = (links c', servers c', remote_users c', remote_nick c') → net_inv c → net_inv c'.
Proof. intros [= H1 H2 H3 H4]. unfold net_inv. by rewrite H1, H2, H3, H4. Qed.

Lemma rmem_inv_ext c c' :
  (∀ k, cget rchan_dom c k = cget rchan_dom c' k) → remote_users c = remote_users c' →
  rmem_inv c → rmem_inv c'.
Proof. intros Hk Hu Hr k d uuid. rewrite <-Hk, <-Hu. apply Hr. Qed.

(** [keep W] proves the parts of [wf c'] that an update of other fields does
    not touch, given [W : wf c]. *)
Ltac same_get :=
  intros; unfold uget, cget; cbn; first [reflexivity | symmetry;
    first [by apply uget_with_user_ne | by apply cget_with_chan_ne]].
Ltac keep W :=
  first
    [ eapply mem_inv_ext, (wf_mem _ W); same_get
    | eapply key_inv_ext, (wf_key _ W); same_get
    | eapply nick_inv_ext, (wf_nick _ W); same_get
    | eapply uuid_inv_ext, (wf_uuid _ W); same_get
    | eapply unreg_inv_ext, (wf_unreg _ W); same_get
    | eapply mirrors_ext, (wf_watch _ W); same_get
    | eapply mirrors_ext, (wf_monitor _ W); same_get
    | eapply accept_inv_ext, (wf_accept _ W); same_get
    | eapply count_inv_ext, (wf_count _ W); same_get
    | eapply pool_inv_ext, (wf_pool _ W); same_get
    | eapply net_inv_ext, (wf_net _ W); same_get
    | eapply rmem_inv_ext, (wf_rmem _ W); same_get ].

(** Everything the invariants read, apart from the channels. *)
Definition rshape (u : User) :=
  (u_uuid u, u_nick u, u_ip u, u_registered u, u_class u, (u_watch u, u_monitor u, u_accept u)).

Record same_rest (c c' : Core) : Prop := mkRest {
  sr_users : ∀ uid, uget rshape c uid = uget rshape c' uid;
  sr_nick : nick_index c = nick_index c';
  sr_uuid : uuid_local c = uuid_local c';
  sr_watch : watch_by c = watch_by c';
  sr_monitor : monitor_by c = monitor_by c';
  sr_accept : accepted_nicks c = accepted_nicks c';
  sr_counts : (per_ip c, per_class c, per_ip_class c)
              = (per_ip c', per_class c', per_ip_class c');
  sr_pool : unreg_count c = unreg_count c';
  sr_net : (links c, servers c, remote_users c, remote_nick c)
           = (links c', servers c', remote_users c', remote_nick c') }.

#[export] Instance same_rest_equiv : Equivalence same_rest.
Proof.
  split.
  - by intros c.
  - intros c c' []. by split; intros; symmetry.
  - intros c1 c2 c3 [] []. split; intros; (etrans; [match goal with H : _ |- _ => apply H end|done]).
Qed.

(** A change of memberships only has to re-establish the four invariants that
    mention channels. *)
Lemma wf_membership c c' :
  same_rest c c' → mem_inv c' → key_inv c' → unreg_inv c' → rmem_inv c' → wf c → wf c'.
Proof.
  intros Hr Hm Hk Hu Hrm W. pose proof (sr_users _ _ Hr) as Hru.
  split; try done.
  - eapply nick_inv_ext, W; [intros|apply Hr]. by eapply (uget_via _ rshape (λ x, x.1.1.1.1.2)).
  - eapply uuid_inv_ext, W; [intros|apply Hr]. by eapply (uget_via _ rshape (λ x, x.1.1.1.1.1)).
  - eapply mirrors_ext, W; [intros|apply Hr]. by eapply (uget_via _ rshape (λ x, x.2.1.1)).
  - eapply mirrors_ext, W; [intros|apply Hr]. by eapply (uget_via _ rshape (λ x, x.2.1.2)).
  - eapply accept_inv_ext, W; [intros|apply Hr]. by eapply (uget_via _ rshape (λ x, x.2.2)).
  - eapply count_inv_ext, W; [intros|apply Hr].
    by eapply (uget_via _ rshape (λ x, (x.1.1.1.2, x.1.2))).
  - eapply pool_inv_ext, W; [intros|apply Hr]. by eapply (uget_via _ rshape (λ x, x.1.1.2)).
  - eapply net_inv_ext, W. apply Hr.
Qed.

(** ** Operations that leave the tables alone

    Two cores with the same projections and indexes are equivalent for every
    invariant above; the mode handlers, the history and the flood counters
    only move within such a class. *)

Definition ushape (u : User) := (rshape u, u_channels u).
Definition cshape (ch : Channel) := (ch_name ch, chan_dom ch, rchan_dom ch).

Record same_tables (c c' : Core) : Prop := mkSame {
  st_users : ∀ uid, uget ushape c uid = uget ushape c' uid;
  st_chans : ∀ k, cget cshape c k = cget cshape c' k;
  st_nick : nick_index c = nick_index c';
  st_uuid : uuid_local c = uuid_local c';
  st_watch : watch_by c = watch_by c';
  st_monitor : monitor_by c = monitor_by c';
  st_accept : accepted_nicks c = accepted_nicks c';
  st_counts : (per_ip c, per_class c, per_ip_class c)
              = (per_ip c', per_class c', per_ip_class c');
  st_pool : unreg_count c = unreg_count c';
  st_net : (links c, servers c, remote_users c, remote_nick c)
           = (links c', servers c', remote_users c', remote_nick c') }.

#[export] Instance same_tables_equiv : Equivalence same_tables.
Proof.
  split.
  - by intros c.
  - intros c c' []. by split; intros; symmetry.
  - intros c1 c2 c3 [] []. split; intros; (etrans; [match goal with H : _ |- _ => apply H end|done]).
Qed.

Lemma same_tables_rest c c' : same_tables c c' → same_rest c c'.
Proof. intros []. split; try done. intros. by eapply (uget_via _ ushape fst). Qed.

Lemma cget_via {A B} (p : Channel → A) (r : Channel → B) (q : B → A) c c' k :
  (∀ ch, p ch = q (r ch)) → cget r c k = cget r c' k → cget p c k = cget p c' k.
Proof.
  intros Hp Hs. unfold cget in *.
  destruct (channels c !! k), (channels c' !! k); cbn in *; try done.
  apply (inj Some) in Hs. by rewrite !Hp, Hs.
Qed.

#[export] Instance wf_proper : Proper (same_tables ==> impl) wf.
Proof.
  intros c c' Hs W. eapply wf_membership; [by apply same_tables_rest| | | | |exact W].
  - intros uid k. unfold on_chan, in_list.
    rewrite <-(uget_via u_channels ushape snd c c' uid) by (done || apply Hs).
    rewrite <-(cget_via chan_dom cshape (λ x, x.1.2) c c' k) by (done || apply Hs). apply W.
  - intros k name. rewrite <-(cget_via ch_name cshape (λ x, x.1.1) c c' k) by (done || apply Hs). apply W.
  - intros uid l.
    rewrite <-(uget_via _ ushape (λ x, (x.1.1.1.2, x.2)) c c' uid) by (done || apply Hs). apply W.
  - eapply rmem_inv_ext, W.
    + intros k. apply (cget_via rchan_dom cshape snd); [done|apply Hs].
    + pose proof (st_net _ _ Hs). congruence.
Qed.

(** [StableTables f]: the operation stays within an equivalence class. *)
Class StableTables (f : Server → Server) := stable_tables : ∀ s, same_tables (core s) (core (f s)).

#[export] Instance outputs_stable f : Outputs f → StableTables f.
Proof. intros Hf s. by rewrite Hf. Qed.

#[export] Instance for_each_stable {A} (l : list A) f :
  (∀ x, StableTables (f x)) → StableTables (for_each l f).
Proof.
  intros Hf. unfold for_each. induction l as [|x l IH]; intros s; cbn; [done|].
  etrans; [apply Hf|apply IH].
Qed.

Lemma stable_wf f s : StableTables f → wf (core s) → wf (core (f s)).
Proof. intros Hf. apply wf_proper, Hf. Qed.

Lemma same_with_user uid f c :
  (∀ u, ushape (f u) = ushape u) → same_tables c (with_user uid f c).
Proof. intros Hf. split; try done. intros i. by rewrite uget_with_user_ne. Qed.

Lemma same_with_chan k f c :
  (∀ ch, cshape (f ch) = cshape ch) → same_tables c (with_chan k f c).
Proof. intros Hf. split; try done. intros i. by rewrite cget_with_chan_ne. Qed.

#[export] Instance with_user_stable uid f :
  (∀ u, ushape (f u) = ushape u) → StableTables (upd (with_user uid f)).
Proof. intros Hf s. by apply same_with_user. Qed.

#[export] Instance with_chan_stable k f :
  (∀ ch, cshape (f ch) = cshape ch) → StableTables (upd (with_chan k f)).
Proof. intros Hf s. by apply same_with_chan. Qed.

(** Changing the remote members of a channel: the new ones must be known. *)
Lemma remote_members_wf k f c :
  (∀ ch, (ch_name (f ch), chan_dom (f ch)) = (ch_name ch, chan_dom ch)) →
  (∀ ch uuid, channels c !! k = Some ch → uuid ∈ rchan_dom (f ch) →
     uuid ∈ rchan_dom ch ∨ is_Some (remote_users c !! uuid)) →
  wf c → wf (with_chan k f c).
Proof.
  intros Hs Hr W. apply (wf_membership c); [done| | |apply W| |done].
  - eapply mem_inv_ext, W; [done|]. intros i. symmetry. apply cget_with_chan_ne.
    intros ch. by injection (Hs ch).
  - eapply key_inv_ext, W. intros i. symmetry. apply cget_with_chan_ne. intros ch. by injection (Hs ch).
  - intros i d uuid. unfold cget, with_chan; cbn. destruct (decide (k = i)) as [<-|Hne].
    + rewrite lookup_alter_eq. destruct (channels c !! k) as [ch|] eqn:Ek; [|done].
      cbn. intros [= <-] [Hd|Hd]%(Hr _ _ eq_refl); [|done].
      apply (wf_rmem _ W k (rchan_dom ch) uuid); [|done]. unfold cget. by rewrite Ek.
    + rewrite lookup_alter_ne by done. apply (wf_rmem _ W i d uuid).
Qed.

Lemma drop_remote_wf k uuid c :
  wf c → wf (with_chan k (λ ch, ch <| rmembers := delete uuid (rmembers ch) |>) c).
Proof.
  apply remote_members_wf; [done|]. intros ch i _ Hi. left. revert Hi. unfold rchan_dom; cbn.
  rewrite dom_delete_L. set_solver.
Qed.
