(* ===== verification/ModeTables.v ===== *)
(** * Modes leave the tables alone

    No mode handler adds or removes a member, renames a channel or touches an
    index: MODE, its services form and the user modes stay within one class of
    [same_tables], up to the culling of a dead channel. *)

From Stdlib Require Import Ascii.
From S2P Require Import Prelude RustStr Channel State Mode UserMode CoreMode Watch Tables.

Local Open Scope stdpp_scope.

(** [stable] closes a goal [same_tables (core s) (core s')] where [s'] is [s]
    after stable steps. *)
Ltac stable_step :=
  first
    [ reflexivity
    | match goal with
      | |- same_tables ?c (core (?f ?s')) =>
          let H := fresh in
          assert (StableTables f) as H by (typeclasses eauto);
          transitivity (core s'); [|apply H]
      end ].
Ltac stable := repeat stable_step.

Lemma dom_alter_members f uid ch :
  cshape (ch <| members ::= alter f uid |>) = cshape ch.
Proof. unfold cshape, chan_dom; cbn. by rewrite dom_alter_L. Qed.

#[export] Instance set_modes_stable k f : StableTables (set_modes k f).
Proof. apply with_chan_stable. done. Qed.

#[export] Instance alter_member_stable k f uid :
  StableTables (upd (with_chan k (λ c, c <| members ::= alter f uid |>))).
Proof. apply with_chan_stable. intros ch. apply dom_alter_members. Qed.

#[export] Instance reveal_member_stable uid k : StableTables (reveal_member uid k).
Proof.
  intros s. unfold reveal_member. case_match; [done|].
  set (s1 := upd _ _). transitivity (core s1); [apply alter_member_stable|].
  case_match; [|done]. apply for_each_stable. intros m. apply outputs_stable.
  intros s'. repeat case_match; done || apply send_outputs.
Qed.

Lemma kind_update_shape kind f ch : cshape (kind_update kind f ch) = cshape ch.
Proof. by destruct kind. Qed.

#[export] Instance kind_update_stable k kind f :
  StableTables (upd (with_chan k (kind_update kind f))).
Proof. apply with_chan_stable. intros. apply kind_update_shape. Qed.

#[export] Instance list_query_outputs ch kind chan k uid : Outputs (list_query ch kind chan k uid).
Proof.
  intros s. unfold list_query. destruct (kind_numerics kind) as [[e1 e2] noun].
  case_match; by frame.
Qed.

Lemma list_add_stable kind chan k uid mask s :
  same_tables (core s) (core (list_add kind chan k uid mask s).2).
Proof. unfold list_add. repeat case_match; cbn [snd]; stable. Qed.

Lemma list_remove_stable kind k mask s :
  same_tables (core s) (core (list_remove kind k mask s).2).
Proof. unfold list_remove. repeat case_match; cbn [snd]; stable. Qed.

Lemma prefix_apply_stable ch r chan k uid adding param s :
  same_tables (core s) (core (prefix_apply ch r chan k uid adding param s).2).
Proof. unfold prefix_apply. repeat case_match; cbn [snd]; stable. Qed.

(** Every handler. *)
Lemma chan_apply_stable h chan k uid adding param s :
  same_tables (core s) (core (chan_apply h chan k uid adding param s).2).
Proof.
  destruct h; cbn [chan_apply]; try apply prefix_apply_stable;
    try (unfold list_apply; repeat case_match; cbn [snd];
         (apply list_add_stable || apply list_remove_stable || stable));
    unfold flag_apply, operflag_apply, registered_apply, key_apply, limit_apply, history_apply,
      secureonly_apply, encrypted_apply, msgflood_apply, joinflood_apply, nickflood_apply,
      slowmode_apply, rate_apply, redirect_apply, anticaps_apply, kicknorejoin_apply,
      delaymsg_apply, repeat_apply, number_apply;
    repeat case_match; cbn [snd]; stable.
Qed.

Lemma mode_letter_stable target k uid c l s :
  same_tables (core s) (core (mode_letter target k uid c l s).2).
Proof.
  unfold mode_letter. case_match; [|cbn; stable].
  destruct (take_param _ _ _) as [param args]. cbn zeta.
  destruct (chan_apply _ _ _ _ _ _ _) as [res s'] eqn:E.
  pose proof (chan_apply_stable c0 target k uid
    (String.eqb (ml_sign l) "+") param s) as Hst.
  cbn in E, Hst. rewrite E in Hst. cbn in Hst.
  repeat case_match; cbn [snd]; (etrans; [exact Hst|]); stable.
Qed.

Lemma mode_loop_stable target k uid mx cs l s :
  same_tables (core s) (core (mode_loop target k uid mx cs l s).2).
Proof.
  revert l s. induction cs as [|c cs IH]; intros l s; cbn [mode_loop]; [done|].
  case_match; [apply IH|]. case_match; [done|].
  destruct (mode_letter target k uid c l s) as [l' s'] eqn:E.
  etrans; [|apply IH]. by rewrite <-(f_equal snd E : _ = s'); apply mode_letter_stable.
Qed.

Lemma svs_loop_stable target k cs l s :
  same_tables (core s) (core (svs_loop target k cs l s).2).
Proof.
  revert l s. induction cs as [|c cs IH]; intros l s; cbn [svs_loop]; [done|].
  case_match; [apply IH|]. case_match; [|apply IH].
  destruct (take_param _ _ _) as [param args]. cbn zeta.
  destruct (chan_apply _ _ _ _ _ _ _) as [res s'] eqn:E.
  etrans; [|apply IH]. rewrite <-(f_equal snd E : _ = s'). apply chan_apply_stable.
Qed.

(** ** History and counters of messages *)

Lemma same_upd_free (f : Core → Core) c :
  users (f c) = users c → channels (f c) = channels c → nick_index (f c) = nick_index c →
  uuid_local (f c) = uuid_local c → watch_by (f c) = watch_by c →
  monitor_by (f c) = monitor_by c → accepted_nicks (f c) = accepted_nicks c →
  (per_ip (f c), per_class (f c), per_ip_class (f c)) = (per_ip c, per_class c, per_ip_class c) →
  unreg_count (f c) = unreg_count c →
  (links (f c), servers (f c), remote_users (f c), remote_nick (f c))
  = (links c, servers c, remote_users c, remote_nick c) →
  same_tables c (f c).
Proof. intros Hu Hc. split; unfold uget, cget; by rewrite ?Hu, ?Hc. Qed.

#[export] Instance push_history_stable k m : StableTables (upd (push_history k m)).
Proof. intros s. by apply same_upd_free. Qed.

#[export] Instance record_event_stable k line : StableTables (record_event k line).
Proof.
  intros s. unfold record_event. case_match; [done|]. cbn [next_msgid].
  etrans; [|apply push_history_stable]. by apply same_upd_free.
Qed.

#[export] Instance set_sudo_stable b : StableTables (set_sudo b).
Proof. intros s. by apply same_upd_free. Qed.

#[export] Instance hidemode_outputs k t uid p cs : Outputs (hidemode_broadcast k t uid p cs).
Proof.
  intros s. unfold hidemode_broadcast. apply for_each_outputs. intros m s'.
  repeat case_match; done || apply send_outputs.
Qed.

#[export] Instance announce_modes_stable target k uid l :
  StableTables (announce_modes target k uid l).
Proof.
  intros s. unfold announce_modes. case_match; [done|]. cbn zeta.
  etrans; [|apply outputs_stable, propagate_chan_mode_outputs]. case_match; stable.
Qed.

(** ** User modes *)

#[export] Instance set_flags_stable uid f : StableTables (set_flags uid f).
Proof. by apply with_user_stable. Qed.

#[export] Instance operprefix_set_stable uid k on : StableTables (operprefix_set uid k on).
Proof. intros s. unfold operprefix_set. repeat case_match; stable. Qed.

#[export] Instance operprefix_clear_stable uid : StableTables (operprefix_clear_all uid).
Proof. intros s. unfold operprefix_clear_all. apply for_each_stable. apply _. Qed.

#[export] Instance notify_peers_outputs uid line want : Outputs (notify_peers uid line want).
Proof.
  intros s. unfold notify_peers. apply for_each_outputs. intros m s'.
  case_match; [apply send_outputs|done].
Qed.

Lemma user_apply_stable h uid adding s :
  same_tables (core s) (core (user_apply h uid adding s).2).
Proof.
  destruct h; cbn [user_apply];
    unfold operflag_user_apply, uflag_apply, opermode_apply, cloak_apply, servprotect_apply;
    repeat case_match; cbn [snd]; stable.
Qed.

Lemma apply_snomask_stable uid adding param s :
  same_tables (core s) (core (apply_snomask uid adding param s).2).
Proof. unfold apply_snomask. repeat case_match; cbn [snd]; stable. Qed.

Lemma svs_user_loop_stable tuid sign cs acc s :
  same_tables (core s) (core (svs_user_loop tuid sign cs acc s).2).
Proof.
  revert sign acc s. induction cs as [|c cs IH]; intros sign acc s; cbn [svs_user_loop]; [done|].
  case_match; [apply IH|]. case_match; [|apply IH].
  destruct (user_apply _ _ _ _) as [okb s'] eqn:E.
  etrans; [|apply IH]. rewrite <-(f_equal snd E : _ = s'). apply user_apply_stable.
Qed.

Lemma user_mode_loop_stable uid sign cs args acc s :
  same_tables (core s) (core (user_mode_loop uid sign cs args acc s).2).
Proof.
  revert sign args acc s.
  induction cs as [|c cs IH]; intros sign args acc s; cbn [user_mode_loop]; [done|].
  case_match; [apply IH|]. case_match.
  - destruct (if String.eqb sign "+" then _ else _) as [param args'].
    case_match; [etrans; [|apply IH]; stable|].
    destruct (apply_snomask _ _ _ _) as [okb s'] eqn:E.
    etrans; [|apply IH]. rewrite <-(f_equal snd E : _ = s'). apply apply_snomask_stable.
  - case_match; [|etrans; [|apply IH]; stable].
    destruct (user_apply _ _ _ _) as [okb s'] eqn:E.
    etrans; [|apply IH]. rewrite <-(f_equal snd E : _ = s'). apply user_apply_stable.
Qed.

Lemma apply_user_modes_stable uid target params s :
  same_tables (core s) (core (apply_user_modes uid target params s).2).
Proof.
  unfold apply_user_modes. case_match; [cbn; stable|]. case_match; [cbn; stable|].
  destruct (user_mode_loop _ _ _ _ _ _) as [applied s'] eqn:E.
  assert (same_tables (core s) (core s')) as Hs
    by (rewrite <-(f_equal snd E : _ = s'); apply user_mode_loop_stable).
  case_match; cbn [snd]; (etrans; [exact Hs|]); stable.
Qed.

#[export] Instance svs_set_user_modes_stable tuid ms : StableTables (svs_set_user_modes tuid ms).
Proof.
  intros s. unfold svs_set_user_modes.
  destruct (svs_user_loop _ _ _ _ _) as [applied s'] eqn:E.
  assert (same_tables (core s) (core s')) as Hs.
  { etrans; [apply (set_sudo_stable true)|].
    rewrite <-(f_equal snd E : _ = s'). apply svs_user_loop_stable. }
  case_match; cbn [snd]; (etrans; [exact Hs|]); stable.
Qed.

Lemma svs_set_chan_modes_stable target ms args s :
  same_tables (core s) (core (svs_set_chan_modes target ms args s).2).
Proof.
  unfold svs_set_chan_modes. case_match; [|done].
  destruct (svs_loop _ _ _ _ _) as [l s'] eqn:E.
  assert (same_tables (core s) (core s')) as Hs.
  { etrans; [apply (set_sudo_stable true)|].
    rewrite <-(f_equal snd E : _ = s'). apply svs_loop_stable. }
  case_match; cbn [snd]; (etrans; [exact Hs|]); stable.
Qed.
