(* ===== verification/MembershipTables.v ===== *)
(** * Membership operations keep the tables consistent

    Each operation that moves a user in or out of a channel is described by how
    it changes the two membership relations [on_chan] and [in_list]; the
    invariants follow from the two changes being the same. *)

From Stdlib Require Import Ascii.
From S2P Require Import Prelude RustStr Glob Channel State Mode UserMode CoreMode Watch Users.
From S2P Require Import Ban Membership CoreChannel Tables ModeTables.

Local Open Scope stdpp_scope.

(** ** The primitive changes *)

Lemma same_rest_with_user uid f c :
  (∀ u, rshape (f u) = rshape u) → same_rest c (with_user uid f c).
Proof. intros Hf. split; try done. intros i. by rewrite uget_with_user_ne. Qed.

Lemma same_rest_drop uid k c : same_rest c (drop_member uid k c).
Proof. etrans; [|by apply same_rest_with_user]. done. Qed.

Lemma on_chan_drop uid k c u k' :
  on_chan (drop_member uid k c) u k' ↔ on_chan c u k' ∧ ¬ (u = uid ∧ k' = k).
Proof.
  unfold on_chan, drop_member.
  change (cget chan_dom (with_user uid _ ?c)) with (cget chan_dom c).
  rewrite (cget_with_chan chan_dom (λ d, d ∖ {[uid]})) by (intros; apply dom_delete_L).
  case_decide as Hk; [subst k'|naive_solver].
  destruct (cget chan_dom c k) as [d|]; cbn; [|naive_solver].
  split.
  - intros (? & [= <-] & Hin). split; [|set_solver]. exists d. set_solver.
  - intros [(? & [= <-] & Hin) Hne]. exists (d ∖ {[uid]}). set_solver.
Qed.

Lemma in_list_drop uid k c u k' :
  in_list (drop_member uid k c) u k' ↔ in_list c u k' ∧ ¬ (u = uid ∧ k' = k).
Proof.
  unfold in_list, drop_member.
  rewrite (uget_with_user u_channels (λ d, d ∖ {[k]})) by done.
  change (uget u_channels (with_chan k _ ?c)) with (uget u_channels c).
  case_decide as Hk; [subst u|naive_solver].
  destruct (uget u_channels c uid) as [d|]; cbn; [|naive_solver].
  split.
  - intros (? & [= <-] & Hin). split; [|set_solver]. exists d. set_solver.
  - intros [(? & [= <-] & Hin) Hne]. exists (d ∖ {[k]}). set_solver.
Qed.

Lemma keep_alive_false ch : keep_alive ch = false → members ch = ∅.
Proof.
  unfold keep_alive, chan_is_empty. rewrite !orb_false_iff, negb_false_iff, andb_true_iff.
  by intros [[[H1%bool_decide_eq_true _] _] _].
Qed.

Lemma on_chan_retain c u k : on_chan (retain_alive c) u k ↔ on_chan c u k.
Proof.
  unfold on_chan, cget, retain_alive; cbn. rewrite lookup_retain_map.
  destruct (channels c !! k) as [ch|]; cbn; [|done].
  destruct (keep_alive ch) eqn:E; cbn; [done|].
  apply keep_alive_false in E. unfold chan_dom. rewrite E, dom_empty_L.
  split; [by intros (? & ? & ?)|]. by intros (? & [= <-] & ?%not_elem_of_empty).
Qed.

Lemma cget_retain {A} (p : Channel → A) c k x :
  cget p (retain_alive c) k = Some x → cget p c k = Some x.
Proof.
  unfold cget, retain_alive; cbn. rewrite lookup_retain_map.
  destruct (channels c !! k) as [ch|]; cbn; [|done]. by destruct (keep_alive ch).
Qed.

Lemma retain_wf c : wf c → wf (retain_alive c).
Proof.
  intros W. apply (wf_membership c); [done| | | | |done].
  - intros u k. rewrite on_chan_retain. apply W.
  - intros k name Hk%cget_retain. by apply W.
  - apply W.
  - intros k d uuid Hk%cget_retain. by apply (wf_rmem _ W k).
Qed.

Lemma unreg_shrink (f : gset string → gset string) c c' :
  (∀ l, f l ⊆ l) →
  (∀ uid, uget (λ u, (u_registered u, u_channels u)) c' uid
          = uget (λ u, (u_registered u, u_channels u)) c uid
        ∨ uget (λ u, (u_registered u, u_channels u)) c' uid
          = prod_map id f <$> uget (λ u, (u_registered u, u_channels u)) c uid) →
  unreg_inv c → unreg_inv c'.
Proof.
  intros Hf Hu Hr uid l Hl. destruct (Hu uid) as [E|E]; rewrite E in Hl; [by eapply Hr|].
  destruct (uget _ c uid) as [[b l']|] eqn:El; [|done]. injection Hl as -> <-.
  rewrite (Hr uid l' El). specialize (Hf ∅). set_solver.
Qed.

Lemma drop_wf uid k c : wf c → wf (drop_member uid k c).
Proof.
  intros W. apply (wf_membership c); [apply same_rest_drop| | | | |done].
  - intros u k'. rewrite on_chan_drop, in_list_drop, (wf_mem _ W u k'). done.
  - intros k' name. unfold drop_member.
    change (cget ch_name (with_user uid ?f ?c')) with (cget ch_name c').
    rewrite cget_with_chan_ne by done. apply W.
  - apply (unreg_shrink (λ l, l ∖ {[k]}) c); [set_solver| |apply W].
    intros i. unfold drop_member.
    rewrite (uget_with_user _ (prod_map id (λ l, l ∖ {[k]}))) by done.
    case_decide; [by right|by left].
  - intros k' d uuid. unfold drop_member.
    change (cget rchan_dom (with_user uid ?f ?c')) with (cget rchan_dom c').
    rewrite cget_with_chan_ne by done. apply (wf_rmem _ W).
Qed.

Lemma part_tables_wf uid k c : wf c → wf ((retain_alive ∘ drop_member uid k) c).
Proof. intros W. by apply retain_wf, drop_wf. Qed.

(** ** Joining *)

Lemma on_chan_enter uid name c u k' :
  on_chan (enter uid name c) u k' ↔
  on_chan c u k' ∨ (u = uid ∧ k' = to_ascii_lowercase name).
Proof.
  unfold on_chan, enter, cget; cbn. set (k := to_ascii_lowercase name).
  destruct (decide (k = k')) as [<-|Hne].
  - rewrite lookup_partial_alter_eq. cbn. unfold chan_dom; cbn. rewrite dom_insert_L.
    destruct (channels c !! k) as [ch|]; cbn; rewrite ?dom_empty_L; split.
    + intros (? & [= <-] & [?%elem_of_singleton|?]%elem_of_union); [by right|left; eauto].
    + intros [(? & [= <-] & ?)|[-> _]]; eexists; (split; [done|]); set_solver.
    + intros (? & [= <-] & [?%elem_of_singleton|?]%elem_of_union); [by right|set_solver].
    + intros [(? & ? & ?)|[-> _]]; [done|]. eexists; (split; [done|]); set_solver.
  - rewrite lookup_partial_alter_ne by done. naive_solver.
Qed.

Lemma in_list_enter uid name c u k' :
  is_some (users c !! uid) = true →
  in_list (enter uid name c) u k' ↔
  in_list c u k' ∨ (u = uid ∧ k' = to_ascii_lowercase name).
Proof.
  intros Hu. unfold in_list, enter. set (k := to_ascii_lowercase name). cbn zeta.
  rewrite (uget_with_user u_channels (λ l, {[k]} ∪ l)) by done.
  unfold uget; cbn. case_decide as Hd; [subst u|naive_solver].
  destruct (users c !! uid) as [u|]; [|done]. cbn. split.
  - intros (? & [= <-] & [?%elem_of_singleton|?]%elem_of_union); [by right|left; eauto].
  - intros [(? & [= <-] & ?)|[_ ->]]; eexists; (split; [done|]); set_solver.
Qed.

Lemma enter_wf uid name c :
  uget u_registered c uid = Some true → wf c → wf (enter uid name c).
Proof.
  intros Hreg W.
  assert (is_some (users c !! uid) = true) as Hsome by (by unfold uget in Hreg; destruct (users c !! uid)).
  apply (wf_membership c); [| | | | |done].
  - unfold enter; cbn zeta. etrans; [|by apply same_rest_with_user]. done.
  - intros u k. rewrite on_chan_enter, in_list_enter, (wf_mem _ W u k) by done. done.
  - intros k nm. unfold enter, cget; cbn. set (k0 := to_ascii_lowercase name).
    destruct (decide (k0 = k)) as [<-|Hne].
    + rewrite lookup_partial_alter_eq. cbn. intros [= <-].
      destruct (channels c !! k0) as [ch|] eqn:E; cbn; [|done].
      apply (wf_key _ W). unfold cget. by rewrite E.
    + rewrite lookup_partial_alter_ne by done. apply (wf_key _ W k nm).
  - intros i l. unfold enter; cbn zeta.
    rewrite (uget_with_user _ (prod_map id (λ l, {[to_ascii_lowercase name]} ∪ l))) by done.
    case_decide as Hd; [subst i|apply (wf_unreg _ W)].
    unfold uget in *; cbn. destruct (users c !! uid) as [u|]; cbn in *; [|done].
    injection Hreg as Hreg. by rewrite Hreg.
  - intros k d uuid. unfold enter, cget; cbn. set (k0 := to_ascii_lowercase name).
    destruct (decide (k0 = k)) as [<-|Hne].
    + rewrite lookup_partial_alter_eq. cbn. intros [= <-]. unfold rchan_dom; cbn.
      destruct (channels c !! k0) as [ch|] eqn:E; cbn; [|by rewrite dom_empty_L; intros ?%not_elem_of_empty].
      apply (wf_rmem _ W k0). unfold cget. by rewrite E.
    + rewrite lookup_partial_alter_ne by done. apply (wf_rmem _ W k d uuid).
Qed.
