(* ===== verification/JoinFacts.v ===== *)
(** * Joining a channel

    What [join] does on every path: it terminates, the gates change nothing but
    the join-flood counter, an admitted join adds exactly one membership, and a
    user without the override privilege is admitted exactly when the channel's
    restrictions allow it. *)

From Stdlib Require Import Ascii.
From S2P Require Import Prelude RustStr Glob I18n Channel State Mode CoreMode Watch Users.
From S2P Require Import Ban Membership Tables ModeTables MembershipTables.

Local Open Scope stdpp_scope.

Section join.
Context `{UnicodeLower} `{Outside}.

(** ** The gates *)

Definition gate_server (g : Gate) : Server :=
  match g with Refuse s | Hop _ s | Bounce _ s | Admit _ s => s end.

Lemma restrict_ind (P : Gate → Prop) ovr blocked refuse k o :
  P refuse → (∀ b, P (k b)) → P (restrict ovr blocked refuse k o).
Proof. unfold restrict. by repeat case_match. Qed.

Lemma ban_refusal_core uid name k s : core (gate_server (ban_refusal uid name k s)) = core s.
Proof. unfold ban_refusal. case_match; cbn [gate_server]; by frame. Qed.

Lemma entry_gate_core uid name s : core (gate_server (entry_gate uid name s)) = core s.
Proof. unfold entry_gate. repeat case_match; cbn [gate_server]; by frame. Qed.

(** A property of every outcome of [mode_gate], checked refusal by refusal. *)
Lemma mode_gate_ind (P : Gate → Prop) uid name ka s :
  (∀ code text, P (Refuse (numeric uid code text s))) →
  P (ban_refusal uid name (to_ascii_lowercase name) s) →
  (∀ o, P (Admit o s)) →
  P (mode_gate uid name ka s).
Proof.
  intros Hr Hb Ha. unfold mode_gate. case_match; [|done].
  repeat (apply restrict_ind; [done|intros ?]).
  case_match; [done|]. by repeat (apply restrict_ind; [done|intros ?]).
Qed.

Lemma mode_gate_core uid name ka s : core (gate_server (mode_gate uid name ka s)) = core s.
Proof.
  apply mode_gate_ind; [|apply ban_refusal_core|done].
  intros; cbn [gate_server]; by frame.
Qed.

Lemma limit_gate_core uid name o s : core (gate_server (limit_gate uid name o s)) = core s.
Proof. unfold limit_gate. repeat case_match; cbn [gate_server]; by frame. Qed.

(** Only the counters of [+j] move. *)
Definition flood_only (k : string) (c c' : Core) : Prop :=
  ∃ f, (∀ ch, f ch = ch <| joinflood_hits := joinflood_hits (f ch) |>
                        <| joinflood_until := joinflood_until (f ch) |>)
       ∧ c' = with_chan k f c.

Lemma flood_only_refl k c : flood_only k c c.
Proof.
  exists id. split; [by intros []|]. unfold with_chan. destruct c; cbn.
  by rewrite alter_id.
Qed.

Lemma joinflood_core k s : flood_only k (core s) (core (joinflood_check k s).2).
Proof.
  unfold joinflood_check.
  repeat case_match; cbn [snd]; try apply flood_only_refl; eexists; (split; [|reflexivity]); done.
Qed.

Lemma flood_gate_core uid name o s :
  flood_only (to_ascii_lowercase name) (core s) (core (gate_server (flood_gate uid name o s))).
Proof.
  unfold flood_gate. case_match; [apply flood_only_refl|].
  destruct (joinflood_check _ s) as [locked s'] eqn:E.
  pose proof (joinflood_core (to_ascii_lowercase name) s) as Hf. rewrite E in Hf.
  case_match; cbn [gate_server]; by frame.
Qed.

Lemma join_gate_core uid name ka s :
  flood_only (to_ascii_lowercase name) (core s) (core (gate_server (join_gate uid name ka s))).
Proof.
  unfold join_gate. pose proof (entry_gate_core uid name s) as He.
  destruct (entry_gate uid name s) as [s1|t s1|t s1|o s1]; cbn in *; try (rewrite He; apply flood_only_refl).
  pose proof (mode_gate_core uid name ka s1) as Hm.
  destruct (mode_gate uid name ka s1) as [s2|t s2|t s2|o2 s2]; cbn in *;
    try (rewrite Hm, He; apply flood_only_refl).
  pose proof (limit_gate_core uid name o2 s2) as Hl.
  destruct (limit_gate uid name o2 s2) as [s3|t s3|t s3|o3 s3]; cbn in *;
    try (rewrite Hl, Hm, He; apply flood_only_refl).
  rewrite <-He, <-Hm, <-Hl. apply flood_gate_core.
Qed.

Lemma flood_only_same k c c' : flood_only k c c' → same_tables c c'.
Proof. intros (f & Hf & ->). apply same_with_chan. intros ch. by rewrite Hf. Qed.

Lemma flood_only_flags k c c' :
  flood_only k c c' →
  redir_depth c' = redir_depth c ∧ in_redirect c' = in_redirect c ∧ users c' = users c.
Proof. by intros (f & Hf & ->). Qed.

(** ** When a gate sends the user elsewhere *)

Lemma denychans_redirect_depth c name bc t :
  denychans_redirect c name bc = Some t → (redir_depth c < MAX_REDIR)%N.
Proof.
  unfold denychans_redirect. rewrite bind_Some. intros (r & _ & Hd).
  destruct (_ && _) eqn:Hb in Hd; [|done].
  apply andb_true_iff in Hb as [_ Hb]. by apply N.ltb_lt.
Qed.

Lemma join_gate_hop uid name ka s t s' :
  join_gate uid name ka s = Hop t s' → (redir_depth (core s) < MAX_REDIR)%N.
Proof.
  unfold join_gate. destruct (entry_gate uid name s) as [s1|t1 s1|t1 s1|o s1] eqn:E; cbn; try done.
  - intros _. unfold entry_gate in E. repeat case_match; try done;
      by eapply denychans_redirect_depth.
  - destruct (mode_gate uid name ka s1) as [s2|t2 s2|t2 s2|o2 s2] eqn:E2; cbn; try done.
    { exfalso. revert E2. apply mode_gate_ind; [done| |done]. unfold ban_refusal. by case_match. }
    destruct (limit_gate uid name o2 s2) as [s3|t3 s3|t3 s3|o3 s3] eqn:E3; cbn; try done.
    + intros [= -> ->]. unfold limit_gate in E3. by repeat case_match.
    + unfold flood_gate. by repeat case_match.
Qed.

Lemma may_bounce_free c uid k t : may_bounce c uid k t = true → in_redirect c = false.
Proof. unfold may_bounce. rewrite !andb_true_iff, negb_true_iff. by intros [[? _] _]. Qed.

Lemma join_gate_bounce uid name ka s t s' :
  join_gate uid name ka s = Bounce t s' → in_redirect (core s) = false.
Proof.
  unfold join_gate. pose proof (entry_gate_core uid name s) as He.
  destruct (entry_gate uid name s) as [s1|t1 s1|t1 s1|o s1] eqn:E; cbn in *; try done.
  { unfold entry_gate in E. by repeat case_match. }
  pose proof (mode_gate_core uid name ka s1) as Hm.
  destruct (mode_gate uid name ka s1) as [s2|t2 s2|t2 s2|o2 s2] eqn:E2; cbn in *; try done.
  { intros _. revert E2. rewrite <-He. apply mode_gate_ind; [done| |done].
    unfold ban_refusal. case_match eqn:Hf; [|done].
    apply opt_filter_Some in Hf as [_ Hf]. by apply may_bounce_free in Hf. }
  destruct (limit_gate uid name o2 s2) as [s3|t3 s3|t3 s3|o3 s3] eqn:E3; cbn; try done.
  - intros _. unfold limit_gate in E3. repeat case_match; try done.
    match goal with Hf : opt_filter _ _ = Some _ |- _ =>
      apply opt_filter_Some in Hf as [_ Hf]; apply may_bounce_free in Hf end. congruence.
  - unfold flood_gate. by repeat case_match.
Qed.
(** ** Admission *)

#[export] Instance send_names_outputs uid k : Outputs (send_names uid k).
Proof.
  intros s. unfold send_names. cbn zeta.
  destruct (channels (core s) !! k) as [ch|]; [|by frame].
  destruct (_ && _ && _); [by frame|]. rewrite numeric_outputs. apply for_each_outputs.
  intros line. apply numeric_outputs.
Qed.

#[export] Instance send_topic_outputs uid name k : Outputs (send_topic uid name k).
Proof. intros s. unfold send_topic. case_match; by frame. Qed.

#[export] Instance announce_join_outputs uid name : Outputs (announce_join uid name).
Proof.
  intros s. unfold announce_join. case_match; [|done]. apply for_each_outputs. intros m s'.
  repeat case_match; done || apply send_outputs.
Qed.

#[export] Instance push_event_outputs h : Outputs (push_event h).
Proof. by intros s. Qed.

Lemma map_or_outputs {A} (o : option A) (f : A → Server → Server) s :
  (∀ a, Outputs (f a)) → core (map_or s (λ a, f a s) o) = core s.
Proof. intros Hf. destruct o; [apply Hf|done]. Qed.

Definition bump (n : N) (c : Core) : Core := c <| msgid_counter := n |>.

Lemma bump_id c : bump (msgid_counter c) c = c.
Proof. by destruct c. Qed.

Lemma replay_core uid k s : ∃ n, core (replay_chanhistory uid k s) = bump n (core s).
Proof.
  unfold replay_chanhistory.
  destruct (channels (core s) !! k ≫= _) as [[name [lines secs]]|];
    [|exists (msgid_counter (core s)); by rewrite bump_id].
  assert (∃ n, core (if has_cap (core s) uid "batch" then
      let '(id, s0) := next_msgid s in (Some (remove_byte "-" id), s0) else (None, s)).2
      = bump n (core s)) as [n Hn].
  { destruct (has_cap _ _ _); [by eexists|]. exists (msgid_counter (core s)). by rewrite bump_id. }
  exists n. destruct (if has_cap (core s) uid "batch" then _ else _) as [bref s1]. cbn in Hn.
  rewrite <-Hn. destruct (s_history (core s1) !! k) as [buf|]; [|done].
  destruct (replay_select _ _ _ _) as [|m picked]; [done|].
  destruct bref as [b|]; cbn [map_or]; rewrite ?send_outputs, for_each_outputs, ?send_outputs by apply _;
    done.
Qed.

(** The tables after an admitted join are those of [enter], with the new
    member hidden on a [+D] channel. *)
Lemma admit_join_core uid name o s :
  ∃ n b, core (admit_join uid name o s)
         = bump n ((if b : bool then set_hidden uid (to_ascii_lowercase name) else id)
                     (enter uid name (core s))).
Proof.
  unfold admit_join. cbn zeta. set (k := to_ascii_lowercase name).
  set (s1 := if o then _ else s). assert (core s1 = core s) as E1 by (subst s1; case_match; by frame).
  set (s2 := upd (enter uid name) s1).
  set (s3 := if _ && _ then _ else s2).
  assert (core s3 = core s2) as E3 by (subst s3; case_match; by frame).
  set (s4 := if chan_mode_on delayjoin (core s3) k then _ else s3).
  rewrite !outputs.
  match goal with |- context [replay_chanhistory uid k ?s'] =>
    destruct (replay_core uid k s') as [n Hn]; rewrite Hn end.
  exists n, (chan_mode_on delayjoin (core s3) k). f_equal.
  transitivity (core s4); [case_match; by frame|].
  assert (core s3 = enter uid name (core s)) as E by (rewrite E3, <-E1; done).
  rewrite <-E. subst s4. by destruct (chan_mode_on delayjoin (core s3) k).
Qed.

(** ** Termination *)

Definition redirects_left (c : Core) : nat :=
  N.to_nat (MAX_REDIR - redir_depth c) + (if in_redirect c then 0 else 1).

Lemma join_fuel_some fuel uid name ka s :
  redirects_left (core s) < fuel → is_Some (join_fuel fuel uid name ka s).
Proof.
  revert name ka s. induction fuel as [|fuel IH]; intros name ka s Hf; [lia|].
  cbn [join_fuel]. pose proof (join_gate_core uid name ka s) as Hc.
  destruct (join_gate uid name ka s) as [s1|t s1|t s1|o s1] eqn:E; [done| | |done];
    cbn in Hc; apply flood_only_flags in Hc as (Hd & Hi & _).
  - apply join_gate_hop in E.
    destruct (IH t None (upd (set_depth (λ d, (d + 1)%N)) s1)) as [s2 ->]; [|done].
    revert Hf E. unfold redirects_left, MAX_REDIR; cbn. rewrite Hd, Hi. case_match; lia.
  - apply join_gate_bounce in E.
    destruct (IH t None (upd (set_in_redirect true) s1)) as [s2 ->]; [|done].
    revert Hf. unfold redirects_left; cbn. rewrite Hd, E. lia.
Qed.

Lemma redirects_left_max c : redirects_left c < JOIN_FUEL.
Proof. unfold redirects_left, MAX_REDIR, JOIN_FUEL. case_match; lia. Qed.

(** ** Memberships after a join *)

Lemma on_chan_same c c' u k : same_tables c c' → on_chan c u k ↔ on_chan c' u k.
Proof. intros Hs. unfold on_chan. by rewrite (cget_via chan_dom cshape (λ x, x.1.2) c c' k) by (done || apply Hs). Qed.

Lemma same_bump n c : same_tables c (bump n c).
Proof. by apply same_upd_free. Qed.

Lemma same_hidden (b : bool) uid k c : same_tables c ((if b then set_hidden uid k else id) c).
Proof. destruct b; [|done]. apply same_with_chan. intros. apply dom_alter_members. Qed.

(** What a call may change: at most one membership of [uid], and neither the
    redirect flags nor who is registered. *)
Definition joined_rel (uid : Uid) (c c' : Core) : Prop :=
  ∃ o : option string, ∀ u k, on_chan c' u k ↔ on_chan c u k ∨ (u = uid ∧ o = Some k).

Definition joined_one (uid : Uid) (c c' : Core) : Prop :=
  joined_rel uid c c' ∧ redir_depth c' = redir_depth c ∧ in_redirect c' = in_redirect c.

Lemma joined_none uid c c' :
  same_tables c c' → redir_depth c' = redir_depth c → in_redirect c' = in_redirect c →
  joined_one uid c c'.
Proof.
  intros Hs. split; [|done]. exists None. intros u k. rewrite (on_chan_same c c') by done.
  intuition discriminate.
Qed.

Lemma admit_join_one uid name o s : joined_one uid (core s) (core (admit_join uid name o s)).
Proof.
  destruct (admit_join_core uid name o s) as (n & b & ->). split.
  - exists (Some (to_ascii_lowercase name)). intros u k.
    rewrite <-(on_chan_same _ _ _ _ (same_bump _ _)), <-(on_chan_same _ _ _ _ (same_hidden _ _ _ _)).
    rewrite on_chan_enter. naive_solver.
  - by destruct b.
Qed.

Lemma joined_rel_same uid c1 c2 c3 c4 :
  same_tables c1 c2 → joined_rel uid c2 c3 → same_tables c3 c4 → joined_rel uid c1 c4.
Proof.
  intros Hs [o Ho] Hs'. exists o. intros u k.
  rewrite <-(on_chan_same c3 c4) by done. rewrite Ho. by rewrite (on_chan_same c1 c2).
Qed.

Lemma join_fuel_one fuel uid name ka s s' :
  join_fuel fuel uid name ka s = Some s' → joined_one uid (core s) (core s').
Proof.
  revert name ka s s'. induction fuel as [|fuel IH]; intros name ka s s'; [done|].
  cbn [join_fuel]. pose proof (join_gate_core uid name ka s) as Hc.
  destruct (join_gate uid name ka s) as [s1|t s1|t s1|o s1] eqn:E; cbn in Hc;
    pose proof (flood_only_flags _ _ _ Hc) as (Hd & Hi & _); apply flood_only_same in Hc.
  - intros [= <-]. by apply joined_none.
  - intros (s2 & J & [= <-])%bind_Some. apply IH in J as J'.
    destruct J' as (_ & Hd2 & Hi2); cbn in *. split.
    + eapply joined_rel_same; [etrans; [exact Hc|]|eapply IH, J|]; by split.
    + cbn. rewrite Hd2, Hi2, Hd, Hi. split; [lia|done].
  - intros (s2 & J & [= <-])%bind_Some. apply join_gate_bounce in E.
    apply IH in J as J'. destruct J' as (_ & Hd2 & Hi2); cbn in *. split.
    + eapply joined_rel_same; [etrans; [exact Hc|]|eapply IH, J|]; by split.
    + cbn. by rewrite Hd2, Hd, E.
  - intros [= <-]. destruct (admit_join_one uid name o s1) as ([t Ht] & Hd2 & Hi2). split.
    + by eapply joined_rel_same; [exact Hc|by exists t|].
    + by rewrite Hd2, Hi2, Hd, Hi.
Qed.

(** ** The admission policy *)

Definition admits (g : Gate) (o : bool) : Prop := ∃ s', g = Admit o s'.

(** The restrictions an override holder may pass. *)
Definition restrictions (c : Core) (uid : Uid) (ch : Channel) (ka : option string) : list bool :=
  [wrong_key ch ka; banned c uid ch; uninvited c uid ch;
   secure_only (modes ch) && negb (map_or false u_secure (users c !! uid));
   encrypted (modes ch) && negb (has_cap c uid "echoircd/e2e");
   reg_only (modes ch) && map_or true (λ u, negb (is_some (u_account u))) (users c !! uid);
   is_some (rejoin_wait c uid ch); chan_full ch].

Definition restricted (c : Core) (uid : Uid) (k : string) (ka : option string) : bool :=
  map_or false (λ ch, existsb id (restrictions c uid ch ka)) (channels c !! k).

(** The checks that come before the channel's own modes. *)
Definition entry_ok (c : Core) (uid : Uid) (name : string) : bool :=
  let k := to_ascii_lowercase name in
  let ovr := has_priv c uid CHANNELS_OVERRIDE in
  valid_chan name (maxchannel c)
  && map_or false (λ u, negb (bool_decide (k ∈ u_channels u))) (users c !! uid)
  && (ovr || negb (too_many_chans c uid))
  && (ovr || negb (is_some (matched_cban c k)))
  && negb (is_some (denychans_hit c name (is_oper c uid)))
  && negb (restrictchans_blocks c name (has_priv c uid CHANNELS_RESTRICTED_CREATE))
  && negb (channames_blocks c name).

(** +O is a requirement nobody overrides. *)
Definition oper_ok (c : Core) (uid : Uid) (k : string) : bool :=
  map_or true (λ ch, negb (oper_only (modes ch)) || is_oper c uid) (channels c !! k).

Definition flood_locked (k : string) (s : Server) : bool := (joinflood_check k s).1.

Lemma restrict_admits ovr b refuse k o0 o :
  (∀ x, ¬ admits refuse x) →
  admits (restrict ovr b refuse k o0) o ↔ (b = true → ovr = true) ∧ admits (k (b || o0)) o.
Proof.
  intros Hr. unfold restrict. destruct b, ovr; cbn.
  - split; [by intros ?|by intros [_ ?]].
  - split; [by intros ?%Hr|]. intros [Hx _]. by specialize (Hx eq_refl).
  - split; [by intros ?|by intros [_ ?]].
  - split; [by intros ?|by intros [_ ?]].
Qed.

Lemma refuse_admits s o : ¬ admits (Refuse s) o.
Proof. by intros []. Qed.

Lemma ban_refusal_admits uid name k s o : ¬ admits (ban_refusal uid name k s) o.
Proof. unfold ban_refusal. case_match; by intros []. Qed.

Lemma admit_admits o o' s : admits (Admit o s) o' ↔ o' = o.
Proof. split; [by intros [? [= <- _]]|intros ->; by eexists]. Qed.

Lemma entry_gate_admits uid name s o :
  admits (entry_gate uid name s) o ↔ entry_ok (core s) uid name = true ∧ o = false.
Proof.
  unfold entry_gate, entry_ok. set (c := core s). cbn zeta.
  destruct (valid_chan _ _); cbn [negb andb]; [|by split; [intros []|intros []]].
  destruct (users c !! uid) as [u|]; cbn [map_or]; [|by split; [intros []|intros []]].
  destruct (bool_decide _); cbn [negb andb]; [by split; [intros []|intros []]|].
  destruct (has_priv c uid CHANNELS_OVERRIDE); cbn [negb andb orb is_some].
  all: destruct (too_many_chans c uid); cbn [negb andb]; try by split; [intros []|intros []].
  all: try (destruct (matched_cban c _); cbn [is_some negb andb]; [by split; [intros []|intros []]|]).
  all: destruct (denychans_hit _ _ _) as [bc|]; cbn [is_some negb andb];
    [by destruct (denychans_redirect _ _ _); split; [intros []|intros []|intros []|intros []]|].
  all: destruct (restrictchans_blocks _ _ _); cbn [negb andb]; [by split; [intros []|intros []]|].
  all: destruct (channames_blocks _ _); cbn [negb andb]; [by split; [intros []|intros []]|].
  all: rewrite admit_admits; naive_solver.
Qed.

(** The restrictions checked before +l. *)
Definition mode_restrictions (c : Core) (uid : Uid) (ch : Channel) (ka : option string) : list bool :=
  removelast (restrictions c uid ch ka).

Lemma mode_gate_admits uid name ka s o :
  admits (mode_gate uid name ka s) o ↔
  match channels (core s) !! to_ascii_lowercase name with
  | None => o = false
  | Some ch =>
      let r := existsb id (mode_restrictions (core s) uid ch ka) in
      o = r ∧ (r = true → has_priv (core s) uid CHANNELS_OVERRIDE = true)
      ∧ (oper_only (modes ch) = true → is_oper (core s) uid = true)
  end.
Proof.
  unfold mode_gate. set (c := core s). cbn zeta.
  destruct (channels c !! _) as [ch|]; [|by rewrite admit_admits].
  set (ovr := has_priv c uid CHANNELS_OVERRIDE).
  rewrite !restrict_admits by (intros; apply refuse_admits || apply ban_refusal_admits).
  unfold mode_restrictions, restrictions; cbn [removelast existsb id].
  set (b1 := wrong_key _ _). set (b2 := banned _ _ _). set (b3 := uninvited _ _ _).
  set (b4 := _ && negb (map_or _ u_secure _)). set (b5 := _ && negb (has_cap _ _ _)).
  destruct (oper_only (modes ch) && negb (is_oper c uid)) eqn:Eo.
  - apply andb_true_iff in Eo as [Eo1 Eo2%negb_true_iff]. split.
    + intros (_ & _ & _ & _ & _ & Ha). by apply refuse_admits in Ha.
    + intros (_ & _ & Ho). specialize (Ho Eo1). congruence.
  - rewrite !restrict_admits by (intros; apply refuse_admits). rewrite admit_admits.
    set (b6 := _ && map_or _ _ _). set (b7 := is_some _).
    assert (oper_only (modes ch) = true → is_oper c uid = true) as Ho
      by (destruct (oper_only _), (is_oper _ _); done).
    destruct b1, b2, b3, b4, b5, b6, b7; cbn; naive_solver.
Qed.

Lemma limit_gate_admits uid name o s o' :
  admits (limit_gate uid name o s) o' ↔
  match channels (core s) !! to_ascii_lowercase name with
  | None => o' = o
  | Some ch =>
      o' = chan_full ch || o
      ∧ (chan_full ch = true → has_priv (core s) uid CHANNELS_OVERRIDE = true)
  end.
Proof.
  unfold limit_gate. destruct (channels _ !! _) as [ch|]; [|by rewrite admit_admits].
  destruct (chan_full ch); cbn [negb orb]; [|rewrite admit_admits; naive_solver].
  destruct (has_priv _ _ _); [rewrite admit_admits; naive_solver|].
  split; [|by intros [_ Hx]; specialize (Hx eq_refl)].
  by case_match; intros [].
Qed.

Lemma flood_gate_admits uid name o s o' :
  admits (flood_gate uid name o s) o' ↔
  o' = o ∧ (has_priv (core s) uid CHANNELS_OVERRIDE = false →
            flood_locked (to_ascii_lowercase name) s = false).
Proof.
  unfold flood_gate, flood_locked. destruct (has_priv _ _ _); [rewrite admit_admits; naive_solver|].
  destruct (joinflood_check _ s) as [[] s']; cbn; [|rewrite admit_admits; naive_solver].
  split; [by intros []|]. by intros [_ Hx]; specialize (Hx eq_refl).
Qed.

(** Sequencing, when the second check reads only the core the first leaves. *)
Lemma then_gate_admits g f c (Q : bool → Prop) o' :
  core (gate_server g) = c → (∀ o s, core s = c → admits (f o s) o' ↔ Q o) →
  admits (then_gate g f) o' ↔ ∃ o, admits g o ∧ Q o.
Proof.
  intros Hc Hf. destruct g as [s|t s|t s|o s]; cbn in *.
  1-3: split; [by intros []|by intros (? & [] & _)].
  rewrite Hf by done. split; [intros ?; exists o; split; [by eexists|done]|].
  by intros (? & [? [= <- _]] & ?).
Qed.

(** The lockout of +j reads only the core. *)
Lemma flood_locked_core k s s' : core s = core s' → flood_locked k s = flood_locked k s'.
Proof.
  intros E. unfold flood_locked, joinflood_check. rewrite E. by repeat case_match.
Qed.

(** Exactly who is admitted, and when the override is recorded. *)
Lemma join_gate_admits uid name ka s o :
  let c := core s in let k := to_ascii_lowercase name in
  let ovr := has_priv c uid CHANNELS_OVERRIDE in
  admits (join_gate uid name ka s) o ↔
  entry_ok c uid name = true ∧ oper_ok c uid k = true ∧ o = restricted c uid k ka
  ∧ (o = true → ovr = true) ∧ (ovr = false → flood_locked k s = false).
Proof.
  cbn zeta. set (k := to_ascii_lowercase name).
  set (ovr := has_priv (core s) uid CHANNELS_OVERRIDE). set (c := core s).
  unfold join_gate.
  rewrite (then_gate_admits _ _ c (λ _, ∃ o2, match channels c !! k with
      | None => o2 = false
      | Some ch => let r := existsb id (mode_restrictions c uid ch ka) in
          o2 = r ∧ (r = true → ovr = true) ∧ (oper_only (modes ch) = true → is_oper c uid = true)
      end ∧ ∃ o3, match channels c !! k with
      | None => o3 = o2
      | Some ch => o3 = chan_full ch || o2 ∧ (chan_full ch = true → ovr = true)
      end ∧ o = o3 ∧ (ovr = false → flood_locked k s = false))).
  - setoid_rewrite entry_gate_admits. fold c. unfold oper_ok, restricted.
    destruct (channels c !! k) as [ch|]; cbn [map_or]; [|naive_solver].
    assert (existsb id (restrictions c uid ch ka)
            = chan_full ch || existsb id (mode_restrictions c uid ch ka)) as ->.
    { unfold mode_restrictions, restrictions; cbn. generalize (chan_full ch).
      intros []; cbn; rewrite ?orb_true_r, ?orb_false_r; by rewrite ?orb_true_r. }
    destruct (existsb _ _), (chan_full ch), (oper_only (modes ch)), (is_oper c uid), ovr; naive_solver.
  - apply entry_gate_core.
  - intros o1 s1 C1. rewrite (then_gate_admits _ _ c (λ o2, ∃ o3, match channels c !! k with
      | None => o3 = o2
      | Some ch => o3 = chan_full ch || o2 ∧ (chan_full ch = true → ovr = true)
      end ∧ o = o3 ∧ (ovr = false → flood_locked k s = false))).
    + setoid_rewrite mode_gate_admits. by rewrite C1.
    + by rewrite mode_gate_core.
    + intros o2 s2 C2.
      rewrite (then_gate_admits _ _ c (λ o3, o = o3 ∧ (ovr = false → flood_locked k s = false))).
      * setoid_rewrite limit_gate_admits. by rewrite C2.
      * by rewrite limit_gate_core.
      * intros o3 s3 C3. rewrite flood_gate_admits, C3. by rewrite (flood_locked_core _ s3 s).
Qed.

(** ** The tables after a join *)

Lemma admit_join_wf uid name o s :
  uget u_registered (core s) uid = Some true → wf (core s) →
  wf (core (admit_join uid name o s))
  ∧ uget u_registered (core (admit_join uid name o s)) uid = Some true.
Proof.
  intros Hr W. destruct (admit_join_core uid name o s) as (n & b & ->). split.
  - eapply wf_proper; [apply same_bump|]. eapply wf_proper; [apply same_hidden|]. by apply enter_wf.
  - rewrite <-Hr. destruct b.
    all: change (uget u_registered (bump n _) uid) with (uget u_registered (enter uid name (core s)) uid).
    all: unfold enter; cbn zeta; by rewrite uget_with_user_ne.
Qed.

Lemma join_fuel_wf fuel uid name ka s s' :
  join_fuel fuel uid name ka s = Some s' →
  uget u_registered (core s) uid = Some true → wf (core s) →
  wf (core s') ∧ uget u_registered (core s') uid = Some true.
Proof.
  revert name ka s s'. induction fuel as [|fuel IH]; intros name ka s s'; [done|].
  cbn [join_fuel]. pose proof (join_gate_core uid name ka s) as Hc.
  destruct (join_gate uid name ka s) as [s1|t s1|t s1|o s1] eqn:E; cbn in Hc;
    pose proof (flood_only_flags _ _ _ Hc) as (_ & _ & Hu); apply flood_only_same in Hc;
    intros HJ Hr W; unfold uget in Hr; rewrite <-Hu in Hr;
    (assert (wf (core s1)) as W1 by (by eapply wf_proper)).
  - by injection HJ as <-.
  - apply bind_Some in HJ as (s2 & HJ & [= <-]). apply IH in HJ as [HJ ?]; [|done|].
    + split; [|done]. eapply wf_proper, HJ. by split.
    + eapply wf_proper, W1. by split.
  - apply bind_Some in HJ as (s2 & HJ & [= <-]). apply IH in HJ as [HJ ?]; [|done|].
    + split; [|done]. eapply wf_proper, HJ. by split.
    + eapply wf_proper, W1. by split.
  - injection HJ as <-. by apply admit_join_wf.
Qed.

(** A channel [uid] ends up in was admitted by the gates, in a state with the
    same users and channels up to the redirect flags and join-flood counters. *)
Lemma join_fuel_admitted fuel uid name ka s s' k :
  join_fuel fuel uid name ka s = Some s' → on_chan (core s') uid k → ¬ on_chan (core s) uid k →
  ∃ name' ka' s1 o, to_ascii_lowercase name' = k ∧ same_tables (core s) (core s1)
    ∧ users (core s1) = users (core s) ∧ admits (join_gate uid name' ka' s1) o.
Proof.
  revert name ka s s'. induction fuel as [|fuel IH]; intros name ka s s'; [done|].
  cbn [join_fuel]. pose proof (join_gate_core uid name ka s) as Hc.
  destruct (join_gate uid name ka s) as [s1|t s1|t s1|o s1] eqn:E; cbn in Hc;
    pose proof (flood_only_flags _ _ _ Hc) as (_ & _ & Hu); apply flood_only_same in Hc;
    intros HJ Hon Hoff.
  - injection HJ as <-. by rewrite <-(on_chan_same (core s)) in Hon.
  - apply bind_Some in HJ as (s2 & HJ & [= <-]).
    eapply IH in HJ as (n' & k' & s3 & o & ? & Hs & Hu3 & ?).
    + exists n', k', s3, o. split_and!; try done; [|by rewrite Hu3].
      etrans; [exact Hc|]. etrans; [|exact Hs]. by split.
    + exact Hon.
    + intros Ho. apply Hoff. by rewrite (on_chan_same (core s) (core s1)).
  - apply bind_Some in HJ as (s2 & HJ & [= <-]).
    eapply IH in HJ as (n' & k' & s3 & o & ? & Hs & Hu3 & ?).
    + exists n', k', s3, o. split_and!; try done; [|by rewrite Hu3].
      etrans; [exact Hc|]. etrans; [|exact Hs]. by split.
    + exact Hon.
    + intros Ho. apply Hoff. by rewrite (on_chan_same (core s) (core s1)).
  - injection HJ as <-. exists name, ka, s, o. split_and!; try done; [|by eexists].
    destruct (admit_join_core uid name o s1) as (n & b & Eq). rewrite Eq in Hon.
    rewrite <-(on_chan_same _ _ _ _ (same_bump _ _)), <-(on_chan_same _ _ _ _ (same_hidden _ _ _ _)) in Hon.
    apply on_chan_enter in Hon as [Hon|[_ ->]]; [|done].
    by rewrite <-(on_chan_same (core s)) in Hon.
Qed.

Lemma join_wf uid name ka s :
  uget u_registered (core s) uid = Some true → wf (core s) →
  wf (core (join uid name ka s)) ∧ uget u_registered (core (join uid name ka s)) uid = Some true.
Proof.
  intros Hr W. unfold join.
  destruct (join_fuel_some JOIN_FUEL uid name ka s (redirects_left_max _)) as [s' E].
  rewrite E. by eapply join_fuel_wf.
Qed.
End join.
