(* ===== verification/LeaveFacts.v ===== *)
(** * Leaving and renaming

    PART and its forced forms, kicks, CYCLE and RENAME: what each does to the
    membership tables, and that none of them leaves a dead channel behind. *)

From Stdlib Require Import Ascii.
From S2P Require Import Prelude RustStr Glob I18n Channel State Mode CoreMode Watch Users.
From S2P Require Import Ban Membership CoreChannel Tables ModeTables MembershipTables JoinFacts.

Local Open Scope stdpp_scope.

Section leave.
Context `{UnicodeLower} `{Outside}.

(** The core after the table half of a departure. *)
Definition left_tables (uid : Uid) (k : string) (c : Core) : Core :=
  retain_alive (drop_member uid k c).

Lemma part_core uid target reason s :
  core (part uid target reason s).2
  = if (part uid target reason s).1 then left_tables uid (to_ascii_lowercase target) (core s)
    else core s.
Proof.
  unfold part. destruct (users (core s) !! uid) as [u|]; [|done].
  case_match; [|done]. cbn [fst snd]. rewrite push_event_outputs. cbn [core upd update_field].
  unfold left_tables. cbn. rewrite propagate_part_outputs. case_match; by frame.
Qed.

Lemma force_part_core uid chan reason s s' :
  force_part uid chan reason s = Some s' →
  core s' = if is_member (core s) uid (to_ascii_lowercase chan)
            then left_tables uid (to_ascii_lowercase chan) (core s) else core s.
Proof.
  unfold force_part. destruct (is_member _ _ _); cbn [negb]; [|by intros [= <-]].
  intros (u & _ & [= <-])%bind_Some. cbn [core upd update_field]. unfold left_tables. cbn.
  rewrite propagate_part_outputs. case_match; by frame.
Qed.

Lemma add_flood_ban_same k mask c : same_tables c (add_flood_ban k mask c).
Proof. apply same_with_chan. intros ch. by case_match. Qed.

Lemma left_tables_wf uid k c : wf c → wf (left_tables uid k c).
Proof. apply part_tables_wf. Qed.

Lemma flood_kick_wf uid k ban s : wf (core s) → wf (core (flood_kick uid k ban s)).
Proof.
  intros W. unfold flood_kick. destruct (users (core s) !! uid) as [u|]; [|done]. cbn zeta.
  rewrite push_event_outputs. cbn [core upd update_field]. apply part_tables_wf.
  frame. destruct ban; [|done]. eapply wf_proper, W. apply add_flood_ban_same.
Qed.

Lemma note_kick_same tuid k c : same_tables c (note_kick tuid k c).
Proof. apply same_with_chan. intros ch. by case_match. Qed.

(** ** Channels that survive are alive *)

Definition all_alive (c : Core) : Prop := ∀ k ch, channels c !! k = Some ch → keep_alive ch = true.

Lemma left_tables_alive uid k c : all_alive (left_tables uid k c).
Proof.
  intros k' ch. unfold left_tables, retain_alive; cbn. rewrite lookup_retain_map.
  by intros [_ ?]%opt_filter_Some.
Qed.

(** ** Renaming *)

Lemma move_fold_uget {A} (p : User → A) (g : A → A) old new c l i :
  (∀ u, p (u <| u_channels ::= (λ s, {[new]} ∪ s ∖ {[old]}) |>) = g (p u)) → NoDup l →
  uget p (foldl (move_user_chan old new) c l) i
  = if decide (i ∈ l) then g <$> uget p c i else uget p c i.
Proof.
  intros Hp. revert c. induction l as [|m l IH]; intros c Hnd; cbn [foldl]; [done|].
  apply NoDup_cons in Hnd as [Hm Hnd]. rewrite IH by done. unfold move_user_chan.
  rewrite (uget_with_user p g) by done.
  destruct (decide (m = i)) as [->|Hne].
  - rewrite decide_False by done. by rewrite decide_True by set_solver.
  - destruct (decide (i ∈ l)); [by rewrite decide_True by set_solver|].
    by rewrite decide_False by set_solver.
Qed.

Lemma move_fold_channels old new c l :
  channels (foldl (move_user_chan old new) c l) = channels c.
Proof. revert c. by induction l as [|m l IH]; intros c; cbn; [|rewrite IH]. Qed.

Lemma move_fold_rest old new c l : same_rest c (foldl (move_user_chan old new) c l).
Proof.
  revert c. induction l as [|m l IH]; intros c; cbn; [done|]. etrans; [|apply IH].
  by apply same_rest_with_user.
Qed.

(** The move of a channel to a new key, as memberships. *)
Definition moved (old new : string) (R : Uid → string → Prop) (u : Uid) (k : string) : Prop :=
  (k = new ∧ R u old) ∨ (k ≠ old ∧ k ≠ new ∧ R u k).

Section rename.
Context (old newname : string) (ch : Channel) (c : Core).
Let new := to_ascii_lowercase newname.
Hypothesis Hch : channels c !! old = Some ch.
Hypothesis Hne : new ≠ old.
Hypothesis Hfree : channels c !! new = None.

Let c' := rename_tables old newname ch c.

Lemma rename_unfold :
  c' = rekey_channel_state old new (foldl (move_user_chan old new)
         (c <| channels ::= (λ m, <[new := ch <| ch_name := newname |>]> (delete old m)) |>)
         (elements (dom (members ch)))).
Proof.
  unfold c', rename_tables. cbn zeta. fold new. by destruct (String.eqb_spec new old).
Qed.

Lemma rename_channels :
  channels c' = <[new := ch <| ch_name := newname |>]> (delete old (channels c)).
Proof. rewrite rename_unfold. unfold rekey_channel_state; cbn. by rewrite move_fold_channels. Qed.

Lemma on_chan_rename u k : on_chan c' u k ↔ moved old new (on_chan c) u k.
Proof.
  unfold on_chan, moved, cget. rewrite rename_channels.
  destruct (decide (k = new)) as [->|Hk]; [|destruct (decide (k = old)) as [->|Hk']].
  - rewrite lookup_insert_eq, Hch. cbn. naive_solver.
  - rewrite lookup_insert_ne, lookup_delete_eq by done. naive_solver.
  - rewrite lookup_insert_ne, lookup_delete_ne by done. naive_solver.
Qed.

Lemma rename_uget {A} (p : User → A) (g : A → A) i :
  (∀ u, p (u <| u_channels ::= (λ s, {[new]} ∪ s ∖ {[old]}) |>) = g (p u)) →
  uget p c' i = if decide (i ∈ dom (members ch)) then g <$> uget p c i else uget p c i.
Proof.
  intros Hp. rewrite rename_unfold. unfold rekey_channel_state.
  change (uget p ?x i) with (p <$> users x !! i); cbn.
  change (p <$> users ?x !! i) with (uget p x i).
  rewrite (move_fold_uget p g) by (done || apply NoDup_elements).
  destruct (decide (i ∈ dom (members ch))); [rewrite decide_True by set_solver|
    rewrite decide_False by set_solver]; done.
Qed.

Lemma in_list_rename u k :
  mem_inv c → in_list c' u k ↔ moved old new (in_list c) u k.
Proof.
  intros M. unfold in_list at 1. rewrite (rename_uget u_channels (λ s, {[new]} ∪ s ∖ {[old]})) by done.
  assert (¬ in_list c u new) as Hnew.
  { rewrite <-(M u new). intros (d & Hd & _). unfold cget in Hd. by rewrite Hfree in Hd. }
  assert (in_list c u old ↔ u ∈ dom (members ch)) as Hold.
  { rewrite <-(M u old). unfold on_chan, cget. rewrite Hch. cbn. unfold chan_dom. naive_solver. }
  unfold moved. case_decide as Hd.
  - apply Hold in Hd as (l & Hl & Hin). rewrite Hl; cbn. split.
    + intros (? & [= <-] & [->%elem_of_singleton|[Hk Hk']%elem_of_difference]%elem_of_union).
      * left. split; [done|]. by exists l.
      * right. split; [set_solver|]. split; [|by exists l]. intros ->. apply Hnew. by exists l.
    + intros [[-> _]|(Hk & Hk' & l' & Hl' & Hin')]; eexists; (split; [done|]); [set_solver|].
      rewrite Hl in Hl'. injection Hl' as <-. set_solver.
  - split.
    + intros (l & Hl & Hin). right. split_and!; [| |by exists l].
      * intros ->. apply Hd, Hold. by exists l.
      * intros ->. apply Hnew. by exists l.
    + intros [[-> Ho]|(_ & _ & Hi)]; [by apply Hold in Ho|done].
Qed.

Lemma rename_rest : same_rest c c'.
Proof.
  rewrite rename_unfold.
  transitivity (c <| channels ::= (λ m, <[new := ch <| ch_name := newname |>]> (delete old m)) |>);
    [by split|].
  etrans; [apply (move_fold_rest old new _ (elements (dom (members ch))))|]. by split.
Qed.

Lemma rename_tables_wf : wf c → wf c'.
Proof.
  intros W. apply (wf_membership c); [apply rename_rest| | | | |done].
  - intros u k. rewrite on_chan_rename, in_list_rename by apply W. unfold moved.
    by rewrite (wf_mem _ W u old), (wf_mem _ W u k).
  - intros k name. unfold cget. rewrite rename_channels.
    destruct (decide (k = new)) as [->|Hk]; [rewrite lookup_insert_eq; cbn; by intros [= <-]|].
    rewrite lookup_insert_ne by done. destruct (decide (k = old)) as [->|Hk'].
    + by rewrite lookup_delete_eq.
    + rewrite lookup_delete_ne by done. apply (wf_key _ W k name).
  - intros i l. rewrite (rename_uget _ (prod_map id (λ s, {[new]} ∪ s ∖ {[old]}))) by done.
    case_decide as Hd; [|apply (wf_unreg _ W)].
    destruct (uget _ c i) as [[b l']|] eqn:E; [|done]. cbn. intros [= -> <-].
    apply (wf_unreg _ W) in E as El. subst l'. exfalso.
    assert (in_list c i old) as (l & Hl & Hin).
    { rewrite <-(wf_mem _ W i old). unfold on_chan, cget. rewrite Hch. by exists (dom (members ch)). }
    unfold uget in E, Hl. destruct (users c !! i); [|done]. cbn in *. set_solver.
  - intros k d uuid Hk. assert (remote_users c' = remote_users c) as ->.
    { pose proof (sr_net _ _ rename_rest). congruence. }
    revert Hk. unfold cget. rewrite rename_channels. destruct (decide (k = new)) as [->|Hkn].
    + rewrite lookup_insert_eq. cbn. intros [= <-]. apply (wf_rmem _ W old). unfold cget. by rewrite Hch.
    + rewrite lookup_insert_ne by done. destruct (decide (k = old)) as [->|Hk'].
      * by rewrite lookup_delete_eq.
      * rewrite lookup_delete_ne by done. apply (wf_rmem _ W k d uuid).
Qed.
End rename.
End leave.
