(* ===== verification/ListFacts.v ===== *)
(** * Personal lists and their reverse indexes

    [watch_by] and [monitor_by] mirror the WATCH and MONITOR lists exactly, and
    [accepted_nicks] never undercounts the accept lists, under every operation
    on the lists. *)

From Stdlib Require Import Ascii.
From S2P Require Import Prelude RustStr Glob I18n Channel State CoreMode Watch Users Tables ModeTables.

Local Open Scope stdpp_scope.

(** ** Reverse indexes *)

Definition indexed (m : Index) (n : string) (uid : Uid) : Prop :=
  ∃ set, m !! n = Some set ∧ uid ∈ set.

Definition no_empty (m : Index) : Prop := ∀ n, m !! n ≠ Some ∅.

Lemma indexed_add n uid m n' u :
  indexed (index_add n uid m) n' u ↔ indexed m n' u ∨ (n' = n ∧ u = uid).
Proof.
  unfold indexed, index_add. destruct (decide (n = n')) as [<-|Hne].
  - rewrite lookup_insert_eq. destruct (m !! n) as [set|]; cbn; split.
    + intros (? & [= <-] & [?%elem_of_singleton|?]%elem_of_union); [by right|left; eauto].
    + intros [(? & [= <-] & ?)|[_ ->]]; eexists; (split; [done|]); set_solver.
    + intros (? & [= <-] & [?%elem_of_singleton|?]%elem_of_union); [by right|set_solver].
    + intros [(? & ? & ?)|[_ ->]]; [done|]. eexists; (split; [done|]); set_solver.
  - rewrite lookup_insert_ne by done. split; [by left|]. by intros [?|[-> _]].
Qed.

Lemma indexed_del n uid m n' u :
  indexed (index_del n uid m) n' u ↔ indexed m n' u ∧ ¬ (n' = n ∧ u = uid).
Proof.
  unfold indexed, index_del. destruct (m !! n) as [set|] eqn:E.
  2: { split; [|by intros [? _]]. intros Hx. split; [done|]. intros [-> _].
       destruct Hx as (? & Hx & _). congruence. }
  destruct (decide (n = n')) as [<-|Hne].
  - case_bool_decide as Hs; [rewrite lookup_delete_eq|rewrite lookup_insert_eq]; split.
    + by intros (? & ? & _).
    + intros [(? & Hx & Hin) Hn]. rewrite E in Hx. injection Hx as <-. set_solver.
    + intros (? & [= <-] & Hin). split; [exists set|]; set_solver.
    + intros [(? & Hx & Hin) Hn]. rewrite E in Hx. injection Hx as <-.
      eexists; (split; [done|]); set_solver.
  - case_bool_decide; [rewrite lookup_delete_ne by done|rewrite lookup_insert_ne by done].
    all: split; [by intros ?; split; [|intros [-> _]]|by intros [? _]].
Qed.

Lemma no_empty_add n uid m : no_empty m → no_empty (index_add n uid m).
Proof.
  intros Hm n'. unfold index_add. destruct (decide (n = n')) as [<-|Hne].
  - rewrite lookup_insert_eq. intros [= Hx]. set_solver.
  - by rewrite lookup_insert_ne.
Qed.

Lemma no_empty_del n uid m : no_empty m → no_empty (index_del n uid m).
Proof.
  intros Hm n'. unfold index_del. destruct (m !! n) as [set|]; [|done].
  destruct (decide (n = n')) as [<-|Hne]; case_bool_decide as Hs.
  - by rewrite lookup_delete_eq.
  - rewrite lookup_insert_eq. by intros [= Hx].
  - by rewrite lookup_delete_ne.
  - by rewrite lookup_insert_ne.
Qed.

Lemma indexed_del_all l uid m n' u :
  indexed (foldl (λ m n, index_del n uid m) m l) n' u ↔ indexed m n' u ∧ ¬ (n' ∈ l ∧ u = uid).
Proof.
  revert m. induction l as [|n l IH]; intros m; cbn [foldl].
  - split; [|by intros [? _]]. intros ?. split; [done|]. intros [?%elem_of_nil _]. done.
  - rewrite IH, indexed_del, elem_of_cons. tauto.
Qed.

Lemma no_empty_del_all l uid m : no_empty m → no_empty (foldl (λ m n, index_del n uid m) m l).
Proof. revert m. induction l as [|n l IH]; intros m Hm; cbn; [done|]. by apply IH, no_empty_del. Qed.

(** ** The lists *)

Lemma contains_str_spec x l : contains_str x l = true ↔ x ∈ l.
Proof.
  unfold contains_str. rewrite existsb_elem. split.
  - by intros (y & Hy & ->%String.eqb_eq).
  - intros Hx. exists x. by rewrite String.eqb_refl.
Qed.

Lemma elem_of_without y x l : y ∈ without x l ↔ y ∈ l ∧ y ≠ x.
Proof. unfold without. by rewrite elem_of_retain, negb_true_iff, String.eqb_neq. Qed.

Lemma without_length x l : length (without x l) = length l → x ∉ l.
Proof.
  unfold without. induction l as [|y l IH]; cbn; [by intros _ ?%elem_of_nil|].
  destruct (String.eqb_spec y x) as [->|Hne]; cbn; intros Hl.
  - pose proof (retain_length (λ y, negb (String.eqb y x)) l). lia.
  - intros [->|Hin]%elem_of_cons; [done|]. by apply IH in Hin; [|lia].
Qed.

(** How the mirror follows a change of one user's list. *)
Lemma mirrors_list (p : User → list string) m m' c c' uid l l' :
  uget p c uid = Some l → uget p c' uid = Some l' →
  (∀ i, i ≠ uid → uget p c' i = uget p c i) →
  (∀ n u, indexed m' n u ↔ if decide (u = uid) then n ∈ l' else indexed m n u) →
  no_empty m' → mirrors m p c → mirrors m' p c'.
Proof.
  intros Hl Hl' Hi Hm He [M _]. split; [|done]. intros n u. fold (indexed m' n u). rewrite Hm.
  destruct (decide (u = uid)) as [->|Hne].
  - rewrite Hl'. naive_solver.
  - rewrite Hi by done. apply M.
Qed.

Lemma mirrors_indexed (p : User → list string) m c uid l n :
  mirrors m p c → uget p c uid = Some l → indexed m n uid ↔ n ∈ l.
Proof. intros [M _] Hl. unfold indexed. rewrite M, Hl. naive_solver. Qed.

(** ** WATCH and MONITOR *)

Lemma uget_list {A} (p : User → A) f uid c u :
  users c !! uid = Some u → uget p (with_user uid f c) uid = Some (p (f u)).
Proof. intros Hu. unfold uget, with_user; cbn. by rewrite lookup_alter_eq, Hu. Qed.

Lemma uget_other {A} (p : User → A) f uid c i :
  i ≠ uid → uget p (with_user uid f c) i = uget p c i.
Proof. intros Hi. unfold uget, with_user; cbn. by rewrite lookup_alter_ne by congruence. Qed.

Lemma uget_some {A} (p : User → A) c uid u : users c !! uid = Some u → uget p c uid = Some (p u).
Proof. unfold uget. by intros ->. Qed.

Section mirror.
Context (p : User → list string) (set : list string → User → User).
Hypothesis p_set : ∀ l u, p (set l u) = l.
Context (m : Index) (c : Core) (uid : Uid) (u : User).
Hypothesis Hu : users c !! uid = Some u.
Hypothesis M : mirrors m p c.

(** Appending an entry that was absent. *)
Lemma mirrors_add low f :
  (∀ v, f v = set (p v ++ [low]) v) → low ∉ p u →
  mirrors (index_add low uid m) p (with_user uid f c).
Proof.
  intros Hf Hlow.
  eapply (mirrors_list p m _ c _ uid (p u) (p u ++ [low])); try done.
  - by apply uget_some.
  - erewrite uget_list by done. by rewrite Hf, p_set.
  - intros. by apply uget_other.
  - intros n v. rewrite indexed_add. case_decide as Hd; [subst v|naive_solver].
    rewrite (mirrors_indexed p m c uid (p u)) by (done || by apply uget_some). set_solver.
  - apply no_empty_add. exact (proj2 M).
Qed.

(** Removing entries [l] from the list and from the index. *)
Lemma mirrors_remove l l' f :
  (∀ v, f v = set l' v) → (∀ n, n ∈ l' ↔ n ∈ p u ∧ n ∉ l) →
  mirrors (foldl (λ m n, index_del n uid m) m l) p (with_user uid f c).
Proof.
  intros Hf Hl.
  eapply (mirrors_list p m _ c _ uid (p u) l'); try done.
  - by apply uget_some.
  - erewrite uget_list by done. by rewrite Hf, p_set.
  - intros. by apply uget_other.
  - intros n v. rewrite indexed_del_all. case_decide as Hd; [subst v|naive_solver].
    rewrite (mirrors_indexed p m c uid (p u)) by (done || by apply uget_some). rewrite Hl. naive_solver.
  - apply no_empty_del_all. exact (proj2 M).
Qed.

(** A list that did not change needs no change of the index. *)
Lemma mirrors_keep l' f :
  (∀ v, f v = set l' v) → (∀ n, n ∈ l' ↔ n ∈ p u) → mirrors m p (with_user uid f c).
Proof. intros Hf Hl. apply (mirrors_remove [] l' f Hf). set_solver. Qed.
End mirror.

Definition put_watch (l : list string) (u : User) : User := u <| u_watch := l |>.
Definition put_monitor (l : list string) (u : User) : User := u <| u_monitor := l |>.

Lemma watch_index_add_wf uid low c : wf c → wf (watch_index_add uid low c).
Proof.
  intros W. unfold watch_index_add. destruct (users c !! uid) as [u|] eqn:Hu; [|done].
  destruct (contains_str low (u_watch u)) eqn:E; [done|].
  split; try keep W.
  apply (mirrors_add u_watch put_watch) with (u := u); try done; [apply W|].
  rewrite <-contains_str_spec. congruence.
Qed.

Lemma monitor_index_add_wf uid low c : wf c → wf (monitor_index_add uid low c).
Proof.
  intros W. unfold monitor_index_add. destruct (users c !! uid) as [u|] eqn:Hu; [|done].
  destruct (contains_str low (u_monitor u)) eqn:E; [done|].
  split; try keep W.
  apply (mirrors_add u_monitor put_monitor) with (u := u); try done; [apply W|].
  rewrite <-contains_str_spec. congruence.
Qed.

Lemma watch_index_remove_wf uid low c : wf c → wf (watch_index_remove uid low c).
Proof.
  intros W. unfold watch_index_remove. destruct (users c !! uid) as [u|] eqn:Hu; [|done].
  case_match eqn:E; split; try keep W.
  - apply Nat.eqb_eq, without_length in E.
    eapply (mirrors_keep u_watch put_watch) with (u := u); try done; [apply W|].
    intros n. rewrite elem_of_without. set_solver.
  - eapply (mirrors_remove u_watch put_watch) with (u := u) (l := [low]); try done; [apply W|].
    intros n. rewrite elem_of_without. set_solver.
Qed.

Lemma monitor_index_remove_wf uid low c : wf c → wf (monitor_index_remove uid low c).
Proof.
  intros W. unfold monitor_index_remove. destruct (users c !! uid) as [u|] eqn:Hu; [|done].
  case_match eqn:E; split; try keep W.
  - apply Nat.eqb_eq, without_length in E.
    eapply (mirrors_keep u_monitor put_monitor) with (u := u); try done; [apply W|].
    intros n. rewrite elem_of_without. set_solver.
  - eapply (mirrors_remove u_monitor put_monitor) with (u := u) (l := [low]); try done; [apply W|].
    intros n. rewrite elem_of_without. set_solver.
Qed.

Lemma foldl_watch_by uid l c :
  foldl (λ c n, c <| watch_by ::= index_del n uid |>) c l
  = c <| watch_by ::= (λ m, foldl (λ m n, index_del n uid m) m l) |>.
Proof. revert c. induction l as [|n l IH]; intros c; cbn [foldl]; [by destruct c|]. by rewrite IH. Qed.

Lemma foldl_monitor_by uid l c :
  foldl (λ c n, c <| monitor_by ::= index_del n uid |>) c l
  = c <| monitor_by ::= (λ m, foldl (λ m n, index_del n uid m) m l) |>.
Proof. revert c. induction l as [|n l IH]; intros c; cbn [foldl]; [by destruct c|]. by rewrite IH. Qed.

Lemma watch_index_clear_wf uid c : wf c → wf (watch_index_clear uid c).
Proof.
  intros W. unfold watch_index_clear. destruct (users c !! uid) as [u|] eqn:Hu; [|done].
  rewrite foldl_watch_by. split; try keep W.
  eapply (mirrors_remove u_watch put_watch) with (u := u) (l' := []); try done; [apply W|].
  intros n. set_solver.
Qed.

Lemma monitor_index_clear_wf uid c : wf c → wf (monitor_index_clear uid c).
Proof.
  intros W. unfold monitor_index_clear. destruct (users c !! uid) as [u|] eqn:Hu; [|done].
  rewrite foldl_monitor_by. split; try keep W.
  eapply (mirrors_remove u_monitor put_monitor) with (u := u) (l' := []); try done; [apply W|].
  intros n. set_solver.
Qed.

(** ** ACCEPT *)

Lemma occ_app n l l' : occ n (l ++ l') = (occ n l + occ n l')%N.
Proof. induction l as [|x l IH]; cbn; [done|]. rewrite IH. lia. Qed.

Lemma occ_without n x l : occ n (without x l) = if String.eqb x n then 0%N else occ n l.
Proof.
  unfold without. induction l as [|y l IH]; cbn; [by case_match|].
  destruct (String.eqb_spec y x) as [->|Hne]; cbn; rewrite IH; [by destruct (String.eqb x n)|].
  destruct (String.eqb_spec x n) as [->|]; [|done]. by apply String.eqb_neq in Hne as ->.
Qed.

Lemma occ_0 n l : occ n l = 0%N ↔ n ∉ l.
Proof.
  induction l as [|y l IH]; cbn; [split; [by intros _ ?%elem_of_nil|done]|].
  rewrite elem_of_cons. destruct (String.eqb_spec y n) as [->|Hne].
  - split; [lia|]. intros Hn. exfalso. apply Hn. by left.
  - rewrite N.add_0_l, IH. intuition congruence.
Qed.

Lemma default_count_dec {K} `{Countable K} (k k' : K) (m : gmap K N) :
  default 0%N (count_dec k m !! k')
  = if decide (k = k') then (default 0 (m !! k) - 1)%N else default 0%N (m !! k').
Proof.
  unfold count_dec. destruct (m !! k) as [n|] eqn:E.
  - destruct (N.eqb_spec (n - 1) 0) as [H0|H0]; case_decide as Hd; subst.
    + by rewrite lookup_delete_eq.
    + by rewrite lookup_delete_ne.
    + by rewrite lookup_insert_eq.
    + by rewrite lookup_insert_ne.
  - case_decide; [subst; by rewrite E|done].
Qed.

Lemma default_count_add {K} `{Countable K} (k k' : K) d (m : gmap K N) :
  default 0%N (count_add k d m !! k')
  = if decide (k = k') then (default 0 (m !! k) + d)%N else default 0%N (m !! k').
Proof.
  unfold count_add. case_decide; [subst; by rewrite lookup_insert_eq|by rewrite lookup_insert_ne].
Qed.

Lemma accept_add_wf uid low c : wf c → wf (accept_add uid low c).
Proof.
  intros W. unfold accept_add. destruct (users c !! uid) as [u|] eqn:Hu; [|done].
  split; try keep W.
  intros n; cbn. rewrite default_count_add. pose proof (wf_accept _ W n) as Ha.
  pose proof (total_alter (λ u, occ n (u_accept u)) (λ u, u <| u_accept ::= (λ l, l ++ [low]) |>)
    uid (users c) u Hu) as Ht. cbn in Ht. rewrite occ_app in Ht. cbn in Ht.
  destruct (String.eqb_spec low n) as [->|Hne]; [rewrite decide_True by done|rewrite decide_False by done]; lia.
Qed.

Lemma accept_remove_wf uid low c : wf c → wf (accept_remove uid low c).
Proof.
  intros W. unfold accept_remove. destruct (users c !! uid) as [u|] eqn:Hu; [|done].
  set (l' := without low (u_accept u)).
  assert (∀ n, (total (λ u, occ n (u_accept u)) (alter (λ u, u <| u_accept := l' |>) uid (users c))
     + occ n (u_accept u) = total (λ u, occ n (u_accept u)) (users c) + occ n l')%N) as Ht.
  { intros n.
    pose proof (total_alter (λ u, occ n (u_accept u)) (λ u, u <| u_accept := l' |>) uid _ u Hu) as Ht.
    cbn in Ht. exact Ht. }
  case_match eqn:E; split; try keep W; intros n; specialize (Ht n); pose proof (wf_accept _ W n) as Ha;
    unfold l' in Ht at 2; rewrite occ_without in Ht; cbn in Ht |- *.
  - apply Nat.eqb_eq, without_length, occ_0 in E.
    destruct (String.eqb_spec low n) as [->|]; lia.
  - rewrite default_count_dec.
    destruct (String.eqb_spec low n) as [->|Hne]; [rewrite decide_True by done|rewrite decide_False by done; lia].
    assert (occ n (u_accept u) ≠ 0%N) as H0; [|lia].
    intros H0. apply occ_0 in H0. apply Nat.eqb_neq in E. apply E. unfold l', without.
    rewrite retain_id; [done|]. intros x Hx. apply negb_true_iff, String.eqb_neq. by intros ->.
Qed.

(** ** The commands *)

(** [KeepsWf f]: the operation preserves the consistency of the tables. *)
Class KeepsWf (f : Server → Server) := keeps_wf : ∀ s, wf (core s) → wf (core (f s)).

#[export] Instance stable_keeps f : StableTables f → KeepsWf f | 10.
Proof. intros Hf s. by apply stable_wf. Qed.

#[export] Instance for_each_keeps {A} (l : list A) f : (∀ x, KeepsWf (f x)) → KeepsWf (for_each l f).
Proof.
  intros Hf. unfold for_each. induction l as [|x l IH]; intros s W; cbn; [done|]. by apply IH, Hf.
Qed.

#[export] Instance watch_add_keeps uid nick : KeepsWf (watch_add uid nick).
Proof.
  intros s W. unfold watch_add. case_match; [done|]. case_match; [by frame|].
  unfold watch_status. case_match; frame; by apply watch_index_add_wf.
Qed.

#[export] Instance watch_status_outputs uid n : Outputs (watch_status uid n).
Proof. intros s. unfold watch_status. case_match; by frame. Qed.

#[export] Instance watch_list_outputs uid b : Outputs (watch_list uid b).
Proof.
  intros s. unfold watch_list. rewrite numeric_outputs. apply for_each_outputs. intros n s'.
  case_match; [apply watch_status_outputs|done].
Qed.

#[export] Instance watch_token_keeps uid tok : KeepsWf (watch_token uid tok).
Proof.
  intros s W. unfold watch_token.
  case_match; [frame; by apply watch_index_clear_wf|].
  case_match; [rewrite numeric_outputs, for_each_outputs by (intros; apply numeric_outputs); by frame|].
  case_match; [by rewrite watch_list_outputs|]. case_match; [by rewrite watch_list_outputs|].
  case_match; [by apply watch_add_keeps|]. case_match; [frame; by apply watch_index_remove_wf|done].
Qed.

#[export] Instance watch_cmd_keeps uid ps : KeepsWf (watch_cmd uid ps).
Proof.
  intros s W. unfold watch_cmd. case_match; [by rewrite watch_list_outputs|].
  by apply for_each_keeps; [apply _|].
Qed.

#[export] Instance monitor_report_outputs uid l : Outputs (monitor_report uid l).
Proof.
  intros s. unfold monitor_report. cbn zeta.
  rewrite !for_each_outputs by (intros; apply numeric_outputs). done.
Qed.

Lemma monitor_add_keeps uid acc t : wf (core acc.2) → wf (core (monitor_add uid acc t).2).
Proof.
  destruct acc as [added s]; cbn. intros W. case_match; cbn; [by frame|].
  by apply monitor_index_add_wf.
Qed.

#[export] Instance monitor_cmd_keeps uid sub arg : KeepsWf (monitor_cmd uid sub arg).
Proof.
  intros s W. unfold monitor_cmd. case_match.
  { destruct (foldl _ _ _) as [added s'] eqn:E. rewrite monitor_report_outputs.
    change s' with (added, s').2. rewrite <-E. generalize (map_or [] (λ t, nonempty (split "," t)) arg).
    intros l. assert (wf (core (([] : list string), s).2)) as W0 by done. revert W0. clear W E.
    generalize (([] : list string), s). clear s. induction l as [|t l IH]; intros acc W; cbn; [done|].
    by apply IH, monitor_add_keeps. }
  case_match; [apply for_each_keeps; [|done]; intros t s' W'; by apply monitor_index_remove_wf|].
  case_match; [by apply monitor_index_clear_wf|].
  case_match; [by rewrite numeric_outputs, for_each_outputs by (intros; apply numeric_outputs)|].
  case_match; [by rewrite monitor_report_outputs|done].
Qed.

#[export] Instance accept_list_outputs uid : Outputs (accept_list uid).
Proof.
  intros s. unfold accept_list. rewrite numeric_outputs. apply for_each_outputs.
  intros; apply numeric_outputs.
Qed.

#[export] Instance accept_token_keeps uid tok : KeepsWf (accept_token uid tok).
Proof.
  intros s W. unfold accept_token. case_match; [by rewrite accept_list_outputs|].
  destruct (match strip_prefix "-" tok with Some n => _ | None => _ end) as [adding name].
  case_match; [done|]. repeat case_match; first [by frame | by apply accept_add_wf | by apply accept_remove_wf].
Qed.

#[export] Instance accept_cmd_keeps uid ps : KeepsWf (accept_cmd uid ps).
Proof.
  intros s W. unfold accept_cmd. case_match; [by rewrite accept_list_outputs|].
  by apply for_each_keeps; [apply _|].
Qed.

#[export] Instance silence_list_outputs uid : Outputs (silence_list uid).
Proof.
  intros s. unfold silence_list. rewrite numeric_outputs. apply for_each_outputs.
  intros; apply numeric_outputs.
Qed.

Lemma silence_cmd_stable uid arg s : same_tables (core s) (core (silence_cmd uid arg s).2).
Proof.
  unfold silence_cmd. repeat case_match; cbn [snd];
    first [by rewrite silence_list_outputs | by frame | rewrite send_outputs; by apply with_user_stable].
Qed.

#[export] Instance notice_outputs uid n t : Outputs (notice uid n t).
Proof. intros s. apply send_outputs. Qed.

#[export] Instance signore_list_outputs uid : Outputs (signore_list uid).
Proof.
  intros s. unfold signore_list. rewrite notice_outputs. case_match; [apply notice_outputs|].
  apply for_each_outputs. intros. apply notice_outputs.
Qed.

Lemma signore_cmd_stable uid arg s : same_tables (core s) (core (signore_cmd uid arg s).2).
Proof.
  unfold signore_cmd. case_match; [|cbn; by rewrite signore_list_outputs].
  destruct (match strip_prefix "-" _ with Some m => _ | None => _ end) as [add raw].
  repeat case_match; cbn [snd];
    first [by rewrite signore_list_outputs | by frame
          | rewrite push_signore_outputs, notice_outputs; by apply with_user_stable].
Qed.

(** ** Splitting a long reply *)

Definition fits (budget : nat) (s : string) : Prop := s ≠ "" ∧ str_len s ≤ budget.

Lemma str_join_cons sep x y l : str_join sep (x :: y :: l) = x +:+ sep +:+ str_join sep (y :: l).
Proof. done. Qed.

Lemma chunk_go_line sep budget items line :
  Forall (fits budget) (line :: items) →
  str_join (chr sep) (chunk_go (chr sep) budget items line) = str_join (chr sep) (line :: items)
  ∧ Forall (fits budget) (chunk_go (chr sep) budget items line).
Proof.
  revert line. induction items as [|it items IH]; intros line Hf; cbn [chunk_go];
    apply Forall_cons in Hf as [[Hne Hl] Hf]; rewrite (proj2 (is_empty_false line) Hne).
  - split; [done|]. by repeat constructor.
  - apply Forall_cons in Hf as [Hi Hf]. cbn [negb andb]. case_match eqn:Hlen.
    + destruct (IH it) as [Ij If]; [by constructor|]. split; [|by constructor].
      rewrite str_join_cons, <-Ij. destruct (chunk_go _ _ items it) eqn:Ec; [|done].
      exfalso. destruct Hi as [Hi _]. destruct items; [by cbn in Ij; congruence|].
      rewrite str_join_cons in Ij. symmetry in Ij. by apply str_app_nil in Ij as [? _].
    + apply Nat.ltb_ge in Hlen. destruct (IH ((line +:+ chr sep) +:+ it)) as [Ij If].
      { constructor; [|done]. split; [by intros [[? _]%str_app_nil _]%str_app_nil|].
        rewrite !app_len. cbn [str_len chr String.length]. cbn. lia. }
      split; [|done]. rewrite Ij, str_join_cons. destruct items as [|y items].
      * cbn [str_join]. by rewrite str_app_assoc.
      * rewrite !str_join_cons. by rewrite !str_app_assoc.
Qed.

(** Splitting a WATCH or MONITOR list into reply lines loses, adds and reorders nothing, and
    no line exceeds the budget, for non-empty entries that fit it themselves. *)
Theorem chunk_join_faithful (sep : ascii) (budget : nat) (items : list string) :
  Forall (fits budget) items →
  str_join (chr sep) (chunk_join items (chr sep) budget) = str_join (chr sep) items
  ∧ Forall (fits budget) (chunk_join items (chr sep) budget).
Proof.
  unfold chunk_join. destruct items as [|it items]; [done|]. intros Hf. cbn [chunk_go is_empty negb andb].
  apply chunk_go_line, Hf.
Qed.

Lemma chunk_join_faithful_witness :
  str_join "," (chunk_join ["alice"; "bob"; "carol"] "," 9) = "alice,bob,carol"
  ∧ Forall (fits 9) (chunk_join ["alice"; "bob"; "carol"] "," 9)
  ∧ chunk_join ["alice"; "bob"; "carol"] "," 9 = ["alice,bob"; "carol"].
Proof.
  destruct (chunk_join_faithful "," 9 ["alice"; "bob"; "carol"]) as [Hj Hf].
  { repeat constructor; (discriminate || (cbn; lia)). }
  split; [exact Hj|]. split; [exact Hf|reflexivity].
Defined.
