(* ===== verification/UserFacts.v ===== *)
(** * Users come, rename and go

    [set_nick], [remove_user], [add_conn] and the class assignment keep the
    tables consistent; a nick that has gone is accepted by nobody; the clone
    counters are what a recount would give; and network ids are unique. *)

From Stdlib Require Import Ascii.
From S2P Require Import Prelude RustStr Glob I18n Channel State CoreMode Watch Users Ban Membership.
From S2P Require Import Tables ModeTables MembershipTables JoinFacts ListFacts.

Local Open Scope stdpp_scope.

(** ** Nick changes *)

Definition ren (old new : string) (n : string) : string := if String.eqb n old then new else n.

Lemma occ_ren old new n l :
  old ≠ new →
  occ n (map (ren old new) l)
  = if String.eqb n new then (occ new l + occ old l)%N
    else if String.eqb n old then 0%N else occ n l.
Proof.
  intros Hne. induction l as [|x l IH]; cbn; [by repeat case_match|].
  rewrite IH. unfold ren.
  destruct (String.eqb_spec x old) as [->|Hx]; destruct (String.eqb_spec n new) as [->|Hn];
    rewrite ?String.eqb_refl.
  - rewrite (proj2 (String.eqb_neq old new)) by done. lia.
  - rewrite (proj2 (String.eqb_neq new n)) by done.
    destruct (String.eqb_spec n old) as [->|Hn']; [done|].
    by rewrite (proj2 (String.eqb_neq old n)) by done.
  - by rewrite N.add_assoc.
  - destruct (String.eqb_spec n old) as [->|Hn']; [|done].
    by rewrite (proj2 (String.eqb_neq x old)) by done.
Qed.

(** Accept lists and their count move together. *)
Lemma move_accepts_inv old new c :
  old ≠ new → accept_inv c → accept_inv (move_accepts old new c).
Proof.
  intros Hne Ha n.
  assert (users (move_accepts old new c) = rename_accept old new <$> users c) as Eu
    by (unfold move_accepts; by case_match).
  assert (∀ n', default 0%N (accepted_nicks (move_accepts old new c) !! n')
          = if decide (n' = new) then (default 0 (accepted_nicks c !! new)
                                       + default 0 (accepted_nicks c !! old))%N
            else if decide (n' = old) then 0%N else default 0%N (accepted_nicks c !! n')) as Ec.
  { intros n'. unfold move_accepts. cbn. destruct (accepted_nicks c !! old) as [v|] eqn:E; cbn.
    - rewrite default_count_add. destruct (decide (n' = new)) as [->|H1].
      + rewrite decide_True by done. by rewrite lookup_delete_ne by done.
      + rewrite decide_False by done. destruct (decide (n' = old)) as [->|H2].
        * by rewrite lookup_delete_eq.
        * by rewrite lookup_delete_ne by congruence.
    - destruct (decide (n' = new)) as [->|H1]; [lia|].
      destruct (decide (n' = old)) as [->|H2]; [by rewrite E|done]. }
  rewrite Eu, Ec, total_fmap.
  rewrite (total_ext _ (λ u, if String.eqb n new then (occ new (u_accept u) + occ old (u_accept u))%N
    else if String.eqb n old then 0%N else occ n (u_accept u))).
  2: { intros u. cbn. apply (occ_ren old new n (u_accept u) Hne). }
  destruct (String.eqb_spec n new) as [->|Hn]; [rewrite decide_True by done|rewrite decide_False by done].
  - rewrite total_add. pose proof (Ha new). pose proof (Ha old). lia.
  - destruct (String.eqb_spec n old) as [->|Hn']; [rewrite decide_True by done|rewrite decide_False by done].
    + unfold total. rewrite map_fold_foldr. induction (map_to_list (users c)) as [|[? ?] l IH]; cbn in *; lia.
    + apply Ha.
Qed.

Lemma uget_move {A} (p : User → A) old new c uid :
  (∀ u, p (rename_accept old new u) = p u) → uget p (move_accepts old new c) uid = uget p c uid.
Proof.
  intros Hp. unfold uget, move_accepts; cbn.
  destruct (accepted_nicks c !! old); cbn; rewrite lookup_fmap; destruct (users c !! uid); cbn;
    by rewrite ?Hp.
Qed.

Lemma move_accepts_wf old new c : old ≠ new → wf c → wf (move_accepts old new c).
Proof.
  intros Hne W. destruct W.
  assert (∀ {A} (p : User → A), (∀ u, p (rename_accept old new u) = p u) →
    ∀ uid, uget p c uid = uget p (move_accepts old new c) uid) as Hu
    by (intros; symmetry; by apply uget_move).
  split.
  - eapply mem_inv_ext; [by apply Hu| |done]. unfold move_accepts. by case_match.
  - eapply key_inv_ext; [|done]. unfold move_accepts. by case_match.
  - eapply nick_inv_ext; [by apply Hu| |done]. unfold move_accepts. by case_match.
  - eapply uuid_inv_ext; [by apply Hu| |done]. unfold move_accepts. by case_match.
  - eapply unreg_inv_ext; [by apply Hu|done].
  - eapply mirrors_ext; [by apply Hu| |done]. unfold move_accepts. by case_match.
  - eapply mirrors_ext; [by apply Hu| |done]. unfold move_accepts. by case_match.
  - by apply move_accepts_inv.
  - eapply count_inv_ext; [by apply Hu| |done]. unfold move_accepts. by case_match.
  - eapply pool_inv_ext; [by apply Hu| |done]. unfold move_accepts. by case_match.
  - eapply net_inv_ext; [|done]. unfold move_accepts. by case_match.
  - eapply rmem_inv_ext; [| |done]; unfold move_accepts; by case_match.
Qed.

(** The index entry moves with the nick. *)
Lemma nick_inv_rename uid u newnick c :
  users c !! uid = Some u → newnick ≠ "" →
  (∀ i, nick_index c !! to_ascii_lowercase newnick = Some i → i = uid) →
  nick_inv c →
  nick_inv (with_user uid (λ u, u <| u_nick := newnick |> <| u_nick_ts := clock c |>)
    (c <| nick_index := <[to_ascii_lowercase newnick := uid]>
            (if is_empty (u_nick u) then nick_index c
             else delete (to_ascii_lowercase (u_nick u)) (nick_index c)) |>)).
Proof.
  intros Hu Hne Hfree Hn n i. set (new := to_ascii_lowercase newnick).
  rewrite (uget_with_user u_nick (λ _, newnick)) by done.
  change (uget u_nick (c <| nick_index := ?x |>) i) with (uget u_nick c i). cbn.
  assert (∀ i', i' ≠ uid → nick_index c !! new ≠ Some i') as Hf by (intros i' Hi' E; by apply Hfree in E).
  assert (∀ x, is_empty (u_nick u) = false → x = to_ascii_lowercase (u_nick u) →
    nick_index c !! x = Some uid) as Hold.
  { intros x He ->. apply Hn. exists (u_nick u). unfold uget. rewrite Hu.
    split_and!; try done. intros E. by rewrite E in He. }
  destruct (decide (n = new)) as [->|Hnn].
  - rewrite lookup_insert_eq. case_decide as Hd.
    + subst i. unfold uget. rewrite Hu. cbn. split; [|done]. intros _. by exists newnick.
    + split; [congruence|]. intros (nick & E & En & Elow).
      exfalso. apply (Hf i); [congruence|]. apply Hn. by exists nick.
  - rewrite lookup_insert_ne by done. case_decide as Hd.
    + subst i. unfold uget. rewrite Hu. cbn. split.
      * intros E. exfalso. destruct (is_empty (u_nick u)) eqn:He.
        -- apply Hn in E as (nick & E & En & _). unfold uget in E. rewrite Hu in E.
           injection E as <-. by destruct (u_nick u).
        -- destruct (decide (to_ascii_lowercase (u_nick u) = n)) as [<-|Hx];
             [by rewrite lookup_delete_eq in E|]. rewrite lookup_delete_ne in E by done.
           apply Hn in E as (nick & E & _ & Elow). unfold uget in E. rewrite Hu in E.
           injection E as <-. done.
      * intros (nick & [= <-] & _ & Elow). done.
    + rewrite <-(Hn n i). destruct (is_empty (u_nick u)) eqn:He; [done|].
      destruct (decide (to_ascii_lowercase (u_nick u) = n)) as [<-|Hx];
        [|by rewrite lookup_delete_ne by done].
      rewrite lookup_delete_eq, (Hold _ eq_refl eq_refl). split; [done|congruence].
Qed.

(** A nick may be taken when nobody else holds it, up to case. *)
Definition nick_free (c : Core) (uid : Uid) (nick : string) : Prop :=
  nick ≠ "" ∧ ∀ i, find_nick c nick = Some i → i = uid.

Lemma push_whowas_same a b h r acc c : same_tables c (push_whowas a b h r acc c).
Proof. unfold push_whowas. case_match; [done|by split]. Qed.

Lemma push_whowas_reads a b h r acc c :
  users (push_whowas a b h r acc c) = users c
  ∧ nick_index (push_whowas a b h r acc c) = nick_index c
  ∧ accepted_nicks (push_whowas a b h r acc c) = accepted_nicks c
  ∧ clock (push_whowas a b h r acc c) = clock c.
Proof. unfold push_whowas. by case_match. Qed.

Lemma set_nick_tables_wf uid u newnick c :
  users c !! uid = Some u → nick_free c uid newnick → wf c → wf (set_nick_tables uid u newnick c).
Proof.
  intros Hu [Hne Hfree] W. unfold set_nick_tables. cbn zeta.
  set (c1 := if u_registered u then push_whowas _ _ _ _ _ c else c).
  assert (wf c1) as W1 by (subst c1; case_match; [eapply wf_proper, W; apply push_whowas_same|done]).
  assert (users c1 = users c ∧ nick_index c1 = nick_index c) as [E1 E2]
    by (subst c1; case_match; [split; apply push_whowas_reads|done]).
  rewrite <-E1 in Hu. unfold find_nick in Hfree. rewrite <-E2 in Hfree. clearbody c1. clear E1 E2.
  match goal with |- wf (if _ then _ else ?c4) => assert (wf c4) as W4 end.
  { pose proof (nick_inv_rename uid u newnick c1 Hu Hne Hfree (wf_nick _ W1)) as Hn.
    split; try (destruct (is_empty (u_nick u)); keep W1).
    destruct (is_empty (u_nick u)); exact Hn. }
  destruct (negb (is_empty (u_nick u)) && _) eqn:E; [|exact W4].
  apply andb_true_iff in E as [_ E%negb_true_iff%String.eqb_neq]. by apply move_accepts_wf.
Qed.

Lemma nick_free_self c uid u : users c !! uid = Some u → nick_inv c → u_nick u ≠ "" →
  nick_free c uid (u_nick u).
Proof.
  intros Hu Hn Hne. split; [done|]. intros i Hi.
  assert (nick_index c !! to_ascii_lowercase (u_nick u) = Some uid) as E.
  { apply Hn. exists (u_nick u). unfold uget. by rewrite Hu. }
  unfold find_nick in Hi. congruence.
Qed.

Section users.
Context `{UnicodeLower} `{Outside}.

#[export] Instance watch_notify_online_outputs n : Outputs (watch_notify_online n).
Proof.
  intros s. unfold watch_notify_online. case_match; [|done].
  rewrite !for_each_outputs by (intros; apply numeric_outputs). done.
Qed.

#[export] Instance watch_notify_offline_outputs n : Outputs (watch_notify_offline n).
Proof.
  intros s. unfold watch_notify_offline. cbn zeta.
  rewrite !for_each_outputs by (intros; apply numeric_outputs). done.
Qed.

(** The line half of [set_nick] touches only history. *)
Lemma set_nick_core uid newnick s u :
  users (core s) !! uid = Some u →
  same_tables (set_nick_tables uid u newnick (core s)) (core (set_nick uid newnick s)).
Proof.
  intros Hu. unfold set_nick. rewrite Hu. cbn zeta. rewrite propagate_nick_outputs.
  destruct (u_registered u); [|done].
  rewrite publish_event_outputs, watch_notify_online_outputs, watch_notify_offline_outputs.
  match goal with |- same_tables _ (core (if ?b then snotice_c _ _ ?s' else _)) =>
    transitivity (core s'); [|by case_match; rewrite ?snotice_c_outputs] end.
  rewrite for_each_outputs by (intros; apply send_outputs).
  match goal with |- same_tables _ (core (for_each ?l ?f ?s')) =>
    transitivity (core s'); [done|]; apply (for_each_stable l f) end.
  intros k. apply record_event_stable.
Qed.

Lemma set_nick_wf uid newnick s :
  nick_free (core s) uid newnick → wf (core s) → wf (core (set_nick uid newnick s)).
Proof.
  intros Hf W. destruct (users (core s) !! uid) as [u|] eqn:Hu.
  - eapply wf_proper; [by apply set_nick_core|]. by apply set_nick_tables_wf.
  - unfold set_nick. by rewrite Hu.
Qed.

(** ** Departure *)

(** The users that remain: without [uid], and with its nick scrubbed from the
    accept lists when the count said somebody accepted it. *)
Definition scrub (low : string) (n : N) (u : User) : User :=
  if (0 <? n)%N then u <| u_accept ::= without low |> else u.

Section quit.
Context (uid : Uid) (u : User) (c : Core).
Hypothesis Hu : users c !! uid = Some u.

Let low := to_ascii_lowercase (u_nick u).
Let acc := foldl (λ m n, count_dec n m) (accepted_nicks c) (u_accept u).

(** The core with every table but the channels as after the departure. *)
Definition quit_lists : Core :=
  free_nick (u_nick u)
    (forget_lists uid u
       (count_disconnect (u_ip u) (u_class u) (c <| users ::= delete uid |>))).

Lemma quit_users :
  users quit_lists
  = (if is_empty (u_nick u) then id else scrub low (default 0%N (acc !! low))) <$> delete uid (users c).
Proof.
  unfold quit_lists, free_nick, scrub. fold low.
  destruct (is_empty (u_nick u)); [by rewrite map_fmap_id; destruct (u_class u)|].
  replace (accepted_nicks _ !! low) with (acc !! low)
    by (unfold acc, forget_lists, count_disconnect; by destruct (u_class u)).
  destruct (0 <? _)%N; cbn; [by destruct (u_class u)|].
  rewrite map_fmap_id. by destruct (u_class u).
Qed.

Lemma quit_channels : channels quit_lists = channels c.
Proof.
  unfold quit_lists, free_nick. destruct (is_empty _); [by destruct (u_class u)|].
  case_match; cbn; by destruct (u_class u).
Qed.

Lemma quit_uget {A} (p : User → A) i :
  (∀ l v, p (v <| u_accept := l |>) = p v) →
  uget p quit_lists i = if decide (i = uid) then None else uget p c i.
Proof.
  intros Hp. unfold uget. rewrite quit_users, lookup_fmap. case_decide as Hd.
  - subst i. by rewrite lookup_delete_eq.
  - rewrite lookup_delete_ne by congruence. destruct (users c !! i) as [v|]; cbn; [|done].
    destruct (is_empty (u_nick u)); [done|]. unfold scrub. case_match; [|done]. f_equal. apply Hp.
Qed.

Lemma quit_index :
  nick_index quit_lists = (if is_empty (u_nick u) then id else delete low) (nick_index c)
  ∧ uuid_local quit_lists = delete (u_uuid u) (uuid_local c)
  ∧ watch_by quit_lists = foldl (λ m n, index_del n uid m) (watch_by c) (u_watch u)
  ∧ monitor_by quit_lists = foldl (λ m n, index_del n uid m) (monitor_by c) (u_monitor u)
  ∧ accepted_nicks quit_lists = (if is_empty (u_nick u) then id else delete low) acc
  ∧ per_ip quit_lists = count_dec (u_ip u) (per_ip c)
  ∧ per_class quit_lists = map_or (per_class c) (λ n, count_dec n (per_class c)) (u_class u)
  ∧ per_ip_class quit_lists
    = map_or (per_ip_class c) (λ n, count_dec (u_ip u, n) (per_ip_class c)) (u_class u).
Proof.
  unfold quit_lists, free_nick. fold low.
  destruct (is_empty (u_nick u)); [by destruct (u_class u)|].
  case_match; cbn; by destruct (u_class u).
Qed.

Lemma quit_net :
  (links quit_lists, servers quit_lists, remote_users quit_lists, remote_nick quit_lists)
  = (links c, servers c, remote_users c, remote_nick c).
Proof.
  unfold quit_lists, free_nick. fold low.
  destruct (is_empty (u_nick u)); [by destruct (u_class u)|].
  case_match; cbn; by destruct (u_class u).
Qed.

Lemma acc_fold l m n :
  (default 0 (m !! n) <= default 0 (foldl (λ m n, count_dec n m) m l !! n) + occ n l)%N.
Proof.
  revert m. induction l as [|x l IH]; intros m; cbn; [lia|].
  pose proof (IH (count_dec x m)) as IHm. rewrite default_count_dec in IHm.
  destruct (String.eqb_spec x n) as [->|Hx]; [rewrite decide_True in IHm by done|
    rewrite decide_False in IHm by done]; lia.
Qed.

Lemma acc_enough n : accept_inv c →
  (total (λ v, occ n (u_accept v)) (delete uid (users c)) <= default 0 (acc !! n))%N.
Proof.
  intros Ha. pose proof (acc_fold (u_accept u) (accepted_nicks c) n) as Hf. fold acc in Hf.
  specialize (Ha n). rewrite (total_delete _ uid u (users c) Hu) in Ha. lia.
Qed.

(** Nobody accepts the departed nick any more. *)
Lemma quit_accept_low : accept_inv c → u_nick u ≠ "" →
  total (λ v, occ low (u_accept v)) (users quit_lists) = 0%N.
Proof.
  intros Ha Hne. rewrite quit_users. assert (is_empty (u_nick u) = false) as -> by (by destruct (u_nick u)).
  rewrite total_fmap. pose proof (acc_enough low Ha) as He.
  unfold scrub. destruct (N.ltb_spec 0 (default 0%N (acc !! low))) as [Hp|Hp].
  - rewrite (total_ext _ (λ _, 0%N)).
    + unfold total. rewrite map_fold_foldr. by induction (map_to_list _) as [|[? ?] l IH].
    + intros v. cbn. rewrite occ_without, String.eqb_refl. done.
  - unfold compose. lia.
Qed.

Lemma quit_accept : accept_inv c → accept_inv quit_lists.
Proof.
  intros Ha n. destruct quit_index as (_ & _ & _ & _ & -> & _).
  destruct (is_empty (u_nick u)) eqn:He.
  - rewrite quit_users, He. cbn. rewrite map_fmap_id. by apply acc_enough.
  - destruct (decide (n = low)) as [->|Hn].
    + rewrite quit_accept_low; [lia|done|]. intros E. by rewrite E in He.
    + rewrite lookup_delete_ne by done. pose proof (acc_enough n Ha) as Hen.
      rewrite quit_users, He, total_fmap.
      assert (total ((λ v, occ n (u_accept v)) ∘ scrub low (default 0%N (acc !! low))) (delete uid (users c))
              = total (λ v, occ n (u_accept v)) (delete uid (users c))) as ->; [|done].
      apply total_ext. intros v. cbn. unfold scrub. case_match; [|done]. cbn. rewrite occ_without.
      by rewrite (proj2 (String.eqb_neq low n)) by congruence.
Qed.
End quit.

Definition leave_map (uid : Uid) (ks : list string) (m : gmap string Channel) : gmap string Channel :=
  foldl (λ m k, alter (λ ch, ch <| members ::= delete uid |>) k m) m ks.
Definition uninvite_map (uid : Uid) (ks : list string) (m : gmap string Channel) : gmap string Channel :=
  foldl (λ m k, alter (λ ch, ch <| invites ::= (λ l, l ∖ {[uid]}) |>) k m) m ks.

Lemma leave_all_map uid ks c : leave_all uid ks c = c <| channels ::= leave_map uid ks |>.
Proof.
  unfold leave_all, leave_map. revert c.
  induction ks as [|k ks IH]; intros c; cbn [foldl]; [by destruct c|]. by rewrite IH.
Qed.

Lemma drop_invites_map uid ks c : drop_invites uid ks c = c <| channels ::= uninvite_map uid ks |>.
Proof.
  unfold drop_invites, uninvite_map. revert c.
  induction ks as [|k ks IH]; intros c; cbn [foldl]; [by destruct c|]. by rewrite IH.
Qed.

Definition quit_chans (uid : Uid) (u : User) (m : gmap string Channel) : gmap string Channel :=
  if u_registered u then
    retain_map (λ _ ch, keep_alive ch)
      (uninvite_map uid (elements (u_invited u)) (leave_map uid (elements (u_channels u)) m))
  else m.

Lemma push_whowas_set a b h r ac c : ∃ w, push_whowas a b h r ac c = c <| whowas := w |>.
Proof. unfold push_whowas. case_match; [exists (whowas c); by destruct c|by eexists]. Qed.

Lemma free_nick_whowas nick w c :
  free_nick nick (c <| whowas := w |>) = (free_nick nick c) <| whowas := w |>.
Proof. unfold free_nick; cbn. by repeat case_match. Qed.

Lemma core_upd f s : core (upd f s) = f (core s).
Proof. done. Qed.

(** The core after a departure. *)
Lemma remove_user_core uid reason s u :
  users (core s) !! uid = Some u →
  ∃ w, core (remove_user uid reason s)
    = (quit_lists uid u (core s)) <| whowas := w |>
        <| unreg_count := (unreg_count (core s) - pending (u_registered u))%N |>
        <| channels ::= quit_chans uid u |>.
Proof.
  intros Hu. unfold remove_user. rewrite Hu. cbn zeta. unfold quit_chans, quit_lists.
  destruct (u_registered u).
  - rewrite watch_notify_offline_outputs, !core_upd, for_each_outputs by (intros; apply send_outputs).
    rewrite !core_upd, propagate_outputs, !core_upd, publish_event_outputs, !core_upd.
    match goal with |- context [push_whowas ?a ?b ?h ?r ?ac ?c] =>
      destruct (push_whowas_set a b h r ac c) as [w ->]; set (c2 := c) end.
    rewrite free_nick_whowas. exists w.
    assert (unreg_count (free_nick (u_nick u) c2) = unreg_count (core s)) as Ec.
    { unfold c2, free_nick, forget_lists, count_disconnect. destruct (u_class u); cbn; by repeat case_match. }
    revert Ec. generalize (free_nick (u_nick u) c2). intros c3 Ec.
    rewrite leave_all_map, drop_invites_map. cbn. rewrite N.sub_0_r, <-Ec. by destruct c3.
  - rewrite !core_upd.
    exists (whowas (core s)).
    unfold forget_lists, count_disconnect, free_nick. destruct (u_class u); cbn; by repeat case_match.
Qed.

Lemma foldl_alter_proj {A} (p : Channel → A) f ks (m : gmap string Channel) k :
  (∀ ch, p (f ch) = p ch) → p <$> foldl (λ m k, alter f k m) m ks !! k = p <$> m !! k.
Proof.
  intros Hp. revert m. induction ks as [|k' ks IH]; intros m; cbn; [done|]. rewrite IH.
  destruct (decide (k' = k)) as [->|Hne]; [|by rewrite lookup_alter_ne].
  rewrite lookup_alter_eq. destruct (m !! k); cbn; by rewrite ?Hp.
Qed.

Lemma leave_map_dom uid ks m k :
  chan_dom <$> leave_map uid ks m !! k
  = (λ d, if decide (k ∈ ks) then d ∖ {[uid]} else d) <$> (chan_dom <$> m !! k).
Proof.
  unfold leave_map. revert m. induction ks as [|k' ks IH]; intros m; cbn.
  - by destruct (m !! k).
  - rewrite IH. destruct (decide (k' = k)) as [->|Hne].
    + rewrite lookup_alter_eq. destruct (m !! k) as [ch|]; cbn; [|done]. f_equal.
      rewrite (decide_True (P := k ∈ k :: ks)) by set_solver.
      unfold chan_dom; cbn. rewrite dom_delete_L. case_decide; set_solver.
    + rewrite lookup_alter_ne by done. destruct (m !! k) as [ch|]; cbn; [|done]. f_equal.
      destruct (decide (k ∈ ks)); [by rewrite decide_True by set_solver|by rewrite decide_False by set_solver].
Qed.

Section quit_wf.
Context (uid : Uid) (u : User) (c : Core).
Hypothesis Hu : users c !! uid = Some u.
Hypothesis W : wf c.

Let c' := (quit_lists uid u c) <| unreg_count := (unreg_count c - pending (u_registered u))%N |>
            <| channels ::= quit_chans uid u |>.

Lemma quit_on_chan v k : on_chan c' v k ↔ on_chan c v k ∧ v ≠ uid.
Proof.
  assert (∀ k, on_chan c uid k → k ∈ u_channels u) as Hin.
  { intros k' Hon. apply (wf_mem _ W) in Hon as (l & Hl & Hk). unfold uget in Hl.
    rewrite Hu in Hl. by injection Hl as <-. }
  unfold c', on_chan, cget at 1. cbn. rewrite quit_channels. unfold quit_chans.
  destruct (u_registered u) eqn:Hreg.
  - assert (on_chan (retain_alive (c <| channels := uninvite_map uid (elements (u_invited u))
       (leave_map uid (elements (u_channels u)) (channels c)) |>)) v k ↔ on_chan c v k ∧ v ≠ uid) as Hx.
    { rewrite on_chan_retain. unfold on_chan, cget; cbn.
      unfold uninvite_map. rewrite foldl_alter_proj by done. rewrite leave_map_dom.
      unfold cget. destruct (chan_dom <$> channels c !! k) as [d|] eqn:Ed; cbn; [|naive_solver].
      case_decide as Hk.
      - split; [intros (? & [= <-] & Hd); split; [exists d|]; set_solver|].
        intros [(? & [= <-] & Hd) Hne]. eexists; split; [done|]. set_solver.
      - split; [intros (? & [= <-] & Hd)|naive_solver]. split; [by exists d|]. intros ->.
        apply Hk, elem_of_elements, Hin. exists d. unfold cget. by rewrite Ed. }
    exact Hx.
  - fold (cget chan_dom c k). fold (on_chan c v k).
    split; [|by intros [? _]]. intros Hon. split; [done|]. intros ->. apply Hin in Hon.
    assert (u_channels u = ∅) as E; [|set_solver].
    apply (wf_unreg _ W uid). unfold uget. rewrite Hu. cbn. by rewrite Hreg.
Qed.

Lemma quit_cget {A} (p : Channel → A) k x :
  (∀ f ch, p (ch <| members ::= f |>) = p ch) → (∀ f ch, p (ch <| invites ::= f |>) = p ch) →
  cget p c' k = Some x → cget p c k = Some x.
Proof.
  intros Hp1 Hp2. unfold c', cget; cbn. rewrite quit_channels. unfold quit_chans. case_match; [|done].
  rewrite lookup_retain_map. intros Hx.
  assert (p <$> uninvite_map uid (elements (u_invited u))
    (leave_map uid (elements (u_channels u)) (channels c)) !! k = Some x) as E.
  { destruct (uninvite_map _ _ _ !! k) as [ch|]; [|done]. cbn in Hx. by destruct (keep_alive ch). }
  unfold uninvite_map, leave_map in E. rewrite foldl_alter_proj in E by done.
  by rewrite foldl_alter_proj in E by done.
Qed.

Lemma quit_mirrors (p : User → list string) m :
  (∀ l v, p (v <| u_accept := l |>) = p v) →
  mirrors m p c → mirrors (foldl (λ m n, index_del n uid m) m (p u)) p c'.
Proof.
  intros Hp [M E]. split; [|by apply no_empty_del_all].
  intros n v. fold (indexed (foldl (λ m n, index_del n uid m) m (p u)) n v). rewrite indexed_del_all.
  change (uget p c' v) with (uget p (quit_lists uid u c) v). rewrite quit_uget by done.
  unfold indexed. rewrite M. case_decide as Hd; [subst v|naive_solver].
  unfold uget. rewrite Hu. cbn. naive_solver.
Qed.

Lemma quit_counts {K} `{Countable K} (key : User → option K) (m : gmap K N) :
  (∀ l v, key (v <| u_accept := l |>) = key v) → counts m key c →
  counts (map_or m (λ k, count_dec k m) (key u)) key c'.
Proof.
  intros Hk Hc k. destruct (Hc k) as [Hc1 Hc2].
  assert (total (one key k) (users c') = total (one key k) (delete uid (users c))) as ->.
  { unfold c'; cbn. rewrite quit_users, total_fmap. apply total_ext. intros v. unfold one, compose.
    destruct (is_empty (u_nick u)); [done|]. unfold scrub. case_match; [|done]. f_equal. apply Hk. }
  rewrite (total_delete _ uid u (users c) Hu) in Hc1.
  change (one key k u) with (hit k (key u)) in Hc1. unfold hit in Hc1.
  destruct (key u) as [k'|] eqn:Eu; cbn.
  - rewrite default_count_dec. destruct (decide (k' = k)) as [->|Hne].
    + rewrite decide_True in Hc1 by done. split; [lia|].
      unfold count_dec. destruct (m !! k) as [n|] eqn:Em; [|by rewrite Em].
      destruct (N.eqb_spec (n - 1) 0); [by rewrite lookup_delete_eq|rewrite lookup_insert_eq; congruence].
    + rewrite decide_False in Hc1 by congruence. split; [lia|].
      unfold count_dec. destruct (m !! k') as [n|] eqn:Em; [|done].
      destruct (N.eqb_spec (n - 1) 0); [by rewrite lookup_delete_ne|by rewrite lookup_insert_ne].
  - rewrite decide_False in Hc1 by done. split; [lia|done].
Qed.

Lemma quit_nick : nick_inv c'.
Proof.
  intros n v. change (nick_index c') with (nick_index (quit_lists uid u c)).
  change (uget u_nick c' v) with (uget u_nick (quit_lists uid u c) v).
  destruct (quit_index uid u c) as (-> & _). rewrite quit_uget by done.
  pose proof (wf_nick _ W n v) as Hn.
  destruct (is_empty (u_nick u)) eqn:He; cbn.
  - rewrite Hn. case_decide as Hd; [subst v|done]. unfold uget. rewrite Hu. cbn.
    destruct (u_nick u); [|done]. naive_solver.
  - assert (nick_index c !! to_ascii_lowercase (u_nick u) = Some uid) as Hlow.
    { apply (wf_nick _ W). exists (u_nick u). unfold uget. rewrite Hu.
      split_and!; try done. intros E. by rewrite E in He. }
    destruct (decide (n = to_ascii_lowercase (u_nick u))) as [->|Hne].
    + rewrite lookup_delete_eq. rewrite Hlow in Hn.
      case_decide as Hd; [naive_solver|]. split; [done|]. intros Hx%Hn. congruence.
    + rewrite lookup_delete_ne by done. rewrite Hn. case_decide as Hd; [subst v|done].
      unfold uget. rewrite Hu. cbn. naive_solver.
Qed.

Lemma quit_uuid : uuid_inv c'.
Proof.
  intros n v. change (uuid_local c') with (uuid_local (quit_lists uid u c)).
  change (uget u_uuid c' v) with (uget u_uuid (quit_lists uid u c) v).
  destruct (quit_index uid u c) as (_ & -> & _). rewrite quit_uget by done.
  pose proof (wf_uuid _ W n v) as Hn.
  assert (uuid_local c !! u_uuid u = Some uid) as Hself.
  { apply (wf_uuid _ W). unfold uget. by rewrite Hu. }
  destruct (decide (n = u_uuid u)) as [->|Hne].
  - rewrite lookup_delete_eq. rewrite Hself in Hn. case_decide; [done|]. split; [done|].
    intros Hx%Hn. congruence.
  - rewrite lookup_delete_ne by done. rewrite Hn. case_decide as Hd; [subst v|done].
    unfold uget. rewrite Hu. cbn. naive_solver.
Qed.

Lemma quit_wf : wf c'.
Proof.
  destruct (quit_index uid u c) as (_ & _ & Ew & Em & _ & E1 & E2 & E3).
  destruct (wf_count _ W) as (C1 & C2 & C3).
  split.
  - intros v k. rewrite quit_on_chan, (wf_mem _ W v k). unfold in_list.
    change (uget u_channels c' v) with (uget u_channels (quit_lists uid u c) v).
    rewrite quit_uget by done. case_decide; naive_solver.
  - intros k name Hk%(quit_cget ch_name); [|done..]. by apply W.
  - apply quit_nick.
  - apply quit_uuid.
  - intros v l. change (uget ?p c' v) with (uget p (quit_lists uid u c) v).
    rewrite quit_uget by done. case_decide; [done|]. apply W.
  - unfold watch_inv. change (watch_by c') with (watch_by (quit_lists uid u c)). rewrite Ew.
    apply quit_mirrors; [done|apply W].
  - unfold monitor_inv. change (monitor_by c') with (monitor_by (quit_lists uid u c)). rewrite Em.
    apply quit_mirrors; [done|apply W].
  - apply (quit_accept uid u c Hu), W.
  - unfold count_inv. change (per_ip c') with (per_ip (quit_lists uid u c)).
    change (per_class c') with (per_class (quit_lists uid u c)).
    change (per_ip_class c') with (per_ip_class (quit_lists uid u c)). rewrite E1, E2, E3. split_and!.
    + by apply (quit_counts ip_key).
    + by apply (quit_counts u_class).
    + pose proof (quit_counts ip_class_key _ ltac:(done) C3) as Hq.
      unfold ip_class_key in Hq at 1. by destruct (u_class u).
  - unfold pool_inv, c'; cbn. rewrite (wf_pool _ W), (total_delete _ uid u (users c) Hu).
    rewrite quit_users, total_fmap. unfold compose at 1. rewrite N.add_comm, N.add_sub.
    apply total_ext. intros v. cbn. destruct (is_empty (u_nick u)); [done|]. unfold scrub. by case_match.
  - eapply net_inv_ext, W. symmetry. apply quit_net.
  - intros k d uuid Hk%(quit_cget rchan_dom) Hd; [|done..].
    assert (remote_users (quit_lists uid u c) = remote_users c) as Er
      by (pose proof (quit_net uid u c); congruence).
    change (remote_users c') with (remote_users (quit_lists uid u c)). rewrite Er.
    by apply (wf_rmem _ W k d).
Qed.
End quit_wf.

Lemma remove_user_wf uid reason s : wf (core s) → wf (core (remove_user uid reason s)).
Proof.
  intros W. destruct (users (core s) !! uid) as [u|] eqn:Hu.
  - destruct (remove_user_core uid reason s u Hu) as (w & ->).
    eapply wf_proper, (quit_wf uid u (core s) Hu W). by split.
  - unfold remove_user. by rewrite Hu.
Qed.
End users.

(** ** Network ids *)

Fixpoint suffix_val (s : string) (a : N) : N :=
  match s with
  | "" => a
  | String b r => suffix_val r (a * 26 + (byte_val b - 65))%N
  end.

Lemma suffix_val_uuid d x acc a :
  suffix_val (uuid_suffix d x acc) a = suffix_val acc (a * 26 ^ N.of_nat d + x mod 26 ^ N.of_nat d)%N.
Proof.
  revert x acc a. induction d as [|d IH]; intros x acc a.
  - cbn. f_equal. rewrite N.mod_1_r. lia.
  - cbn [uuid_suffix]. rewrite IH. cbn [suffix_val]. f_equal.
    assert (byte_val (ascii_of_N (65 + x mod 26)) = 65 + x mod 26)%N as ->.
    { apply N_ascii_embedding. pose proof (N.mod_lt x 26). lia. }
    rewrite Nat2N.inj_succ, N.pow_succ_r', N.Div0.mod_mul_r.
    rewrite (N.add_comm 65), N.add_sub. ring.
Qed.

Lemma uuid_suffix_inj x y :
  uuid_suffix 6 x "" = uuid_suffix 6 y "" → (x mod 26 ^ 6 = y mod 26 ^ 6)%N.
Proof.
  intros E. pose proof (suffix_val_uuid 6 x "" 0) as Hx. pose proof (suffix_val_uuid 6 y "" 0) as Hy.
  rewrite E, Hy in Hx. cbn [suffix_val] in Hx. change (N.of_nat 6) with 6%N in Hx. lia.
Qed.

Lemma append_inj_l s x y : s +:+ x = s +:+ y → x = y.
Proof. induction s as [|b s IH]; [done|]. intros [= E]. by apply IH. Qed.

Lemma next_uuid_fuel_spec f c uuid c' :
  next_uuid_fuel f c = Some (uuid, c') →
  uuid_taken c uuid = false ∧ ∃ x, c' = c <| uuid_counter := x |>.
Proof.
  revert c. induction f as [|f IH]; intros c; cbn [next_uuid_fuel]; [done|].
  destruct (uuid_taken c (uuid_at c (uuid_counter c))) eqn:E.
  - intros (Ht & x & ->)%IH. split; [done|]. by exists x.
  - intros [= <- <-]. split; [done|]. by eexists.
Qed.

(** Ids in use. *)
Definition used_uuids (c : Core) : gset string := dom (uuid_local c) ∪ dom (remote_users c).

Lemma uuid_taken_spec c uuid : uuid_taken c uuid = true ↔ uuid ∈ used_uuids c.
Proof.
  unfold uuid_taken, used_uuids. rewrite elem_of_union, !elem_of_dom, orb_true_iff.
  destruct (uuid_local c !! uuid), (remote_users c !! uuid); cbn; rewrite <-?not_eq_None_Some; naive_solver.
Qed.

(** Running out of attempts means every one of the consecutive ids is taken. *)
Lemma next_uuid_fuel_none f c :
  (uuid_counter c + N.of_nat f <= u64_max)%N → next_uuid_fuel f c = None →
  ∀ i, i < f → uuid_at c (uuid_counter c + N.of_nat i) ∈ used_uuids c.
Proof.
  revert c. induction f as [|f IH]; intros c Hf; cbn [next_uuid_fuel]; [lia|].
  destruct (uuid_taken c (uuid_at c (uuid_counter c))) eqn:E; [|done].
  intros Hn i Hi. rewrite wrap_u64_small in Hn by lia. destruct i as [|i].
  - rewrite N.add_0_r. by apply uuid_taken_spec.
  - pose proof (IH (c <| uuid_counter := (uuid_counter c + 1)%N |>)) as IHc. cbn in IHc.
    specialize (IHc ltac:(lia) Hn i ltac:(lia)).
    replace (uuid_counter c + N.of_nat (S i))%N with (uuid_counter c + 1 + N.of_nat i)%N by lia. done.
Qed.

Lemma next_uuid_some c :
  (size (uuid_local c) + size (remote_users c) < N.to_nat (26 ^ 6)) →
  (uuid_counter c + N.of_nat (S (size (uuid_local c) + size (remote_users c))) <= u64_max)%N →
  is_Some (next_uuid c).
Proof.
  intros Hs Hc. unfold next_uuid. set (n := size _ + size _) in *.
  destruct (next_uuid_fuel (S n) c) eqn:E; [done|]. exfalso.
  pose proof (next_uuid_fuel_none _ _ Hc E) as Hall.
  set (l := (λ i, uuid_at c (uuid_counter c + N.of_nat i)) <$> seq 0 (S n)).
  assert (NoDup l) as Hnd.
  { apply NoDup_fmap_2_strong; [|apply NoDup_seq]. intros i j Hi%elem_of_seq Hj%elem_of_seq Hij.
    apply append_inj_l, uuid_suffix_inj in Hij.
    assert (N.of_nat i < 26 ^ 6 ∧ N.of_nat j < 26 ^ 6)%N as [H1 H2] by lia.
    revert H1 H2 Hij. generalize (uuid_counter c). intros x H1 H2 Hij. apply Nat2N.inj.
    change (26 ^ 6)%N with 308915776%N in *.
    pose proof (N.Div0.div_mod (x + N.of_nat i) 308915776). pose proof (N.Div0.div_mod (x + N.of_nat j) 308915776).
    nia. }
  assert (list_to_set l ⊆ used_uuids c) as Hsub.
  { intros x Hx. apply elem_of_list_to_set, list_elem_of_fmap in Hx as (i & -> & Hi%elem_of_seq).
    apply Hall. lia. }
  apply subseteq_size in Hsub. rewrite size_list_to_set in Hsub by done.
  unfold l in Hsub. rewrite length_fmap, length_seq in Hsub.
  set (A := dom (uuid_local c) : gset string). set (B := dom (remote_users c) : gset string).
  pose proof (size_union_alt A B) as Hsz.
  assert (size (B ∖ A) ≤ size B) as Hle by (apply subseteq_size; set_solver).
  assert (size A = size (uuid_local c)) as EA by apply size_dom.
  assert (size B = size (remote_users c)) as EB by apply size_dom.
  change (used_uuids c) with (A ∪ B) in Hsub. lia.
Qed.

(** ** Clone counters *)

Section counters.
Context {K : Type} `{Countable K}.

Definition dec_opt (o : option K) (m : gmap K N) : gmap K N := map_or m (λ k, count_dec k m) o.
Definition inc_opt (o : option K) (m : gmap K N) : gmap K N := map_or m (λ k, count_inc k m) o.

Definition nonzero (m : gmap K N) : Prop := ∀ k, m !! k ≠ Some 0%N.

Lemma nonzero_dec o m : nonzero m → nonzero (dec_opt o m).
Proof.
  intros Hm. destruct o as [k'|]; cbn; [|done]. intros k. unfold count_dec.
  destruct (m !! k') as [n|]; [|done]. destruct (N.eqb_spec (n - 1) 0), (decide (k' = k)) as [->|].
  - by rewrite lookup_delete_eq.
  - by rewrite lookup_delete_ne.
  - rewrite lookup_insert_eq. congruence.
  - by rewrite lookup_insert_ne.
Qed.

Lemma nonzero_inc o m : nonzero m → nonzero (inc_opt o m).
Proof.
  intros Hm. destruct o as [k'|]; cbn; [|done]. intros k. unfold count_inc, count_add.
  destruct (decide (k' = k)) as [->|]; [rewrite lookup_insert_eq|by rewrite lookup_insert_ne].
  intros [= E]. lia.
Qed.

Lemma default_dec_opt o m k : default 0%N (dec_opt o m !! k) = (default 0 (m !! k) - hit k o)%N.
Proof.
  unfold hit. destruct o as [k'|]; cbn; [|rewrite decide_False by done; lia].
  rewrite default_count_dec. destruct (decide (k' = k)) as [->|].
  - by rewrite decide_True.
  - rewrite decide_False by congruence. lia.
Qed.

Lemma default_inc_opt o m k : default 0%N (inc_opt o m !! k) = (default 0 (m !! k) + hit k o)%N.
Proof.
  unfold hit. destruct o as [k'|]; cbn; [|rewrite decide_False by done; lia].
  unfold count_inc. rewrite default_count_add. destruct (decide (k' = k)) as [->|].
  - by rewrite decide_True.
  - rewrite decide_False by congruence. lia.
Qed.

Lemma counts_alter (key : User → option K) m c uid u f :
  users c !! uid = Some u → counts m key c →
  counts (inc_opt (key (f u)) (dec_opt (key u) m)) key (with_user uid f c).
Proof.
  intros Hu Hc k. split; [|apply nonzero_inc, nonzero_dec; intros k'; apply Hc].
  destruct (Hc k) as [Hk _]. rewrite default_inc_opt, default_dec_opt.
  pose proof (total_alter (one key k) f uid (users c) u Hu) as Ht.
  pose proof (total_le (one key k) uid u (users c) Hu) as Hle.
  change (one key k u) with (hit k (key u)) in *. change (one key k (f u)) with (hit k (key (f u))) in *.
  change (users (with_user uid f c)) with (alter f uid (users c)). lia.
Qed.

Lemma counts_insert (key : User → option K) m c c' uid u :
  users c !! uid = None → users c' = <[uid := u]> (users c) → counts m key c →
  counts (inc_opt (key u) m) key c'.
Proof.
  intros Hu E Hc k. split; [|apply nonzero_inc; intros k'; apply Hc].
  destruct (Hc k) as [Hk _]. rewrite default_inc_opt, E, total_insert by done.
  change (one key k u) with (hit k (key u)). lia.
Qed.

(** The loop of [rebuild] counts what [total] counts. *)
Lemma recount_counts (key : User → option K) c : counts (recount key (map snd (map_to_list (users c)))) key c.
Proof.
  unfold recount. intros k.
  assert (∀ (l : list (Uid * User)) m, nonzero m →
    default 0%N (foldl (λ m u, match key u with Some k => count_inc k m | None => m end) m (map snd l) !! k)
      = (default 0 (m !! k) + foldr (λ iu acc, one key k iu.2 + acc) 0 l)%N
    ∧ nonzero (foldl (λ m u, match key u with Some k => count_inc k m | None => m end) m (map snd l))) as Hl.
  { induction l as [|[i u] l IH]; intros m Hm; cbn; [split; [lia|done]|].
    change (match key u with Some k => count_inc k m | None => m end) with (inc_opt (key u) m).
    destruct (IH (inc_opt (key u) m) (nonzero_inc _ _ Hm)) as [-> Hn]. split; [|done].
    rewrite default_inc_opt. change (one key k u) with (hit k (key u)). lia. }
  destruct (Hl (map_to_list (users c)) ∅) as [-> Hn]; [done|]. split; [|apply Hn].
  rewrite lookup_empty. change (default 0%N None) with 0%N. rewrite N.add_0_l.
  unfold total. rewrite map_fold_foldr.
  generalize (map_to_list (users c)). intros l. induction l as [|[i u] l IH]; cbn; [done|]. by rewrite IH.
Qed.

Lemma counts_unique (key : User → option K) m m' c : counts m key c → counts m' key c → m = m'.
Proof.
  intros H1 H2. apply map_eq. intros k. destruct (H1 k) as [E1 N1], (H2 k) as [E2 N2].
  rewrite <-E2 in E1. destruct (m !! k) as [n|], (m' !! k) as [n'|]; cbn in *; congruence.
Qed.
End counters.

Lemma set_class_wf uid name c : wf c → wf (set_class uid name c).
Proof.
  intros W. unfold set_class. destruct (users c !! uid) as [u|] eqn:Hu; [|done].
  case_bool_decide as Hn; [done|]. destruct (wf_count _ W) as (C1 & C2 & C3).
  split; try (destruct (u_class u); keep W).
  pose proof (counts_alter ip_key _ _ uid u (λ u, u <| u_class := Some name |>) Hu C1) as H1.
  pose proof (counts_alter u_class _ _ uid u (λ u, u <| u_class := Some name |>) Hu C2) as H2.
  pose proof (counts_alter ip_class_key _ _ uid u (λ u, u <| u_class := Some name |>) Hu C3) as H3.
  assert (counts (per_ip c) ip_key (with_user uid (λ u, u <| u_class := Some name |>) c)) as H1'.
  { eapply counts_ext; [|reflexivity|exact C1]. intros. symmetry. by apply uget_with_user_ne. }
  unfold ip_class_key in H3 at 1 2. destruct (u_class u) as [o|]; cbn in *; by split_and!.
Qed.

Lemma add_conn_wf uid ip port secure certfp brand c c' :
  users c !! uid = None → add_conn_tables uid ip port secure certfp brand c = Some c' → wf c → wf c'.
Proof.
  intros Hu Ha W. unfold add_conn_tables in Ha.
  apply bind_Some in Ha as ([uuid c1] & Hn & [= <-]).
  apply next_uuid_fuel_spec in Hn as (Ht & x & ->). cbn.
  set (v := new_user uuid ip port secure certfp brand (clock c)).
  match goal with |- wf ?y => set (c' := y) end.
  assert (∀ {A} (p : User → A) i, uget p c' i = if decide (i = uid) then Some (p v) else uget p c i) as Hg.
  { intros A p i. unfold uget, c'; cbn. case_decide as Hd; [subst i; by rewrite lookup_insert_eq|].
    by rewrite lookup_insert_ne by congruence. }
  assert (∀ {A} (p : User → A), uget p c uid = None) as Hnone by (intros; unfold uget; by rewrite Hu).
  destruct (wf_count _ W) as (C1 & C2 & C3).
  split.
  - intros i k. change (on_chan c' i k) with (on_chan c i k). rewrite (wf_mem _ W i k).
    unfold in_list. rewrite Hg. case_decide as Hd; [subst i|done]. rewrite Hnone. cbn.
    split; [by intros (? & ? & _)|by intros (? & [= <-] & ?%not_elem_of_empty)].
  - apply W.
  - intros n i. rewrite Hg. change (nick_index c') with (nick_index c). rewrite (wf_nick _ W n i).
    case_decide as Hd; [subst i|done]. rewrite Hnone. cbn. naive_solver.
  - intros n i. rewrite Hg. unfold c'; cbn. pose proof (wf_uuid _ W n i) as Hw.
    unfold uuid_taken in Ht. apply orb_false_iff in Ht as [Ht _].
    destruct (decide (n = uuid)) as [->|Hne].
    + rewrite lookup_insert_eq. case_decide as Hd; [by subst i|]. split; [congruence|].
      intros E%Hw. by rewrite E in Ht.
    + rewrite lookup_insert_ne by done. rewrite Hw. case_decide as Hd; [subst i|done].
      rewrite Hnone. cbn. split; [done|]. congruence.
  - intros i l. rewrite Hg. case_decide; [|apply W]. cbn. by intros [= <-].
  - split; [|apply W]. intros n i. rewrite Hg. change (watch_by c') with (watch_by c).
    rewrite (proj1 (wf_watch _ W) n i). case_decide as Hd; [subst i|done]. rewrite Hnone. cbn.
    split; [by intros (? & ? & _)|by intros (? & [= <-] & ?%elem_of_nil)].
  - split; [|apply W]. intros n i. rewrite Hg. change (monitor_by c') with (monitor_by c).
    rewrite (proj1 (wf_monitor _ W) n i). case_decide as Hd; [subst i|done]. rewrite Hnone. cbn.
    split; [by intros (? & ? & _)|by intros (? & [= <-] & ?%elem_of_nil)].
  - intros n. unfold c'; cbn. rewrite total_insert by done. apply W.
  - split_and!.
    + by apply (counts_insert ip_key (per_ip c) c c' uid v Hu).
    + by apply (counts_insert u_class (per_class c) c c' uid v Hu).
    + by apply (counts_insert ip_class_key (per_ip_class c) c c' uid v Hu).
  - unfold pool_inv, c'; cbn. rewrite total_insert by done. rewrite (wf_pool _ W). cbn. lia.
  - eapply net_inv_ext, (wf_net _ W). done.
  - eapply rmem_inv_ext, (wf_rmem _ W); done.
Qed.

Lemma register_wf uid c : wf c → wf (register_tables uid c).
Proof.
  intros W. unfold register_tables. destruct (users c !! uid) as [u|] eqn:Hu; cbn.
  2: { eapply wf_proper, W. split; try done. intros i. unfold uget, with_user; cbn.
       destruct (decide (uid = i)) as [->|]; [by rewrite lookup_alter_eq, Hu|by rewrite lookup_alter_ne]. }
  pose proof (total_alter (pending ∘ u_registered) (λ u, u <| u_registered := true |>) uid (users c) u Hu) as Ht.
  pose proof (total_le (pending ∘ u_registered) uid u (users c) Hu) as Hle.
  pose proof (wf_pool _ W) as Hp. unfold pool_inv in Hp.
  assert (unreg_inv (with_user uid (λ u, u <| u_registered := true |>) c)) as Hr.
  { intros i l. rewrite (uget_with_user _ (λ x, (true, x.2))) by done. case_decide; [|apply W].
    by destruct (uget _ c i). }
  destruct (u_registered u) eqn:Er; cbn [negb]; split; try keep W; try exact Hr;
    unfold pool_inv; cbn in *; rewrite Er in *; cbn in *; lia.
Qed.
