(* ===== verification/XlineFacts.v ===== *)
(** * Server bans: what enforcing, expiring and storing them guarantees *)

From Stdlib Require Import Ascii.
From S2P Require Import Prelude RustStr Message Glob Clock I18n Channel Numeric Duration State Ban.
From S2P Require Import CoreMode Watch Users Regex Xline Tables UserFacts.

Local Open Scope stdpp_scope.

Section facts.
Context `{UnicodeLower} `{Outside}.

#[export] Instance save_xlines_outputs : Outputs save_xlines.
Proof. intros s. unfold save_xlines. by case_match. Qed.

(** ** Enforcing *)

(** What decides whether a user is banned. *)
Definition identity (u : User) := (u_registered u, u_ident u, u_host u, u_ip u).
Definition rules (c : Core) := (xlines c, clock c).

Lemma ban_reason_rules c c' u : rules c = rules c' → ban_reason c u = ban_reason c' u.
Proof.
  intros [= Hx Hc]. unfold ban_reason, matched_xline, is_exempt, xmatch, x_hit, x_active.
  by rewrite Hx, Hc.
Qed.

Lemma ban_reason_identity c u u' : identity u = identity u' → ban_reason c u = ban_reason c u'.
Proof. intros [= _ H1 H2 H3]. unfold ban_reason. by rewrite H1, H2, H3. Qed.

Lemma quit_rules uid u c : rules (quit_lists uid u c) = rules c.
Proof.
  unfold quit_lists, free_nick, forget_lists, count_disconnect, rules.
  destruct (u_class u); cbn; repeat case_match; done.
Qed.

Lemma remove_user_rules uid reason s : rules (core (remove_user uid reason s)) = rules (core s).
Proof.
  destruct (users (core s) !! uid) as [u|] eqn:Hu; [|unfold remove_user; by rewrite Hu].
  destruct (remove_user_core uid reason s u Hu) as (w & ->). apply (quit_rules uid u).
Qed.

Lemma remove_user_identity uid reason s i :
  uget identity (core (remove_user uid reason s)) i
  = if decide (i = uid) then None else uget identity (core s) i.
Proof.
  destruct (users (core s) !! uid) as [u|] eqn:Hu.
  - destruct (remove_user_core uid reason s u Hu) as (w & ->).
    by rewrite <-(quit_uget uid u (core s) identity).
  - unfold remove_user. rewrite Hu. case_decide; [subst; unfold uget; by rewrite Hu|done].
Qed.

Lemma refuse_banned_core uid reason s : core (refuse_banned uid reason s)
  = core (remove_user uid reason (send uid ("ERROR :" +:+ trf (core s) "Closing link: ({0})" [reason])
      (numeric uid ERR_YOUREBANNEDCREEP (":" +:+ reason) s))).
Proof. unfold refuse_banned. cbn zeta. by rewrite (numeric_outputs _ _ _ s). Qed.

Lemma refuse_rules uid reason s : rules (core (refuse_banned uid reason s)) = rules (core s).
Proof. rewrite refuse_banned_core, remove_user_rules. by frame. Qed.

Lemma refuse_identity uid reason s i :
  uget identity (core (refuse_banned uid reason s)) i
  = if decide (i = uid) then None else uget identity (core s) i.
Proof. rewrite refuse_banned_core, remove_user_identity. by frame. Qed.

Lemma refuse_wf uid reason s : wf (core s) → wf (core (refuse_banned uid reason s)).
Proof. intros W. rewrite refuse_banned_core. apply remove_user_wf. by frame. Qed.

(** Refusing a list of users removes exactly those. *)
Lemma refuse_all l s :
  let s' := for_each l (λ '(uid, r), refuse_banned uid r) s in
  rules (core s') = rules (core s)
  ∧ (∀ i, uget identity (core s') i
          = if decide (i ∈ map fst l) then None else uget identity (core s) i)
  ∧ (wf (core s) → wf (core s')).
Proof.
  cbn zeta. unfold for_each. revert s. induction l as [|[uid r] l IH]; intros s; cbn [foldl map].
  { split; [done|]. split; [|done]. intros i. by rewrite decide_False by set_solver. }
  destruct (IH (refuse_banned uid r s)) as (IH1 & IH2 & IH3). split; [by rewrite IH1, refuse_rules|].
  split; [|intros W; by apply IH3, refuse_wf]. intros i. rewrite IH2, refuse_identity. cbn [fst].
  repeat case_decide; set_solver.
Qed.

Lemma elem_of_victims why c uid r :
  (uid, r) ∈ victims why c ↔ ∃ u, users c !! uid = Some u ∧ u_registered u = true ∧ why u = Some r.
Proof.
  unfold victims. rewrite list_elem_of_omap. split.
  - intros ([i u] & Hin%elem_of_map_to_list & Hv). case_match eqn:E; [|done].
    destruct (why u) eqn:Ew; simplify_eq/=. eauto.
  - intros (u & Hu & Hr & Hw). exists (uid, u). rewrite elem_of_map_to_list. split; [done|].
    by rewrite Hr, Hw.
Qed.

Lemma victim_ids why c uid :
  uid ∈ map fst (victims why c)
  ↔ ∃ u, users c !! uid = Some u ∧ u_registered u = true ∧ is_Some (why u).
Proof.
  rewrite list_elem_of_fmap. split.
  - intros ([i r] & -> & (u & ? & ? & ?)%elem_of_victims). exists u. eauto.
  - intros (u & ? & ? & [r ?]). exists (uid, r). split; [done|]. apply elem_of_victims. eauto.
Qed.

Lemma enforce_spec s :
  let c' := core (enforce_xlines s) in
  rules c' = rules (core s)
  ∧ (∀ uid u, users c' !! uid = Some u → u_registered u = true → ban_reason c' u = None)
  ∧ (∀ uid u, users (core s) !! uid = Some u →
       u_registered u = false ∨ ban_reason (core s) u = None → is_Some (users c' !! uid))
  ∧ (wf (core s) → wf c').
Proof.
  cbn zeta. unfold enforce_xlines.
  destruct (refuse_all (victims (ban_reason (core s)) (core s)) s) as (Hr & Hi & Hw).
  set (s' := for_each _ _ s) in *. split; [done|]. split; [|split; [|done]].
  - intros uid u Hu Hreg. specialize (Hi uid). unfold uget in Hi. rewrite Hu in Hi. cbn in Hi.
    case_decide as Hd; [done|]. rewrite (ban_reason_rules _ (core s)) by done.
    destruct (users (core s) !! uid) as [u0|] eqn:Hu0; [|done]. cbn in Hi. apply (inj Some) in Hi.
    rewrite (ban_reason_identity _ _ _ Hi). apply eq_None_not_Some. intros Hs. apply Hd.
    apply victim_ids. exists u0. unfold identity in Hi. split; [done|]. split; [congruence|done].
  - intros uid u Hu Hor. specialize (Hi uid). unfold uget in Hi. rewrite Hu in Hi. cbn in Hi.
    rewrite decide_False in Hi; [by destruct (users (core s') !! uid)|].
    intros (u' & Hu' & Hr' & [r Hw'])%victim_ids. simplify_eq. destruct Hor; congruence.
Qed.

(** Adding a line leaves the new rules in force. *)
Definition line_of (kind : XKind) (mask : string) (duration : N) (setter reason : string) (set_at : N) : XLine :=
  mkXLine kind mask reason setter (expiry set_at duration) set_at.

Lemma add_xline_core kind mask dur setter reason at_ s :
  core (add_xline_at kind mask dur setter reason at_ s)
  = core (enforce_xlines (save_xlines (snotice_c "x"
      (trf (put_xline (line_of kind mask dur setter reason at_) (core s))
         "XLINE: {0} added a {1}: {2}"
         [setter; if (dur =? 0)%N then "permanent " +:+ xtag kind +:+ "-line on " +:+ mask
                  else "timed " +:+ xtag kind +:+ "-line on " +:+ mask +:+ ", expires in "
                    +:+ human_duration dur +:+ " (on " +:+ long_date (expiry at_ dur) +:+ ")"; reason])
      (upd (put_xline (line_of kind mask dur setter reason at_)) s)))).
Proof. unfold add_xline_at. by rewrite publish_event_outputs. Qed.

Lemma add_xline_rules kind m dur setter reason at_ s :
  rules (core (add_xline_at kind m dur setter reason at_ s))
  = rules (put_xline (line_of kind m dur setter reason at_) (core s)).
Proof.
  rewrite add_xline_core. match goal with |- context [enforce_xlines ?x] => set (s1 := x) end.
  destruct (enforce_spec s1) as [-> _]. unfold s1. by frame.
Qed.

(** C23: Once a server ban has been added, no registered local user matches an active K-, G-
    or Z-line without an exemption; only users that match one are removed, and the list
    is the old one without a line of that kind and mask, followed by the new one. *)
Theorem xline_enforced kind mask dur setter reason at_ s :
  let c' := core (add_xline_at kind mask dur setter reason at_ s) in
  (∀ uid u, users c' !! uid = Some u → u_registered u = true →
     matched_xline c' (u_ident u) (u_host u) (u_ip u) = None)
  ∧ (∀ uid u, users (core s) !! uid = Some u →
       u_registered u = false ∨ matched_xline c' (u_ident u) (u_host u) (u_ip u) = None →
       is_Some (users c' !! uid))
  ∧ xlines c' = retain (λ y, negb (same_line kind mask y)) (xlines (core s))
                ++ [line_of kind mask dur setter reason at_].
Proof.
  cbn zeta. rewrite add_xline_core.
  match goal with |- context [enforce_xlines ?x] => set (s1 := x) end.
  assert (core s1 = put_xline (line_of kind mask dur setter reason at_) (core s)) as E
    by (unfold s1; by frame).
  destruct (enforce_spec s1) as (Hr & Hno & Hkeep & _).
  split; [exact Hno|]. split.
  - intros uid u Hu Hor. apply (Hkeep uid u); [by rewrite E|]. destruct Hor as [?|Hb]; [by left|right].
    rewrite (ban_reason_rules _ (core (enforce_xlines s1))) by done. exact Hb.
  - pose proof (add_xline_rules kind mask dur setter reason at_ s) as [= Hx _].
    rewrite add_xline_core in Hx. exact Hx.
Qed.

Lemma add_xline_wf kind mask dur setter reason at_ s :
  wf (core s) → wf (core (add_xline_at kind mask dur setter reason at_ s)).
Proof.
  intros W. rewrite add_xline_core. apply enforce_spec. frame.
  eapply wf_proper, W. by split.
Qed.

(** ** Expiring *)

Lemma retain_retain {A} (p q : A → bool) l :
  (∀ x, q x = true → p x = true) → retain q (retain p l) = retain q l.
Proof.
  intros Hpq. induction l as [|x l IH]; cbn; [done|]. destruct (p x) eqn:Ep; cbn; [by rewrite IH|].
  destruct (q x) eqn:Eq; [apply Hpq in Eq; congruence|done].
Qed.

Lemma find_first_retain {A} (p q : A → bool) l :
  (∀ x, q x = true → p x = true) → find_first q (retain p l) = find_first q l.
Proof.
  intros Hpq. induction l as [|x l IH]; cbn; [done|]. destruct (p x) eqn:Ep; cbn; [by rewrite IH|].
  destruct (q x) eqn:Eq; [apply Hpq in Eq; congruence|done].
Qed.

Lemma existsb_retain {A} (p q : A → bool) l :
  (∀ x, q x = true → p x = true) → existsb q (retain p l) = existsb q l.
Proof.
  intros Hpq. induction l as [|x l IH]; cbn; [done|]. destruct (p x) eqn:Ep; cbn; [by rewrite IH|].
  destruct (q x) eqn:Eq; [apply Hpq in Eq; congruence|done].
Qed.

Lemma purge_core s :
  core (purge_xlines s) = (core s) <| xlines := retain (x_active (core s)) (xlines (core s)) |>.
Proof.
  unfold purge_xlines. destruct (retain (λ x, negb _) (xlines (core s))) as [|x l] eqn:E.
  - rewrite retain_id; [by destruct (core s)|]. intros x Hx. apply negb_false_iff.
    apply not_true_iff_false. intros Hn. assert (x ∈ @nil XLine) as Hin; [|set_solver].
    rewrite <-E. by apply elem_of_retain.
  - rewrite save_xlines_outputs. rewrite for_each_outputs by (intros y s'; apply snotice_c_outputs).
    done.
Qed.

(** Purging drops exactly the expired lines and changes no decision: every ban, exemption,
    shun, reservation and regular-expression query answers as before. *)
Theorem purge_changes_no_decision s :
  let c := core s in let c' := core (purge_xlines s) in
  (∀ x, x ∈ xlines c' ↔ x ∈ xlines c ∧ x_active c x = true)
  ∧ (∀ ident host ip, matched_xline c' ident host ip = matched_xline c ident host ip)
  ∧ (∀ ident host ip, is_shunned c' ident host ip = is_shunned c ident host ip)
  ∧ (∀ kind lower name, matched_name c' kind lower name = matched_name c kind lower name)
  ∧ (∀ ident host ip, matched_require_auth c' ident host ip = matched_require_auth c ident host ip)
  ∧ (∀ nick ident host ip real,
       matched_rline c' nick ident host ip real = matched_rline c nick ident host ip real).
Proof.
  cbn zeta. rewrite purge_core. set (c := core s).
  set (c' := c <| xlines := retain (x_active c) (xlines c) |>).
  assert (∀ kind uh ip x, x_hit c kind uh ip x = true → x_active c x = true) as Hh.
  { intros kind uh ip x. unfold x_hit. intros Hx. apply andb_true_iff in Hx as [Hx _].
    by apply andb_true_iff in Hx as [_ Hx]. }
  assert (∀ kind uh ip, xmatch c' kind uh ip = xmatch c kind uh ip) as Em
    by (intros; apply existsb_retain, Hh).
  assert (∀ kind uh ip, find_first (x_hit c' kind uh ip) (xlines c') = find_first (x_hit c kind uh ip) (xlines c))
    as Ef by (intros; apply find_first_retain, Hh).
  split; [intros x; apply elem_of_retain|]. split.
  { intros. unfold matched_xline, is_exempt. rewrite Em. case_match; [done|]. cbn [find_map].
    by rewrite !Em, !Ef. }
  split; [intros; unfold is_shunned, is_exempt; by rewrite !Em|].
  assert (∀ a b d : bool, a && b && d = true → b = true) as Hb by (by intros [] [] []).
  split; [|split]; intros; apply (f_equal (fmap _)); apply find_first_retain; intros x Hx; by eapply Hb.
Qed.

(** ** One line per kind and mask *)

Definition line_key (x : XLine) : string * string := (xtag (x_kind x), x_mask x).
Definition unique_lines (c : Core) : Prop := NoDup (map line_key (xlines c)).

Lemma xtag_inj : Inj eq eq xtag.
Proof. intros [] []; cbn; congruence. Qed.

Lemma NoDup_retain {A B} (f : A → B) p l : NoDup (map f l) → NoDup (map f (retain p l)).
Proof.
  induction l as [|x l IH]; cbn; [done|]. intros [Hx Hl]%NoDup_cons. destruct (p x); cbn; [|by apply IH].
  apply NoDup_cons. split; [|by apply IH]. intros (y & E & Hy)%list_elem_of_fmap. apply Hx.
  apply elem_of_retain in Hy as [Hy _]. apply list_elem_of_fmap. eauto.
Qed.

Lemma put_unique x c : unique_lines c → unique_lines (put_xline x c).
Proof.
  intros Hu. unfold unique_lines, put_xline; cbn [xlines update_field]. rewrite map_app. apply NoDup_app.
  split; [by apply NoDup_retain|]. split; [|apply NoDup_singleton].
  intros k (y & -> & [_ Hy]%elem_of_retain)%list_elem_of_fmap E%list_elem_of_singleton.
  unfold line_key in E. injection E as E1%xtag_inj E2. apply negb_true_iff in Hy.
  unfold same_line in Hy. by rewrite E1, E2, bool_decide_true, String.eqb_refl in Hy.
Qed.

Lemma dedupe_spec seen l :
  NoDup (map line_key (dedupe seen l)) ∧ ∀ x, x ∈ dedupe seen l → x ∈ l ∧ line_key x ∉ seen.
Proof.
  revert seen. induction l as [|x l IH]; intros seen; cbn [dedupe]; [split; [constructor|set_solver]|].
  case_bool_decide as Hx.
  - destruct (IH seen) as [H1 H2]. split; [done|]. intros y Hy. apply H2 in Hy. set_solver.
  - destruct (IH ({[line_key x]} ∪ seen)) as [H1 H2]. split.
    + cbn. apply NoDup_cons. split; [|done]. intros (y & E & Hy)%list_elem_of_fmap.
      apply H2 in Hy as [_ Hy]. rewrite E in Hy. set_solver.
    + intros y [->|Hy]%elem_of_cons; [set_solver|]. apply H2 in Hy. set_solver.
Qed.

Lemma dedupe_id seen l :
  NoDup (map line_key l) → (∀ x, x ∈ l → line_key x ∉ seen) → dedupe seen l = l.
Proof.
  revert seen. induction l as [|x l IH]; intros seen Hn Hs; cbn; [done|].
  apply NoDup_cons in Hn as [Hx Hn]. rewrite bool_decide_false by (apply Hs; set_solver).
  f_equal. apply IH; [done|]. intros y Hy Hin. apply elem_of_union in Hin as [E%elem_of_singleton|Hin].
  - apply Hx. apply list_elem_of_fmap. eauto.
  - by apply (Hs y); [set_solver|].
Qed.

(** The list never holds two lines of the same kind and mask: adding, removing and expiring
    keep it so, and loading establishes it whatever was stored. *)
Theorem xlines_unique s :
  (unique_lines (core s) →
     (∀ kind mask dur setter reason at_, unique_lines (core (add_xline_at kind mask dur setter reason at_ s)))
     ∧ (∀ kind mask who, unique_lines (core (remove_xline kind mask who s).2))
     ∧ unique_lines (core (purge_xlines s)))
  ∧ ∀ rows text, unique_lines (core (load_xlines rows text s)).
Proof.
  split.
  - intros Hu. split; [|split].
    + intros kind m dur setter reason at_. unfold unique_lines.
      pose proof (add_xline_rules kind m dur setter reason at_ s) as [= -> _]. apply (put_unique (line_of kind m dur setter reason at_) (core s) Hu).
    + intros. unfold remove_xline. case_match; cbn [snd]; [|done]. unfold unique_lines. frame.
      by apply NoDup_retain.
    + unfold unique_lines. rewrite purge_core. by apply NoDup_retain.
  - intros rows text. unfold unique_lines, load_xlines. cbn zeta.
    case_match; frame; apply dedupe_spec.
Qed.

(** ** Storing *)

(** What the text form can hold: the mask and the setter are single words, no
    field has a line break, the setter is not empty, the times are 64-bit. *)
Definition word (t : string) : bool :=
  negb (contains_byte " " t) && negb (contains_byte "010" t) && negb (contains_byte "013" t).

Definition storable (x : XLine) : Prop :=
  word (x_mask x) = true ∧ word (x_setter x) = true ∧ x_setter x ≠ ""
  ∧ contains_byte "010" (x_reason x) = false ∧ contains_byte "013" (x_reason x) = false
  ∧ (x_expires x <= u64_max)%N ∧ (x_set_at x <= u64_max)%N.

Definition db_text (x : XLine) : string :=
  xtag (x_kind x) +:+ " " +:+ x_mask x +:+ " " +:+ to_string (x_expires x) +:+ " "
  +:+ to_string (x_set_at x) +:+ " " +:+ x_setter x +:+ " " +:+ x_reason x.

Lemma db_line_text x : db_line x = db_text x +:+ chr "010".
Proof. unfold db_line, db_text. by rewrite !str_app_assoc. Qed.

Lemma from_tag_xtag k : from_tag (xtag k) = Some k.
Proof. by destruct k. Qed.

Lemma word_spec t :
  word t = true ↔ contains_byte " " t = false ∧ contains_byte "010" t = false ∧ contains_byte "013" t = false.
Proof. unfold word. rewrite !andb_true_iff, !negb_true_iff. naive_solver. Qed.

Lemma to_string_word n : word (to_string n) = true.
Proof. apply word_spec. pose proof (to_string_digits n). split_and!; by apply digits_no_byte. Qed.

Lemma xtag_word k : word (xtag k) = true.
Proof. by destruct k. Qed.

Lemma parse_db_text x : storable x → parse_db_line (db_text x) = Some x.
Proof.
  intros (Hm & Hs & Hne & _ & _ & He & Ha).
  assert (∀ a b, word a = true → split " " (a +:+ " " +:+ b) = a :: split " " b) as Hw.
  { intros a b [Hsp _]%word_spec. by apply split_app. }
  unfold parse_db_line, db_text.
  rewrite !Hw by (done || apply xtag_word || apply to_string_word).
  rewrite from_tag_xtag. cbn [mbind option_bind].
  rewrite to_string_digits, andb_true_r.
  assert (is_empty (to_string (x_set_at x)) = false) as -> by apply is_empty_false, to_string_nonempty.
  cbn [negb]. rewrite !parse_to_string by done. cbn [default mbind option_bind].
  rewrite join_split. assert (is_empty (x_setter x) = false) as -> by (by apply is_empty_false).
  by destruct x.
Qed.

Lemma db_text_one_line x : storable x →
  contains_byte "010" (db_text x) = false ∧ contains_byte "013" (db_text x) = false.
Proof.
  intros ((_ & M1 & M2)%word_spec & (_ & S1 & S2)%word_spec & _ & R1 & R2 & _).
  pose proof (proj1 (word_spec _) (to_string_word (x_expires x))) as (_ & E1 & E2).
  pose proof (proj1 (word_spec _) (to_string_word (x_set_at x))) as (_ & A1 & A2).
  pose proof (proj1 (word_spec _) (xtag_word (x_kind x))) as (_ & T1 & T2).
  unfold db_text. rewrite !contains_byte_app, M1, M2, S1, S2, R1, R2, E1, E2, A1, A2, T1, T2. done.
Qed.

Lemma load_saved l :
  Forall storable l → omap parse_db_line (lines (str_concat (map db_line l))) = l.
Proof.
  intros Hl. assert (map db_line l = map (λ t, t +:+ chr "010") (map db_text l)) as ->.
  { rewrite map_map. apply map_ext. apply db_line_text. }
  rewrite lines_concat.
  - induction Hl as [|x l Hx _ IH]; [done|]. cbn. rewrite parse_db_text by done. by rewrite IH.
  - apply Forall_fmap. eapply Forall_impl; [exact Hl|]. apply db_text_one_line.
Qed.


(** ** Consistency of the tables *)

Lemma same_xlines f s : wf (core s) → wf (core (upd (λ c, c <| xlines ::= f c |>) s)).
Proof. intros W. eapply wf_proper, W. by split. Qed.

Lemma remove_xline_wf kind m who s : wf (core s) → wf (core (remove_xline kind m who s).2).
Proof.
  intros W. unfold remove_xline. case_match; cbn [snd]; [|done]. frame.
  by apply (same_xlines (λ _, retain (λ y, negb (same_line_nocase kind m y)))).
Qed.

Lemma purge_xlines_wf s : wf (core s) → wf (core (purge_xlines s)).
Proof. intros W. rewrite purge_core. eapply wf_proper, W. by split. Qed.

Lemma load_xlines_wf rows text s : wf (core s) → wf (core (load_xlines rows text s)).
Proof.
  intros W. unfold load_xlines. cbn zeta. set (s1 := match _ with Some _ => _ | None => _ end).
  assert (wf (core s1)) as W1.
  { unfold s1. repeat case_match; frame; unfold load_xlines_text; repeat case_match;
      try done; (eapply wf_proper, W; by split). }
  case_match; frame; (eapply wf_proper, W1; by split).
Qed.

Lemma enforce_rline_wf pat reason s : wf (core s) → wf (core (enforce_rline pat reason s)).
Proof. intros W. by apply refuse_all. Qed.

Lemma require_oper_core uid s b s' : require_oper uid s = (b, s') → core s' = core s.
Proof. unfold require_oper. case_match; intros; simplify_eq; by frame. Qed.

Lemma do_xline_wf uid m rest kind s : wf (core s) → wf (core (do_xline uid m rest kind s).2).
Proof.
  intros W. unfold do_xline. destruct (require_oper uid s) as [b s1] eqn:E. apply require_oper_core in E.
  rewrite <-E in W. destruct b; cbn [negb]; [|done]. destruct rest as [|p ps].
  - pose proof (remove_xline_wf kind m (nick_of (core s1) uid) s1 W) as W2.
    destruct (remove_xline _ _ _ _) as [r s2]. cbn [snd] in *. unfold propagate_delline, tell.
    case_match; by frame.
  - destruct (xline_args _) as [d r]. case_match; cbn [snd]; unfold tell, propagate_addline; frame; [done|].
    by apply add_xline_wf.
Qed.

Lemma rline_cmd_wf uid pat rest s : wf (core s) → wf (core (rline_cmd uid pat rest s).2).
Proof.
  intros W. unfold rline_cmd. destruct (require_oper uid s) as [b s1] eqn:E. apply require_oper_core in E.
  rewrite <-E in W. destruct b; cbn [negb]; [|done]. destruct rest as [|p ps].
  - pose proof (remove_xline_wf Rline pat (nick_of (core s1) uid) s1 W) as W2.
    destruct (remove_xline _ _ _ _) as [r s2]. cbn [snd] in *. unfold propagate_delline, tell.
    case_match; by frame.
  - case_match; cbn [snd]; unfold tell; frame; [done|]. apply enforce_rline_wf.
    unfold propagate_addline. frame. by apply add_xline_wf.
Qed.

Lemma link_addline_wf via msg s : wf (core s) → wf (core (link_addline_recv via msg s)).
Proof. intros W. unfold link_addline_recv. repeat case_match; try done. frame. by apply add_xline_wf. Qed.

Lemma link_delline_wf via msg s : wf (core s) → wf (core (link_delline_recv via msg s)).
Proof.
  intros W. unfold link_delline_recv. do 3 (case_match; try done). case_match; [done|]. case_match; [|done].
  match goal with |- context [remove_xline ?k ?m ?w s] => pose proof (remove_xline_wf k m w s W) as W2;
    destruct (remove_xline k m w s) as [rm sx] end. cbn [snd] in W2. case_match; [by frame|done].
Qed.

Lemma link_svshold_wf via msg s : wf (core s) → wf (core (link_svshold via msg s)).
Proof.
  intros W. unfold link_svshold. repeat case_match; try done; frame; [by apply remove_xline_wf|by apply add_xline_wf].
Qed.
End facts.
