(* ===== verification/MessageFacts.v ===== *)
(** * Facts about messages

    Who receives a message and what becomes of its text ([CoreMessage]). *)

From Stdlib Require Import Ascii.
From S2P Require Import Prelude RustStr Glob Clock I18n Channel Numeric State Mode Ban.
From S2P Require Import CoreMode Watch Users Tables Membership CoreMessage.

Local Open Scope stdpp_scope.

(** ** Stripping *)

(** A character as [chars] cuts it: one leading byte and what it announces. *)
Definition whole (c : string) : Prop := ∃ b r, c = String b r ∧ utf8_len b = S (str_len r).

Lemma chars_go_whole cur r s :
  r ≠ "" → chars_go (str_len r) cur (r +:+ s) = (cur +:+ r) :: chars_go 0 "" s.
Proof.
  revert cur. induction r as [|b r IH]; intros cur Hr; [done|].
  destruct r as [|b' r]; [done|].
  change (chars_go (str_len (String b' r)) (cur +:+ String b "") (String b' r +:+ s)
          = (cur +:+ String b (String b' r)) :: chars_go 0 "" s).
  rewrite IH by done. by rewrite str_app_assoc.
Qed.

Lemma chars_cons c s : whole c → chars (c +:+ s) = c :: chars s.
Proof.
  intros (b & r & -> & Hl). unfold chars.
  change (String b r +:+ s) with (String b (r +:+ s)). cbn [chars_go]. rewrite Hl.
  destruct r as [|b' r]; [done|].
  by apply (chars_go_whole (String b "") (String b' r) s).
Qed.

Lemma utf8_len_pos b : utf8_len b ≠ 0.
Proof. unfold utf8_len. by repeat case_match. Qed.

(** Every character of a string is whole but possibly the last. *)
Lemma chars_go_shape k cur s :
  (k = 0 ∧ cur = "" ∨ 0 < k ∧ ∃ b r, cur = String b r ∧ utf8_len b = S (str_len r + k)) →
  ∃ l e, chars_go k cur s = l ++ e ∧ Forall whole l ∧
    (e = [] ∨ ∃ b r, e = [String b r] ∧ S (str_len r) < utf8_len b).
Proof.
  revert k cur. induction s as [|b s IH]; intros k cur Hk; cbn [chars_go].
  { destruct Hk as [[-> ->]|(Hk & b & r & -> & Hl)].
    - by exists [], []; repeat split; [constructor|left].
    - exists [], [String b r]. cbn. repeat split; [constructor|right]. exists b, r. split; [done|]. lia. }
  destruct Hk as [[-> ->]|(Hk & b0 & r & -> & Hl)].
  - pose proof (utf8_len_pos b) as Hp. destruct (utf8_len b) as [|[|k']] eqn:Eb; [done| |].
    + destruct (IH 0 "" ltac:(by left)) as (l & e & -> & Hw & He).
      exists (String b "" :: l), e. repeat split; [|done]. constructor; [|done]. by exists b, "".
    + apply IH. right. split; [lia|]. exists b, "". split; [done|]. cbn. lia.
  - assert (str_len (r +:+ String b "") = S (str_len r)) as El.
    { rewrite app_len. unfold str_len. cbn. lia. }
    destruct k as [|[|k']]; [lia| |].
    + destruct (IH 0 "" ltac:(by left)) as (l & e & -> & Hw & He).
      exists ((String b0 r +:+ String b "") :: l), e. repeat split; [|done]. constructor; [|done].
      exists b0, (r +:+ String b ""). split; [done|]. rewrite Hl. unfold str_len in *. lia.
    + apply IH. right. split; [lia|]. exists b0, (r +:+ String b ""). split; [done|]. rewrite Hl. unfold str_len in *. lia.
Qed.

(** A list of characters in the order of a string: only the last may be partial. *)
Definition cut (l : list string) : Prop :=
  ∃ w e, l = w ++ e ∧ Forall whole w ∧ (e = [] ∨ ∃ b r, e = [String b r] ∧ S (str_len r) < utf8_len b).

Lemma chars_cut s : cut (chars s).
Proof. apply chars_go_shape. by left. Qed.

Lemma chars_go_partial cur r k :
  str_len r < k → cur ≠ "" → chars_go k cur r = [cur +:+ r].
Proof.
  unfold str_len. revert cur k. induction r as [|b r IH]; intros cur k Hk Hc; cbn.
  { rewrite str_app_nil_r. by destruct cur. }
  destruct k as [|[|k]]; cbn in Hk; [lia|lia|]. rewrite IH; [|lia|by destruct cur].
  by rewrite str_app_assoc.
Qed.

Lemma cut_chars l : cut l → chars (str_concat l) = l.
Proof.
  intros (w & e & -> & Hw & He). induction Hw as [|c w Hc _ IH]; cbn.
  - destruct He as [->|(b & r & -> & Hl)]; [done|]. cbn. rewrite str_app_nil_r. unfold chars; cbn.
    destruct (utf8_len b) as [|[|k]]; [lia|lia|]. rewrite chars_go_partial; [done|lia|done].
  - by rewrite chars_cons, IH.
Qed.

Lemma cut_tail c l : cut (c :: l) → cut l.
Proof.
  intros (w & e & E & Hw & He). destruct w as [|c' w]; cbn in E.
  - destruct He as [->|(b & r & -> & _)]; [done|]. simplify_eq. by exists [], []; repeat split; [constructor|left].
  - simplify_eq. inversion Hw; subst. by exists w, e.
Qed.

Lemma cut_cons c l : cut (c :: l) → l ≠ [] → whole c.
Proof.
  intros (w & e & E & Hw & He) Hl. destruct w as [|c' w]; cbn in E.
  - destruct He as [->|(b & r & -> & _)]; by simplify_eq.
  - simplify_eq. by inversion Hw.
Qed.

Lemma cut_head c l l' : cut (c :: l) → cut l' → (l = [] → l' = []) → cut (c :: l').
Proof.
  intros Hc (w & e & -> & Hw & He) Hl. destruct l as [|d l].
  - rewrite (Hl eq_refl). done.
  - exists (c :: w), e. repeat split; [|done]. constructor; [|done]. by eapply cut_cons.
Qed.

Lemma skip_upto_suffix max p cs : ∃ l, cs = l ++ (skip_upto max p cs).2.
Proof.
  revert cs. induction max as [|max IH]; intros [|c cs]; cbn; try by exists [].
  case_match; [|by exists []]. specialize (IH cs) as [l Hl].
  destruct (skip_upto max p cs) as [n r]; cbn in *. exists (c :: l). by rewrite Hl at 1.
Qed.

Lemma skip_colour_suffix max full p cs : ∃ l, cs = l ++ skip_colour max full p cs.
Proof.
  unfold skip_colour. destruct (skip_upto_suffix max p cs) as [l Hl].
  destruct (skip_upto max p cs) as [n r]; cbn in Hl.
  destruct r as [|c [|d r]]; try by exists l. case_match; [|by exists l].
  destruct (skip_upto_suffix max p (d :: r)) as [l' Hl'].
  exists (l ++ c :: l'). rewrite Hl at 1. rewrite <-app_assoc. cbn. by rewrite <-Hl'.
Qed.

Lemma cut_suffix l l' : cut (l ++ l') → cut l'.
Proof. induction l as [|c l IH]; cbn; [done|]. intros Hc. by eapply IH, cut_tail. Qed.

Lemma strip_go_fuel fuel cs : length cs ≤ fuel → strip_go fuel cs = strip_go (length cs) cs.
Proof.
  revert cs. induction fuel as [fuel IH] using lt_wf_ind; intros [|c cs] Hl; cbn in *.
  { by destruct fuel. }
  destruct fuel as [|fuel]; [lia|]. cbn.
  assert (∀ r, (∃ l, cs = l ++ r) → strip_go fuel r = strip_go (length cs) r) as Hsk.
  { intros r [l ->]. rewrite length_app in *. rewrite (IH fuel) by (try lia).
    destruct (decide (length l = 0)) as [E|E]; [by rewrite E|].
    symmetry. apply IH; lia. }
  rewrite (Hsk (skip_mirc cs)), (Hsk (skip_hex cs)), (Hsk cs); try done;
    first [apply skip_colour_suffix | by exists []].
Qed.

Lemma strip_go_nil fuel : strip_go fuel [] = [].
Proof. by destruct fuel. Qed.

Lemma strip_go_ok fuel cs :
  cut cs → existsb is_fmt (strip_go fuel cs) = false ∧ cut (strip_go fuel cs).
Proof.
  revert cs. induction fuel as [|fuel IH]; intros [|c cs] Hc; cbn [strip_go]; try (split; [done|exact Hc]).
  { split; [done|]. by exists [], []; repeat split; [constructor|left]. }
  assert (∀ r, (∃ l, cs = l ++ r) → cut r) as Hsuf.
  { intros r [l E]. apply cut_tail in Hc. rewrite E in Hc. by eapply cut_suffix. }
  destruct (is_byte "003" c); [apply IH, Hsuf, skip_colour_suffix|].
  destruct (is_byte "004" c); [apply IH, Hsuf, skip_colour_suffix|].
  destruct (IH cs (Hsuf _ ltac:(by exists []))) as [Hn Ht].
  destruct (is_fmt c) eqn:Ef; [done|]. split; [cbn [existsb]; by rewrite Ef, Hn|].
  eapply cut_head; [exact Hc|exact Ht|]. intros ->. apply strip_go_nil.
Qed.

Lemma strip_go_id cs : existsb is_fmt cs = false → strip_go (length cs) cs = cs.
Proof.
  induction cs as [|c cs IH]; [done|]. cbn [existsb length strip_go]. intros [Hc Hcs]%orb_false_iff. rewrite Hc, IH by done.
  assert (is_byte "003" c = false ∧ is_byte "004" c = false) as [-> ->]; [|done].
  unfold is_fmt in Hc. cbn in Hc. repeat (apply orb_false_iff in Hc as [? Hc]). done.
Qed.

(** +S leaves no formatting code in a message, and changes no message that has none. *)
Theorem strip_removes_formatting t :
  has_formatting (strip_formatting t) = false
  ∧ (has_formatting t = false → strip_formatting t = t).
Proof.
  unfold has_formatting, strip_formatting. split.
  - destruct (strip_go_ok (length (chars t)) _ (chars_cut t)) as [H1 H2]. by rewrite cut_chars.
  - intros Hf. rewrite strip_go_id by done. apply chars_concat.
Qed.

Lemma starts_split p t : starts_with p t = true → ∃ r, t = p +:+ r.
Proof.
  revert t. induction p as [|b p IH]; intros t Ht; [by exists t|].
  destruct t as [|b' t]; [done|]. cbn in Ht. case_bool_decide as Hb; [|done]. subst b'.
  apply IH in Ht as [r ->]. by exists r.
Qed.

Lemma strip_keeps_envelope t : starts_with "+E2E " t = true → starts_with "+E2E " (strip_formatting t) = true.
Proof.
  intros [r ->]%starts_split. unfold strip_formatting.
  assert (chars ("+E2E " +:+ r) = ["+"; "E"; "2"; "E"; " "] ++ chars r) as ->.
  { change ("+E2E " +:+ r) with ("+" +:+ ("E" +:+ ("2" +:+ ("E" +:+ (" " +:+ r))))).
    rewrite !chars_cons by (by eexists _, ""). done. }
  cbn [app length]. cbn [strip_go]. reflexivity.
Qed.

(** ** The fan-out *)

#[export] Instance send_tagged_outputs uid src a b d : Outputs (send_tagged uid src a b d).
Proof. intros s. unfold send_tagged. case_match; [apply emit_to_outputs|done]. Qed.

Lemma cache_index_lt st at_ mt : cache_index st at_ mt < 8.
Proof. destruct st, at_, mt; cbn; lia. Qed.

Lemma cache_index_inj st at_ mt st' at' mt' :
  cache_index st at_ mt = cache_index st' at' mt' → st = st' ∧ at_ = at' ∧ mt = mt'.
Proof. by destruct st, at_, mt, st', at', mt'. Qed.

Section fanout.
Context `{UnicodeLower} `{Outside}.
Variables (k : string) (src : Uid) (ctags msgid body : string) (op_only : bool) (c : Core).

Let time_tag := "time=" +:+ iso_time (clock c).
Let account := users c !! src ≫= u_account.

(** A filled slot of the cache holds the line of its capability profile. *)
Definition cache_ok (cache : list (option string)) : Prop :=
  length cache = 8 ∧ ∀ st at_ mt line,
    cache !! cache_index st at_ mt = Some (Some line) →
    line = profile_line time_tag ctags msgid body account st at_ mt.

Lemma cache_ok_insert cache st at_ mt :
  cache_ok cache →
  cache_ok (<[cache_index st at_ mt :=
              Some (profile_line time_tag ctags msgid body account st at_ mt)]> cache).
Proof.
  intros [Hl Hc]. split; [by rewrite length_insert|]. intros st' at' mt' line.
  destruct (decide (cache_index st at_ mt = cache_index st' at' mt')) as [E|E].
  - rewrite <-E, list_lookup_insert_eq by (rewrite Hl; apply cache_index_lt).
    apply cache_index_inj in E as (-> & -> & ->). by intros [= <-].
  - rewrite list_lookup_insert_ne by done. apply Hc.
Qed.

(** The line of a profile is the line [send_tagged] composes. *)
Lemma profile_line_sent m u s :
  core s = c → users c !! m = Some u →
  emit_to m (profile_line time_tag ctags msgid body account (cap_has (u_caps u) "server-time")
               (cap_has (u_caps u) "account-tag" && is_some account)
               (cap_has (u_caps u) "message-tags")) s
  = send_tagged m src ctags msgid body s.
Proof.
  intros Ec Hu. unfold send_tagged. rewrite Ec, Hu. fold time_tag account. unfold profile_line.
  do 2 f_equal. f_equal. by destruct (cap_has (u_caps u) "account-tag"), account.
Qed.

Lemma fan_fold l cache s :
  core s = c → cache_ok cache →
  (foldl (fan_step k src time_tag ctags msgid body account op_only) (cache, s) l).2
  = for_each (retain (hears c k src op_only) l) (λ m, send_tagged m src ctags msgid body) s.
Proof.
  revert cache s. induction l as [|m l IH]; intros cache s Ec Hc; cbn [foldl retain]; [done|].
  unfold fan_step at 2. rewrite Ec.
  destruct (hears c k src op_only m) eqn:Eh; cbn [negb]; [|by apply IH].
  destruct (users c !! m) as [u|] eqn:Hu; [|unfold hears in Eh; by rewrite Hu in Eh].
  cbn [map_or]. change (for_each (m :: ?l) ?f ?s) with (for_each l f (f m s)).
  destruct (mjoin (cache !! _)) as [line|] eqn:El.
  - assert (line = profile_line time_tag ctags msgid body account (cap_has (u_caps u) "server-time")
       (cap_has (u_caps u) "account-tag" && is_some account) (cap_has (u_caps u) "message-tags")) as ->.
    { apply Hc. by destruct (cache !! _) as [[l'|]|]; simplify_eq/=. }
    rewrite <-(profile_line_sent m u s Ec Hu). apply IH; [|done]. by rewrite emit_to_outputs.
  - rewrite <-(profile_line_sent m u s Ec Hu). apply IH; [by rewrite emit_to_outputs|].
    by apply cache_ok_insert.
Qed.
End fanout.

Section policy.
Context `{UnicodeLower} `{Outside}.

(** The fan-out that formats one line per capability profile and shares it sends
    what formatting a line for each member would. *)
Lemma fanout_sends k src ctags msgid body op_only s :
  to_channel_tagged k src ctags msgid body op_only s
  = for_each (retain (hears (core s) k src op_only) (chan_members (core s) k))
      (λ m, send_tagged m src ctags msgid body) s.
Proof.
  unfold to_channel_tagged, chan_members. destruct (channels (core s) !! k) as [ch|]; cbn [map_or]; [|done].
  apply fan_fold; [done|]. split; [done|]. intros st at_ mt line Hl.
  by destruct st, at_, mt.
Qed.

#[export] Instance to_channel_tagged_outputs k src a b d e : Outputs (to_channel_tagged k src a b d e).
Proof. intros s. rewrite fanout_sends. apply for_each_outputs. intros x. apply _. Qed.

(** ** What a user has been sent *)

Definition inbox (s : Server) (m : Uid) : list string := default [] (out (io s) !! m).
Definition linkbox (s : Server) (l : Uid) : list string := default [] (link_q (io s) !! l).
Definition uncaptured (s : Server) : Prop := label_capture (io s) = None.

Lemma emit_to_inbox uid line s m :
  uncaptured s → is_Some (users (core s) !! uid) →
  inbox (emit_to uid line s) m = inbox s m ++ (if decide (m = uid) then [line] else [])
  ∧ uncaptured (emit_to uid line s) ∧ link_q (io (emit_to uid line s)) = link_q (io s).
Proof.
  intros Hn [u Hu]. unfold emit_to. rewrite Hn, Hu. split; [|done]. unfold inbox, push_out; cbn.
  case_decide as Hm; [subst m; by rewrite lookup_insert_eq|].
  by rewrite lookup_insert_ne, app_nil_r.
Qed.

(** The line [send_tagged] composes for [m]. *)
Definition line_for (c : Core) (m src : Uid) (ctags msgid body : string) : string :=
  let caps := map_or ∅ u_caps (users c !! m) in
  let account := users c !! src ≫= u_account in
  profile_line ("time=" +:+ iso_time (clock c)) ctags msgid body account
    (cap_has caps "server-time") (cap_has caps "account-tag" && is_some account)
    (cap_has caps "message-tags").

Lemma send_tagged_inbox uid src ctags msgid body s m :
  uncaptured s → is_Some (users (core s) !! uid) →
  let s' := send_tagged uid src ctags msgid body s in
  inbox s' m = inbox s m ++ (if decide (m = uid) then [line_for (core s) m src ctags msgid body] else [])
  ∧ uncaptured s' ∧ link_q (io s') = link_q (io s).
Proof.
  intros Hn Hs s'. destruct Hs as [u Hu]. unfold s'.
  rewrite <-(profile_line_sent src ctags msgid body (core s) uid u s eq_refl Hu).
  destruct (emit_to_inbox uid (profile_line ("time=" +:+ iso_time (clock (core s))) ctags msgid body
    (users (core s) !! src ≫= u_account) (cap_has (u_caps u) "server-time")
    (cap_has (u_caps u) "account-tag" && is_some (users (core s) !! src ≫= u_account))
    (cap_has (u_caps u) "message-tags")) s m Hn (mk_is_Some _ _ Hu)) as (E & Hc & Hl).
  rewrite E. split; [|done]. f_equal. case_decide; [subst m|done]. unfold line_for. by rewrite Hu.
Qed.

Lemma fan_inbox l src ctags msgid body s m :
  uncaptured s → NoDup l → Forall (λ i, is_Some (users (core s) !! i)) l →
  let s' := for_each l (λ m, send_tagged m src ctags msgid body) s in
  inbox s' m = inbox s m ++ (if decide (m ∈ l) then [line_for (core s) m src ctags msgid body] else [])
  ∧ uncaptured s' ∧ link_q (io s') = link_q (io s).
Proof.
  intros Hn Hnd Hf s'. unfold s'. clear s'. revert s Hn Hf.
  induction Hnd as [|i l Hi _ IH]; intros s Hn Hf.
  { cbn. by rewrite app_nil_r. }
  inversion Hf as [|? ? Hu Hf']; subst. change (for_each (i :: ?l) ?f ?s) with (for_each l f (f i s)).
  destruct (send_tagged_inbox i src ctags msgid body s m Hn Hu) as (E & Hc & Hl).
  assert (core (send_tagged i src ctags msgid body s) = core s) as Ec by apply send_tagged_outputs.
  destruct (IH (send_tagged i src ctags msgid body s) Hc) as (E' & Hc' & Hl'); [by rewrite Ec|].
  rewrite E', Hl', Ec, E, <-app_assoc. split; [|done]. f_equal.
  destruct (decide (m = i)) as [->|Hm].
  - rewrite decide_False by done. by rewrite decide_True by set_solver.
  - cbn. by rewrite (decide_ext (m ∈ l) (m ∈ i :: l)) by set_solver.
Qed.

Lemma NoDup_retain_id {A} (p : A → bool) (l : list A) : NoDup l → NoDup (retain p l).
Proof.
  induction 1 as [|x l Hx _ IH]; cbn; [constructor|]. case_match; [|done]. constructor; [|done].
  by intros [Hin _]%elem_of_retain.
Qed.

Lemma hears_user c k src o m : hears c k src o m = true → is_Some (users c !! m).
Proof. unfold hears. by destruct (users c !! m). Qed.

Lemma chan_members_NoDup c k : NoDup (chan_members c k).
Proof. unfold chan_members. destruct (channels c !! k); cbn; [apply NoDup_elements|constructor]. Qed.

(** C30: A channel message reaches a user once if they are a member who hears the sender
    (not the sender, not deaf, not mutually ignored, privileged when the message is for
    operators only), and otherwise not at all; the line is the one the recipient's own
    capabilities call for, whatever the per-profile cache holds. *)
Theorem message_recipients k src ctags msgid body op_only s m :
  uncaptured s →
  inbox (to_channel_tagged k src ctags msgid body op_only s) m
  = inbox s m ++ (if is_member (core s) m k && hears (core s) k src op_only m
                  then [line_for (core s) m src ctags msgid body] else []).
Proof.
  intros Hn. rewrite fanout_sends.
  destruct (fan_inbox (retain (hears (core s) k src op_only) (chan_members (core s) k))
              src ctags msgid body s m Hn) as (-> & _).
  - apply NoDup_retain_id, chan_members_NoDup.
  - apply Forall_forall. intros i [_ Hi]%elem_of_retain. by eapply hears_user.
  - f_equal. assert (m ∈ chan_members (core s) k ↔ is_member (core s) m k = true) as Hm.
    { unfold chan_members, is_member. destruct (channels (core s) !! k) as [ch|]; cbn; [|set_solver].
      rewrite elem_of_elements, elem_of_dom. by destruct (members ch !! m). }
    destruct (is_member (core s) m k && hears (core s) k src op_only m) eqn:E.
    + apply andb_true_iff in E as [E1 E2]. rewrite decide_True; [done|]. apply elem_of_retain. by rewrite Hm.
    + apply andb_false_iff in E. rewrite decide_False; [done|]. rewrite elem_of_retain, Hm.
      intros [E1 E2]. destruct E; congruence.
Qed.
(** ** Refused messages *)

(** Between the two states nothing was sent to anyone but [uid], and nothing
    was recorded. *)
Definition only_to (uid : Uid) (s s' : Server) : Prop :=
  uncaptured s' ∧ link_q (io s') = link_q (io s) ∧ s_history (core s') = s_history (core s)
  ∧ ∀ m, m ≠ uid → inbox s' m = inbox s m.

Lemma only_to_refl uid s : uncaptured s → only_to uid s s.
Proof. by repeat split. Qed.

Lemma only_to_trans uid s1 s2 s3 : only_to uid s1 s2 → only_to uid s2 s3 → only_to uid s1 s3.
Proof.
  intros (_ & L1 & H1 & I1) (N2 & L2 & H2 & I2). repeat split; [done|congruence..|].
  intros m Hm. by rewrite I2, I1.
Qed.

Lemma only_to_upd uid f s :
  uncaptured s → s_history (f (core s)) = s_history (core s) → only_to uid s (upd f s).
Proof. by repeat split. Qed.

Lemma only_to_emit uid line s : uncaptured s → only_to uid s (emit_to uid line s).
Proof.
  intros Hn. destruct (users (core s) !! uid) as [u|] eqn:Hu.
  - split; [by apply (emit_to_inbox uid line s uid)|]. split; [by apply (emit_to_inbox uid line s uid)|].
    split; [by rewrite emit_to_outputs|]. intros m Hm.
    destruct (emit_to_inbox uid line s m Hn (mk_is_Some _ _ Hu)) as (-> & _).
    by rewrite decide_False, app_nil_r.
  - unfold emit_to. rewrite Hn, Hu. by apply only_to_refl.
Qed.

Lemma only_to_numeric uid code rest s : uncaptured s → only_to uid s (numeric uid code rest s).
Proof.
  intros Hn. unfold numeric, send. case_match; [by apply only_to_emit|by apply only_to_refl].
Qed.

Lemma only_to_refuse uid notice r s : uncaptured s → only_to uid s (refuse_speech uid notice r s).2.
Proof.
  intros Hn. unfold refuse_speech. cbn [snd]. destruct r as [[code text]|]; [|by apply only_to_refl].
  destruct notice; [by apply only_to_refl|by apply only_to_numeric].
Qed.

Lemma slowmode_only uid k r s : uncaptured s → only_to uid s (slowmode_check uid k r s).2.
Proof. intros Hn. unfold slowmode_check. repeat case_match; by apply only_to_refl || by apply only_to_upd. Qed.

Lemma messageflood_only uid k s : uncaptured s → only_to uid s (messageflood_hit uid k s).2.
Proof. intros Hn. unfold messageflood_hit. repeat case_match; by apply only_to_refl || by apply only_to_upd. Qed.

Lemma repeat_only uid k body r s : uncaptured s → only_to uid s (repeat_check uid k body r s).2.
Proof. intros Hn. unfold repeat_check. repeat case_match; by apply only_to_refl || by apply only_to_upd. Qed.

(** The course of a channel message: refused by a check, kicked for flooding, or
    spoken with some text from a state that has sent nothing. *)
Inductive course (uid : Uid) (prefix target text : string) (notice : bool) (s : Server)
    : CmdResult * Server → Prop :=
  | refused s' : only_to uid s s' → course uid prefix target text notice s (CmdFail, s')
  | kicked k ban s' : only_to uid s s' →
      course uid prefix target text notice s (CmdFail, flood_kick uid k ban s')
  | spoken k body s1 s' :
      k = to_ascii_lowercase target →
      first_refusal (entry_checks (core s) uid k target text (rank (core s) uid k)) = None →
      cget modes (core s1) k = cget modes (core s) k →
      first_refusal (content_checks (core s1) uid k target text notice) = None →
      filtered_body (core s1) uid k text = Some body →
      only_to uid s s' →
      course uid prefix target text notice s
        (CmdOk, speak uid prefix target k (if notice then "NOTICE" else "PRIVMSG") body
                  (ops_only (core s) k (rank (core s) uid k)) s').

Lemma slowmode_modes uid k r s : cget modes (core (slowmode_check uid k r s).2) k = cget modes (core s) k.
Proof. unfold slowmode_check. repeat case_match; cbn [snd]; try done. by apply cget_with_chan_ne. Qed.

Lemma messageflood_modes uid k s : cget modes (core (messageflood_hit uid k s).2) k = cget modes (core s) k.
Proof. unfold messageflood_hit. repeat case_match; cbn [snd]; try done; by apply cget_with_chan_ne. Qed.

Lemma deliver_channel_course uid prefix target text notice s :
  uncaptured s →
  course uid prefix target text notice s (deliver_channel uid prefix target text notice s).
Proof.
  intros Hn. unfold deliver_channel. cbn zeta. set (k := to_ascii_lowercase target).
  set (r := rank (core s) uid k).
  assert (∀ f s1, only_to uid s s1 →
    course uid prefix target text notice s (refuse_speech uid notice f s1)) as Hr.
  { intros f s1 P1. apply (refused uid prefix target text notice s _).
    eapply only_to_trans; [exact P1|]. apply only_to_refuse, P1. }
  destruct (first_refusal (entry_checks _ _ _ _ _ _)) eqn:Ee; [by apply Hr, only_to_refl|].
  pose proof (slowmode_only uid k r s Hn) as P1. pose proof (slowmode_modes uid k r s) as M1.
  destruct (slowmode_check uid k r s) as [slow s1]. cbn [snd] in P1, M1.
  destruct slow; [by apply Hr|]. destruct (muted _ _ _ _); [by apply Hr|].
  destruct (if negb (flood_exempt (core s1) uid r) && _ then _ else _) as [fl s2] eqn:Ef.
  assert (only_to uid s s2 ∧ cget modes (core s2) k = cget modes (core s1) k) as [P2 M2].
  { destruct (_ && _) in Ef; [|by simplify_eq].
    pose proof (messageflood_only uid k s1 (proj1 P1)) as Hm. pose proof (messageflood_modes uid k s1) as Mm.
    rewrite Ef in Hm, Mm. split; [by eapply only_to_trans|done]. }
  destruct fl as [ban|]; [by apply (kicked uid prefix target text notice s)|].
  destruct (first_refusal (content_checks _ _ _ _ _ _)) eqn:Ec; [by apply Hr|].
  destruct (filtered_body (core s2) uid k text) as [body|] eqn:Eb; [|by apply Hr].
  destruct (too_many_caps _ _ _ _ _); [by apply Hr|].
  pose proof (repeat_only uid k body r s2 (proj1 P2)) as P3.
  destruct (repeat_check uid k body r s2) as [rep s3]. cbn [snd] in P3.
  assert (only_to uid s s3) by (by eapply only_to_trans).
  destruct rep; [by apply Hr|].
  apply (spoken uid prefix target text notice s k body s2 s3); try done. congruence.
Qed.

(** A channel message that is refused reaches nobody: no other user, no linked server and no
    history sees anything of it, unless the refusal is the +f kick, which removes the
    sender. *)
Theorem refused_reaches_nobody uid prefix target text notice s s' :
  uncaptured s → deliver_channel uid prefix target text notice s = (CmdFail, s') →
  only_to uid s s' ∨ ∃ k ban s1, only_to uid s s1 ∧ s' = flood_kick uid k ban s1.
Proof.
  intros Hn E. pose proof (deliver_channel_course uid prefix target text notice s Hn) as Hc.
  rewrite E in Hc. inversion Hc; subst; [by left|]. right. by do 3 eexists.
Qed.

Lemma first_refusal_None l : first_refusal l = None → Forall (λ ch, ch.1 = false) l.
Proof.
  induction l as [|[b r] l IH]; cbn; [constructor|]. destruct b; [done|]. intros E. by constructor; [|apply IH].
Qed.

Lemma entry_refusals_off c uid k target text r :
  first_refusal (entry_checks c uid k target text r) = None →
  external_refused c uid k = false
  ∧ chan_mode_on encrypted c k && negb (starts_with "+E2E " text) = false
  ∧ chan_mode_on moderated c k && (r <? RANK_VOICE)%N && negb (ops_only c k r)
      && negb (chanop_exempt c uid k "moderated") = false
  ∧ chan_mode_on reg_moderated c k && (r <? RANK_VOICE)%N && negb (is_logged_in c uid)
      && negb (chanop_exempt c uid k "regmoderated") = false
  ∧ map_or false (λ secs, (r <? RANK_VOICE)%N && negb (chanop_exempt c uid k "delaymsg")
                          && delayed c uid k secs) (chan_param delaymsg c k) = false.
Proof.
  intros Hf%first_refusal_None. unfold entry_checks in Hf.
  do 5 (apply Forall_cons in Hf as [? Hf]). done.
Qed.

(** C5: Who may speak in a channel. A message that is delivered comes from a member, or from
    an outsider of a channel without +n who is not banned; it is an envelope if the
    channel is +E; its author has voice or is exempt where the channel is +m (unless it
    goes to the operators only) or, without an account, +M; and on +d the author has
    been there long enough. *)
Theorem speech_policy uid prefix target text notice s s' :
  uncaptured s → deliver_channel uid prefix target text notice s = (CmdOk, s') →
  let c := core s in
  let k := to_ascii_lowercase target in
  let voiced := (RANK_VOICE <= rank c uid k)%N in
  ∃ ch, channels c !! k = Some ch
  ∧ (is_member c uid k = true ∨ no_external (modes ch) = false
       ∧ (ban_list_hit c uid (bans ch) = false ∨ ban_list_hit c uid (excepts ch) = true))
  ∧ (encrypted (modes ch) = true → starts_with "+E2E " text = true)
  ∧ (moderated (modes ch) = true →
       voiced ∨ opmoderated (modes ch) = true ∨ chanop_exempt c uid k "moderated" = true)
  ∧ (reg_moderated (modes ch) = true →
       voiced ∨ is_logged_in c uid = true ∨ chanop_exempt c uid k "regmoderated" = true)
  ∧ (∀ secs, delaymsg (modes ch) = Some secs →
       voiced ∨ chanop_exempt c uid k "delaymsg" = true ∨ delayed c uid k secs = false).
Proof.
  intros Hn E c k voiced. pose proof (deliver_channel_course uid prefix target text notice s Hn) as Hc.
  rewrite E in Hc. inversion Hc as [| |k0 body s1 s2 Hk He]; subst k0.
  apply entry_refusals_off in He as (P1 & P2 & P3 & P4 & P5). fold c k in P1, P2, P3, P4, P5.
  unfold external_refused in P1. destruct (channels c !! k) as [ch|] eqn:Hch; [|done].
  exists ch. split; [done|]. unfold chan_mode_on, chan_param, ops_only in *. unfold chan_mode_on in *. rewrite Hch in *.
  cbn [map_or mbind option_bind] in *. unfold is_member. rewrite Hch. cbn [map_or].
  assert (voiced ∨ (rank c uid k <? RANK_VOICE)%N = true) as Hv by (unfold voiced; rewrite N.ltb_lt; lia).
  split; [|split; [|split; [|split]]].
  - destruct (is_some _); [by left|right]. cbn in P1. apply orb_false_iff in P1 as [-> P1]. split; [done|].
    apply andb_false_iff in P1 as [->|P1%negb_false_iff]; auto.
  - intros He. rewrite He in P2. cbn in P2. by apply negb_false_iff.
  - intros Hm. destruct Hv as [Hv|Hv]; [by left|right]. rewrite Hm, Hv in P3. cbn in P3.
    rewrite andb_true_r in P3. destruct (opmoderated (modes ch)), (chanop_exempt c uid k "moderated"); solve [done|by left|by right].
  - intros Hm. destruct Hv as [Hv|Hv]; [by left|right]. rewrite Hm, Hv in P4. cbn in P4.
    destruct (is_logged_in c uid), (chanop_exempt c uid k "regmoderated"); solve [done|by left|by right].
  - intros secs Hd. destruct Hv as [Hv|Hv]; [by left|right]. rewrite Hd in P5. cbn [map_or] in P5.
    rewrite Hv in P5. cbn in P5. destruct (chanop_exempt c uid k "delaymsg"), (delayed c uid k secs); solve [done|by left|by right].
Qed.

(** An end-to-end encrypted channel carries envelopes only: whatever its other modes, the
    text a message is spoken with is a [+E2E] envelope. *)
Theorem encrypted_carries_envelopes uid prefix target text notice s s' :
  uncaptured s → chan_mode_on encrypted (core s) (to_ascii_lowercase target) = true →
  deliver_channel uid prefix target text notice s = (CmdOk, s') →
  ∃ body op_only s1, starts_with "+E2E " body = true ∧ only_to uid s s1
  ∧ s' = speak uid prefix target (to_ascii_lowercase target)
           (if notice then "NOTICE" else "PRIVMSG") body op_only s1.
Proof.
  intros Hn Henc E. pose proof (deliver_channel_course uid prefix target text notice s Hn) as Hc.
  rewrite E in Hc. inversion Hc as [| |k0 body s1 s2 Hk He Hm _ Hb Ho]; subst k0.
  set (k := to_ascii_lowercase target) in *.
  exists body. do 2 eexists. split; [|by split].
  apply entry_refusals_off in He as (_ & P2 & _). rewrite Henc in P2. apply negb_false_iff in P2.
  assert (chan_mode_on encrypted (core s1) k = true) as Henc1.
  { unfold chan_mode_on in *. unfold cget in Hm. destruct (channels (core s) !! k), (channels (core s1) !! k);
      simplify_eq/=; by rewrite ?Hm. }
  unfold filtered_body in Hb. rewrite Henc1, andb_false_r in Hb. cbn in Hb. injection Hb as <-.
  destruct (chan_mode_on strip_color (core s1) k && _); [by apply strip_keeps_envelope|done].
Qed.
End policy.
