(* ===== verification/SpeechFacts.v ===== *)
(** * Facts about messages, continued

    Messages for the operators only, private messages and their gates, the
    rate limit of +W, and the consistency of the tables. *)

From Stdlib Require Import Ascii Sorted.
From S2P Require Import Prelude RustStr Glob Clock I18n Channel Numeric State Mode Ban.
From S2P Require Import CoreMode Watch Users Tables ModeTables Membership MembershipTables.
From S2P Require Import LeaveFacts ListFacts UserFacts CoreMessage MessageFacts.

Local Open Scope stdpp_scope.

(** ** Rate limiting: +W *)

Lemma retain_le {A} (p q : A → bool) l :
  Forall (λ x, p x = true → q x = true) l → length (retain p l) ≤ length (retain q l).
Proof.
  induction 1 as [|x l Hx _ IH]; cbn; [done|]. destruct (p x); [rewrite Hx by done; cbn; lia|].
  destruct (q x); cbn; lia.
Qed.

(** A member's attempts to speak, at the times [ts]: the member after them and
    the times of those let through. *)
Definition slow_run (rate : Rate) (m : Member) (ts : list N) : Member * list N :=
  foldl (λ '(m, sent) t, let '(blocked, m) := slow_member t rate m in
           (m, if blocked then sent else sent ++ [t])) (m, []) ts.

Definition in_window (secs t x : N) : bool := ((t - secs <? x) && (x <=? t))%N.

Section slow.
Variable rate : Rate.
Hypothesis count_u32 : (r_count rate <= u32_max)%N.

Let recent (n : N) : list N → list N := retain (λ t, (n - r_secs rate <? t)%N).

(** At time [n], the last attempt: the hits kept are the recent ones of those let
    through, none of them in the future, and no window holds more than the limit. *)
Definition slow_inv (n : N) (m : Member) (sent : list N) : Prop :=
  recent n (slow_hits m) = recent n sent ∧ Forall (λ t, (t <= n)%N) sent
  ∧ ∀ t, (N.of_nat (length (retain (in_window (r_secs rate) t) sent)) <= r_count rate)%N.

Lemma recent_recent n n' l : (n <= n')%N → recent n' (recent n l) = recent n' l.
Proof.
  intros Hn. unfold recent. induction l as [|x l IH]; cbn; [done|].
  destruct (N.ltb_spec (n - r_secs rate) x); cbn; [by rewrite IH|].
  destruct (N.ltb_spec (n' - r_secs rate) x); [lia|done].
Qed.

Lemma recent_window n sent :
  Forall (λ t, (t <= n)%N) sent → recent n sent = retain (in_window (r_secs rate) n) sent.
Proof.
  unfold recent. induction 1 as [|x l Hx _ IH]; cbn; [done|]. unfold in_window at 1.
  rewrite (proj2 (N.leb_le x n) Hx), andb_true_r. by rewrite IH.
Qed.

Lemma slow_step n n' m sent :
  (n <= n')%N → slow_inv n m sent →
  let '(blocked, m') := slow_member n' rate m in
  slow_inv n' m' (if blocked then sent else sent ++ [n']).
Proof.
  intros Hn (Eh & Hs & Hw). unfold slow_member. fold (recent n').
  assert (recent n' (slow_hits m) = recent n' sent) as Er.
  { by rewrite <-(recent_recent n n' (slow_hits m)), Eh, recent_recent. }
  assert (Forall (λ t, (t <= n')%N) sent) as Hs'.
  { eapply Forall_impl; [exact Hs|]. intros x Hx. cbn in Hx |- *. lia. }
  rewrite Er. pose proof (Hw n') as Hl. rewrite <-recent_window in Hl by done.
  assert (as_u32 (N.of_nat (length (recent n' sent))) = N.of_nat (length (recent n' sent))) as ->.
  { unfold as_u32, u32_max in *. apply N.mod_small. lia. }
  destruct (N.leb_spec (r_count rate) (N.of_nat (length (recent n' sent)))) as [Hc|Hc].
  - cbn [slow_hits update_field]. repeat split; [|done|done]. cbn. by rewrite recent_recent.
  - repeat split.
    + change (recent n' (recent n' sent ++ [n']) = recent n' (sent ++ [n'])). unfold recent at 1 3.
      rewrite !retain_app. fold (recent n'). by rewrite recent_recent.
    + apply Forall_app. split; [done|]. by constructor.
    + intros t. rewrite retain_app, length_app. cbn [retain]. unfold in_window at 2.
      destruct (N.leb_spec n' t) as [Ht|Ht].
      * assert (length (retain (in_window (r_secs rate) t) sent) ≤ length (recent n' sent)).
        { apply retain_le. eapply Forall_impl; [exact Hs'|]. intros x Hx. unfold in_window.
          intros [Hx' _]%andb_true_iff. apply N.ltb_lt in Hx'. apply N.ltb_lt. cbn in Hx. lia. }
        case_match; cbn [length]; lia.
      * rewrite andb_false_r. cbn [length]. specialize (Hw t). lia.
Qed.

Lemma slow_run_inv ts n m sent :
  StronglySorted N.le (n :: ts) → slow_inv n m sent →
  ∃ n', slow_inv n' (foldl (λ '(m, sent) t, let '(blocked, m) := slow_member t rate m in
           (m, if blocked then sent else sent ++ [t])) (m, sent) ts).1
         (foldl (λ '(m, sent) t, let '(blocked, m) := slow_member t rate m in
           (m, if blocked then sent else sent ++ [t])) (m, sent) ts).2.
Proof.
  revert n m sent. induction ts as [|t ts IH]; intros n m sent Hs Hi; [by exists n|].
  apply StronglySorted_inv in Hs as [Hs Hle]. apply Forall_cons in Hle as [Hle _].
  cbn [foldl]. pose proof (slow_step n t m sent Hle Hi) as Hstep.
  destruct (slow_member t rate m) as [blocked m']. by eapply IH.
Qed.
End slow.

(** C36: Slow mode bounds the rate: however a member spaces their attempts, no window of the
    configured length contains more messages than the limit. *)
Theorem slowmode_bounds_rate rate m ts t :
  (r_count rate <= u32_max)%N → slow_hits m = [] → StronglySorted N.le ts →
  (N.of_nat (length (retain (in_window (r_secs rate) t) (slow_run rate m ts).2)) <= r_count rate)%N.
Proof.
  intros Hc Hm Hs. unfold slow_run.
  destruct (slow_run_inv rate Hc ts 0%N m []) as (n' & _ & _ & Hw).
  - constructor; [done|]. apply Forall_forall. intros x _. lia.
  - split; [by rewrite Hm|]. split; [constructor|]. intros t'. cbn. lia.
  - apply Hw.
Qed.

Lemma slowmode_bounds_rate_witness :
  (N.of_nat (length (retain (in_window 10 109)
     (slow_run (mkRate 2 10) default_member [100; 101; 102; 109; 112]%N).2)) <= 2)%N
  ∧ (slow_run (mkRate 2 10) default_member [100; 101; 102; 109; 112]%N).2 = [100; 101; 112]%N.
Proof.
  split; [|reflexivity].
  apply (slowmode_bounds_rate (mkRate 2 10) default_member [100; 101; 102; 109; 112]%N 109%N).
  - vm_compute. discriminate.
  - reflexivity.
  - repeat constructor; vm_compute; discriminate.
Defined.

(** ** Capitals: +B *)

Lemma upper_le_letters cs :
  length (retain (char_is is_upper) cs) ≤ length (retain (char_is is_alphabetic) cs).
Proof.
  apply retain_le. apply Forall_forall. intros c _. unfold char_is. destruct (char_byte c); [|done].
  unfold is_alphabetic. cbn. by intros ->.
Qed.

(** The capitals percentage is one: it never exceeds 100, so the cast to a byte that the
    comparison with the +B limit relies on loses nothing. *)
Theorem caps_percent_bound t :
  let letters := length (retain (char_is is_alphabetic) (chars t)) in
  let upper := length (retain (char_is is_upper) (chars t)) in
  caps_percent t = (if letters <? 8 then None else Some (N.of_nat (upper * 100 / letters)))
  ∧ upper * 100 / letters ≤ 100.
Proof.
  intros letters upper. pose proof (upper_le_letters (chars t)) as Hle. fold letters upper in Hle.
  assert (upper * 100 / letters ≤ 100) as Hb.
  { destruct (decide (letters = 0)) as [->|Hz]; [cbn; lia|]. apply Nat.Div0.div_le_upper_bound. nia. }
  split; [|done]. unfold caps_percent. fold letters upper. destruct (letters <? 8); [done|].
  rewrite N.mod_small; [done|]. lia.
Qed.

Section speech.
Context `{UnicodeLower} `{Outside}.

(** ** Messages for the operators only: +U *)

Lemma uncaptured_send uid line s : uncaptured s → uncaptured (send uid line s).
Proof.
  intros Hn. unfold send. case_match; [|done]. by apply only_to_emit.
Qed.

Lemma uncaptured_for_each {A} (l : list A) f s :
  (∀ x s, uncaptured s → uncaptured (f x s)) → uncaptured s → uncaptured (for_each l f s).
Proof.
  intros Hf. unfold for_each. revert s. induction l as [|x l IH]; intros s Hn; cbn; [done|]. by apply IH, Hf.
Qed.

Lemma uncaptured_reveal uid k s : uncaptured s → uncaptured (reveal_member uid k s).
Proof.
  intros Hn. unfold reveal_member. case_match; [done|]. case_match; [|done].
  apply uncaptured_for_each; [|done]. intros x s' Hs. repeat case_match; try done; by apply uncaptured_send.
Qed.

Lemma reveal_core uid k s :
  core (reveal_member uid k s) = core s
  ∨ core (reveal_member uid k s)
    = with_chan k (λ ch, ch <| members ::= alter (λ m, m <| hidden := false |>) uid |>) (core s).
Proof.
  unfold reveal_member. case_match; [by left|right]. case_match; [|done].
  rewrite for_each_outputs; [done|]. intros x s'. repeat case_match; try done; apply send_outputs.
Qed.

Lemma reveal_rank uid k s m : rank (core (reveal_member uid k s)) m k = rank (core s) m k.
Proof.
  destruct (reveal_core uid k s) as [-> | ->]; [done|]. unfold rank, with_chan; cbn.
  case_match; [done|]. rewrite lookup_alter_eq. destruct (channels (core s) !! k) as [ch|]; cbn; [|done].
  destruct (decide (uid = m)) as [->|Hne]; [|by rewrite lookup_alter_ne].
  rewrite lookup_alter_eq. by destruct (members ch !! m).
Qed.

Lemma reveal_history uid k s : s_history (core (reveal_member uid k s)) = s_history (core s).
Proof. by destruct (reveal_core uid k s) as [-> | ->]. Qed.

Lemma hears_rank c k src m : hears c k src true m = true → (RANK_HALFOP <= rank c m k)%N.
Proof.
  unfold hears. case_match; [|done]. intros [_ Hr]%andb_true_iff. apply negb_true_iff in Hr. cbn in Hr.
  by apply N.ltb_ge in Hr.
Qed.

Lemma only_to_echo uid ctags msgid line s : uncaptured s → only_to uid s (echo_to uid ctags msgid line s).
Proof.
  intros Hn. unfold echo_to. case_match; [|by apply only_to_refl]. unfold send_tagged.
  case_match; [by apply only_to_emit|by apply only_to_refl].
Qed.

Lemma link_out_inbox l line s m : inbox (link_out l line s) m = inbox s m.
Proof. unfold link_out. by case_match. Qed.

Lemma links_inbox sender k target cmd text s m :
  inbox (send_channel_to_links sender k target cmd text s) m = inbox s m.
Proof.
  unfold send_channel_to_links. destruct (users (core s) !! sender) as [u|]; [|done]. unfold for_each.
  generalize (channel_link_targets (core s) k None). intros l. revert s.
  induction l as [|x l IH]; intros s; cbn; [done|]. by rewrite IH, link_out_inbox.
Qed.

#[export] Instance send_channel_to_links_outputs a b d e f : Outputs (send_channel_to_links a b d e f).
Proof.
  intros s. unfold send_channel_to_links. case_match; [|done]. apply for_each_outputs. intros x. apply _.
Qed.

#[export] Instance echo_to_outputs uid a b d : Outputs (echo_to uid a b d).
Proof. intros s. unfold echo_to. case_match; [apply send_tagged_outputs|done]. Qed.

(** On a +U channel an unprivileged user's message stays with the operators of this server:
    a member without at least half-op sees at most the sender's withheld JOIN, never the
    message, and it is not kept in the history they could ask for. *)
Theorem ops_only_confidential uid prefix target k cmd body s m :
  uncaptured s → m ≠ uid → (rank (core s) m k < RANK_HALFOP)%N →
  let s' := speak uid prefix target k cmd body true s in
  inbox s' m = inbox (reveal_member uid k s) m ∧ s_history (core s') = s_history (core s).
Proof.
  intros Hn Hm Hr s'. unfold s', speak. set (s0 := reveal_member uid k s).
  set (line := ":" +:+ prefix +:+ " " +:+ cmd +:+ " " +:+ target +:+ " :" +:+ body).
  unfold next_msgid. set (s1 := upd _ s0). cbn zeta.
  assert (uncaptured s1) as Hn1 by (apply (uncaptured_reveal uid k s Hn)).
  set (id := _ +:+ "-" +:+ _). set (s2 := to_channel_tagged _ _ _ id line true s1).
  pose proof (message_recipients k uid (line_ctags (core s0)) id line true s1 m Hn1) as E.
  fold s2 in E. split.
  - rewrite links_inbox.
    assert (uncaptured s2) as Hn2.
    { unfold s2. rewrite fanout_sends. apply uncaptured_for_each; [|done].
      intros x s3 H3. unfold send_tagged. destruct (users (core s3) !! x); [|done]. by apply only_to_emit. }
    destruct (only_to_echo uid (line_ctags (core s0)) id line s2 Hn2) as (_ & _ & _ & Ho).
    rewrite (Ho m Hm), E.
    assert (is_member (core s1) m k && hears (core s1) k uid true m = false) as ->; [|by rewrite app_nil_r].
    apply andb_false_iff. right. apply not_true_iff_false. intros Hh%hears_rank.
    change (rank (core s1) m k) with (rank (core s0) m k) in Hh. unfold s0 in Hh.
    rewrite reveal_rank in Hh. lia.
  - frame. unfold s2. frame. apply reveal_history.
Qed.

(** ** Private messages *)

(** What the recipient asks of a sender. *)
Definition pm_admitted (c : Core) (uid tuid : Uid) (prefix text : string) : Prop :=
  (user_flag deny_uncommon c tuid = true →
     has_priv c uid USERS_IGNORE_COMMONCHANS = true ∨ share_channel c uid tuid = true)
  ∧ (user_flag noctcp c tuid = true →
     is_ctcp text = false ∨ is_action text = true ∨ has_priv c uid USERS_IGNORE_NOCTCP = true)
  ∧ (user_flag reg_only_pm c tuid = true → is_logged_in c uid = true)
  ∧ (user_flag ssl_pm c tuid = true → is_secure c uid = true)
  ∧ (user_flag callerid c tuid = true →
     is_accepted c tuid (map_or "" u_nick (users c !! uid)) = true
     ∨ has_priv c uid USERS_IGNORE_CALLERID = true)
  ∧ is_silenced c tuid prefix = false ∧ signore_blocks c uid tuid = false.

Lemma first_refusal_iff l : first_refusal l = None ↔ Forall (λ ch, ch.1 = false) l.
Proof.
  split; [apply first_refusal_None|]. induction 1 as [|[b r] l Hb _ IH]; [done|]. cbn in Hb |- *. by subst b.
Qed.

Lemma guard_iff a b d : (a = true → b = true ∨ d = true) ↔ a && negb b && negb d = false.
Proof. destruct a, b, d; naive_solver. Qed.

Lemma guard1_iff a b : (a = true → b = true) ↔ a && negb b = false.
Proof. destruct a, b; naive_solver. Qed.

Lemma pm_admitted_checks c uid tuid prefix text :
  uid ≠ tuid →
  pm_admitted c uid tuid prefix text ↔
    first_refusal (pm_checks c uid tuid text) = None ∧ callerid_blocks c uid tuid = false
    ∧ is_silenced c tuid prefix || signore_blocks c uid tuid = false.
Proof.
  intros Hne. rewrite first_refusal_iff. unfold pm_admitted, pm_checks, callerid_blocks. cbn zeta.
  rewrite !Forall_cons, Forall_nil. cbn [fst].
  rewrite bool_decide_eq_false_2 by done. cbn [negb]. rewrite !andb_true_r, orb_false_iff.
  rewrite (guard_iff (user_flag deny_uncommon c tuid)), (guard_iff (user_flag callerid c tuid)).
  rewrite (guard1_iff (user_flag reg_only_pm c tuid)), (guard1_iff (user_flag ssl_pm c tuid)).
  assert ((user_flag noctcp c tuid = true →
     is_ctcp text = false ∨ is_action text = true ∨ has_priv c uid USERS_IGNORE_NOCTCP = true)
     ↔ is_ctcp text && negb (is_action text) && user_flag noctcp c tuid
       && negb (has_priv c uid USERS_IGNORE_NOCTCP) = false) as ->.
  { destruct (user_flag noctcp c tuid), (is_ctcp text), (is_action text),
      (has_priv c uid USERS_IGNORE_NOCTCP); naive_solver. }
  tauto.
Qed.

Lemma auto_accept_inbox uid tuid s m : inbox (auto_accept uid tuid s) m = inbox s m.
Proof. unfold auto_accept. by repeat case_match. Qed.

Lemma away_reply_only uid tuid target (quiet : bool) s :
  uncaptured s →
  only_to uid s (if quiet then s
                 else match users (core s) !! tuid ≫= (λ u, away (u_flags u)) with
                      | Some msg => numeric uid RPL_AWAY (target +:+ " :" +:+ msg) s
                      | None => s
                      end).
Proof.
  intros Hn. destruct quiet; [by apply only_to_refl|].
  destruct (_ ≫= _); [by apply only_to_numeric|by apply only_to_refl].
Qed.

Lemma numeric_inbox_self uid code rest s :
  uncaptured s → is_Some (users (core s) !! uid) →
  ∃ line, inbox (numeric uid code rest s) uid = inbox s uid ++ [line].
Proof.
  intros Hn [u Hu]. unfold numeric, send. rewrite Hu. eexists.
  pose proof (λ line, emit_to_inbox uid line s uid Hn (mk_is_Some _ _ Hu)) as Hi.
  match goal with |- inbox (emit_to _ ?l _) _ = _ => destruct (Hi l) as (-> & _) end.
  by rewrite decide_True.
Qed.

Lemma callerid_refuse_inbox uid tuid notice s :
  uncaptured s → uid ≠ tuid → is_Some (users (core s) !! tuid) →
  ∃ line, inbox (callerid_refuse uid tuid notice s) tuid = inbox s tuid ++ [line].
Proof.
  intros Hn Hne Hu. unfold callerid_refuse. cbn zeta. set (s1 := numeric tuid _ _ s).
  destruct (numeric_inbox_self tuid RPL_UMODEGMSG
    (map_or "" u_nick (users (core s) !! uid) +:+ " " +:+ map_or "" u_ident (users (core s) !! uid) +:+ "@"
     +:+ map_or "" host_display (users (core s) !! uid) +:+ " :is messaging you, and you have umode +g.")
    s Hn Hu) as [line E]. fold s1 in E.
  assert (uncaptured s1) as Hn1 by (apply only_to_numeric, Hn).
  exists line. destruct notice; [done|]. set (s2 := numeric uid RPL_TARGUMODEG _ s1).
  assert (only_to uid s1 s2) as O2 by (by apply only_to_numeric).
  destruct (only_to_numeric uid RPL_TARGNOTIFY
    (map_or "" u_nick (users (core s) !! tuid) +:+ " :has been informed that you messaged them.") s2
    (proj1 O2)) as (_ & _ & _ & Hi).
  rewrite Hi by done. destruct O2 as (_ & _ & _ & Hi2). by rewrite Hi2.
Qed.

(** C13: Private messages respect the recipient's wishes: the recipient gets the message
    exactly when the sender satisfies every restriction they have set (+c, +T, +R, +z,
    +g with its accept list) and neither SILENCE nor SIGNORE stands between them;
    otherwise they get nothing, or, under +g, the notice that someone tried. *)
Theorem private_message_delivery uid tuid prefix target text (notice : bool) s :
  uncaptured s → uid ≠ tuid → is_Some (users (core s) !! tuid) →
  let c := core s in
  let cmd := if notice then "NOTICE" else "PRIVMSG" in
  let pm := ":" +:+ prefix +:+ " " +:+ cmd +:+ " " +:+ target +:+ " :" +:+ text in
  let s' := (deliver_user uid tuid prefix target text notice s).2 in
  (pm_admitted c uid tuid prefix text →
     ∃ msgid, inbox s' tuid = inbox s tuid ++ [line_for c tuid uid (line_ctags c) msgid pm])
  ∧ (¬ pm_admitted c uid tuid prefix text →
     inbox s' tuid = inbox s tuid
     ∨ callerid_blocks c uid tuid = true ∧ ∃ line, inbox s' tuid = inbox s tuid ++ [line]).
Proof.
  intros Hn Hne Hu c cmd pm s'. rewrite (pm_admitted_checks c uid tuid prefix text Hne).
  unfold s', deliver_user. fold c cmd. destruct (first_refusal _) as [r|] eqn:Ef.
  { split; [naive_solver|]. intros _. left.
    destruct (only_to_refuse uid notice r s Hn) as (_ & _ & _ & Hi). by apply Hi. }
  destruct (callerid_blocks c uid tuid) eqn:Eg.
  { split; [naive_solver|]. intros _. right. split; [done|]. by apply callerid_refuse_inbox. }
  cbn zeta. fold pm. destruct (next_msgid s) as [id s1] eqn:Eid.
  assert (uncaptured s1 ∧ inbox s1 tuid = inbox s tuid ∧ users (core s1) = users c ∧ clock (core s1) = clock c)
    as (Hn1 & Ei1 & Eu1 & Ec1) by (unfold next_msgid in Eid; by simplify_eq).
  set (silenced := is_silenced c tuid prefix || signore_blocks c uid tuid).
  match goal with |- context [if silenced then s1 else ?x] => set (s2 := if silenced then s1 else x) end.
  assert (uncaptured s2 ∧ inbox s2 tuid = inbox s tuid ++
    (if silenced then [] else [line_for c tuid uid (line_ctags c) id pm])) as [Hn2 Ei2].
  { unfold s2. destruct silenced; [split; [done|]; by rewrite app_nil_r|].
    destruct (send_tagged_inbox tuid uid (line_ctags c) id pm s1 tuid Hn1) as (E & Hc & _).
    { by rewrite Eu1. }
    rewrite decide_True in E by done. split; [exact Hc|].
    assert (∀ a b d e f g s, inbox (record a b d e f g s) tuid = inbox s tuid) as -> by done. rewrite E, Ei1. f_equal.
    unfold line_for. by rewrite Eu1, Ec1. }
  pose proof (only_to_echo uid (line_ctags c) id pm s2 Hn2) as O3. set (s3 := echo_to _ _ _ _ s2) in *.
  pose proof (away_reply_only uid tuid target (notice || silenced) s3 (proj1 O3)) as O4.
  match type of O4 with only_to _ _ ?x => set (s4 := x) in * end. cbn [snd].
  assert (inbox (auto_accept uid tuid s4) tuid = inbox s2 tuid) as ->.
  { rewrite auto_accept_inbox. destruct O3 as (_ & _ & _ & Hi3), O4 as (_ & _ & _ & Hi4).
    by rewrite Hi4, Hi3. }
  rewrite Ei2. split.
  - intros (_ & _ & ->). by exists id.
  - intros Hna. left. destruct silenced; [by rewrite app_nil_r|]. by destruct Hna.
Qed.

(** TAGMSG to a user does not look at SIGNORE: with the other gates open, a tag-only message
    reaches a recipient who would not receive a PRIVMSG. *)
Theorem tagmsg_passes_signore uid tuid target s u :
  uncaptured s → uid ≠ tuid → users (core s) !! uid = Some u → is_empty (line_ctags (core s)) = false →
  starts_with "#" target = false → find_nick (core s) target = Some tuid →
  has_cap (core s) tuid "message-tags" = true →
  dm_blocked (core s) uid tuid = false → signore_blocks (core s) uid tuid = true →
  ¬ pm_admitted (core s) uid tuid (user_prefix u) ""
  ∧ ∃ line, inbox (tagmsg_cmd uid target s).2 tuid = inbox s tuid ++ [line].
Proof.
  intros Hn Hne Hu Ht Hs Hf Hc Hd Hb. split; [by intros (_ & _ & _ & _ & _ & _ & ?); congruence|].
  unfold tagmsg_cmd. rewrite Ht, Hu. unfold next_msgid. cbn zeta. rewrite Hs.
  set (s1 := upd _ s). set (id := _ +:+ "-" +:+ _).
  change (find_nick (core s1) target) with (find_nick (core s) target). rewrite Hf.
  change (dm_blocked (core s1) uid tuid) with (dm_blocked (core s) uid tuid). rewrite Hd.
  change (has_cap (core s1) tuid "message-tags") with (has_cap (core s) tuid "message-tags"). rewrite Hc.
  cbn [snd]. set (body := ":" +:+ _).
  assert (is_Some (users (core s1) !! tuid)) as Hs1.
  { change (users (core s1)) with (users (core s)). unfold has_cap in Hc. by destruct (users (core s) !! tuid). }
  destruct (send_tagged_inbox tuid uid (line_ctags (core s)) id body s1 tuid Hn Hs1) as (E & Hn2 & _).
  rewrite decide_True in E by done. eexists.
  set (s2 := send_tagged _ _ _ _ _ s1) in *.
  destruct (only_to_echo uid (line_ctags (core s)) id body s2 Hn2) as (_ & _ & _ & Hi).
  rewrite Hi by done. exact E.
Qed.

(** ** Consistency of the tables *)

#[export] Instance slowmode_stable uid k r : StableTables (λ s, (slowmode_check uid k r s).2).
Proof.
  intros s. unfold slowmode_check. repeat case_match; cbn [snd]; try done.
  by apply alter_member_stable.
Qed.

#[export] Instance repeat_stable uid k body r : StableTables (λ s, (repeat_check uid k body r s).2).
Proof. intros s. unfold repeat_check. repeat case_match; cbn [snd]; try done. by apply alter_member_stable. Qed.

#[export] Instance record_stable k a b d e f : StableTables (record k a b d e f).
Proof. intros s. by apply push_history_stable. Qed.

Lemma messageflood_same uid k s : same_tables (core s) (core (messageflood_hit uid k s).2).
Proof. unfold messageflood_hit. repeat case_match; cbn [snd]; try done; by apply same_with_chan. Qed.

Lemma next_msgid_same s : same_tables (core s) (core (next_msgid s).2).
Proof. by split. Qed.

Lemma refuse_speech_core uid notice r s : core (refuse_speech uid notice r s).2 = core s.
Proof. unfold refuse_speech. destruct r as [[code text]|], notice; cbn [snd]; by frame. Qed.

Lemma speak_wf uid prefix target k cmd body op_only s :
  wf (core s) → wf (core (speak uid prefix target k cmd body op_only s)).
Proof.
  intros W. unfold speak. pose proof (next_msgid_same (reveal_member uid k s)) as Hs.
  destruct (next_msgid (reveal_member uid k s)) as [id s1]. cbn [snd] in Hs. frame.
  eapply wf_proper; [|exact W]. etrans; [apply reveal_member_stable|]. etrans; [exact Hs|].
  destruct op_only; [done|]. apply record_stable.
Qed.

Lemma deliver_channel_wf uid prefix target text notice s :
  wf (core s) → wf (core (deliver_channel uid prefix target text notice s).2).
Proof.
  intros W. unfold deliver_channel. cbn zeta. set (k := to_ascii_lowercase target).
  set (r := rank (core s) uid k).
  destruct (first_refusal _); [by rewrite refuse_speech_core|].
  pose proof (slowmode_stable uid k r s) as T1. cbn beta in T1.
  destruct (slowmode_check uid k r s) as [slow s1]. cbn [snd] in T1.
  apply (wf_proper _ _ T1) in W. destruct slow; [by rewrite refuse_speech_core|].
  destruct (muted _ _ _ _); [by rewrite refuse_speech_core|].
  destruct (if negb (flood_exempt (core s1) uid r) && _ then _ else _) as [fl s2] eqn:Ef.
  assert (wf (core s2)) as W2.
  { destruct (_ && _) in Ef; [|by simplify_eq].
    eapply wf_proper, W. rewrite <-(f_equal snd Ef : _ = s2).
    apply messageflood_same. }
  destruct fl as [ban|]; [by apply flood_kick_wf|].
  destruct (first_refusal _); [by rewrite refuse_speech_core|].
  destruct (filtered_body _ _ _ _) as [body|]; [|by rewrite refuse_speech_core].
  destruct (too_many_caps _ _ _ _ _); [by rewrite refuse_speech_core|].
  pose proof (repeat_stable uid k body r s2) as T3. cbn beta in T3.
  destruct (repeat_check uid k body r s2) as [rep s3]. cbn [snd] in T3. apply (wf_proper _ _ T3) in W2.
  destruct rep; [by rewrite refuse_speech_core|]. by apply speak_wf.
Qed.

Lemma auto_accept_wf uid tuid s : wf (core s) → wf (core (auto_accept uid tuid s)).
Proof. intros W. unfold auto_accept. repeat case_match; try done. by apply accept_add_wf. Qed.

Lemma deliver_user_wf uid tuid prefix target text notice s :
  wf (core s) → wf (core (deliver_user uid tuid prefix target text notice s).2).
Proof.
  intros W. unfold deliver_user. cbn zeta. destruct (first_refusal _); [by rewrite refuse_speech_core|].
  destruct (callerid_blocks _ _ _).
  { cbn [snd]. unfold callerid_refuse. destruct notice; by frame. }
  pose proof (next_msgid_same s) as Hs. destruct (next_msgid s) as [id s1]. cbn [snd] in *.
  apply (wf_proper _ _ Hs) in W. apply auto_accept_wf. set (silenced := is_silenced (core s) tuid prefix || signore_blocks (core s) uid tuid).
  match goal with |- context [if silenced then s1 else ?x] => set (s2 := if silenced then s1 else x) end.
  assert (wf (core s2)) as W2.
  { unfold s2. destruct silenced; [done|]. eapply wf_proper; [apply record_stable|]. by frame. }
  destruct (notice || silenced); [by frame|]. destruct (_ ≫= _); by frame.
Qed.

Lemma deliver_wf uid params notice s : wf (core s) → wf (core (deliver uid params notice s).2).
Proof.
  intros W. unfold deliver. cbn zeta.
  destruct params as [|target [|text rest]]; [by rewrite refuse_speech_core..|].
  destruct text as [|b text]; [by rewrite refuse_speech_core|].
  destruct (users (core s) !! uid) as [u|]; [|done]. set (s1 := upd _ s).
  assert (wf (core s1)) as W1 by (eapply wf_proper, W; by apply with_user_stable).
  destruct (starts_with "#" target); [by apply deliver_channel_wf|].
  destruct (find_nick _ _); [by apply deliver_user_wf|].
  destruct (find_remote _ _) as [[uuid via]|]; cbn [snd]; [|destruct notice; by frame].
  set (s2 := send_to_remote _ _ _ _ _ s1).
  assert (core s2 = core s1) as E.
  { unfold s2, send_to_remote. case_match; [by frame|done]. }
  destruct (has_cap _ _ _); [|by rewrite E].
  pose proof (next_msgid_same s2) as Hs. destruct (next_msgid s2) as [id s3]. cbn [snd] in Hs. frame.
  eapply wf_proper; [exact Hs|]. by rewrite E.
Qed.

Lemma tagmsg_wf uid target s : wf (core s) → wf (core (tagmsg_cmd uid target s).2).
Proof.
  intros W. unfold tagmsg_cmd. cbn zeta. destruct (is_empty _); [done|].
  destruct (users (core s) !! uid) as [u|]; [|done].
  pose proof (next_msgid_same s) as Hs. destruct (next_msgid s) as [id s1]. cbn [snd] in Hs.
  apply (wf_proper _ _ Hs) in W. destruct (starts_with "#" target).
  - destruct (is_member _ _ _); [|done]. cbn [negb].
    do 2 (destruct (_ && _); [done|]). cbn [snd].
    rewrite for_each_outputs; [done|]. intros x. apply _.
  - destruct (find_nick _ _); [|done]. destruct (dm_blocked _ _ _); [done|]. cbn [snd]. frame.
    destruct (has_cap _ _ _); by frame.
Qed.
End speech.
