(* ===== verification/Filter.v ===== *)
(** * Spam filters: [src/src/modules/filter.rs], [src/src/modules/pattern.rs]

    Rules matched against messages, the FILTER command, the action taken on a
    hit, and the form in which rules travel between servers. *)

From Stdlib Require Import Ascii.
From S2P Require Import Prelude RustStr Glob I18n Channel Numeric Duration Regex State Ban.
From S2P Require Import CoreMode Watch Users Xline.

Local Open Scope stdpp_scope.

(** ** Pattern engines *)

Definition ENGINES : list string := ["glob"; "regex"].

Definition compile_pattern (engine pattern : string) : Res Matcher :=
  if String.eqb engine "glob" || is_empty engine then inr (GlobMatcher pattern)
  else if String.eqb engine "regex" then
    match regex_new pattern with
    | inr re => inr (RegexMatcher re)
    | inl e => inl e
    end
  else inl ("unknown pattern engine '" +:+ engine +:+ "' (use one of: " +:+ str_join ", " ENGINES +:+ ")").

Definition new_filter (pattern engine action : string) (duration : N) (reason : string)
    : Res SpamFilter :=
  match compile_pattern engine pattern with
  | inr m => inr (mkSpamFilter pattern engine action duration reason m)
  | inl e => inl e
  end.

(** ** The rule set *)

Definition is_regex (r : SpamFilter) : bool := String.eqb (sf_engine r) "regex".

(** The regular-expression rules with their positions. *)
Definition regex_rules (rules : list SpamFilter) : list (nat * SpamFilter) :=
  retain (λ '(_, r), is_regex r) (imap pair rules).

Definition rebuild_filters (rules : list SpamFilter) : Filters :=
  let pats := map (λ '(_, r), sf_pattern r) (regex_rules rules) in
  mkFilters rules
    (match pats with
     | [] => None
     | _ => match set_new pats with inr rs => Some rs | inl _ => None end
     end)
    (map fst (regex_rules rules)).

Definition other_pattern (p : string) (r : SpamFilter) : bool := negb (String.eqb (sf_pattern r) p).

Definition upsert (rule : SpamFilter) (f : Filters) : Filters :=
  rebuild_filters (retain (other_pattern (sf_pattern rule)) (f_rules f) ++ [rule]).

Definition remove_filter (pattern : string) (f : Filters) : bool * Filters :=
  let rules := retain (other_pattern pattern) (f_rules f) in
  if length rules =? length (f_rules f) then (false, f) else (true, rebuild_filters rules).

Section filter.
Context `{UnicodeLower} `{Outside}.

Definition matcher_hits (m : Matcher) (text : string) : bool :=
  match m with
  | GlobMatcher p => glob_match p text
  | RegexMatcher re => bool_decide (is_match re text = Some true)
  end.

(** The first rule that matches; the positions of the set's patterns are read
    from one scan. *)
Definition filter_hit (f : Filters) (text : string) : option SpamFilter :=
  let matched := default [] (rs ← f_set f; set_matches rs text) in
  snd <$> find_first (λ '(ri, r),
    if is_regex r && is_some (f_set f)
    then existsb (λ si, bool_decide (f_set_idx f !! si = Some ri)) matched
    else matcher_hits (sf_matcher r) text) (imap pair (f_rules f)).

(** ** Enforcement *)

(** The verdict of a module, [ModResult] of [src/src/module.rs]. *)
Inductive ModResult := Passthru | Allow | Deny | Hold.

#[export] Instance ModResult_eq_dec : EqDecision ModResult.
Proof. solve_decision. Defined.

Definition notice_star (uid : Uid) (msg : string) (s : Server) : Server :=
  send uid (":" +:+ s_name (core s) +:+ " NOTICE * :*** " +:+ msg) s.

Definition filter_act (uid : Uid) (ip : string) (r : SpamFilter) (s : Server) : Server :=
  let reason := sf_reason r in
  let ban kind mask s :=
    remove_user uid reason (add_xline kind mask (sf_duration r) "filter" reason s) in
  match sf_action r with
  | "block" => notice_star uid ("Your message was blocked: " +:+ reason) s
  | "silent" => s
  | "kill" =>
      remove_user uid reason (send uid ("ERROR :" +:+ trf (core s) "Closing link: ({0})" [reason]) s)
  | "kline" => ban Kline ("*@" +:+ ip) s
  | "gline" => ban Gline ("*@" +:+ ip) s
  | "zline" => ban Zline ip s
  | _ => s
  end.

Definition filter_pre_message (uid : Uid) (text : string) (s : Server) : ModResult * Server :=
  match filter_hit (s_filters (core s)) text with
  | None => (Passthru, s)
  | Some r =>
      match users (core s) !! uid with
      | None => (Deny, s)
      | Some u =>
          let s := snotice_c "f" ("FILTER: " +:+ user_prefix u +:+ " matched a filter (action="
                     +:+ sf_action r +:+ "): " +:+ sf_reason r) s in
          (Deny, filter_act uid (u_ip u) r s)
      end
  end.

(** ** Between servers *)

Definition action_from_wire (a : string) : string :=
  let a := to_ascii_lowercase a in
  if is_letter_in ["gline"; "zline"; "silent"; "kill"] a then a else "block".

Definition action_to_wire (a : string) : string :=
  if is_letter_in ["gline"; "kline"] a then "gline"
  else if is_letter_in ["zline"; "silent"; "kill"] a then a else "block".

Definition swap_byte (a b : ascii) (s : string) : string :=
  str_map (λ x, if bool_decide (x = a) then b else x) s.

(** [s.splitn(n, c)]. *)
Fixpoint splitn (n : nat) (c : ascii) (s : string) : list string :=
  match n with
  | O => []
  | S O => [s]
  | S n => match split_once c s with Some (a, r) => a :: splitn n c r | None => [s] end
  end.

Definition decode_filter (value engine : string) : Res SpamFilter :=
  match splitn 5 " " value with
  | freeform :: action :: _ :: duration :: it =>
      let reason := match it with
                    | r :: _ => default r (strip_prefix ":" r)
                    | [] => "Filtered"
                    end in
      new_filter (swap_byte "007" " " freeform) engine (action_from_wire action)
        (default 0%N (parse_uint u64_max duration)) reason
  | [] => inl "empty filter"
  | [_] => inl "missing action"
  | [_; _] => inl "missing flags"
  | _ => inl "missing duration"
  end.

Definition encode_filter (f : SpamFilter) : string :=
  swap_byte " " "007" (sf_pattern f) +:+ " " +:+ action_to_wire (sf_action f) +:+ " pn "
  +:+ to_string (sf_duration f) +:+ " :" +:+ sf_reason f.

Definition filter_engine (c : Core) : string := default "glob" (conf c "filter_engine").

Definition apply_filter_metadata (value : string) (c : Core) : Core :=
  match decode_filter value (filter_engine c) with
  | inr f => c <| s_filters ::= upsert f |>
  | inl _ => c
  end.

Definition burst_filters (link : Uid) (s : Server) : Server :=
  for_each (f_rules (s_filters (core s))) (λ r,
    link_out link (":" +:+ s_sid (core s) +:+ " METADATA * filter :" +:+ encode_filter r)) s.

(** ** The FILTER command *)

Definition filter_args (rest : list string) : N * string :=
  match rest with
  | p :: r :: _ => match parse_duration p with Some d => (d, r) | None => (0%N, p) end
  | [p] => (0%N, p)
  | [] => (0%N, "Filtered")
  end.

Definition filter_notice (uid : Uid) (nick text : string) (s : Server) : Server :=
  send uid (":" +:+ s_name (core s) +:+ " NOTICE " +:+ nick +:+ " :" +:+ text) s.

Definition filter_line (r : SpamFilter) : string :=
  sf_pattern r +:+ " [" +:+ sf_engine r +:+ "] " +:+ sf_action r +:+ " " +:+ to_string (sf_duration r)
  +:+ " :" +:+ sf_reason r.

Definition filter_cmd (uid : Uid) (params : list string) (s : Server) : CmdResult * Server :=
  let '(okay, s) := require_oper uid s in
  if negb okay then (CmdFail, s)
  else
    let nick := nick_of (core s) uid in
    match params with
    | [] =>
        let s := for_each (f_rules (s_filters (core s))) (λ r,
                   filter_notice uid nick ("FILTER " +:+ filter_line r)) s in
        (CmdOk, filter_notice uid nick "End of FILTER list" s)
    | [pattern] =>
        let '(removed, f) := remove_filter pattern (s_filters (core s)) in
        let s := upd (λ c, c <| s_filters := f |>) s in
        (CmdOk, filter_notice uid nick
           ("FILTER " +:+ (if removed then "removed" else "not found") +:+ ": " +:+ pattern) s)
    | pattern :: action :: rest =>
        let '(duration, reason) := filter_args rest in
        let engine := filter_engine (core s) in
        match new_filter pattern engine action duration reason with
        | inl e => (CmdFail, filter_notice uid nick (trf (core s) "FILTER rejected ({0})" [e]) s)
        | inr f =>
            let s := upd (λ c, c <| s_filters ::= upsert f |>) s in
            let s := propagate (":" +:+ s_sid (core s) +:+ " METADATA * filter :" +:+ encode_filter f) None s in
            (CmdOk, snotice_c "f" (trf (core s) "{0} added FILTER {1} (engine={2} action={3})"
                                     [nick; pattern; engine; action]) s)
        end
    end.

End filter.
