(* ===== verification/RegexCode.v ===== *)
(** * The meaning of patterns and the code the compiler emits

    [lang] gives a pattern its meaning: a relation between the positions of a
    text, where a match may start and where it then may end.  [step] is one move
    of a thread of the compiled program.  The code of a pattern is a block:
    entered at its first instruction at position [i] it can be left only just
    behind its last one, at the positions [j] with [lang ast i j].  [block_ok] says so,
    and is proved once per combinator of the compiler. *)

From Stdlib Require Import Ascii.
From S2P Require Import Prelude RustStr Regex.

Local Open Scope stdpp_scope.

(** ** Meaning *)

Section lang.
Context (text : list string).

Definition reads (p : string → bool) (i j : nat) : Prop :=
  j = i + 1 ∧ map_or false p (text !! i) = true.

Definition rel_comp (R Q : nat → nat → Prop) (i k : nat) : Prop := ∃ j, R i j ∧ Q j k.
Definition rel_seq (Rs : list (nat → nat → Prop)) : nat → nat → Prop := foldr rel_comp eq Rs.

Fixpoint lang (a : Ast) : nat → nat → Prop :=
  match a with
  | AEmpty => eq
  | AChar c => reads (String.eqb c)
  | AAny => reads (λ x, negb (String.eqb x NEWLINE))
  | AClass items neg => reads (class_hit items neg)
  | AStart => λ i j, i = j ∧ i = 0
  | AEnd => λ i j, i = j ∧ i = length text
  | AConcat v => rel_seq (map lang v)
  | AAlt v => λ i j, Exists (λ R : nat → nat → Prop, R i j) (map lang v)
  | AStar a => rtc (lang a)
  | APlus a => tc (lang a)
  | AQuest a => λ i j, i = j ∨ lang a i j
  | ARepeat a min max => λ i j, ∃ m,
      (min <= N.of_nat m)%N ∧ map_or True (λ mx, (N.of_nat m <= mx)%N) max ∧ nsteps (lang a) m i j
  end.
End lang.

(** The parser only builds alternations with a branch. *)
Inductive wf_ast : Ast → Prop :=
  | wf_leaf a : match a with
                | AEmpty | AChar _ | AAny | AClass _ _ | AStart | AEnd => True
                | _ => False end → wf_ast a
  | wf_concat v : Forall wf_ast v → wf_ast (AConcat v)
  | wf_alt a v : Forall wf_ast (a :: v) → wf_ast (AAlt (a :: v))
  | wf_star a : wf_ast a → wf_ast (AStar a)
  | wf_plus a : wf_ast a → wf_ast (APlus a)
  | wf_quest a : wf_ast a → wf_ast (AQuest a)
  | wf_repeat a min max :
      wf_ast a → map_or True (λ mx, (min <= mx)%N) max → wf_ast (ARepeat a min max).

Lemma wf_ast_ind' (Q : Ast → Prop) :
  (∀ a, match a with
        | AEmpty | AChar _ | AAny | AClass _ _ | AStart | AEnd => True
        | _ => False end → Q a) →
  (∀ v, Forall Q v → Q (AConcat v)) →
  (∀ a v, Forall Q (a :: v) → Q (AAlt (a :: v))) →
  (∀ a, Q a → Q (AStar a)) → (∀ a, Q a → Q (APlus a)) → (∀ a, Q a → Q (AQuest a)) →
  (∀ a min max, Q a → map_or True (λ mx, (min <= mx)%N) max → Q (ARepeat a min max)) →
  ∀ a, wf_ast a → Q a.
Proof.
  intros Hleaf Hcat Halt Hstar Hplus Hq Hrep. fix IH 2. intros a [ ].
  - by apply Hleaf.
  - apply Hcat. induction H; constructor; auto.
  - apply Halt. induction H; constructor; auto.
  - apply Hstar; auto.
  - apply Hplus; auto.
  - apply Hq; auto.
  - apply Hrep; auto.
Qed.

(** ** Code *)

Abbreviation Code := (nat → Prog).

Fixpoint seqc (fs : list Code) : Code := λ b,
  match fs with
  | [] => []
  | f :: fs => f b ++ seqc fs (b + length (f b))
  end.

Fixpoint altc (fs : list Code) : Code := λ b,
  match fs with
  | [] => []
  | [f] => f b
  | f :: fs =>
      let c := f (b + 1) in
      let rest := altc fs (b + length c + 2) in
      ISplit (b + 1) (b + length c + 2) :: c
      ++ IJmp (b + length c + 2 + length rest) :: rest
  end.

Definition starc (f : Code) : Code := λ b,
  let c := f (b + 1) in ISplit (b + 1) (b + length c + 2) :: c ++ [IJmp b].
Definition plusc (f : Code) : Code := λ b,
  let c := f b in c ++ [ISplit b (b + length c + 1)].
Definition questc (f : Code) : Code := λ b,
  let c := f (b + 1) in ISplit (b + 1) (b + length c + 1) :: c.
Definition instc (i : Inst) : Code := λ _, [i].

Fixpoint code (a : Ast) : Code :=
  match a with
  | AEmpty => λ _, []
  | AChar c => instc (IChar c)
  | AAny => instc IAny
  | AClass items neg => instc (IClass items neg)
  | AStart => instc IStart
  | AEnd => instc IEnd
  | AConcat v => seqc (map code v)
  | AAlt v => altc (map code v)
  | AStar a => starc (code a)
  | APlus a => plusc (code a)
  | AQuest a => questc (code a)
  | ARepeat a min max =>
      seqc (replicate (N.to_nat min) (code a)
            ++ match max with
               | None => [starc (code a)]
               | Some mx => replicate (N.to_nat (mx - min)) (questc (code a))
               end)
  end.

(** ** The compiler emits the code *)

Definition emits (f : Emit) (g : Code) : Prop :=
  ∀ p p', f p = inr p' → p' = p ++ g (length p).

Lemma res_bind_Ok {A B} (r : Res A) (f : A → Res B) b :
  res_bind r f = inr b ↔ ∃ a, r = inr a ∧ f a = inr b.
Proof. destruct r; cbn; naive_solver. Qed.

Ltac run_res :=
  repeat match goal with
  | H : res_bind _ _ = inr _ |- _ => apply res_bind_Ok in H as (? & ? & ?)
  | H : inr _ = inr _ |- _ => injection H as <-
  end.

Section emit.
Implicit Types (f : Emit) (g : Code) (p : Prog).

Lemma insert_at_length p i r x : <[length p := x]> (p ++ i :: r) = p ++ x :: r.
Proof. by rewrite insert_app_r_alt, Nat.sub_diag. Qed.

Lemma sized_emits f g : emits f g → emits (sized f) g.
Proof.
  intros Hf p p'. unfold sized. case_match; [done|]. intros H'. run_res.
  case_match; simplify_eq. by apply Hf.
Qed.

Lemma push_emits i : emits (push i) (instc i).
Proof. by intros p p' [= <-]. Qed.

Lemma star_emits f g : emits f g → emits (emit_star f) (starc g).
Proof.
  intros Hf p p' H. unfold emit_star in H. run_res. apply Hf in H as ->.
  rewrite <-!app_assoc. cbn. rewrite insert_at_length. unfold starc. rewrite !length_app. cbn.
  cbn; rewrite ?length_app; cbn. f_equal; f_equal; f_equal; lia.
Qed.

Lemma plus_emits f g : emits f g → emits (emit_plus f) (plusc g).
Proof.
  intros Hf p p' H. unfold emit_plus in H. run_res. apply Hf in H as ->.
  rewrite insert_at_length. unfold plusc. rewrite <-app_assoc, !length_app. by cbn.
Qed.

Lemma quest_emits f g : emits f g → emits (emit_quest f) (questc g).
Proof.
  intros Hf p p' H. unfold emit_quest in H. run_res. apply Hf in H as ->.
  rewrite <-!app_assoc. cbn. rewrite insert_at_length. unfold questc. rewrite !length_app. cbn.
  cbn; rewrite ?length_app; cbn. f_equal; f_equal; f_equal; lia.
Qed.

Lemma all_emits fs gs : Forall2 emits fs gs → emits (emit_all fs) (seqc gs).
Proof.
  induction 1 as [|f g fs gs Hf _ IH]; intros p p' H; cbn in *.
  { injection H as <-. by rewrite app_nil_r. }
  run_res. apply Hf in H as ->. apply IH in H0 as ->. by rewrite <-app_assoc, length_app.
Qed.

(** Patching the pending jumps, all of which lie before the code to come. *)
Definition patch (e : nat) (p : Prog) (jmps : list nat) : Prog :=
  foldl (λ p j, <[j := IJmp e]> p) p jmps.

Lemma patch_length e p jmps : length (patch e p jmps) = length p.
Proof.
  unfold patch. revert p. induction jmps as [|j js IH]; intros p; cbn; [done|].
  by rewrite IH, length_insert.
Qed.

Lemma patch_app e p q jmps :
  Forall (λ j, j < length p) jmps → patch e (p ++ q) jmps = patch e p jmps ++ q.
Proof.
  unfold patch. revert p. induction jmps as [|j js IH]; intros p Hj; cbn; [done|].
  apply Forall_cons in Hj as [Hj Hjs]. rewrite insert_app_l by done. apply IH.
  by rewrite length_insert.
Qed.

Lemma patch_end p jmps :
  foldl (λ p j, <[j := IJmp (length p)]> p) p jmps = patch (length p) p jmps.
Proof.
  unfold patch. generalize (eq_refl (length p)). generalize (length p) at 1 3 as e. intros e.
  revert p. induction jmps as [|j js IH]; intros p He; cbn; [done|].
  rewrite <-He. apply IH. by rewrite length_insert.
Qed.

Lemma patch_last e p x c j jmps :
  Forall (λ j, j < length p) jmps → j = length p + length c + 1 →
  patch e (p ++ x :: c ++ [IJmp 0]) (jmps ++ [j]) = patch e p jmps ++ x :: c ++ [IJmp e].
Proof.
  intros Hj ->. unfold patch at 1. rewrite foldl_app. cbn. fold (patch e (p ++ x :: c ++ [IJmp 0]) jmps).
  rewrite patch_app by done.
  assert (∀ y, patch e p jmps ++ x :: c ++ [y] = (patch e p jmps ++ x :: c) ++ [y]) as E
    by (intros; by rewrite <-app_assoc).
  rewrite !E. replace (length p + length c + 1) with (length (patch e p jmps ++ x :: c))
    by (rewrite length_app, patch_length; cbn; lia).
  apply insert_at_length.
Qed.

Lemma alts_emits fs gs : Forall2 emits fs gs → ∀ jmps p p',
  Forall (λ j, j < length p) jmps → emit_alts fs jmps p = inr p' →
  p' = patch (length p + length (altc gs (length p))) p jmps ++ altc gs (length p).
Proof.
  induction 1 as [|f g fs gs Hf Hfs IH]; intros jmps p p' Hj H.
  { injection H as <-. cbn. by rewrite patch_end, app_nil_r, Nat.add_0_r. }
  destruct fs as [|f' fs], gs as [|g' gs]; try by apply Forall2_length in Hfs.
  { cbn in H. run_res. apply Hf in H as ->. rewrite patch_end, length_app. cbn.
    by rewrite patch_app. }
  change (emit_alts (f :: f' :: fs)) with (λ jmps p,
      let split := length p in let p := p ++ [ISplit 0 0] in let l1 := length p in
      try p := f p; let jmp := length p in let p := p ++ [IJmp 0] in let l2 := length p in
      emit_alts (f' :: fs) (jmps ++ [jmp]) (<[split := ISplit l1 l2]> p)) in H.
  cbv zeta beta in H. run_res. apply Hf in H as ->. rewrite <-!app_assoc in H0. cbn [app] in H0.
  rewrite insert_at_length, !length_app in H0. cbn [length] in H0.
  change (altc (g :: g' :: gs)) with (λ b,
      let c := g (b + 1) in let rest := altc (g' :: gs) (b + length c + 2) in
      ISplit (b + 1) (b + length c + 2) :: c ++ IJmp (b + length c + 2 + length rest) :: rest).
  cbv zeta beta. set (c := g (length p + 1)) in *. rewrite length_app in H0. cbn [length] in H0.
  replace (length p + S (length c + 1)) with (length p + length c + 2) in H0 by lia.
  apply IH in H0 as ->.
  2: { rewrite Forall_app, Forall_singleton, !length_app. cbn. rewrite !length_app. cbn.
       split; [|lia]. eapply Forall_impl; [exact Hj|]. cbn. lia. }
  rewrite !length_app. cbn [length]. rewrite !length_app. cbn [length].
  replace (length p + S (length c + 1)) with (length p + length c + 2) by lia.
  set (rest := altc (g' :: gs) _). rewrite patch_last by (done || lia).
  clearbody rest. rewrite <-!app_assoc. cbn [app length]. rewrite <-!app_assoc. cbn [app].
  do 2 f_equal. lia.
Qed.

Lemma emit_all_app fs fs' p : emit_all (fs ++ fs') p = res_bind (emit_all fs p) (emit_all fs').
Proof.
  revert p. induction fs as [|f fs IH]; intros p; cbn; [done|]. by destruct (f p); cbn; [|apply IH].
Qed.

Lemma compile_emits a : wf_ast a → emits (compile a) (code a).
Proof.
  assert (∀ v, Forall (λ a, emits (compile a) (code a)) v → Forall2 emits (map compile v) (map code v)) as Hv.
  { intros v Hv. by apply Forall2_fmap_2, Forall_Forall2_diag. }
  assert (∀ f g n, emits f g → Forall2 emits (replicate n f) (replicate n g)) as Hr.
  { intros f g n Hf. induction n; cbn; by constructor. }
  induction 1 as [a Ha|v Hf|a v Hf|a IH|a IH|a IH|a min max IH _] using wf_ast_ind'; cbn [compile].
  - destruct a; try done; apply sized_emits; try apply push_emits.
    intros p p' [= <-]. cbn. by rewrite app_nil_r.
  - by apply sized_emits, all_emits, Hv.
  - apply sized_emits. intros p p' H. eapply alts_emits in H; [|by apply Hv|done]. done.
  - by apply sized_emits, star_emits.
  - by apply sized_emits, plus_emits.
  - by apply sized_emits, quest_emits.
  - apply sized_emits. intros p p' H.
    eapply (all_emits (replicate (N.to_nat min) (compile a)
      ++ match max with None => [sized (emit_star (compile a))]
         | Some mx => replicate (N.to_nat (mx - min)) (sized (emit_quest (compile a))) end)).
    + apply Forall2_app; [by apply Hr|]. destruct max as [mx|].
      * apply Hr. by apply sized_emits, quest_emits.
      * constructor; [|done]. by apply sized_emits, star_emits.
    + rewrite emit_all_app. run_res. rewrite H. cbn. destruct max; [done|]. cbn. by rewrite H0.
Qed.
End emit.

(** ** Threads *)

Section blocks.
Context (text : list string).

(** One move of a thread at [(pc, pos)] of a program. *)
Inductive step (P : Prog) : nat * nat → nat * nat → Prop :=
  | step_eps pc i ins next pc' :
      P !! pc = Some ins → eps_next ins pc i (length text) = Some next → pc' ∈ next →
      step P (pc, i) (pc', i)
  | step_read pc i ins :
      P !! pc = Some ins → consumes ins text i = true → step P (pc, i) (pc + 1, i + 1).

Definition code_at (P : Prog) (b : nat) (c : Prog) : Prop :=
  ∀ k ins, c !! k = Some ins → P !! (b + k) = Some ins.

Lemma code_at_app P b c d :
  code_at P b (c ++ d) ↔ code_at P b c ∧ code_at P (b + length c) d.
Proof.
  unfold code_at. split.
  - intros H. split; intros k ins Hk.
    + apply H. by apply lookup_app_l_Some.
    + rewrite <-Nat.add_assoc. apply H. rewrite lookup_app_r by lia. by replace (length c + k - length c) with k by lia.
  - intros [H1 H2] k ins [Hk|[Hl Hk]]%lookup_app_Some; [by apply H1|].
    apply H2 in Hk. by replace (b + length c + (k - length c)) with (b + k) in Hk by lia.
Qed.

Lemma code_at_cons P b i c : code_at P b (i :: c) ↔ P !! b = Some i ∧ code_at P (b + 1) c.
Proof.
  change (i :: c) with ([i] ++ c). rewrite code_at_app. cbn. unfold code_at at 1.
  split; intros [H1 H2]; split; try done.
  - rewrite <-(Nat.add_0_r b). by apply (H1 0).
  - intros [|k] ins Hk; [|done]. injection Hk as <-. by rewrite Nat.add_0_r.
Qed.

(** Entering the block [g b] at [i] and going on to a place outside of it means
    leaving it at its end, at some [j] with [R i j]; and every such [j] is possible. *)
Definition block_ok (g : Code) (R : nat → nat → Prop) : Prop :=
  ∀ P b, code_at P b (g b) →
    (∀ i j, R i j → rtc (step P) (b, i) (b + length (g b), j))
    ∧ (∀ n i q k, nsteps (step P) n (b, i) (q, k) → (q < b ∨ b + length (g b) ≤ q) →
         ∃ m j, m ≤ n ∧ R i j ∧ nsteps (step P) m (b + length (g b), j) (q, k)).

(** The first move out of a known instruction. *)
Lemma step_inv P pc i x ins :
  P !! pc = Some ins → step P (pc, i) x →
  (∃ next pc', eps_next ins pc i (length text) = Some next ∧ pc' ∈ next ∧ x = (pc', i))
  ∨ (consumes ins text i = true ∧ x = (pc + 1, i + 1)).
Proof. intros Hp Hs. inversion Hs; simplify_eq; [left|right]; eauto. Qed.

Lemma split_inv P pc i x a b :
  P !! pc = Some (ISplit a b) → step P (pc, i) x → x = (a, i) ∨ x = (b, i).
Proof.
  intros Hp Hs. destruct (step_inv _ _ _ _ _ Hp Hs) as [(nx & pc' & [= <-] & Hin & ->)|[[=] _]].
  set_solver.
Qed.

Lemma jmp_inv P pc i x a : P !! pc = Some (IJmp a) → step P (pc, i) x → x = (a, i).
Proof.
  intros Hp Hs. destruct (step_inv _ _ _ _ _ Hp Hs) as [(nx & pc' & [= <-] & Hin & ->)|[[=] _]].
  set_solver.
Qed.

Lemma split_step P pc i a b c :
  P !! pc = Some (ISplit a b) → c = a ∨ c = b → step P (pc, i) (c, i).
Proof. intros Hp Hc. eapply step_eps; [exact Hp|done|set_solver]. Qed.

Lemma jmp_step P pc i a : P !! pc = Some (IJmp a) → step P (pc, i) (a, i).
Proof. intros Hp. eapply step_eps; [exact Hp|done|set_solver]. Qed.

Lemma nil_block : block_ok (λ _, []) eq.
Proof.
  intros P b _. cbn. rewrite Nat.add_0_r. split; [by intros i j ->|].
  intros n i q k Hn _. by exists n, i.
Qed.

(** A single instruction that reads a character, and one that only looks at
    the position. *)
Lemma read_block ins p :
  (∀ pc i, eps_next ins pc i (length text) = None) →
  (∀ i, consumes ins text i = map_or false p (text !! i)) →
  block_ok (instc ins) (reads text p).
Proof.
  intros He Hc P b [Hp _]%code_at_cons. cbn. split.
  - intros i j [-> Hr]. apply rtc_once. eapply step_read; [exact Hp|by rewrite Hc].
  - intros n i q k Hn Hq. destruct n as [|n]; [inversion Hn; simplify_eq; lia|].
    inversion Hn as [|? ? x ? Hs Hr]; simplify_eq.
    destruct (step_inv _ _ _ _ _ Hp Hs) as [(nx & pc' & E & _)|[Hi ->]]; [by rewrite He in E|].
    exists n, (i + 1). split; [lia|]. by rewrite Hc in Hi.
Qed.

Lemma look_block ins (t : nat → bool) :
  (∀ i, consumes ins text i = false) →
  (∀ pc i, eps_next ins pc i (length text) = Some (if t i then [pc + 1] else [])) →
  block_ok (instc ins) (λ i j, i = j ∧ t i = true).
Proof.
  intros Hc He P b [Hp _]%code_at_cons. cbn. split.
  - intros i j [<- Ht]. apply rtc_once. eapply step_eps; [exact Hp|apply He|].
    rewrite Ht. set_solver.
  - intros n i q k Hn Hq. destruct n as [|n]; [inversion Hn; simplify_eq; lia|].
    inversion Hn as [|? ? x ? Hs Hr]; simplify_eq.
    destruct (step_inv _ _ _ _ _ Hp Hs) as [(nx & pc' & E & Hin & ->)|[Hi ->]].
    + rewrite He in E. injection E as <-. destruct (t i) eqn:Et; [|set_solver].
      apply list_elem_of_singleton in Hin as ->. exists n, i. split; [lia|done].
    + by rewrite Hc in Hi.
Qed.

Lemma seq_block gs Rs : Forall2 block_ok gs Rs → block_ok (seqc gs) (rel_seq Rs).
Proof.
  induction 1 as [|g R gs Rs Hg _ IH]; [apply nil_block|].
  intros P b Hc. cbn in Hc. apply code_at_app in Hc as [Hc1 Hc2].
  destruct (Hg _ _ Hc1) as [C1 S1], (IH _ _ Hc2) as [C2 S2]. cbn.
  rewrite length_app, Nat.add_assoc. split.
  - intros i k (j & H1 & H2). etrans; [by apply C1|by apply C2].
  - intros n i q k Hn Hq.
    destruct (S1 n i q k Hn) as (m & j & Hm & HR & Hr); [lia|].
    destruct (S2 m j q k Hr) as (m' & j' & Hm' & HR' & Hr'); [lia|].
    exists m', j'. split; [lia|]. split; [by exists j|done].
Qed.

Lemma star_block g R : block_ok g R → block_ok (starc g) (rtc R).
Proof.
  intros Hg P b Hc. unfold starc in *. cbv zeta in Hc. apply code_at_cons in Hc as [Hs Hc].
  apply code_at_app in Hc as [Hc Hj]. apply code_at_cons in Hj as [Hj _].
  destruct (Hg _ _ Hc) as [C1 S1]. set (c := g (b + 1)) in *. cbn. rewrite length_app. cbn.
  replace (b + S (length c + 1)) with (b + length c + 2) by lia. split.
  - intros i j. induction 1 as [i|i j k HR _ IH].
    + apply rtc_once. eapply split_step; [exact Hs|by right].
    + eapply rtc_l; [eapply split_step; [exact Hs|by left]|].
      etrans; [by apply C1|]. eapply rtc_l; [by apply jmp_step|done].
  - intros n. induction (lt_wf n) as [n _ IH]. intros i q k Hn Hq. destruct n as [|n].
    { inversion Hn; simplify_eq. lia. }
    inversion Hn as [|? ? x ? Hst Hr]; simplify_eq.
    destruct (split_inv _ _ _ _ _ _ Hs Hst) as [->| ->].
    + destruct (S1 n i q k Hr) as (m & j & Hm & HR & Hr'); [lia|]. destruct m as [|m].
      { inversion Hr'; simplify_eq. lia. }
      inversion Hr' as [|? ? y ? Hst' Hr'']; simplify_eq.
      rewrite (jmp_inv _ _ _ _ _ Hj Hst') in Hr''.
      destruct (IH m) with (i := j) (q := q) (k := k) as (m' & j' & ? & ? & ?); [lia|done|lia|].
      exists m', j'. split; [lia|]. split; [by eapply rtc_l|done].
    + exists n, i. split; [lia|done].
Qed.

Lemma quest_block g R : block_ok g R → block_ok (questc g) (λ i j, i = j ∨ R i j).
Proof.
  intros Hg P b Hc. unfold questc in *. cbv zeta in Hc. apply code_at_cons in Hc as [Hs Hc].
  destruct (Hg _ _ Hc) as [C1 S1]. set (c := g (b + 1)) in *. cbn.
  replace (b + S (length c)) with (b + 1 + length c) by lia.
  replace (b + length c + 1) with (b + 1 + length c) in Hs by lia. split.
  - intros i j [->|HR]; [apply rtc_once; eapply split_step; [exact Hs|by right]|].
    eapply rtc_l; [eapply split_step; [exact Hs|by left]|by apply C1].
  - intros n i q k Hn Hq. destruct n as [|n]; [inversion Hn; simplify_eq; lia|].
    inversion Hn as [|? ? x ? Hst Hr]; simplify_eq.
    destruct (split_inv _ _ _ _ _ _ Hs Hst) as [->| ->].
    + destruct (S1 n i q k Hr) as (m & j & ? & ? & ?); [lia|]. exists m, j. split; [lia|auto].
    + exists n, i. split; [lia|auto].
Qed.

Lemma plus_block g R : block_ok g R → block_ok (plusc g) (tc R).
Proof.
  intros Hg P b Hc. unfold plusc in *. cbv zeta in Hc. apply code_at_app in Hc as [Hc Hs].
  apply code_at_cons in Hs as [Hs _].
  destruct (Hg _ _ Hc) as [C1 S1]. set (c := g b) in *. rewrite length_app. cbn.
  rewrite Nat.add_assoc. split.
  - intros i j. induction 1 as [i j HR|i j k HR _ IH].
    + etrans; [by apply C1|]. apply rtc_once. eapply split_step; [exact Hs|by right].
    + etrans; [by apply C1|]. eapply rtc_l; [eapply split_step; [exact Hs|by left]|done].
  - intros n. induction (lt_wf n) as [n _ IH]. intros i q k Hn Hq.
    destruct (S1 n i q k Hn) as (m & j & Hm & HR & Hr'); [lia|].
    destruct m as [|m]; [inversion Hr'; simplify_eq; lia|].
    inversion Hr' as [|? ? y ? Hst Hr]; simplify_eq.
    destruct (split_inv _ _ _ _ _ _ Hs Hst) as [->| ->].
    + destruct (IH m) with (i := j) (q := q) (k := k) as (m' & j' & ? & ? & ?); [lia|done|lia|].
      exists m', j'. split; [lia|]. split; [by eapply tc_l|done].
    + exists m, j. split; [lia|]. split; [by apply tc_once|done].
Qed.

Lemma alt_block gs Rs :
  gs ≠ [] → Forall2 block_ok gs Rs →
  block_ok (altc gs) (λ i j, Exists (λ R : nat → nat → Prop, R i j) Rs).
Proof.
  intros Hne. induction 1 as [|g R gs Rs Hg Hgs IH]; [done|].
  destruct gs as [|g' gs], Rs as [|R' Rs]; try by apply Forall2_length in Hgs.
  { intros P b Hc. destruct (Hg P b Hc) as [C1 S1]. cbn. setoid_rewrite Exists_cons.
    setoid_rewrite Exists_nil. split; [by intros i j [?|[]]; apply C1|].
    intros n i q k Hn Hq. destruct (S1 _ _ _ _ Hn Hq) as (m & j & ? & ? & ?). exists m, j. auto. }
  specialize (IH ltac:(done)). intros P b Hc.
  change (altc (g :: g' :: gs) b) with (let c := g (b + 1) in
      let rest := altc (g' :: gs) (b + length c + 2) in
      ISplit (b + 1) (b + length c + 2) :: c ++ IJmp (b + length c + 2 + length rest) :: rest) in *.
  cbv zeta in *. apply code_at_cons in Hc as [Hs Hc]. apply code_at_app in Hc as [Hc Hj].
  apply code_at_cons in Hj as [Hj Hr]. set (c := g (b + 1)) in *.
  replace (b + 1 + length c + 1) with (b + length c + 2) in Hr by lia.
  destruct (Hg _ _ Hc) as [C1 S1], (IH _ _ Hr) as [C2 S2]. fold c in C1, S1.
  set (rest := altc (g' :: gs) (b + length c + 2)) in *.
  cbn [length]. rewrite length_app. cbn [length].
  replace (b + S (length c + S (length rest))) with (b + length c + 2 + length rest) by lia.
  setoid_rewrite (Exists_cons _ R). split.
  - intros i j [HR|HR].
    + eapply rtc_l; [eapply split_step; [exact Hs|by left]|]. etrans; [by apply C1|].
      apply rtc_once. by apply jmp_step.
    + eapply rtc_l; [eapply split_step; [exact Hs|by right]|]. by apply C2.
  - intros n i q k Hn Hq. destruct n as [|n]; [inversion Hn; simplify_eq; lia|].
    inversion Hn as [|? ? x ? Hst Hr']; simplify_eq.
    destruct (split_inv _ _ _ _ _ _ Hs Hst) as [->| ->].
    + destruct (S1 n i q k Hr') as (m & j & ? & HR & Hm); [lia|].
      destruct m as [|m]; [inversion Hm; simplify_eq; lia|].
      inversion Hm as [|? ? y ? Hst' Hm']; simplify_eq.
      rewrite (jmp_inv _ _ _ _ _ Hj Hst') in Hm'. exists m, j. split; [lia|auto].
    + destruct (S2 n i q k Hr') as (m & j & ? & HR & Hm); [lia|]. exists m, j. split; [lia|auto].
Qed.

(** ** Patterns *)

#[export] Instance block_ok_proper :
  Proper (eq ==> pointwise_relation nat (pointwise_relation nat iff) ==> iff) block_ok.
Proof.
  intros g ? <- R Q HRQ. unfold block_ok.
  split; intros H P b Hc; destruct (H P b Hc) as [C S]; split.
  - intros i j HQ. by apply C, HRQ.
  - intros n i q k Hn Hq. destruct (S _ _ _ _ Hn Hq) as (m & j & ? & ?%HRQ & ?). eauto.
  - intros i j HQ. by apply C, HRQ.
  - intros n i q k Hn Hq. destruct (S _ _ _ _ Hn Hq) as (m & j & ? & ?%HRQ & ?). eauto.
Qed.

Lemma rel_seq_replicate R n Rs i k :
  rel_seq (replicate n R ++ Rs) i k ↔ ∃ j, nsteps R n i j ∧ rel_seq Rs j k.
Proof.
  revert i. induction n as [|n IH]; intros i; cbn.
  - split; [by exists i; split; [constructor|]|]. intros (j & Hn & H). by inversion Hn; subst.
  - unfold rel_comp. setoid_rewrite IH. split.
    + intros (j & HR & j' & Hn & H). exists j'. split; [by econstructor|done].
    + intros (j' & Hn & H). inversion Hn; subst. eauto.
Qed.

Lemma rel_seq_optional R n i k :
  rel_seq (replicate n (λ i j, i = j ∨ R i j)) i k ↔ ∃ m, m ≤ n ∧ nsteps R m i k.
Proof.
  revert i. induction n as [|n IH]; intros i; cbn.
  - split; [intros ->; exists 0; split; [lia|constructor]|]. intros (m & Hm & Hn).
    assert (m = 0) as -> by lia. by inversion Hn.
  - unfold rel_comp. setoid_rewrite IH. split.
    + intros (j & [->|HR] & m & Hm & Hn); [exists m; split; [lia|done]|].
      exists (S m). split; [lia|by econstructor].
    + intros ([|m] & Hm & Hn); inversion Hn; subst.
      * exists k. split; [by left|]. exists 0. split; [lia|constructor].
      * eexists. split; [by right|]. exists m. split; [lia|done].
Qed.

Lemma repeat_lang R (min : N) (max : option N) i k :
  map_or True (λ mx, (min <= mx)%N) max →
  rel_seq (replicate (N.to_nat min) R
           ++ match max with
              | None => [rtc R]
              | Some mx => replicate (N.to_nat (mx - min)) (λ i j, i = j ∨ R i j)
              end) i k
  ↔ ∃ m, (min <= N.of_nat m)%N ∧ map_or True (λ mx, (N.of_nat m <= mx)%N) max ∧ nsteps R m i k.
Proof.
  intros Hmm. rewrite rel_seq_replicate. destruct max as [mx|]; cbn in *.
  - setoid_rewrite rel_seq_optional. split.
    + intros (j & Hn & m & Hm & Hr). exists (N.to_nat min + m).
      split; [lia|]. split; [lia|]. by eapply nsteps_trans.
    + intros (m & H1 & H2 & Hn). replace m with (N.to_nat min + (m - N.to_nat min)) in Hn by lia.
      apply nsteps_add_inv in Hn as (j & ? & ?). exists j. split; [done|].
      exists (m - N.to_nat min). split; [lia|done].
  - split.
    + intros (j & Hn & k' & Hr & ->). apply rtc_nsteps in Hr as [m Hr].
      exists (N.to_nat min + m). split; [lia|]. split; [done|]. by eapply nsteps_trans.
    + intros (m & H1 & _ & Hn). replace m with (N.to_nat min + (m - N.to_nat min)) in Hn by lia.
      apply nsteps_add_inv in Hn as (j & ? & Hr). exists j. split; [done|].
      exists k. split; [|done]. apply rtc_nsteps. eauto.
Qed.

Lemma Forall2_replicate_same {A B} (Q : A → B → Prop) n x y :
  Q x y → Forall2 Q (replicate n x) (replicate n y).
Proof. intros. induction n; cbn; by constructor. Qed.

(** The code of a pattern does what the pattern means. *)
Lemma code_block a : wf_ast a → block_ok (code a) (lang text a).
Proof.
  induction 1 as [a Ha|v Hf|a v Hf|a IH|a IH|a IH|a min max IH Hmm] using wf_ast_ind'; cbn.
  - destruct a; try done.
    + apply nil_block.
    + by apply read_block.
    + by apply read_block.
    + by apply read_block.
    + eapply block_ok_proper; [done| |by apply (look_block IStart (λ i, Nat.eqb i 0))].
      intros i j. by rewrite Nat.eqb_eq.
    + eapply block_ok_proper; [done| |by apply (look_block IEnd (λ i, Nat.eqb i (length text)))].
      intros i j. by rewrite Nat.eqb_eq.
  - apply seq_block. by apply Forall2_fmap_2, Forall_Forall2_diag.
  - apply (alt_block (map code (a :: v)) (map (lang text) (a :: v))); [done|].
    by apply Forall2_fmap_2, Forall_Forall2_diag.
  - by apply star_block.
  - by apply plus_block.
  - by apply quest_block.
  - eapply block_ok_proper; [done|intros i k; symmetry; by apply repeat_lang|].
    apply seq_block, Forall2_app; [by apply Forall2_replicate_same|]. destruct max.
    + apply Forall2_replicate_same. by apply quest_block.
    + constructor; [by apply star_block|done].
Qed.
End blocks.

(** ** Targets stay in the block or just behind it *)

Definition targets (i : Inst) (pc : nat) : list nat :=
  match i with
  | ISplit x y => [x; y]
  | IJmp x => [x]
  | IMatch | IMatchN _ => []
  | _ => [pc + 1]
  end.

Definition bounded (lo hi b : nat) (c : Prog) : Prop :=
  ∀ k ins x, c !! k = Some ins → x ∈ targets ins (b + k) → lo ≤ x ≤ hi.

Definition contained (g : Code) : Prop := ∀ b, bounded b (b + length (g b)) b (g b).

Section contained.

Lemma bounded_mono lo hi lo' hi' b c :
  lo' ≤ lo → hi ≤ hi' → bounded lo hi b c → bounded lo' hi' b c.
Proof. intros ? ? H k ins x Hk Hx. specialize (H k ins x Hk Hx). lia. Qed.

Lemma bounded_app lo hi b c d :
  bounded lo hi b (c ++ d) ↔ bounded lo hi b c ∧ bounded lo hi (b + length c) d.
Proof.
  unfold bounded. split.
  - intros H. split; intros k ins x Hk Hx.
    + eapply H; [by apply lookup_app_l_Some|done].
    + apply (H (length c + k) ins); [|by rewrite Nat.add_assoc].
      rewrite lookup_app_r by lia. by replace (length c + k - length c) with k by lia.
  - intros [H1 H2] k ins x [Hk|[Hl Hk]]%lookup_app_Some Hx; [eauto|].
    eapply H2; [exact Hk|]. by replace (b + length c + (k - length c)) with (b + k) by lia.
Qed.

Lemma bounded_one lo hi b i : Forall (λ x, lo ≤ x ≤ hi) (targets i b) → bounded lo hi b [i].
Proof.
  intros Hf [|k] ins x Hk Hx; [|done]. injection Hk as <-. rewrite Nat.add_0_r in Hx.
  by apply (proj1 (Forall_forall _ _) Hf).
Qed.

Lemma bounded_cons lo hi b i c :
  Forall (λ x, lo ≤ x ≤ hi) (targets i b) → bounded lo hi (b + 1) c → bounded lo hi b (i :: c).
Proof. intros. change (i :: c) with ([i] ++ c). apply bounded_app. split; [by apply bounded_one|done]. Qed.

Lemma inst_contained i : match i with ISplit _ _ | IJmp _ => False | _ => True end → contained (instc i).
Proof. intros Hi b. apply bounded_one. destruct i; try done; cbn; repeat constructor; lia. Qed.

Lemma nil_contained : contained (λ _, []).
Proof. intros b k ins x Hk. by rewrite lookup_nil in Hk. Qed.

Lemma seq_contained gs : Forall contained gs → contained (seqc gs).
Proof.
  induction 1 as [|g gs Hg _ IH]; [apply nil_contained|]. intros b. cbn. rewrite length_app.
  apply bounded_app. split; (eapply bounded_mono; [| |first [apply Hg|apply IH]]; lia).
Qed.

Lemma star_contained g : contained g → contained (starc g).
Proof.
  intros Hg b. unfold starc. cbn. rewrite length_app. cbn. apply bounded_cons.
  { cbn. repeat constructor; lia. }
  apply bounded_app. split; [eapply bounded_mono; [| |apply Hg]; lia|].
  apply bounded_one. cbn. repeat constructor; lia.
Qed.

Lemma plus_contained g : contained g → contained (plusc g).
Proof.
  intros Hg b. unfold plusc. rewrite length_app. cbn. apply bounded_app.
  split; [eapply bounded_mono; [| |apply Hg]; lia|]. apply bounded_one. cbn. repeat constructor; lia.
Qed.

Lemma quest_contained g : contained g → contained (questc g).
Proof.
  intros Hg b. unfold questc. cbn. apply bounded_cons; [cbn; repeat constructor; lia|].
  eapply bounded_mono; [| |apply Hg]; lia.
Qed.

Lemma alt_contained gs : Forall contained gs → contained (altc gs).
Proof.
  induction 1 as [|g gs Hg Hgs IH]; [apply nil_contained|].
  destruct gs as [|g' gs]; [exact Hg|]. intros b.
  change (altc (g :: g' :: gs) b) with (let c := g (b + 1) in
      let rest := altc (g' :: gs) (b + length c + 2) in
      ISplit (b + 1) (b + length c + 2) :: c ++ IJmp (b + length c + 2 + length rest) :: rest) in *.
  cbv zeta. set (c := g (b + 1)). set (rest := altc (g' :: gs) (b + length c + 2)).
  cbn [length]. rewrite length_app. cbn [length]. apply bounded_cons; [cbn; repeat constructor; lia|].
  apply bounded_app. split; [eapply bounded_mono; [| |apply Hg]; fold c; lia|].
  apply bounded_cons; [cbn; repeat constructor; lia|].
  replace (b + 1 + length c + 1) with (b + length c + 2) by lia.
  eapply bounded_mono; [| |apply IH]; fold rest; lia.
Qed.

Lemma code_contained a : wf_ast a → contained (code a).
Proof.
  induction 1 as [a Ha|v Hf|a v Hf|a IH|a IH|a IH|a min max IH _] using wf_ast_ind'; cbn.
  - destruct a; try done; first [by apply nil_contained|by apply inst_contained].
  - apply seq_contained. by apply Forall_fmap.
  - apply (alt_contained (map code (a :: v))). by apply Forall_fmap.
  - by apply star_contained.
  - by apply plus_contained.
  - by apply quest_contained.
  - apply seq_contained, Forall_app_2; [by apply Forall_replicate|]. destruct max.
    + by apply Forall_replicate, quest_contained.
    + constructor; [by apply star_contained|done].
Qed.
End contained.
