(* ===== verification/RegexSim.v ===== *)
(** * The simulation visits exactly the reachable threads

    [add_thread] computes a closure with a generation stamp per instruction;
    [search] and [set_search] run all threads of a position before the next.
    Here: neither can index out of range, the stack loop ends within its fuel,
    the thread list has no duplicates, and the list for a position is the set of
    threads [reach] allows there. *)

From Stdlib Require Import Ascii.
From S2P Require Import Prelude RustStr Regex RegexCode.

Local Open Scope stdpp_scope.

Definition is_eps (i : Inst) : bool :=
  match i with ISplit _ _ | IJmp _ | IStart | IEnd => true | _ => false end.

Lemma eps_next_None i pc pos n : eps_next i pc pos n = None ↔ is_eps i = false.
Proof. by destruct i. Qed.

Lemma eps_next_targets i pc pos n next x :
  eps_next i pc pos n = Some next → x ∈ next → x ∈ targets i pc.
Proof. destruct i; cbn; intros; simplify_eq; try done; repeat case_match; set_solver. Qed.

Lemma eps_next_length i pc pos n next : eps_next i pc pos n = Some next → length next ≤ 2.
Proof. destruct i; cbn; intros; simplify_eq; cbn; repeat case_match; cbn; lia. Qed.

Lemma consumes_targets i text pos pc : consumes i text pos = true → pc + 1 ∈ targets i pc.
Proof. destruct i; cbn; intros; simplify_eq; set_solver. Qed.

Lemma consumes_pos i text pos : consumes i text pos = true → pos < length text.
Proof.
  destruct i; cbn; intros H; try done; apply map_or_true in H as (? & ? & _);
    by eapply lookup_lt_Some.
Qed.

Lemma consumes_not_eps i text pos : consumes i text pos = true → is_eps i = false.
Proof. by destruct i. Qed.

(** Stamps that differ from the current generation. *)
Definition unmarked (gen : N) (seen : list N) : nat := length (filter (λ g, g ≠ gen) seen).

Lemma unmarked_le gen seen : unmarked gen seen ≤ length seen.
Proof. apply length_filter. Qed.

Lemma unmarked_insert gen seen p g :
  seen !! p = Some g → g ≠ gen → S (unmarked gen (<[p := gen]> seen)) = unmarked gen seen.
Proof.
  unfold unmarked. revert p. induction seen as [|h seen IH]; intros [|p] Hp Hg; try done; cbn [insert list_insert lookup list_lookup] in *.
  - injection Hp as ->. rewrite !filter_cons, decide_False, decide_True by naive_solver. done.
  - rewrite !filter_cons. case_decide; cbn; by rewrite IH.
Qed.

Section sim.
Context (P : Prog) (text : list string) (starts : list nat).
Abbreviation n := (length text).

Hypothesis P_closed : ∀ pc ins x, P !! pc = Some ins → x ∈ targets ins pc → x < length P.
Hypothesis starts_in : ∀ st, st ∈ starts → st < length P.

(** The threads that exist at a position of the text. *)
Definition reach (pos pc : nat) : Prop :=
  ∃ st, st ∈ starts ∧ rtc (step text P) (st, 0) (pc, pos).

Definition stops (pc : nat) : Prop := ∃ ins, P !! pc = Some ins ∧ is_eps ins = false.
Definition eps (pos pc pc' : nat) : Prop :=
  ∃ ins next, P !! pc = Some ins ∧ eps_next ins pc pos n = Some next ∧ pc' ∈ next.

Lemma eps_lt pos pc pc' : eps pos pc pc' → pc' < length P.
Proof. intros (ins & nx & Hp & He & Hin). eauto using eps_next_targets. Qed.

Lemma reach_eps pos pc pc' : reach pos pc → eps pos pc pc' → reach pos pc'.
Proof.
  intros (st & Hst & Hr) (ins & nx & Hp & He & Hin). exists st. split; [done|].
  eapply rtc_r; [exact Hr|]. by eapply step_eps.
Qed.

Lemma reach_read pos pc ins :
  reach pos pc → P !! pc = Some ins → consumes ins text pos = true → reach (pos + 1) (pc + 1).
Proof.
  intros (st & Hst & Hr) Hp Hc. exists st. split; [done|].
  eapply rtc_r; [exact Hr|]. by eapply step_read.
Qed.

Lemma reach_ind (Q : nat → nat → Prop) :
  (∀ st, st ∈ starts → Q 0 st) →
  (∀ pos pc pc', reach pos pc → Q pos pc → eps pos pc pc' → Q pos pc') →
  (∀ pos pc ins, reach pos pc → Q pos pc → P !! pc = Some ins → consumes ins text pos = true →
     Q (pos + 1) (pc + 1)) →
  ∀ pos pc, reach pos pc → Q pos pc.
Proof.
  intros H0 He Hr pos pc (st & Hst & Hp).
  enough (∀ x, rtc (step text P) (st, 0) x → Q x.2 x.1) as H by exact (H _ Hp).
  clear pos pc Hp. apply rtc_ind_r; [by apply H0|]. intros [pc0 pos0] x Hy Hs IH. cbn in IH.
  inversion Hs as [? i ins nx pc' Hp' Hn Hin|? i ins Hp' Hc]; simplify_eq/=.
  - eapply He; [by exists st|done|]. by exists ins, nx.
  - eapply Hr; [by exists st|done|done|done].
Qed.

Lemma reach_lt pos pc : reach pos pc → pc < length P ∧ pos ≤ n.
Proof.
  revert pos pc. apply reach_ind.
  - intros st Hst. split; [by apply starts_in|lia].
  - intros pos pc pc' _ [_ Hn] He. split; [by eapply eps_lt|done].
  - intros pos pc ins _ _ Hp Hc. split; [by eapply P_closed, consumes_targets|].
    apply consumes_pos in Hc. lia.
Qed.

(** The state of [add_thread]'s loop at generation [gen]: marked instructions
    are closed up to the stack, and the list holds those that stop. *)
Record Marks (gen : N) (pos : nat) (st lst : list nat) (seen : list N) : Prop := {
  marks_len : length seen = length P;
  marks_nodup : NoDup lst;
  marks_lst : ∀ p, p ∈ lst ↔ seen !! p = Some gen ∧ stops p;
  marks_closed : ∀ p q, seen !! p = Some gen → eps pos p q → seen !! q = Some gen ∨ q ∈ st;
  marks_sound : ∀ p, seen !! p = Some gen ∨ p ∈ st → reach pos p }.

(** Every stamp is older or the current one. *)
Definition grows (gen : N) (seen seen' : list N) : Prop :=
  (∀ p, seen !! p = Some gen → seen' !! p = Some gen)
  ∧ ∀ p g, seen' !! p = Some g → g = gen ∨ seen !! p = Some g.

Lemma grows_refl gen seen : grows gen seen seen.
Proof. split; auto. Qed.

Lemma grows_trans gen s1 s2 s3 : grows gen s1 s2 → grows gen s2 s3 → grows gen s1 s3.
Proof. intros [A1 B1] [A2 B2]. split; [by auto|]. intros p g [->|H]%B2; auto. Qed.

Lemma insert_stamp (gen : N) seen p q :
  p < length seen → <[p := gen]> seen !! q = Some gen ↔ q = p ∨ seen !! q = Some gen.
Proof.
  intros Hp. destruct (decide (q = p)) as [->|Hq].
  - rewrite list_lookup_insert_eq by done. naive_solver.
  - rewrite list_lookup_insert_ne by done. naive_solver.
Qed.

Lemma grows_insert gen seen p : p < length seen → grows gen seen (<[p := gen]> seen).
Proof.
  intros Hp. split; [intros q Hq; apply insert_stamp; auto|]. intros q g.
  destruct (decide (q = p)) as [->|Hq].
  - rewrite list_lookup_insert_eq by done. naive_solver.
  - rewrite list_lookup_insert_ne by done. auto.
Qed.

Lemma marks_skip gen pos pc st lst seen :
  seen !! pc = Some gen → Marks gen pos (pc :: st) lst seen → Marks gen pos st lst seen.
Proof.
  intros Hpc [? ? ? Hc Hs]. split; try done.
  - intros p q Hp Hq. destruct (Hc p q Hp Hq) as [?|[->|?]%elem_of_cons]; auto.
  - intros p Hp. apply Hs. set_solver.
Qed.

Lemma marks_visit gen pos pc st lst seen ins next :
  P !! pc = Some ins → seen !! pc ≠ Some gen → eps_next ins pc pos n = Some next →
  Marks gen pos (pc :: st) lst seen → Marks gen pos (next ++ st) lst (<[pc := gen]> seen).
Proof.
  intros Hp Hne He [Hl Hd Hlst Hc Hs].
  assert (pc < length seen) as Hlt by (rewrite Hl; by eapply lookup_lt_Some).
  split; [by rewrite length_insert|done|..].
  - intros p. rewrite Hlst, insert_stamp by done. split; [naive_solver|].
    intros [[->|?] Hst]; [|done]. destruct Hst as (i & Hi & Hst). simplify_eq.
    apply eps_next_None with (pc := pc) (pos := pos) (n := n) in Hst. congruence.
  - intros p q. rewrite !insert_stamp by done. intros [->|Hpm] Hq.
    + destruct Hq as (i & nx & Hi & He' & Hin). simplify_eq. right. set_solver.
    + destruct (Hc p q Hpm Hq) as [?|[->|?]%elem_of_cons]; [auto|auto|]. right. set_solver.
  - intros p. rewrite insert_stamp by done. intros [[->|?]|[Hin|?]%elem_of_app].
    + apply Hs. set_solver.
    + apply Hs. auto.
    + eapply reach_eps; [apply (Hs pc); set_solver|]. by exists ins, next.
    + apply Hs. set_solver.
Qed.

Lemma marks_stop gen pos pc st lst seen ins :
  P !! pc = Some ins → seen !! pc ≠ Some gen → eps_next ins pc pos n = None →
  Marks gen pos (pc :: st) lst seen → Marks gen pos st (lst ++ [pc]) (<[pc := gen]> seen).
Proof.
  intros Hp Hne He [Hl Hd Hlst Hc Hs]. pose proof He as Hstop. apply eps_next_None in Hstop.
  assert (pc < length seen) as Hlt by (rewrite Hl; by eapply lookup_lt_Some).
  split; [by rewrite length_insert|..].
  - apply NoDup_app. split; [done|]. split; [|apply NoDup_singleton].
    intros x Hx ->%list_elem_of_singleton. by apply Hlst in Hx as [? _].
  - intros p. rewrite elem_of_app, list_elem_of_singleton, Hlst, insert_stamp by done.
    split; [|naive_solver]. intros [[? ?]| -> ]; [auto|]. split; [auto|]. by exists ins.
  - intros p q. rewrite !insert_stamp by done. intros [->|Hpm] Hq.
    + destruct Hq as (i & nx & Hi & He' & Hin). simplify_eq.
    + destruct (Hc p q Hpm Hq) as [?|[->|?]%elem_of_cons]; auto.
  - intros p. rewrite insert_stamp by done. intros [[->|?]|?]; apply Hs; set_solver.
Qed.

Lemma closure_spec fuel gen pos st lst seen :
  Marks gen pos st lst seen → length st + 2 * unmarked gen seen ≤ fuel →
  ∃ lst' seen', closure fuel P gen pos n st lst seen = Some (lst', seen')
    ∧ Marks gen pos [] lst' seen' ∧ grows gen seen seen' ∧ ∀ p, p ∈ st → seen' !! p = Some gen.
Proof.
  revert st lst seen. induction fuel as [|fuel IH]; intros st lst seen HM Hf.
  { destruct st; [|cbn in Hf; lia]. exists lst, seen. split; [done|]. split; [done|].
    split; [apply grows_refl|set_solver]. }
  destruct st as [|pc st].
  { exists lst, seen. split; [done|]. split; [done|]. split; [apply grows_refl|set_solver]. }
  cbn [closure]. assert (pc < length P) as Hlt.
  { apply (reach_lt pos). eapply marks_sound; [done|]. set_solver. }
  destruct (lookup_lt_is_Some_2 P pc Hlt) as [ins Hp].
  assert (pc < length seen) as Hlt' by (by rewrite (marks_len _ _ _ _ _ HM)).
  destruct (lookup_lt_is_Some_2 seen pc Hlt') as [g Hg]. rewrite Hp, Hg.
  assert (∀ lst' seen' st', (∀ p, p ∈ st → p ∈ st') → seen' !! pc = Some gen →
    grows gen seen seen' → Marks gen pos st' lst' seen' →
    length st' + 2 * unmarked gen seen' ≤ fuel →
    ∃ lst'' seen'', closure fuel P gen pos n st' lst' seen' = Some (lst'', seen'')
      ∧ Marks gen pos [] lst'' seen'' ∧ grows gen seen seen''
      ∧ ∀ p, p ∈ pc :: st → seen'' !! p = Some gen) as Hnext.
  { intros lst' seen' st' Hst Hpc Hgr HM' Hf'. destruct (IH st' lst' seen' HM' Hf') as (l & s & H1 & H2 & H3 & H4).
    exists l, s. split; [done|]. split; [done|]. split; [by eapply grows_trans|].
    intros p [->|Hin]%elem_of_cons; [by apply H3|auto]. }
  cbn in Hf. destruct (g =? gen)%N eqn:Eg.
  { apply N.eqb_eq in Eg as ->. apply (Hnext lst seen st); eauto using grows_refl, marks_skip. lia. }
  apply N.eqb_neq in Eg. assert (seen !! pc ≠ Some gen) as Hne by congruence.
  pose proof (unmarked_insert gen seen pc g Hg Eg) as Hu.
  assert (<[pc := gen]> seen !! pc = Some gen) as Hm by (by apply list_lookup_insert_eq).
  destruct (eps_next ins pc pos n) as [next|] eqn:He.
  - apply Hnext; eauto using grows_insert, marks_visit; [set_solver|].
    rewrite length_app. apply eps_next_length in He. lia.
  - apply Hnext; eauto using grows_insert, marks_stop. lia.
Qed.

Lemma add_thread_spec gen pos st lst seen :
  Marks gen pos [] lst seen → reach pos st →
  ∃ lst' seen', add_thread P lst seen gen st pos n = Some (lst', seen')
    ∧ Marks gen pos [] lst' seen' ∧ grows gen seen seen' ∧ seen' !! st = Some gen.
Proof.
  intros HM Hst. unfold add_thread.
  destruct (closure_spec (2 * length P + 2) gen pos [st] lst seen) as (l & s & ? & ? & ? & ?).
  - destruct HM as [? ? ? Hc Hs]. split; try done.
    + intros p q Hp Hq. left. destruct (Hc p q Hp Hq); [done|set_solver].
    + intros p [?|Hin%list_elem_of_singleton]; [apply Hs; auto|by subst].
  - pose proof (unmarked_le gen seen). rewrite (marks_len _ _ _ _ _ HM) in *. cbn. lia.
  - exists l, s. set_solver.
Qed.

(** *** One position *)

(** The list for [pos] holds the reachable threads that stop. *)
Definition Threads (pos : nat) (lst : list nat) : Prop :=
  ∀ p, p ∈ lst ↔ reach pos p ∧ stops p.

(** Where the threads of [done] go on to at the next position is marked. *)
Definition advanced (gen : N) (pos : nat) (done : nat → Prop) (seen : list N) : Prop :=
  ∀ pc ins, done pc → P !! pc = Some ins → consumes ins text pos = true →
    seen !! (pc + 1) = Some gen.

Definition older (gen : N) (seen : list N) : Prop := ∀ p g, seen !! p = Some g → (g < gen)%N.

Lemma marks_fresh gen pos seen :
  length seen = length P → older gen seen → Marks gen pos [] [] seen.
Proof.
  intros Hl Ho. assert (∀ p, seen !! p ≠ Some gen) as Hn by (intros p Hp; apply Ho in Hp; lia).
  split; [done|constructor|..].
  - intros p. split; [set_solver|]. by intros [?%Hn _].
  - by intros p q ?%Hn.
  - intros p [?%Hn|Hp]; [done|set_solver].
Qed.

(** Once every thread has been run, the new list is the next position's. *)
Lemma marks_threads gen pos clist lst seen :
  Threads pos clist → Marks gen (pos + 1) [] lst seen → advanced gen pos (λ p, p ∈ clist) seen →
  Threads (pos + 1) lst.
Proof.
  intros Hc HM Ha p. rewrite (marks_lst _ _ _ _ _ HM).
  split; intros [Hp Hs]; split; try done; [eapply marks_sound; eauto|].
  enough (∀ k q, reach k q → k = pos + 1 → seen !! q = Some gen) by eauto.
  apply (reach_ind (λ k q, k = pos + 1 → seen !! q = Some gen)).
  - lia.
  - intros k q q' Hr IH He Hk. subst k.
    destruct (marks_closed _ _ _ _ _ HM q q' (IH eq_refl) He); [done|set_solver].
  - intros k q ins Hr _ Hq Hcs Hk. assert (k = pos) as -> by lia.
    apply (Ha q ins); [|done|done]. apply Hc. split; [done|]. exists ins.
    split; [done|by eapply consumes_not_eps].
Qed.

(** A thread that consumes is advanced, whatever ran before it. *)
Lemma thread_step gen pos pc ins done lst seen :
  reach pos pc → P !! pc = Some ins → consumes ins text pos = true →
  Marks gen (pos + 1) [] lst seen → advanced gen pos done seen →
  ∃ lst' seen', add_thread P lst seen gen (pc + 1) (pos + 1) n = Some (lst', seen')
    ∧ Marks gen (pos + 1) [] lst' seen' ∧ grows gen seen seen'
    ∧ advanced gen pos (λ p, done p ∨ p = pc) seen'.
Proof.
  intros Hr Hp Hc HM Ha.
  destruct (add_thread_spec gen (pos + 1) (pc + 1) lst seen HM) as (l & s & H1 & H2 & H3 & H4);
    [by eapply reach_read|].
  exists l, s. split; [done|]. split; [done|]. split; [done|].
  intros q i [Hq| ->] Hi Hci; [|done]. apply H3. by eapply Ha.
Qed.

Lemma thread_idle gen pos pc ins done seen :
  P !! pc = Some ins → consumes ins text pos = false → advanced gen pos done seen →
  advanced gen pos (λ p, done p ∨ p = pc) seen.
Proof. intros Hp Hc Ha q i [Hq| ->] Hi Hci; [by eapply Ha|]. congruence. Qed.

Definition accepts_at (pos : nat) : Prop := ∃ p, reach pos p ∧ P !! p = Some IMatch.

Lemma advanced_weaken gen pos (Q Q' : nat → Prop) seen :
  (∀ p, Q' p → Q p) → advanced gen pos Q seen → advanced gen pos Q' seen.
Proof. intros HQ Ha p i Hp. by apply Ha, HQ. Qed.

Lemma run_threads_spec gen pos clist done nlist seen :
  (∀ p, p ∈ clist → reach pos p ∧ stops p) →
  Marks gen (pos + 1) [] nlist seen → advanced gen pos done seen →
  (run_threads P text gen pos clist nlist seen = Some None
     ∧ ∃ p, p ∈ clist ∧ P !! p = Some IMatch)
  ∨ (∃ lst seen', run_threads P text gen pos clist nlist seen = Some (Some (lst, seen'))
     ∧ Marks gen (pos + 1) [] lst seen' ∧ grows gen seen seen'
     ∧ advanced gen pos (λ p, done p ∨ p ∈ clist) seen'
     ∧ ∀ p, p ∈ clist → P !! p ≠ Some IMatch).
Proof.
  revert done nlist seen. induction clist as [|pc clist IH]; intros done nlist seen Hc HM Ha.
  { right. exists nlist, seen. split; [done|]. split; [done|]. split; [apply grows_refl|].
    split; [|set_solver]. eapply advanced_weaken; [|done]. set_solver. }
  destruct (Hc pc) as [Hr (ins & Hp & Hst)]; [set_solver|]. cbn [run_threads]. rewrite Hp.
  assert (∀ lst s, Marks gen (pos + 1) [] lst s → grows gen seen s →
    advanced gen pos (λ p, done p ∨ p = pc) s → P !! pc ≠ Some IMatch →
    (run_threads P text gen pos clist lst s = Some None
       ∧ ∃ p, p ∈ pc :: clist ∧ P !! p = Some IMatch)
    ∨ (∃ lst' s', run_threads P text gen pos clist lst s = Some (Some (lst', s'))
       ∧ Marks gen (pos + 1) [] lst' s' ∧ grows gen seen s'
       ∧ advanced gen pos (λ p, done p ∨ p ∈ pc :: clist) s'
       ∧ ∀ p, p ∈ pc :: clist → P !! p ≠ Some IMatch)) as Hgo.
  { intros lst s HM' Hg Ha' Hm. assert (∀ p, p ∈ clist → reach pos p ∧ stops p) as Hc' by set_solver.
    destruct (IH _ lst s Hc' HM' Ha')
      as [[E (p & Hin & Hpm)]|(l & s' & E & H1 & H2 & H3 & H4)]; [left|right].
    - split; [done|]. exists p. set_solver.
    - exists l, s'. split; [done|]. split; [done|]. split; [by eapply grows_trans|].
      split; [eapply advanced_weaken; [|done]; set_solver|]. set_solver. }
  assert (ins = IMatch ∨ ins ≠ IMatch) as [->|Hm] by (destruct ins; auto).
  { left. split; [done|]. exists pc. set_solver. }
  assert (P !! pc ≠ Some IMatch) as Hm' by congruence.
  destruct (consumes ins text pos) eqn:Ec.
  - destruct (thread_step gen pos pc ins done nlist seen) as (l & s & E & H1 & H2 & H3); try done.
    destruct ins; try done; rewrite ?Ec, E; by apply Hgo.
  - assert (advanced gen pos (λ p, done p ∨ p = pc) seen) as Ha' by (by eapply thread_idle).
    destruct ins; try done; rewrite ?Ec; apply Hgo; eauto using grows_refl.
Qed.

(** *** All positions *)

Lemma older_grows gen seen seen' :
  older gen seen → grows gen seen seen' → older (gen + 1) seen'.
Proof. intros Ho [_ Hg] p g [->|H%Ho]%Hg; lia. Qed.

(** The stamp of the run at [pos]; it fits in 32 bits. *)
Definition stamp (pos : nat) : N := (N.of_nat pos + 2)%N.

Hypothesis text_short : (N.of_nat n + 2 <= u32_max)%N.

Lemma next_stamp pos : pos ≤ n → as_u32 (N.of_nat pos + 1 + 1) = stamp pos.
Proof. intros Hp. rewrite as_u32_small by lia. unfold stamp. lia. Qed.

Lemma search_spec k pos clist seen :
  pos + k = n → Threads pos clist → length seen = length P → older (stamp pos) seen →
  ∃ b, search P text (seq pos (k + 1)) (N.of_nat pos + 1) clist seen = Some b
    ∧ (b = true ↔ ∃ pos', pos ≤ pos' ∧ accepts_at pos').
Proof.
  revert pos clist seen. induction k as [|k IH]; intros pos clist seen Hk HT Hl Ho;
    cbn [Nat.add seq search]; rewrite next_stamp by lia.
  all: pose proof (marks_fresh (stamp pos) (pos + 1) seen Hl Ho) as HM.
  all: destruct (run_threads_spec (stamp pos) pos clist (λ _, False) [] seen)
    as [[-> (p & Hin & Hp)]|(lst & s & -> & H1 & H2 & H3 & H4)];
    [by intros p Hp; apply HT|done|by intros ? ? []|..].
  1, 3: exists true; split; [done|]; split; [|done]; intros _; exists pos; split; [lia|];
    exists p; split; [|done]; by apply HT.
  - rewrite (proj2 (Nat.eqb_eq pos n)) by lia. exists false. split; [done|]. split; [done|].
    intros (pos' & Hpos & p & Hr & Hp). assert (pos' = pos) as -> by (apply reach_lt in Hr; lia).
    destruct (H4 p); [|done]. apply HT. split; [done|]. by exists IMatch.
  - rewrite (proj2 (Nat.eqb_neq pos n)) by lia.
    destruct (IH (pos + 1) lst s) as (b & E & Hb).
    + lia.
    + eapply marks_threads; [exact HT|exact H1|]. eapply advanced_weaken; [|exact H3]. intros; by right.
    + by eapply marks_len.
    + replace (stamp (pos + 1)) with (stamp pos + 1)%N by (unfold stamp; lia). by eapply older_grows.
    + exists b. split.
      * rewrite <-E. replace (S pos) with (pos + 1) by lia. f_equal. unfold stamp. lia.
      * rewrite Hb. split; intros (pos' & Hpos & Ha); exists pos'; (split; [|done]); [lia|].
        destruct (decide (pos' = pos)) as [->|]; [|lia]. exfalso. destruct Ha as (p & Hr & Hp).
        destruct (H4 p); [|done]. apply HT. split; [done|]. by exists IMatch.
Qed.

(** The threads of position 0, from every start. *)
Lemma add_starts_spec sts lst seen :
  (∀ st, st ∈ sts → st ∈ starts) → Marks 1 0 [] lst seen →
  ∃ lst' seen', add_starts P sts n lst seen = Some (lst', seen')
    ∧ Marks 1 0 [] lst' seen' ∧ grows 1 seen seen' ∧ ∀ st, st ∈ sts → seen' !! st = Some 1%N.
Proof.
  revert lst seen. induction sts as [|st sts IH]; intros lst seen Hs HM.
  { exists lst, seen. split; [done|]. split; [done|]. split; [apply grows_refl|set_solver]. }
  destruct (add_thread_spec 1 0 st lst seen HM) as (l & s & E & H1 & H2 & H3).
  { exists st. split; [set_solver|done]. }
  destruct (IH l s) as (l' & s' & E' & H1' & H2' & H3'); [set_solver|done|].
  exists l', s'. cbn [add_starts]. rewrite E. split; [done|]. split; [done|]. split; [by eapply grows_trans|].
  intros x [->|Hx]%elem_of_cons; [by apply H2'|auto].
Qed.

Lemma starts_threads lst seen :
  Marks 1 0 [] lst seen → (∀ st, st ∈ starts → seen !! st = Some 1%N) → Threads 0 lst.
Proof.
  intros HM Hst p. rewrite (marks_lst _ _ _ _ _ HM).
  split; intros [Hp Hs]; split; try done; [eapply marks_sound; eauto|].
  enough (∀ k q, reach k q → k = 0 → seen !! q = Some 1%N) by eauto.
  apply (reach_ind (λ k q, k = 0 → seen !! q = Some 1%N)); [auto| |lia].
  intros k q q' Hr IH He ->. destruct (marks_closed _ _ _ _ _ HM q q' (IH eq_refl) He); [done|set_solver].
Qed.

Lemma start_marks : Marks 1 0 [] [] (replicate (length P) 0%N).
Proof.
  apply marks_fresh; [apply length_replicate|]. intros p g [-> _]%lookup_replicate. lia.
Qed.

(** *** Sets of patterns *)

Context (npat : nat).
Hypothesis ids_in : ∀ pc id, P !! pc = Some (IMatchN id) → id < npat.

Definition accepts_id (pos id : nat) : Prop := ∃ p, reach pos p ∧ P !! p = Some (IMatchN id).

Definition hits (hit : list bool) : nat := length (filter (λ h, h = true) hit).

Lemma hits_insert hit id : hit !! id = Some false → hits (<[id := true]> hit) = hits hit + 1.
Proof.
  unfold hits. revert id. induction hit as [|h hit IH]; intros [|id] Hid; try done;
    cbn [insert list_insert lookup list_lookup] in *.
  - injection Hid as ->. rewrite !filter_cons, decide_True, decide_False by done. cbn. lia.
  - rewrite !filter_cons. case_decide; cbn; rewrite IH by done; lia.
Qed.

Lemma hits_all hit id : hits hit = length hit → id < length hit → hit !! id = Some true.
Proof.
  unfold hits. revert id. induction hit as [|h hit IH]; intros id Hh Hid; [cbn in *; lia|]. cbn [length] in *.
  rewrite filter_cons in Hh. pose proof (length_filter (λ h, h = true) hit).
  case_decide; cbn [length] in Hh; [|lia]. destruct id; [by subst|]. apply IH; lia.
Qed.

Definition hits_ok (hit : list bool) (nhit : nat) : Prop := length hit = npat ∧ nhit = hits hit.

Lemma set_threads_spec gen pos clist done nlist seen hit nhit :
  (∀ p, p ∈ clist → reach pos p ∧ stops p) →
  Marks gen (pos + 1) [] nlist seen → advanced gen pos done seen → hits_ok hit nhit →
  ∃ lst seen' hit' nhit',
    set_threads P text gen pos clist nlist seen hit nhit = Some (lst, seen', hit', nhit')
    ∧ Marks gen (pos + 1) [] lst seen' ∧ grows gen seen seen'
    ∧ advanced gen pos (λ p, done p ∨ p ∈ clist) seen' ∧ hits_ok hit' nhit'
    ∧ ∀ id, hit' !! id = Some true ↔
        hit !! id = Some true ∨ ∃ p, p ∈ clist ∧ P !! p = Some (IMatchN id).
Proof.
  revert done nlist seen hit nhit.
  induction clist as [|pc clist IH]; intros done nlist seen hit nhit Hc HM Ha Hh.
  { exists nlist, seen, hit, nhit. split; [done|]. split; [done|]. split; [apply grows_refl|].
    split; [eapply advanced_weaken; [|done]; set_solver|]. split; [done|].
    intros id. split; [auto|]. intros [?|(p & ? & _)]; [done|set_solver]. }
  destruct (Hc pc) as [Hr (ins & Hp & Hst)]; [set_solver|]. cbn [set_threads]. rewrite Hp.
  assert (∀ p, p ∈ clist → reach pos p ∧ stops p) as Hc' by set_solver.
  assert (∀ lst s h k, Marks gen (pos + 1) [] lst s → grows gen seen s →
    advanced gen pos (λ p, done p ∨ p = pc) s → hits_ok h k →
    (∀ id, h !! id = Some true ↔ hit !! id = Some true ∨ P !! pc = Some (IMatchN id)) →
    ∃ lst' s' hit' nhit',
    set_threads P text gen pos clist lst s h k = Some (lst', s', hit', nhit')
    ∧ Marks gen (pos + 1) [] lst' s' ∧ grows gen seen s'
    ∧ advanced gen pos (λ p, done p ∨ p ∈ pc :: clist) s' ∧ hits_ok hit' nhit'
    ∧ ∀ id, hit' !! id = Some true ↔
        hit !! id = Some true ∨ ∃ p, p ∈ pc :: clist ∧ P !! p = Some (IMatchN id)) as Hgo.
  { intros lst s h k HM' Hg Ha' Hk Hid.
    destruct (IH _ lst s h k Hc' HM' Ha' Hk) as (l & s' & h' & k' & E & H1 & H2 & H3 & H4 & H5).
    exists l, s', h', k'. split; [done|]. split; [done|]. split; [by eapply grows_trans|].
    split; [eapply advanced_weaken; [|done]; set_solver|]. split; [done|].
    intros id. rewrite H5, Hid. setoid_rewrite elem_of_cons. naive_solver. }
  destruct (consumes ins text pos) eqn:Ec.
  { destruct (thread_step gen pos pc ins done nlist seen) as (l & s & E & H1 & H2 & H3); try done.
    destruct ins; try done; rewrite ?Ec, E; apply Hgo; try done; rewrite Hp; naive_solver. }
  assert (advanced gen pos (λ p, done p ∨ p = pc) seen) as Ha' by (by eapply thread_idle).
  assert ((∃ id, ins = IMatchN id) ∨ ∀ id, ins ≠ IMatchN id) as [[id ->]|Hne]
    by (destruct ins; naive_solver).
  2: { destruct ins; try done; rewrite ?Ec; try (apply Hgo; [done|apply grows_refl|done|done|];
         rewrite Hp; naive_solver). by destruct (Hne id). }
  pose proof (ids_in _ _ Hp) as Hlt. destruct Hh as [Hl Hk]. rewrite <-Hl in Hlt.
  destruct (lookup_lt_is_Some_2 hit id Hlt) as [h Hid]. rewrite Hid. destruct h.
  - apply Hgo; try done; [apply grows_refl|]. rewrite Hp. naive_solver.
  - apply Hgo; try done; [apply grows_refl|..].
    + split; [by rewrite length_insert|]. rewrite hits_insert by done. lia.
    + intros id'. rewrite Hp. destruct (decide (id' = id)) as [->|Hn].
      * rewrite list_lookup_insert_eq by done. naive_solver.
      * rewrite list_lookup_insert_ne by done. naive_solver.
Qed.

Lemma set_search_spec k pos clist seen hit nhit :
  pos + k = n → Threads pos clist → length seen = length P → older (stamp pos) seen →
  hits_ok hit nhit →
  ∃ hit', set_search P npat text (seq pos (k + 1)) (N.of_nat pos + 1) clist seen hit nhit = Some hit'
    ∧ length hit' = npat
    ∧ ∀ id, hit' !! id = Some true ↔
        hit !! id = Some true ∨ ∃ pos', pos ≤ pos' ∧ accepts_id pos' id.
Proof.
  revert pos clist seen hit nhit. induction k as [|k IH]; intros pos clist seen hit nhit Hk HT Hl Ho Hh;
    cbn [Nat.add seq set_search]; rewrite next_stamp by lia.
  all: pose proof (marks_fresh (stamp pos) (pos + 1) seen Hl Ho) as HM.
  all: destruct (set_threads_spec (stamp pos) pos clist (λ _, False) [] seen hit nhit)
    as (lst & s & h & nh & -> & H1 & H2 & H3 & [H4 H4'] & H5);
    [by intros p Hp; apply HT|done|by intros ? ? []|done|].
  all: assert (∀ id, (∃ p, p ∈ clist ∧ P !! p = Some (IMatchN id)) ↔ accepts_id pos id) as Hid
    by (intros id; unfold accepts_id; setoid_rewrite (HT _); split;
        [naive_solver|intros (p & ? & ?); exists p; split; [split; [done|by exists (IMatchN id)]|done]]).
  all: destruct (Nat.eqb nh npat) eqn:En.
  1, 3: apply Nat.eqb_eq in En; exists h; split; [done|]; split; [done|]; intros id;
    split; [rewrite H5, Hid; intros [?|?]; [by left|right; exists pos; split; [lia|done]]|];
    intros Hor; apply hits_all; [lia|]; rewrite H4; destruct Hor as [Hh'|(q & _ & p & _ & Hp)];
    [destruct Hh as [<- _]; by eapply lookup_lt_Some|by eapply ids_in].
  - rewrite (proj2 (Nat.eqb_eq pos n)) by lia. exists h. split; [done|]. split; [done|].
    intros id. rewrite H5, Hid. split; [intros [?|?]; [by left|right; exists pos; split; [lia|done]]|].
    intros [?|(q & Hq & Ha)]; [by left|right].
    assert (q = pos) as -> by (destruct Ha as (p & Hr & _); apply reach_lt in Hr; lia). done.
  - rewrite (proj2 (Nat.eqb_neq pos n)) by lia.
    destruct (IH (pos + 1) lst s h nh) as (h' & E & Hlh & Hb).
    + lia.
    + eapply marks_threads; [exact HT|exact H1|]. eapply advanced_weaken; [|exact H3]. intros; by right.
    + by eapply marks_len.
    + replace (stamp (pos + 1)) with (stamp pos + 1)%N by (unfold stamp; lia). by eapply older_grows.
    + done.
    + exists h'. split.
      { rewrite <-E. replace (S pos) with (pos + 1) by lia. f_equal. unfold stamp. lia. }
      split; [done|]. intros id. rewrite Hb, H5, Hid. split.
      * intros [[?|?]|(q & ? & ?)]; [by left|right; exists pos; split; [lia|done]|].
        right; exists q; split; [lia|done].
      * intros [?|(q & ? & ?)]; [by left; left|]. destruct (decide (q = pos)) as [->|].
        { by left; right. } right; exists q; split; [lia|done].
Qed.
End sim.
