(* ===== verification/RegexFacts.v ===== *)
(** * Regular expressions: correctness

    A compiled pattern matches a text exactly when the text has a match in the
    sense of [lang] that no newline precedes; compiling and matching never index
    out of range; a set of patterns reports exactly the patterns that match on
    their own; the parser's loops have enough fuel; and the cost of compiling is
    not bounded by the size limit. *)

From Stdlib Require Import Ascii Sorted.
From S2P Require Import Prelude RustStr Regex RegexCode RegexSim.

Local Open Scope stdpp_scope.

(** ** The parser *)

(** A parser never gives back more than it was given; an atom on a character
    consumes it. *)
Definition shrinks {A} (p : Parse A) : Prop := ∀ cs a r, p cs = inr (a, r) → length r ≤ length cs.
Definition bites {A} (p : Parse A) : Prop :=
  ∀ c cs a r, p (c :: cs) = inr (a, r) → length r ≤ length cs.
Definition builds (p : Parse Ast) : Prop := ∀ cs a r, p cs = inr (a, r) → wf_ast a.

Section parser.

Lemma eat_length c cs : length (eat c cs).2 ≤ length cs.
Proof. unfold eat. case_match; cbn; [rewrite length_drop|]; lia. Qed.

Lemma eat_true c cs r : eat c cs = (true, r) → length r < length cs.
Proof. unfold eat. destruct cs; cbn; [done|]. case_match; intros; simplify_eq. rewrite drop_0. cbn. lia. Qed.

Lemma take_digits_length cs : length (take_digits cs).2 ≤ length cs.
Proof. induction cs as [|c cs IH]; cbn; [lia|]. case_match; cbn; [|lia]. destruct (take_digits cs); cbn in *; lia. Qed.

Lemma parse_int_length cs : length (parse_int cs).2 ≤ length cs.
Proof.
  unfold parse_int. pose proof (take_digits_length cs). destruct (take_digits cs) as [d r]. cbn in *.
  case_match; cbn; lia.
Qed.

Lemma check_bound_Ok min max r b r' :
  check_bound min max r = inr (b, r') →
  r' = r ∧ b = Some (min, max) ∧ map_or True (λ mx, (min <= mx)%N) max.
Proof.
  unfold check_bound. do 2 (case_match; [done|]). intros; simplify_eq. split; [done|]. split; [done|].
  destruct max; cbn in *; [|done]. by apply N.ltb_ge.
Qed.

Lemma try_bound_Ok cs b r :
  try_bound cs = inr (b, r) →
  length r ≤ length cs ∧ ∀ min max, b = Some (min, max) → map_or True (λ mx, (min <= mx)%N) max.
Proof.
  unfold try_bound. pose proof (parse_int_length (drop 1 cs)) as Hl. rewrite length_drop in Hl.
  destruct (parse_int (drop 1 cs)) as [min r1]. cbn in Hl.
  assert (∀ b' r', @inr string _ (None, cs) = inr (b', r') → length r' ≤ length cs ∧
    ∀ mn mx, b' = Some (mn, mx) → map_or True (λ m, (mn <= m)%N) mx) as Hnone by naive_solver.
  destruct (peek r1) as [c|]; [|by apply Hnone].
  assert (∀ mn mx r2, length r2 ≤ length cs → check_bound mn mx r2 = inr (b, r) → length r ≤ length cs
    ∧ ∀ a b', b = Some (a, b') → map_or True (λ m, (a <= m)%N) b') as Hcheck.
  { intros mn mx r2 Hr2 (-> & -> & Hb)%check_bound_Ok. split; [done|]. by intros ? ? [= <- <-]. }
  pose proof (parse_int_length (drop 1 r1)) as Hl2. rewrite length_drop in Hl2.
  destruct (parse_int (drop 1 r1)) as [max r2]. cbn in Hl2.
  pose proof (eat_length "}" r2) as Hl3. destruct (eat "}" r2) as [cl r3]. cbn in Hl3.
  repeat case_match; try (by apply Hnone); apply Hcheck; rewrite ?length_drop; lia.
Qed.

Lemma class_range_Ok items lo hi r its r' : class_range items lo hi r = inr (its, r') → r' = r.
Proof. unfold class_range. case_match; intros; by simplify_eq. Qed.

Lemma class_maybe_range_shrinks items lo : shrinks (class_maybe_range items lo).
Proof.
  intros cs its r. unfold class_maybe_range. case_match; [|intros; by simplify_eq].
  assert (length (drop 1 cs) ≤ length cs) as Hd by (rewrite length_drop; lia). revert Hd.
  generalize (drop 1 cs). intros ds Hd. repeat case_match; try done; intros ->%class_range_Ok;
    cbn in *; lia.
Qed.

Lemma class_member_bites items : bites (class_member items).
Proof.
  intros c cs its r. unfold class_member.
  repeat case_match; intros H'; simplify_eq/=; try lia; apply class_maybe_range_shrinks in H'; cbn in *; lia.
Qed.

Lemma class_loop_shrinks fuel neg first items : shrinks (class_loop fuel neg first items).
Proof.
  revert first items. induction fuel as [|fuel IH]; intros first items cs a r H; cbn in H; [done|].
  destruct cs as [|c cs]; cbn in H; [done|]. case_match; [simplify_eq; rewrite drop_0; cbn; lia|].
  run_res. destruct x as [its r1]. apply class_member_bites in H. apply IH in H1. cbn. lia.
Qed.

Lemma class_loop_builds fuel neg first items : builds (class_loop fuel neg first items).
Proof.
  revert first items. induction fuel as [|fuel IH]; intros first items cs a r H; cbn in H; [done|].
  destruct (peek cs); [|done]. case_match; [simplify_eq; by constructor|].
  run_res. destruct x. by eapply IH.
Qed.

Lemma skip_flags_length cs : length (skip_flags cs) ≤ length cs.
Proof. induction cs as [|c cs IH]; cbn; [lia|]. case_match; cbn; lia. Qed.

Lemma parse_class_Ok cs a r : parse_class cs = inr (a, r) → length r ≤ length cs ∧ wf_ast a.
Proof.
  unfold parse_class. pose proof (eat_length "^" cs). destruct (eat "^" cs) as [b ds]. cbn [snd] in *.
  intros Hc. split; [apply class_loop_shrinks in Hc; lia|by eapply class_loop_builds].
Qed.

Lemma parse_escape_Ok cs a r : parse_escape cs = inr (a, r) → length r ≤ length cs ∧ wf_ast a.
Proof.
  destruct cs as [|c cs]; cbn; [done|]. intros; simplify_eq. cbn. split; [lia|].
  destruct (shorthand c); by constructor.
Qed.

Lemma parse_group_Ok inner cs a r :
  parse_group inner cs = inr (a, r) → shrinks inner →
  length r ≤ length cs ∧ ∃ ds r', inner ds = inr (a, r').
Proof.
  unfold parse_group. set (ds := if is_char (peek cs) "?" then _ else _).
  assert (length ds ≤ length cs).
  { unfold ds. case_match; [|lia]. pose proof (skip_flags_length (drop 1 cs)) as Hl.
    rewrite length_drop in Hl. lia. }
  intros H' Hi. run_res. destruct x as [a' r']. pose proof (eat_length ")" r').
  destruct (eat ")" r') as [cl r2]. cbn in *. destruct cl; simplify_eq.
  split; [apply Hi in H0; lia|]. eauto.
Qed.

Lemma parse_atom_Ok inner c cs a r :
  shrinks inner → builds inner → parse_atom inner (c :: cs) = inr (a, r) →
  length r ≤ length cs ∧ wf_ast a.
Proof.
  intros Hi Hb. cbn [parse_atom].
  repeat case_match; intros H'; simplify_eq/=; try (split; [lia|by constructor]);
    eauto using parse_class_Ok, parse_escape_Ok.
  apply parse_group_Ok in H' as (? & ds & r' & H'); [|done]. split; [done|by eapply Hb].
Qed.

Section sequences.
Context (atom : Parse Ast).
Hypothesis atom_Ok : ∀ c cs a r, atom (c :: cs) = inr (a, r) → length r ≤ length cs ∧ wf_ast a.

Lemma lazy_Ok x a r : lazy x = inr (a, r) → a = x.1 ∧ length r ≤ length x.2.
Proof. unfold lazy. intros; simplify_eq. split; [done|apply eat_length]. Qed.

Lemma parse_repeat_Ok c cs a r :
  parse_repeat atom (c :: cs) = inr (a, r) → length r ≤ length cs ∧ wf_ast a.
Proof.
  unfold parse_repeat. intros H. run_res. destruct x as [a' r']. apply atom_Ok in H as [Hl Hw].
  assert (∀ x, wf_ast x.1 → length x.2 ≤ length cs → lazy x = inr (a, r) → length r ≤ length cs ∧ wf_ast a) as Hz.
  { intros x ? ? [-> ?]%lazy_Ok. split; [lia|done]. }
  assert (@inr string _ (a', r') = inr (a, r) → length r ≤ length cs ∧ wf_ast a) as Hd by (intros; by simplify_eq).
  destruct (peek r') as [d|]; [|by apply Hd].
  assert (length (drop 1 r') ≤ length cs) by (rewrite length_drop; lia).
  repeat case_match; try (by apply Hd);
    try (eapply Hz; [| |eassumption]; [by constructor|done]).
  run_res. destruct x as [b' r2]. apply try_bound_Ok in H0 as [Hl2 Hb].
  destruct b' as [[mn mx]|]; [|simplify_eq; split; [lia|done]].
  eapply Hz; [| |eassumption]; [constructor; [done|by apply Hb]|cbn; lia].
Qed.

Lemma concat_loop_Ok fuel items cs v r :
  concat_loop atom fuel items cs = inr (v, r) → Forall wf_ast items →
  length r ≤ length cs ∧ Forall wf_ast v.
Proof.
  revert items cs. induction fuel as [|fuel IH]; intros items cs H Hi; cbn in H; [by simplify_eq|].
  destruct cs as [|c cs]; cbn in H; [by simplify_eq|]. case_match; [by simplify_eq|].
  run_res. destruct x as [a r']. apply parse_repeat_Ok in H as [Hl Hw].
  apply IH in H1 as [? ?]; [split; [cbn; lia|done]|]. apply Forall_app. auto.
Qed.

Lemma parse_concat_Ok cs a r : parse_concat atom cs = inr (a, r) → length r ≤ length cs ∧ wf_ast a.
Proof.
  unfold parse_concat. intros H. run_res. destruct x as [items r'].
  apply concat_loop_Ok in H as [Hl Hw]; [|done]. simplify_eq. split; [done|].
  destruct items as [|x [|y items]]; [by apply wf_leaf|by eapply Forall_inv; eassumption|by apply wf_concat].
Qed.

Lemma alt_loop_Ok fuel alts cs v r :
  alt_loop atom fuel alts cs = inr (v, r) → Forall wf_ast alts →
  length r ≤ length cs ∧ Forall wf_ast v ∧ length alts ≤ length v.
Proof.
  revert alts cs. induction fuel as [|fuel IH]; intros alts cs H Ha; [cbn in H; by simplify_eq|].
  cbn [alt_loop] in H. pose proof (eat_length "|" cs) as Hl. destruct (eat "|" cs) as [[] r1]; [|by simplify_eq].
  cbn in Hl. run_res. destruct x as [a r2]. apply parse_concat_Ok in H as [Hl2 Hw].
  apply IH in H0 as (? & ? & Hle); [|by apply Forall_app; auto]. rewrite length_app in Hle. cbn in Hle.
  split; [lia|]. split; [done|lia].
Qed.

Lemma parse_alt_with_Ok cs a r : parse_alt_with atom cs = inr (a, r) → length r ≤ length cs ∧ wf_ast a.
Proof.
  unfold parse_alt_with. intros H. run_res. destruct x as [a' r1].
  apply parse_concat_Ok in H as [Hl Hw]. run_res. destruct x as [alts r2].
  apply alt_loop_Ok in H as (Hl2 & Hws & Hn); [|by constructor]. simplify_eq. split; [lia|].
  destruct alts as [|x [|y alts]]; [cbn in Hn; lia|by eapply Forall_inv; eassumption|].
  by apply wf_alt.
Qed.

(** The fuel of the loops is enough: any larger amount gives the same result. *)
Lemma concat_loop_fuel f f' items cs :
  length cs < f → length cs < f' → concat_loop atom f items cs = concat_loop atom f' items cs.
Proof.
  revert f' items cs. induction f as [|f IH]; intros [|f'] items cs Hf Hf'; try lia.
  cbn. destruct cs as [|c cs]; cbn in *; [done|]. case_match; [done|].
  destruct (parse_repeat atom (c :: cs)) as [e|[a r]] eqn:E; cbn; [done|].
  apply parse_repeat_Ok in E as [? _]. apply IH; lia.
Qed.

Lemma alt_loop_fuel f f' alts cs :
  length cs < f → length cs < f' → alt_loop atom f alts cs = alt_loop atom f' alts cs.
Proof.
  revert f' alts cs. induction f as [|f IH]; intros [|f'] alts cs Hf Hf'; try lia.
  cbn [alt_loop]. destruct (eat "|" cs) as [[] r1] eqn:Ee; [|done]. apply eat_true in Ee.
  destruct (parse_concat atom r1) as [e|[a r]] eqn:E; cbn; [done|].
  apply parse_concat_Ok in E as [? _]. apply IH; lia.
Qed.
End sequences.

Lemma class_loop_fuel f f' neg first items cs :
  length cs < f → length cs < f' → class_loop f neg first items cs = class_loop f' neg first items cs.
Proof.
  revert f' first items cs. induction f as [|f IH]; intros [|f'] first items cs Hf Hf'; try lia.
  cbn [class_loop]. destruct cs as [|c cs]; [done|]. cbn [peek head]. case_match; [done|].
  destruct (class_member items (c :: cs)) as [e|[a r]] eqn:E; cbn; [done|].
  apply class_member_bites in E. cbn in *. apply IH; lia.
Qed.

Lemma parse_alt_Ok levels cs a r : parse_alt levels cs = inr (a, r) → length r ≤ length cs ∧ wf_ast a.
Proof.
  revert cs a r. induction levels as [|l IH]; intros cs a r; cbn [parse_alt]; apply parse_alt_with_Ok.
  - done.
  - intros c ds b s. apply parse_atom_Ok; intros ? ? ? [? ?]%IH; done.
Qed.

Lemma parse_pattern_wf pattern ast : parse_pattern pattern = inr ast → wf_ast ast.
Proof.
  unfold parse_pattern. intros H. run_res. destruct x as [a r]. apply parse_alt_Ok in H as [_ Hw].
  destruct r; by simplify_eq.
Qed.
End parser.

(** ** One pattern *)

(** A pattern is found where a match starts that no newline precedes: the
    search reaches its start with [.*], and a dot does not match a newline. *)
Definition found (text : list string) (ast : Ast) : Prop :=
  ∃ i j, i ≤ length text ∧ (∀ k, k < i → text !! k ≠ Some NEWLINE) ∧ lang text ast i j.

Definition plain (i : Inst) : Prop := match i with IMatch | IMatchN _ => False | _ => True end.

Section one.

Lemma seq_plain gs b : Forall (λ g : Code, ∀ b, Forall plain (g b)) gs → Forall plain (seqc gs b).
Proof. intros H. revert b. induction H as [|g gs Hg _ IH]; intros b; cbn; [done|]. apply Forall_app. auto. Qed.

Lemma alt_plain gs b : Forall (λ g : Code, ∀ b, Forall plain (g b)) gs → Forall plain (altc gs b).
Proof.
  intros H. revert b. induction H as [|g gs Hg Hgs IH]; intros b; [done|].
  destruct gs as [|g' gs]; [apply Hg|].
  change (altc (g :: g' :: gs) b) with (let c := g (b + 1) in
      let rest := altc (g' :: gs) (b + length c + 2) in
      ISplit (b + 1) (b + length c + 2) :: c ++ IJmp (b + length c + 2 + length rest) :: rest).
  cbv zeta. constructor; [done|]. apply Forall_app. split; [done|]. by constructor.
Qed.

Lemma code_plain a : wf_ast a → ∀ b, Forall plain (code a b).
Proof.
  induction 1 as [a Ha|v Hf|a v Hf|a IH|a IH|a IH|a min max IH _] using wf_ast_ind'; intros b; cbn.
  - destruct a; try done; by repeat constructor.
  - by apply seq_plain, Forall_fmap.
  - by apply (alt_plain (map code (a :: v))), Forall_fmap.
  - constructor; [done|]. apply Forall_app. split; [done|by repeat constructor].
  - apply Forall_app. split; [done|by repeat constructor].
  - by constructor.
  - apply seq_plain, Forall_app. split; [by apply Forall_replicate|]. destruct max.
    + apply Forall_replicate. intros b'. by constructor.
    + constructor; [|done]. intros b'. constructor; [done|]. apply Forall_app.
      split; [done|by repeat constructor].
Qed.

(** The program of a pattern: an unanchored search, then the pattern. *)
Definition searching (ast : Ast) : Ast := AConcat [AStar AAny; ast].

Lemma regex_new_code pattern re :
  regex_new pattern = inr re →
  ∃ ast, parse_pattern pattern = inr ast ∧ wf_ast ast ∧ re = code (searching ast) 0 ++ [IMatch].
Proof.
  unfold regex_new. intros H. run_res. exists x. pose proof (parse_pattern_wf _ _ H) as Hw.
  split; [done|]. split; [done|]. apply compile_emits in H0; [|done]. subst x0. cbn.
  by rewrite app_nil_r.
Qed.

Lemma searching_wf ast : wf_ast ast → wf_ast (searching ast).
Proof. intros Hw. apply wf_concat. constructor; [|by constructor]. by apply wf_star, wf_leaf. Qed.

Definition closed (P : Prog) : Prop :=
  ∀ pc ins x, P !! pc = Some ins → x ∈ targets ins pc → x < length P.

Lemma program_closed a : wf_ast a → closed (code a 0 ++ [IMatch]).
Proof.
  intros Hw pc ins x Hp Hx. rewrite length_app. cbn.
  apply lookup_app_Some in Hp as [Hp|[_ [_ <-]%list_lookup_singleton_Some]]; [|set_solver].
  pose proof (code_contained a Hw 0 pc ins x Hp Hx). lia.
Qed.

Lemma regex_new_closed pattern re : regex_new pattern = inr re → closed re ∧ 0 < length re.
Proof.
  intros (ast & _ & Hw & ->)%regex_new_code. split; [apply program_closed; by apply searching_wf|].
  rewrite length_app. cbn [length]. lia.
Qed.

Lemma skip_lang text i :
  rtc (lang text AAny) 0 i ↔ i ≤ length text ∧ ∀ k, k < i → text !! k ≠ Some NEWLINE.
Proof.
  split.
  - intros H. assert (∀ x, rtc (lang text AAny) 0 x →
      x ≤ length text ∧ ∀ k, k < x → text !! k ≠ Some NEWLINE) as Hx; [|by apply Hx].
    apply rtc_ind_r; [split; [lia|intros; lia]|]. intros y z _ [-> Hr] [IH1 IH2].
    apply map_or_true in Hr as (c & Hc & Hn). split; [apply lookup_lt_Some in Hc; lia|].
    intros k Hk. destruct (decide (k = y)) as [->|]; [|apply IH2; lia].
    intros E. rewrite E in Hc. injection Hc as <-. by rewrite String.eqb_refl in Hn.
  - induction i as [|i IH]; intros [Hi Hn]; [done|].
    eapply rtc_r; [apply IH; split; [lia|intros; apply Hn; lia]|].
    split; [lia|]. destruct (lookup_lt_is_Some_2 text i) as [c Hc]; [lia|]. rewrite Hc. cbn.
    apply negb_true_iff, String.eqb_neq. intros ->. apply (Hn i); [lia|done].
Qed.

Lemma accepts_found text ast :
  wf_ast ast →
  (∃ pos, accepts_at (code (searching ast) 0 ++ [IMatch]) text [0] pos) ↔ found text ast.
Proof.
  intros Hw. pose proof (searching_wf _ Hw) as Hws. set (c := code (searching ast) 0).
  assert (code_at (c ++ [IMatch]) 0 (code (searching ast) 0)) as Hc
    by (intros k ins Hk; by apply lookup_app_l_Some).
  destruct (code_block text _ Hws _ 0 Hc) as [C S]. fold c in C, S. cbn [Nat.add] in *.
  assert (∀ i j, lang text (searching ast) i j ↔ ∃ m, rtc (lang text AAny) i m ∧ lang text ast m j) as Hl.
  { intros i j. cbn. unfold rel_comp. naive_solver. }
  unfold found. split.
  - intros (pos & p & (st & ->%list_elem_of_singleton & Hr) & Hp).
    apply lookup_app_Some in Hp as [Hp|[Hle [Hp _]%list_lookup_singleton_Some]].
    { by pose proof (proj1 (Forall_lookup _ _) (code_plain _ Hws 0) _ _ Hp). }
    apply rtc_nsteps in Hr as [m Hm]. destruct (S _ _ _ _ Hm) as (m' & j & _ & HL & _); [lia|].
    apply Hl in HL as (i & [Hi Hn]%skip_lang & HL). eauto.
  - intros (i & j & Hi & Hn & HL). exists j, (length c). split.
    + exists 0. split; [set_solver|]. apply C, Hl. exists i. split; [by apply skip_lang|done].
    + rewrite lookup_app_r, Nat.sub_diag by lia. done.
Qed.

Lemma is_match_accepts P text :
  closed P → 0 < length P → (N.of_nat (length text) + 2 <= u32_max)%N →
  ∃ b, is_match_chars P text = Some b ∧ (b = true ↔ ∃ pos, accepts_at P text [0] pos).
Proof.
  intros Hc H0 Hlen. assert (∀ st, st ∈ [0] → st < length P) as Hst by set_solver.
  destruct (add_starts_spec P text [0] Hc Hst Hlen [0] [] (replicate (length P) 0%N))
    as (l & s & E & HM & Hg & Hs); [done|by apply start_marks|].
  unfold is_match_chars. cbn [add_starts] in E.
  destruct (add_thread P [] _ 1 0 0 (length text)) as [[l' s']|]; [|done]. injection E as -> ->.
  destruct (search_spec P text [0] Hc Hst Hlen (length text) 0 l s) as (b & E & Hb).
  - done.
  - by eapply starts_threads.
  - by eapply marks_len.
  - intros p g [->|[-> _]%lookup_replicate]%Hg; unfold stamp; lia.
  - exists b. split; [done|]. rewrite Hb. split; intros (pos & H); [destruct H; eauto|].
    exists pos. split; [lia|done].
Qed.

(** C26: A compiled pattern matches a text exactly when the text has a match of the
    pattern's syntax tree, reached by the implicit leading [.*]; the simulation always
    returns. *)
Theorem regex_match_correct pattern re text :
  regex_new pattern = inr re → (N.of_nat (length (chars text)) + 2 <= u32_max)%N →
  ∃ ast b, parse_pattern pattern = inr ast ∧ is_match re text = Some b
    ∧ (b = true ↔ found (chars text) ast).
Proof.
  intros Hre Hlen. destruct (regex_new_closed _ _ Hre) as [Hc H0].
  apply regex_new_code in Hre as (ast & Hp & Hw & ->).
  destruct (is_match_accepts _ (chars text) Hc H0 Hlen) as (b & E & Hb).
  exists ast, b. split; [done|]. split; [done|]. rewrite Hb. by apply accepts_found.
Qed.

Lemma regex_match_correct_witness :
  ∃ ast b, parse_pattern "^(a+|b)c$" = inr ast
    ∧ is_match [ISplit 1 3; IAny; IJmp 0; IStart; ISplit 5 8; IChar "a"; ISplit 5 7; IJmp 9;
                IChar "b"; IChar "c"; IEnd; IMatch] "aac" = Some b
    ∧ (b = true ↔ found (chars "aac") ast).
Proof.
  assert (regex_new "^(a+|b)c$" = inr [ISplit 1 3; IAny; IJmp 0; IStart; ISplit 5 8; IChar "a";
    ISplit 5 7; IJmp 9; IChar "b"; IChar "c"; IEnd; IMatch]) as E by (vm_compute; reflexivity).
  assert (N.of_nat (length (chars "aac")) + 2 <= u32_max)%N as L by (vm_compute; discriminate).
  destruct (regex_match_correct "^(a+|b)c$" _ "aac" E L) as (ast & b & H1 & H2 & H3).
  exists ast, b. exact (conj H1 (conj H2 H3)).
Defined.
End one.

(** ** Sets of patterns *)

Section relocation.
Context (text : list string) (P Q : Prog) (b id : nat).
Hypothesis Q_closed : closed Q.
Hypothesis Q_at : code_at P b (map (λ i, relocate i b id) Q).

Lemma relocate_at pc ins : Q !! pc = Some ins → P !! (b + pc) = Some (relocate ins b id).
Proof. intros Hp. apply Q_at. by rewrite list_lookup_fmap, Hp. Qed.

Lemma relocate_eps ins pc pos n next :
  eps_next ins pc pos n = Some next →
  eps_next (relocate ins b id) (b + pc) pos n = Some (map (λ x, b + x) next).
Proof.
  destruct ins; cbn; intros; simplify_eq; cbn; try done;
    [by rewrite (Nat.add_comm x), (Nat.add_comm y)|by rewrite (Nat.add_comm x)|..];
    case_match; cbn; by rewrite ?Nat.add_assoc.
Qed.

Lemma relocate_eps_inv ins pc pos n next :
  eps_next (relocate ins b id) (b + pc) pos n = Some next →
  ∃ next', eps_next ins pc pos n = Some next' ∧ next = map (λ x, b + x) next'.
Proof.
  intros H. destruct (eps_next ins pc pos n) as [nx|] eqn:E.
  - exists nx. split; [done|]. rewrite (relocate_eps _ _ _ _ _ E) in H. by simplify_eq.
  - exfalso. by destruct ins.
Qed.

Lemma relocate_consumes ins pos : consumes (relocate ins b id) text pos = consumes ins text pos.
Proof. by destruct ins. Qed.

(** Threads started in the block run as they run in the pattern's own program. *)
Lemma relocate_fwd x y :
  rtc (step text Q) x y → rtc (step text P) (b + x.1, x.2) (b + y.1, y.2).
Proof.
  induction 1 as [|x y z Hs _ IH]; [done|]. eapply rtc_l; [|exact IH].
  inversion Hs as [pc i ins nx pc' Hp He Hin|pc i ins Hp Hc]; subst; cbn.
  - eapply step_eps; [by apply relocate_at|by apply relocate_eps|]. by apply list_elem_of_fmap_2.
  - rewrite Nat.add_assoc. eapply step_read; [by apply relocate_at|by rewrite relocate_consumes].
Qed.

Lemma relocate_bwd pc i y :
  rtc (step text P) (b + pc, i) y → pc < length Q →
  ∃ pc', y.1 = b + pc' ∧ pc' < length Q ∧ rtc (step text Q) (pc, i) (pc', y.2).
Proof.
  intros Hr. remember (b + pc, i) as x eqn:Ex. revert pc i Ex.
  induction Hr as [x|x y z Hs _ IH]; intros pc i -> Hpc; [by exists pc|].
  destruct (lookup_lt_is_Some_2 Q pc Hpc) as [ins Hp]. pose proof (relocate_at _ _ Hp) as HP.
  inversion Hs as [? ? ins' nx pc' Hp' He Hin|? ? ins' Hp' Hc]; simplify_eq.
  - apply relocate_eps_inv in He as (nx' & He & ->). apply list_elem_of_fmap in Hin as (q & -> & Hin).
    assert (q < length Q) as Hq by (eapply Q_closed; [exact Hp|by eapply eps_next_targets]).
    destruct (IH q i eq_refl Hq) as (r & ? & ? & ?). exists r. split; [done|]. split; [done|].
    eapply rtc_l; [by eapply step_eps|done].
  - rewrite relocate_consumes in Hc.
    assert (pc + 1 < length Q) as Hq by (eapply Q_closed; [exact Hp|by eapply consumes_targets]).
    destruct (IH (pc + 1) (i + 1)) as (r & ? & ? & ?); [f_equal; lia|done|].
    exists r. split; [done|]. split; [done|]. eapply rtc_l; [by eapply step_read|done].
Qed.
End relocation.

(** The layout of a set's program: pattern [k] sits at its start, relocated. *)
Definition placed (P : Prog) (b id : nat) (re : Prog) : Prop :=
  code_at P b (map (λ i, relocate i b id) re) ∧ b + length re ≤ length P.

Section layout.

Lemma placed_app P P' b id re : placed P b id re → placed (P ++ P') b id re.
Proof.
  intros [Hc Hl]. split; [|rewrite length_app; lia].
  intros k ins Hk. apply lookup_app_l_Some. by apply Hc.
Qed.

Lemma set_add_prefix pats id prog starts prog' starts' :
  set_add pats id prog starts = inr (prog', starts') → ∃ ext sts, prog' = prog ++ ext ∧ starts' = starts ++ sts.
Proof.
  revert id prog starts. induction pats as [|pat pats IH]; intros id prog starts H; cbn in H.
  { simplify_eq. exists [], []. by rewrite !app_nil_r. }
  run_res. case_match; [done|]. apply IH in H0 as (ext & sts & -> & ->).
  rewrite <-!app_assoc. eauto.
Qed.

(** Every instruction of the program comes from a pattern, every pattern is
    placed at its start. *)
Lemma set_add_layout pats id prog starts prog' starts' :
  set_add pats id prog starts = inr (prog', starts') →
  length starts' = length starts + length pats
  ∧ (∀ k pat, pats !! k = Some pat → ∃ re b, regex_new pat = inr re
       ∧ starts' !! (length starts + k) = Some b ∧ placed prog' b (id + k) re)
  ∧ (∀ pc ins, prog' !! pc = Some ins → pc < length prog ∨
       ∃ k pat re b off i, pats !! k = Some pat ∧ regex_new pat = inr re ∧ placed prog' b (id + k) re
         ∧ pc = b + off ∧ re !! off = Some i ∧ ins = relocate i b (id + k)).
Proof.
  revert id prog starts. induction pats as [|pat pats IH]; intros id prog starts H; cbn [set_add] in H.
  { simplify_eq. split; [cbn; lia|]. split; [done|]. intros pc ins Hp. left. by eapply lookup_lt_Some. }
  run_res. case_match; [done|]. pose proof (set_add_prefix _ _ _ _ _ _ H0) as (ext & sts & -> & ->).
  apply IH in H0 as (Hlen & Hpl & Hall). rename x into re.
  set (blk := map (λ i, relocate i (length prog) id) re) in *.
  assert (placed ((prog ++ blk) ++ ext) (length prog) id re) as Hhere.
  { apply placed_app. split; [|rewrite length_app; unfold blk; rewrite length_map; lia].
    intros k ins Hk. rewrite lookup_app_r by lia. by replace (length prog + k - length prog) with k by lia. }
  rewrite !length_app in Hlen, Hpl. cbn in Hlen.
  split; [rewrite !length_app; cbn; lia|]. split.
  - intros [|k] q Hq; [cbn in Hq; simplify_eq; exists re, (length prog)|].
    { split; [done|]. rewrite !Nat.add_0_r. split; [|done].
      rewrite <-app_assoc, lookup_app_r, Nat.sub_diag by lia. done. }
    destruct (Hpl k q Hq) as (re' & b & ? & Hs & Hp). exists re', b. split; [done|].
    replace (length starts + S k) with (length starts + length [length prog] + k) by (cbn; lia).
    replace (id + S k) with (S id + k) by lia. done.
  - intros pc ins Hp. destruct (Hall pc ins Hp) as [Hlt|(k & q & re' & b & off & i & Hq & ? & ? & ? & ? & ?)].
    + rewrite length_app in Hlt. unfold blk in Hlt. rewrite length_map in Hlt.
      destruct (decide (pc < length prog)); [by left|right].
      destruct (lookup_lt_is_Some_2 re (pc - length prog)) as [i Hi]; [lia|].
      exists 0, pat, re, (length prog), (pc - length prog), i. rewrite Nat.add_0_r.
      split; [done|]. split; [done|]. split; [done|]. split; [lia|]. split; [done|].
      destruct Hhere as [Hc _]. specialize (Hc (pc - length prog) (relocate i (length prog) id)).
      rewrite list_lookup_fmap, Hi in Hc. specialize (Hc eq_refl).
      replace (length prog + (pc - length prog)) with pc in Hc by lia. congruence.
    + right. exists (S k), q, re', b, off, i. by rewrite Nat.add_succ_r.
Qed.

Lemma relocate_match i b id id' : relocate i b id = IMatchN id' → id' = id ∧ (i = IMatch ∨ ∃ m, i = IMatchN m).
Proof. destruct i; cbn; intros; simplify_eq; eauto. Qed.

Lemma regex_new_match pattern re pc i :
  regex_new pattern = inr re → re !! pc = Some i → i = IMatch ∨ plain i.
Proof.
  intros (ast & _ & Hw & ->)%regex_new_code. intros [Hp|[_ [_ <-]%list_lookup_singleton_Some]]%lookup_app_Some.
  - right. by apply (proj1 (Forall_lookup _ _) (code_plain _ (searching_wf _ Hw) 0) _ _ Hp).
  - by left.
Qed.
End layout.

(** The hits, in ascending order. *)
Lemma elem_of_hit_ids hit k : k ∈ hit_ids hit ↔ hit !! k = Some true.
Proof.
  unfold hit_ids. rewrite list_elem_of_fmap. split.
  - intros ([k' h] & -> & [-> Hin]%list_elem_of_filter).
    apply elem_of_lookup_imap in Hin as (i & x & [= -> ->] & H). done.
  - intros Hk. exists (k, true). split; [done|]. apply list_elem_of_filter. split; [done|].
    apply elem_of_lookup_imap. eauto.
Qed.

Lemma hit_ids_sorted_from (l : list bool) d :
  StronglySorted lt (map fst (filter (λ '(_, h), h = true) (imap (λ k h, (d + k, h)) l)))
  ∧ Forall (λ x, d ≤ x) (map fst (filter (λ '(_, h), h = true) (imap (λ k h, (d + k, h)) l))).
Proof.
  revert d. induction l as [|h l IH]; intros d; [by repeat constructor|]. cbn [imap].
  destruct (IH (S d)) as [IH1 IH2].
  assert (imap ((λ k h, (d + k, h)) ∘ S) l = imap (λ k h, (S d + k, h)) l) as ->
    by (apply imap_ext; intros k x _; cbn; f_equal; lia).
  rewrite filter_cons. case_decide; cbn [map fst]; rewrite ?Nat.add_0_r.
  - split; constructor; try done; (eapply Forall_impl; [exact IH2|]); cbn; lia.
  - split; [done|]. eapply Forall_impl; [exact IH2|]. cbn. lia.
Qed.

Lemma hit_ids_sorted hit : StronglySorted lt (hit_ids hit).
Proof. apply (hit_ids_sorted_from hit 0). Qed.

Lemma relocate_targets i b id off :
  targets (relocate i b id) (b + off) = map (λ x, b + x) (targets i off).
Proof. destruct i as [| | |x y|x| | | |]; cbn; rewrite ?Nat.add_assoc, ?(Nat.add_comm b x); try done. by rewrite (Nat.add_comm y). Qed.

Section sets.
Context (patterns : list string) (P : Prog) (starts : list nat) (text : list string).
Hypothesis added : set_add patterns 0 [] [] = inr (P, starts).

Lemma set_layout :
  length starts = length patterns
  ∧ (∀ k pat, patterns !! k = Some pat → ∃ re b, regex_new pat = inr re
       ∧ starts !! k = Some b ∧ placed P b k re)
  ∧ (∀ pc ins, P !! pc = Some ins →
       ∃ k pat re b off i, patterns !! k = Some pat ∧ regex_new pat = inr re ∧ placed P b k re
         ∧ pc = b + off ∧ re !! off = Some i ∧ ins = relocate i b k).
Proof.
  apply set_add_layout in added as (Hl & Hp & Ha). cbn in Hl, Hp, Ha. split; [done|]. split; [done|].
  intros pc ins [?|H]%Ha; [lia|done].
Qed.

Lemma set_closed : closed P.
Proof.
  intros pc ins x Hp Hx. destruct set_layout as (_ & _ & Ha).
  destruct (Ha pc ins Hp) as (k & pat & re & b & off & i & _ & Hre & [_ Hb] & -> & Hi & ->).
  rewrite relocate_targets in Hx. apply list_elem_of_fmap in Hx as (y & -> & Hy).
  apply regex_new_closed in Hre as [Hc _]. specialize (Hc _ _ _ Hi Hy). lia.
Qed.

Lemma set_starts_in st : st ∈ starts → st < length P.
Proof.
  intros [k Hk]%list_elem_of_lookup. destruct set_layout as (Hl & Hp & _).
  destruct (lookup_lt_is_Some_2 patterns k) as [pat Hpat].
  { rewrite <-Hl. by eapply lookup_lt_Some. }
  destruct (Hp k pat Hpat) as (re & b & Hre & Hb & [_ ?]). apply regex_new_closed in Hre as [_ ?].
  simplify_eq. lia.
Qed.

Lemma set_ids_in pc id : P !! pc = Some (IMatchN id) → id < length patterns.
Proof.
  intros Hp. destruct set_layout as (_ & _ & Ha).
  destruct (Ha _ _ Hp) as (k & pat & re & b & off & i & Hpat & _ & _ & _ & _ & E).
  symmetry in E. apply relocate_match in E as [-> _]. by eapply lookup_lt_Some.
Qed.

(** Pattern [k] is accepted in the set exactly when it is on its own. *)
Lemma set_accepts k pat re pos :
  patterns !! k = Some pat → regex_new pat = inr re →
  accepts_id P text starts pos k ↔ accepts_at re text [0] pos.
Proof.
  intros Hk Hre. destruct set_layout as (Hl & Hp & Ha).
  destruct (Hp k pat Hk) as (re0 & b & Hre0 & Hb & [Hat Hle]).
  assert (re0 = re) as -> by congruence. clear Hre0.
  destruct (regex_new_closed _ _ Hre) as [Hc H0]. split.
  - intros (p & (st & [k' Hst]%list_elem_of_lookup & Hr) & Hm).
    destruct (lookup_lt_is_Some_2 patterns k') as [pat' Hpat'].
    { rewrite <-Hl. by eapply lookup_lt_Some. }
    destruct (Hp k' pat' Hpat') as (re' & b' & Hre' & Hb' & [Hat' Hle']).
    assert (st = b') as -> by congruence.
    destruct (regex_new_closed _ _ Hre') as [Hc' H0'].
    replace (b', 0) with (b' + 0, 0) in Hr by (f_equal; lia).
    destruct (relocate_bwd text P re' b' k' Hc' Hat' 0 0 _ Hr H0') as (q & Eq & Hq & Hrq). cbn in Eq, Hrq.
    subst p. destruct (lookup_lt_is_Some_2 re' q Hq) as [i Hi].
    rewrite (relocate_at P re' b' k' Hat' q i Hi) in Hm. injection Hm as Hm.
    apply relocate_match in Hm as [<- Hi']. assert (re' = re) as -> by congruence. exists q. split; [exists 0; split; [set_solver|done]|].
    destruct (regex_new_match _ _ _ _ Hre Hi) as [->|Hpl]; [done|].
    destruct Hi' as [->|[m ->]]; done.
  - intros (p & (st & ->%list_elem_of_singleton & Hr) & Hm). exists (b + p). split.
    + exists b. split; [by eapply list_elem_of_lookup_2|].
      apply (relocate_fwd text P re b k Hat) in Hr. cbn in Hr. by rewrite Nat.add_0_r in Hr.
    + by rewrite (relocate_at P re b k Hat p _ Hm).
Qed.
End sets.

(** A set of patterns reports, in ascending order, exactly the patterns whose own
    program matches. *)
Lemma set_matches_spec patterns rs text :
  set_new patterns = inr rs → (N.of_nat (length (chars text)) + 2 <= u32_max)%N →
  ∃ res, set_matches rs text = Some res ∧ StronglySorted lt res
    ∧ ∀ k, k ∈ res ↔ ∃ pat re, patterns !! k = Some pat ∧ regex_new pat = inr re
                       ∧ is_match re text = Some true.
Proof.
  unfold set_new. intros H Hlen. run_res. destruct x as [P starts]. simplify_eq.
  unfold set_matches, set_matches_chars. cbn [rs_npat rs_prog rs_starts]. set (t := chars text) in *.
  destruct (Nat.eqb (length patterns) 0) eqn:E0.
  { apply Nat.eqb_eq, nil_length_inv in E0 as ->. exists []. split; [done|]. split; [constructor|].
    intros k. split; [set_solver|]. by intros (? & ? & ? & _). }
  pose proof (set_closed _ _ _ H) as Hc. pose proof (set_starts_in _ _ _ H) as Hs.
  destruct (add_starts_spec P t starts Hc Hs Hlen starts [] (replicate (length P) 0%N))
    as (l & s & -> & HM & Hg & Hst); [done|by apply start_marks|].
  destruct (set_search_spec P t starts Hc Hs Hlen (length patterns) (set_ids_in _ _ _ H) (length t) 0 l s
    (replicate (length patterns) false) 0) as (hit & E & Hl & Hhit).
  - done.
  - by eapply starts_threads.
  - by eapply marks_len.
  - intros p g [->|[-> _]%lookup_replicate]%Hg; unfold stamp; lia.
  - split; [apply length_replicate|]. unfold hits. clear. by induction (length patterns).
  - exists (hit_ids hit). change (N.of_nat 0 + 1)%N with 1%N in E. rewrite E. split; [done|].
    split; [apply hit_ids_sorted|]. intros k. rewrite elem_of_hit_ids, Hhit. split.
    + intros [[? _]%lookup_replicate|(pos & _ & Ha)]; [done|].
      destruct (lookup_lt_is_Some_2 patterns k) as [pat Hk].
      { destruct Ha as (p & _ & Hp). by eapply set_ids_in. }
      destruct (set_layout _ _ _ H) as (_ & Hpl & _). destruct (Hpl k pat Hk) as (re & b & Hre & _).
      exists pat, re. split; [done|]. split; [done|]. destruct (regex_new_closed _ _ Hre) as [Hcr H0r].
      destruct (is_match_accepts re t Hcr H0r Hlen) as (b' & Eb & Hb). unfold is_match. fold t. rewrite Eb.
      f_equal. apply Hb. exists pos. by eapply (set_accepts _ _ _ t H).
    + intros (pat & re & Hk & Hre & Hm). right. destruct (regex_new_closed _ _ Hre) as [Hcr H0r].
      destruct (is_match_accepts re t Hcr H0r Hlen) as (b' & Eb & Hb).
      unfold is_match in Hm. fold t in Hm. rewrite Hm in Eb. injection Eb as <-.
      destruct (proj1 Hb eq_refl) as [pos Ha]. exists pos. split; [lia|]. by eapply set_accepts.
Qed.

(** ** The cost of compiling *)

(** The number of calls of [compile] that a successful [compile] makes. *)
Fixpoint compile_calls (a : Ast) : N :=
  1 + match a with
      | AConcat v | AAlt v => foldr N.add 0 (map compile_calls v)
      | AStar a | APlus a | AQuest a => compile_calls a
      | ARepeat a min max =>
          min * compile_calls a
          + match max with
            | None => 1 + compile_calls a
            | Some mx => (mx - min) * (1 + compile_calls a)
            end
      | _ => 0
      end%N.

Fixpoint nested (k : nat) : Ast :=
  match k with O => AEmpty | S k => ARepeat (nested k) 1000 (Some 1000)%N end.

Lemma nested_compiles k p : too_large p = false → compile (nested k) p = inr p.
Proof.
  intros Hp. induction k as [|k IH]; cbn [nested compile]; unfold sized; rewrite Hp; cbn [res_bind];
    rewrite ?Hp; [done|].
  assert (∀ n, emit_all (replicate n (compile (nested k))) p = inr p) as E.
  { induction n as [|n IHn]; cbn; [done|]. by rewrite IH. }
  change (N.to_nat (1000 - 1000)) with 0. rewrite E. cbn [res_bind replicate emit_all]. by rewrite Hp.
Qed.

Lemma nested_calls k : (1000 ^ N.of_nat k <= compile_calls (nested k))%N.
Proof.
  induction k as [|k IH]; [done|]. cbn [nested compile_calls].
  rewrite Nat2N.inj_succ, N.pow_succ_r'. lia.
Qed.

(** The size limit does not bound the work of compiling: a pattern of 48 characters whose
    program stays at three instructions takes 10^18 calls. *)
Theorem compile_cost_unbounded :
  let pattern := "((((((){1000}){1000}){1000}){1000}){1000}){1000}" in
  ∃ ast, parse_pattern pattern = inr ast ∧ compile ast SEARCH = inr SEARCH
    ∧ (10 ^ 18 <= compile_calls ast)%N.
Proof.
  exists (nested 6). split; [vm_compute; reflexivity|]. split; [by apply nested_compiles|].
  apply (nested_calls 6).
Qed.

(** The leading [.*] of the search does not cross a newline: a match that
    starts after one is not found. *)
Theorem search_stops_at_newline :
  ∃ re, regex_new "b" = inr re ∧ is_match re ("a" +:+ NEWLINE +:+ "b") = Some false
    ∧ is_match re "ab" = Some true.
Proof. eexists. split; [vm_compute; reflexivity|]. split; vm_compute; reflexivity. Qed.
