(* ===== verification/FilterFacts.v ===== *)
(** * Facts about the spam filters *)

From Stdlib Require Import Ascii.
From S2P Require Import Prelude RustStr Glob I18n Channel Numeric Duration Regex State Ban.
From S2P Require Import CoreMode Watch Users Tables UserFacts Xline XlineFacts Filter.
From S2P Require Import RegexCode RegexSim RegexFacts.

Local Open Scope stdpp_scope.

(** ** One scan for all regular expressions *)

Lemma find_first_ext {A} (p q : A → bool) l :
  (∀ x, x ∈ l → p x = q x) → find_first p l = find_first q l.
Proof.
  induction l as [|x l IH]; intros Hpq; cbn; [done|]. rewrite Hpq by set_solver.
  rewrite IH; [done|]. intros y Hy. apply Hpq. set_solver.
Qed.

Lemma find_first_imap {A} (q : A → bool) l n :
  snd <$> find_first (λ '(_, r), q r) (imap (λ i r, (n + i, r)) l) = find_first q l.
Proof.
  revert n. induction l as [|x l IH]; intros n; cbn; [done|]. destruct (q x); [done|].
  rewrite <-(IH (S n)). do 2 f_equal. apply imap_ext. intros i y _. cbn. f_equal. lia.
Qed.

(** A rule carries the matcher its engine compiles its pattern to. *)
Definition compiled (r : SpamFilter) : Prop :=
  compile_pattern (sf_engine r) (sf_pattern r) = inr (sf_matcher r).

Lemma new_filter_compiled p e a d reason r : new_filter p e a d reason = inr r → compiled r.
Proof. unfold new_filter, compiled. destruct (compile_pattern e p) eqn:E; [done|]. intros [= <-]. done. Qed.

(** The sets the server builds: from nothing, by adding checked rules and
    removing patterns. *)
Inductive built : Filters → Prop :=
  | built_empty : built (mkFilters [] None [])
  | built_upsert p e a d reason r f : new_filter p e a d reason = inr r → built f → built (upsert r f)
  | built_remove p f : built f → built (remove_filter p f).2.

Lemma built_spec f : built f → f = rebuild_filters (f_rules f) ∧ Forall compiled (f_rules f).
Proof.
  induction 1 as [|p e a d reason r f Hr _ [_ IH]|p f _ [Ef IH]].
  - split; [done|constructor].
  - split; [done|]. cbn. apply Forall_app. split; [by apply retain_Forall|].
    constructor; [|constructor]. by eapply new_filter_compiled.
  - unfold remove_filter. case_match; cbn [snd]; [done|]. split; [done|]. by apply retain_Forall.
Qed.

Lemma elem_imap_pair {A} (l : list A) i x : (i, x) ∈ imap pair l ↔ l !! i = Some x.
Proof.
  rewrite list_elem_of_lookup. split.
  - intros [j Hj]. rewrite list_lookup_imap in Hj. destruct (l !! j) as [y|] eqn:E; [|done].
    cbn in Hj. by simplify_eq.
  - intros Hx. exists i. by rewrite list_lookup_imap, Hx.
Qed.

Lemma lookup_map {A B} (f : A → B) l i : map f l !! i = f <$> l !! i.
Proof. apply list_lookup_fmap. Qed.

Section hits.
Context `{UnicodeLower}.

(** A regular-expression rule is reported by the set exactly when it matches. *)
Lemma set_reports rules rs text ri r :
  Forall compiled rules → set_new (map (λ '(_, r), sf_pattern r) (regex_rules rules)) = inr rs →
  (N.of_nat (length (chars text)) + 2 <= u32_max)%N →
  rules !! ri = Some r → is_regex r = true →
  existsb (λ si, bool_decide (map fst (regex_rules rules) !! si = Some ri))
    (default [] (set_matches rs text)) = matcher_hits (sf_matcher r) text.
Proof.
  intros Hc Hs Hl Hr Hx. destruct (set_matches_spec _ rs text Hs Hl) as (res & -> & _ & Hres).
  cbn [default]. assert (compiled r) as Hcr.
  { eapply Forall_forall; [exact Hc|]. by eapply list_elem_of_lookup_2. }
  unfold compiled, compile_pattern in Hcr. unfold is_regex in Hx. apply String.eqb_eq in Hx as Ex.
  rewrite Ex in Hcr. cbn in Hcr. destruct (regex_new (sf_pattern r)) as [e|re] eqn:Ere; [done|].
  injection Hcr as Hm. rewrite <-Hm. cbn [matcher_hits]. apply eq_true_iff_eq.
  rewrite bool_decide_eq_true, existsb_exists. split.
  - intros (si & Hin & Hsi%bool_decide_eq_true). apply list_elem_of_In, Hres in Hin as (pat & re' & Hp & Hre' & Hm').
    rewrite lookup_map in Hsi. rewrite lookup_map in Hp. destruct (regex_rules rules !! si) as [[ri' r']|] eqn:Esi; [|done].
    cbn in Hsi, Hp. simplify_eq. apply list_elem_of_lookup_2, elem_of_retain in Esi as [Hin _].
    apply elem_imap_pair in Hin. assert (r' = r) as -> by congruence. congruence.
  - intros Hm'. assert ((ri, r) ∈ regex_rules rules) as [si Hsi]%list_elem_of_lookup.
    { apply elem_of_retain. split; [by apply elem_imap_pair|]. exact Hx. }
    exists si. split.
    + apply list_elem_of_In, Hres. exists (sf_pattern r), re. split; [|done].
      by rewrite lookup_map, Hsi.
    + apply bool_decide_eq_true. by rewrite lookup_map, Hsi.
Qed.

(** The filter applied to a message is the first rule, in the order they were set, whose own
    pattern matches the text: the combined scan of the regular expressions changes
    neither the decision nor the order. *)
Theorem filter_first_match f text :
  built f → (N.of_nat (length (chars text)) + 2 <= u32_max)%N →
  filter_hit f text = find_first (λ r, matcher_hits (sf_matcher r) text) (f_rules f).
Proof.
  intros [Ef Hc]%built_spec Hl. rewrite Ef. set (rules := f_rules f) in *. clear Ef.
  unfold filter_hit. cbn [f_rules rebuild_filters f_set f_set_idx]. fold rules.
  rewrite <-(find_first_imap _ rules 0). f_equal. apply find_first_ext. intros [ri r] Hin.
  apply elem_imap_pair in Hin.
  destruct (is_regex r) eqn:Hx; cbn [andb]; [|done].
  destruct (map (λ '(_, r), sf_pattern r) (regex_rules rules)) as [|pat pats] eqn:Ep; [done|].
  rewrite <-Ep. destruct (set_new _) as [e|rs] eqn:Es; [done|]. cbn [is_some mbind option_bind].
  by apply set_reports.
Qed.
End hits.

(** ** Rules between servers *)

Lemma swap_no a b s : a ≠ b → contains_byte a (swap_byte a b s) = false.
Proof.
  intros Hab. unfold swap_byte. induction s as [|x s IH]; cbn; [done|]. rewrite IH, orb_false_r.
  apply bool_decide_eq_false. by case_bool_decide.
Qed.

Lemma swap_back a b s : contains_byte b s = false → swap_byte b a (swap_byte a b s) = s.
Proof.
  unfold swap_byte. induction s as [|x s IH]; cbn; [done|]. intros [Hx Hs]%orb_false_iff.
  apply bool_decide_eq_false in Hx. rewrite IH by done. f_equal.
  destruct (decide (x = a)) as [->|Hxa].
  - rewrite (bool_decide_eq_true_2 (a = a)) by done. by rewrite bool_decide_eq_true_2.
  - rewrite (bool_decide_eq_false_2 (x = a)) by done. by rewrite bool_decide_eq_false_2.
Qed.

(** What the wire can say of an action: [kline] travels as [gline]. *)
Definition wire_action (a : string) : bool := is_letter_in ["block"; "gline"; "zline"; "silent"; "kill"] a.

Lemma action_roundtrip a : wire_action a = true → action_from_wire (action_to_wire a) = a.
Proof.
  unfold wire_action, is_letter_in. cbn. rewrite !orb_true_iff, !String.eqb_eq.
  intros [->|[->|[->|[->|[->|?]]]]]; done.
Qed.

Lemma action_to_wire_word a : contains_byte " " (action_to_wire a) = false.
Proof.
  unfold action_to_wire, is_letter_in. cbn. repeat case_match; try done.
  match goal with E : _ = true |- _ => rewrite !orb_true_iff, !String.eqb_eq in E end.
  by destruct_or!; subst.
Qed.

Lemma splitn_app n c l r :
  contains_byte c l = false → splitn (S (S n)) c (l +:+ String c r) = l :: splitn (S n) c r.
Proof. intros Hl. cbn. by rewrite split_once_app. Qed.

(** A filter survives the trip to a linked server: what [encode_filter] writes,
    [decode_filter] reads back as the same rule, for a pattern without the escape
    character and an action the wire can express. *)
Theorem filter_wire_roundtrip r :
  compiled r → contains_byte "007" (sf_pattern r) = false → wire_action (sf_action r) = true →
  (sf_duration r <= u64_max)%N →
  decode_filter (encode_filter r) (sf_engine r) = inr r.
Proof.
  intros Hc Hp Ha Hd. unfold decode_filter, encode_filter.
  assert (splitn 5 " " (swap_byte " " "007" (sf_pattern r) +:+ " " +:+ action_to_wire (sf_action r) +:+ " pn "
     +:+ to_string (sf_duration r) +:+ " :" +:+ sf_reason r)
    = [swap_byte " " "007" (sf_pattern r); action_to_wire (sf_action r); "pn"; to_string (sf_duration r);
       ":" +:+ sf_reason r]) as ->.
  { change (" " +:+ action_to_wire (sf_action r) +:+ ?x)
      with (String " " (action_to_wire (sf_action r) +:+ x)).
    rewrite splitn_app by (by apply swap_no). f_equal.
    change (" pn " +:+ ?x) with (String " " ("pn" +:+ String " " x)).
    rewrite splitn_app by apply action_to_wire_word. f_equal.
    rewrite splitn_app by done. f_equal.
    change (" :" +:+ sf_reason r) with (String " " (":" +:+ sf_reason r)).
    rewrite splitn_app; [done|]. apply digits_no_byte; [apply to_string_digits|done]. }
  rewrite swap_back by done. rewrite action_roundtrip by done. rewrite parse_to_string by done.
  change (strip_prefix ":" (":" +:+ sf_reason r)) with (Some (sf_reason r)). cbn [default].
  unfold new_filter. unfold compiled in Hc. rewrite Hc. by destruct r.
Qed.

Section witnesses.
#[local] Existing Instance ascii_only.

Definition money : SpamFilter :=
  mkSpamFilter "free.*money" "regex" "kill" 0 "scam" (RegexMatcher (default [] (match regex_new "free.*money" with inr re => Some re | inl _ => None end))).
Definition buy : SpamFilter := mkSpamFilter "*buy now*" "glob" "gline" 3600 "spam" (GlobMatcher "*buy now*").

Definition two_rules : Filters := upsert money (upsert buy (mkFilters [] None [])).

Lemma filter_first_match_witness :
  filter_hit two_rules "free money, BUY NOW" = Some buy ∧ filter_hit two_rules "free money" = Some money.
Proof.
  assert (built two_rules) as Hb.
  { apply (built_upsert "free.*money" "regex" "kill" 0 "scam"); [vm_compute; reflexivity|].
    apply (built_upsert "*buy now*" "glob" "gline" 3600 "spam"); [vm_compute; reflexivity|].
    apply built_empty. }
  split.
  - rewrite (filter_first_match two_rules "free money, BUY NOW" Hb); [vm_compute; reflexivity|].
    vm_compute. discriminate.
  - rewrite (filter_first_match two_rules "free money" Hb); [vm_compute; reflexivity|].
    vm_compute. discriminate.
Defined.

Lemma filter_wire_roundtrip_witness : decode_filter (encode_filter buy) "glob" = inr buy.
Proof. apply (filter_wire_roundtrip buy); [reflexivity..|vm_compute; discriminate]. Defined.
End witnesses.

(** ** Consistency of the tables *)

Section wf.
Context `{UnicodeLower} `{Outside}.

Lemma filter_act_wf uid ip r s : wf (core s) → wf (core (filter_act uid ip r s)).
Proof.
  intros W. unfold filter_act. cbn zeta. unfold notice_star, add_xline.
  repeat case_match; try (by frame); try done; apply remove_user_wf; by (frame || apply add_xline_wf).
Qed.

Lemma filter_pre_message_wf uid text s : wf (core s) → wf (core (filter_pre_message uid text s).2).
Proof.
  intros W. unfold filter_pre_message. case_match; [|done]. case_match; [|done]. cbn [snd].
  apply filter_act_wf. by frame.
Qed.

Lemma filter_cmd_wf uid ps s : wf (core s) → wf (core (filter_cmd uid ps s).2).
Proof.
  intros W. unfold filter_cmd. destruct (require_oper uid s) as [b s1] eqn:E. apply require_oper_core in E.
  rewrite <-E in W. destruct b; cbn [negb]; [|done]. unfold filter_notice.
  destruct ps as [|p [|a rest]]; cbn [snd].
  - frame. rewrite for_each_outputs; [done|]. intros x s2. apply send_outputs.
  - destruct (remove_filter _ _). cbn [snd]. frame. eapply wf_proper, W. by split.
  - destruct (filter_args rest). destruct (new_filter _ _ _ _ _); cbn [snd]; frame; [done|].
    eapply wf_proper, W. by split.
Qed.
End wf.
