(* ===== verification/Password.v ===== *)
(** * Stored passwords: [src/src/modules/password_hash.rs], with the worker
    threads of [src/src/server.rs]

    Verifying a password against a stored credential, making one, and the
    MKPASSWD command.  The digests, PBKDF2, the random generator, RSA and base64
    are OpenSSL's, the directory is an LDAP server's, and files are the system's:
    they are the fields of [Crypto]. *)

From Stdlib Require Import Ascii.
From S2P Require Import Prelude RustStr Glob I18n Channel Numeric State CoreMode Watch Xline CoreChannel.
From S2P Require Import Bcrypt.

Local Open Scope stdpp_scope.

Inductive Digest := MD5 | SHA1 | SHA256 | SHA512.

(** Byte strings throughout; [None] is a library error. *)
Class Crypto := {
  digest : Digest → string → option string;
  pbkdf2_hmac_sha256 : string → string → N → nat → option string;
  rand_bytes : nat → option string;
  RsaKey : Type;
  rsa_pem : string → option RsaKey;
  rsa_pem_pkcs1 : string → option RsaKey;
  rsa_encrypt_oaep : RsaKey → string → option string;
  base64_block : string → string;
  ldap_simple_bind : string → string → string → bool → bool;
  read_file : string → option string;
}.

(** A machine without OpenSSL, a directory or files. *)
Definition bare_crypto : Crypto :=
  {| digest := λ _ _, None; pbkdf2_hmac_sha256 := λ _ _ _ _, None; rand_bytes := λ _, None;
     RsaKey := unit; rsa_pem := λ _, None; rsa_pem_pkcs1 := λ _, None; rsa_encrypt_oaep := λ _ _, None;
     base64_block := λ b, b; ldap_simple_bind := λ _ _ _ _, false; read_file := λ _, None |}.

(** What OpenSSL documents about lengths. *)
Class CryptoLaws `{Crypto} : Prop := {
  rand_length n b : rand_bytes n = Some b → str_len b = n;
  pbkdf2_length pass salt iters n b : pbkdf2_hmac_sha256 pass salt iters n = Some b → str_len b = n;
}.

Definition digest_for (algo : string) : option Digest :=
  let a := to_ascii_lowercase algo in
  if String.eqb a "md5" then Some MD5
  else if String.eqb a "sha1" then Some SHA1
  else if is_letter_in ["sha256"; "sha2"; "sha-256"] a then Some SHA256
  else if is_letter_in ["sha512"; "sha-512"] a then Some SHA512
  else None.

(** ** Hexadecimal *)

(** [char::from_digit(d, 16)]. *)
Definition hex_digit (d : N) : ascii :=
  if (d <? 10)%N then ascii_of_N (48 + d) else ascii_of_N (87 + d).

Fixpoint hex (bytes : string) : string :=
  match bytes with
  | "" => ""
  | String b r => String (hex_digit (byte_val b / 16)) (String (hex_digit (byte_val b mod 16)) (hex r))
  end.

Definition hex_val (c : ascii) : option N :=
  let v := byte_val c in
  if is_digit c then Some (v - 48)%N
  else if (97 <=? v)%N && (v <=? 102)%N then Some (v - 87)%N
  else if (65 <=? v)%N && (v <=? 70)%N then Some (v - 55)%N
  else None.

(** [u8::from_str_radix] on two characters: a leading [+] is allowed. *)
Definition radix16 (c1 c2 : ascii) : option N :=
  if Ascii.eqb c1 "+" then hex_val c2
  else v1 ← hex_val c1; v2 ← hex_val c2; Some (v1 * 16 + v2)%N.

Fixpoint unhex_pairs (s : string) : option string :=
  match s with
  | "" => Some ""
  | String c1 (String c2 r) => v ← radix16 c1 c2; t ← unhex_pairs r; Some (String (ascii_of_N v) t)
  | _ => None
  end.

Definition unhex (s : string) : option string :=
  if negb (is_ascii s) || Nat.odd (str_len s) then None else unhex_pairs s.

(** [a.len() == b.len() && openssl::memcmp::eq(a, b)]. *)
Definition ct_eq (a b : string) : bool := String.eqb a b.

Definition MAX_PBKDF2_ITERS : N := 10000000.

(** ** Verifying *)

Section password.
Context `{UnicodeLower} `{Outside} `{Crypto}.

Definition is_bcrypt (stored : string) : bool :=
  starts_with "$2a$" stored || starts_with "$2b$" stored || starts_with "$2y$" stored.

(** [rest] follows [pbkdf2:]; its parts are split at the first two colons. *)
Definition verify_pbkdf2 (rest plaintext : string) : bool :=
  match split_once ":" rest with
  | Some (iters, more) =>
      match split_once ":" more with
      | Some (salt, want) =>
          match parse_uint u64_max iters, unhex salt, unhex want with
          | Some iters, Some salt, Some want =>
              if negb ((1 <=? iters)%N && (iters <=? MAX_PBKDF2_ITERS)%N) then false
              else if is_empty want || is_empty salt then false
              else match pbkdf2_hmac_sha256 plaintext salt iters (str_len want) with
                   | Some got => ct_eq got want
                   | None => false
                   end
          | _, _, _ => false
          end
      | None => false
      end
  | None => false
  end.

Definition verify (stored plaintext : string) : bool :=
  if is_bcrypt stored then bool_decide (bcrypt_verify stored plaintext = Some true)
  else match strip_prefix "pbkdf2:" stored with
  | Some rest => verify_pbkdf2 rest plaintext
  | None =>
      match split_once ":" stored with
      | Some (algo, want_hex) =>
          match digest_for algo with
          | Some md =>
              match digest md plaintext, unhex want_hex with
              | Some got, Some want => ct_eq got want
              | _, _ => false
              end
          | None => ct_eq stored plaintext
          end
      | None => ct_eq stored plaintext
      end
  end.

(** ** Making *)

Definition make (algo plaintext : string) : option string :=
  let lower := to_ascii_lowercase algo in
  if String.eqb lower "bcrypt" || starts_with "bcrypt:" lower then
    let cost := default 10%N (c ← strip_prefix "bcrypt:" lower; parse_uint u32_max c) in
    bcrypt_hash (bytes_of <$> rand_bytes 16) cost plaintext
  else if eq_ignore_ascii_case algo "pbkdf2" then
    salt ← rand_bytes 16;
    out ← pbkdf2_hmac_sha256 plaintext salt 60000 32;
    Some ("pbkdf2:" +:+ to_string 60000 +:+ ":" +:+ hex salt +:+ ":" +:+ hex out)
  else
    md ← digest_for algo;
    d ← digest md plaintext;
    Some (lower +:+ ":" +:+ hex d).

Definition is_slow (stored : string) : bool := starts_with "$2" stored || starts_with "pbkdf2:" stored.

Definition is_slow_algo (algo : string) : bool :=
  let a := to_ascii_lowercase algo in
  String.eqb a "bcrypt" || starts_with "bcrypt:" a || String.eqb a "pbkdf2".

(** ** Worker threads *)

Definition MAX_ACTIVE : nat := 16.

Definition is_crypto (j : Job) : bool := match j with JobDial _ _ => false | _ => true end.

Definition start_job (j : Job) (s : Server) : Server := s <| io ::= (λ i, i <| jobs ::= (λ l, l ++ [j]) |>) |>.

(** [false] when as many jobs as allowed are running. *)
Definition spawn_crypto (j : Job) (s : Server) : bool * Server :=
  if MAX_ACTIVE <=? length (filter (λ j, is_crypto j = true) (jobs (io s))) then (false, s)
  else (true, start_job j s).

Definition run_check (c : Check) : bool :=
  match c with
  | CheckHash stored plain => verify stored plain
  | CheckLdap server dn password verify_tls => ldap_simple_bind server dn password verify_tls
  end.

(** ** MKPASSWD *)

Definition hashed_notice (c : Core) (algo hashed : string) : string :=
  trf c "{0} hashed password: {1}" [algo; hashed].

Definition mkpasswd_cmd (uid : Uid) (algo pass : string) : Handler := λ s,
  if negb (is_oper (core s) uid) then
    refuse uid ERR_NOPRIVILEGES ":Permission Denied- You're not an IRC operator" s
  else
    let nick := nick_of (core s) uid in
    if is_slow_algo algo then
      let '(started, s) := spawn_crypto (JobHash uid algo pass) s in
      ok (if started then s else tell uid nick "Busy hashing, try again" s)
    else match make algo pass with
    | Some hashed => ok (tell uid nick (hashed_notice (core s) algo hashed) s)
    | None =>
        failed (tell uid nick (trf (core s)
          "Unknown hash '{0}' (try md5, sha1, sha256, sha512, pbkdf2, bcrypt)" [algo]) s)
    end.

(** The event the worker sends back. *)
Definition mkpasswd_result (uid : Uid) (algo : string) (hash : option string) (s : Server) : Server :=
  let nick := nick_of (core s) uid in
  match hash with
  | Some h => tell uid nick (hashed_notice (core s) algo h) s
  | None => tell uid nick (trf (core s) "Could not hash with '{0}'" [algo]) s
  end.

End password.
