(* ===== verification/PasswordFacts.v ===== *)
(** * Stored passwords verify

    Hexadecimal round-trips, a credential that was made verifies, and the shapes
    of a credential that can never be satisfied. *)

From Stdlib Require Import Ascii.
From S2P Require Import Prelude RustStr Glob I18n Channel Numeric State CoreMode Watch Xline CoreChannel.
From S2P Require Import Bcrypt BcryptFacts Password.

Local Open Scope stdpp_scope.

(** ** Hexadecimal *)

Lemma radix16_hex b :
  radix16 (hex_digit (byte_val b / 16)) (hex_digit (byte_val b mod 16)) = Some (byte_val b).
Proof.
  by_bytes (λ b, radix16 (hex_digit (byte_val b / 16)) (hex_digit (byte_val b mod 16))) (λ b, Some (byte_val b)).
Qed.

Definition hex_byte (c : ascii) : bool := is_ascii_byte c && negb (bool_decide (c = ":"%char)).

Lemma hex_digits_ok b :
  hex_byte (hex_digit (byte_val b / 16)) && hex_byte (hex_digit (byte_val b mod 16)) = true.
Proof.
  by_bytes (λ b, hex_byte (hex_digit (byte_val b / 16)) && hex_byte (hex_digit (byte_val b mod 16))) (λ _ : ascii, true).
Qed.

Lemma hex_bytes s : str_all hex_byte (hex s) = true.
Proof.
  induction s as [|b s IH]; [done|]. cbn [hex str_all].
  pose proof (hex_digits_ok b) as [-> ->]%andb_true_iff. done.
Qed.

Lemma hex_ascii s : is_ascii (hex s) = true.
Proof.
  pose proof (hex_bytes s) as H. revert H. unfold is_ascii. generalize (hex s). intros t.
  induction t as [|c t IH]; [done|]. cbn [str_all]. unfold hex_byte.
  intros [[-> _]%andb_true_iff Ht]%andb_true_iff. by apply IH.
Qed.

Lemma hex_no_colon s : contains_byte ":" (hex s) = false.
Proof.
  pose proof (hex_bytes s) as H. revert H. generalize (hex s). intros t.
  induction t as [|c t IH]; [done|]. cbn [str_all contains_byte]. unfold hex_byte.
  intros [[_ Hc]%andb_true_iff Ht]%andb_true_iff. rewrite (IH Ht), orb_false_r.
  by apply negb_true_iff in Hc.
Qed.

Lemma hex_even s : Nat.odd (str_len (hex s)) = false.
Proof. induction s as [|b s IH]; [done|]. exact IH. Qed.

Lemma hex_empty s : is_empty (hex s) = is_empty s.
Proof. by destruct s. Qed.

(** Every byte string survives being written in hexadecimal. *)
Theorem hex_roundtrip s : unhex (hex s) = Some s.
Proof.
  unfold unhex. rewrite hex_ascii, hex_even. cbn [negb orb].
  induction s as [|b s IH]; [done|]. cbn [hex unhex_pairs]. rewrite radix16_hex. cbn [mbind option_bind].
  rewrite IH. cbn [mbind option_bind]. unfold byte_val. by rewrite ascii_N_embedding.
Qed.

Section laws.
Context `{UnicodeLower} `{Outside} `{CryptoLaws}.

(** ** What was made verifies *)

Lemma digest_names algo md :
  digest_for algo = Some md →
  to_ascii_lowercase algo ∈ ["md5"; "sha1"; "sha256"; "sha2"; "sha-256"; "sha512"; "sha-512"].
Proof.
  unfold digest_for. cbn zeta. generalize (to_ascii_lowercase algo). intros a.
  destruct (String.eqb_spec a "md5") as [->|_]; [set_solver|].
  destruct (String.eqb_spec a "sha1") as [->|_]; [set_solver|]. unfold is_letter_in.
  destruct (existsb _ ["sha256"; _; _]) eqn:E1.
  { apply existsb_exists in E1 as (x & Hx & ->%String.eqb_eq). cbn in Hx. set_solver. }
  destruct (existsb _ ["sha512"; _]) eqn:E2; [|done].
  apply existsb_exists in E2 as (x & Hx & ->%String.eqb_eq). cbn in Hx. set_solver.
Qed.

Lemma digest_for_lower algo : digest_for (to_ascii_lowercase algo) = digest_for algo.
Proof. unfold digest_for. by rewrite lowercase_idem. Qed.

(** A digest credential is verified by its digest. *)
Lemma verify_digest name md want p :
  name ∈ ["md5"; "sha1"; "sha256"; "sha2"; "sha-256"; "sha512"; "sha-512"] → digest_for name = Some md →
  verify (name +:+ ":" +:+ want) p =
    match digest md p, unhex want with Some got, Some w => ct_eq got w | _, _ => false end.
Proof.
  intros Hn Hd. unfold verify.
  assert (is_bcrypt (name +:+ ":" +:+ want) = false ∧ strip_prefix "pbkdf2:" (name +:+ ":" +:+ want) = None
          ∧ contains_byte ":" name = false) as (-> & -> & Hc).
  { clear Hd. repeat (apply elem_of_cons in Hn as [->|Hn]; [done|]). by apply not_elem_of_nil in Hn. }
  change (":" +:+ want) with (String ":" want). rewrite split_once_app by done. by rewrite Hd.
Qed.

Lemma hash_prefix r c p h : bcrypt_hash r c p = Some h → is_bcrypt h = true.
Proof.
  unfold bcrypt_hash. generalize bcrypt_raw. intros R. destruct r as [salt|]; [|done]. cbn [mbind option_bind].
  cbn zeta. destruct (R _ _ _); [|done]. cbn [mbind option_bind]. intros [= <-]. done.
Qed.

Lemma bytes_of_length s : length (bytes_of s) = str_len s.
Proof. unfold bytes_of. rewrite length_map. induction s as [|b s IH]; [done|]. exact (f_equal S IH). Qed.

Lemma verify_bcrypt salt cost p h :
  rand_bytes 16 = Some salt → bcrypt_hash (Some (bytes_of salt)) cost p = Some h → verify h p = true.
Proof.
  intros Er Eh. unfold verify. rewrite (hash_prefix _ _ _ _ Eh).
  destruct (hash_then_verify (bytes_of salt) cost p) as (h' & Eh' & _ & Hv).
  - rewrite bytes_of_length. by apply rand_length.
  - apply bytes_of_bytes.
  - rewrite Eh in Eh'. injection Eh' as <-. by apply (bool_decide_eq_true_2 _).
Qed.

Lemma verify_made_pbkdf2 salt out p :
  str_len salt = 16 → pbkdf2_hmac_sha256 p salt 60000 32 = Some out →
  verify ("pbkdf2:" +:+ to_string 60000 +:+ ":" +:+ hex salt +:+ ":" +:+ hex out) p = true.
Proof.
  intros Hs Ho. pose proof (pbkdf2_length _ _ _ _ _ Ho) as Hl. unfold verify.
  change (is_bcrypt _) with false. cbn match.
  change (strip_prefix "pbkdf2:" _) with (Some (to_string 60000 +:+ ":" +:+ hex salt +:+ ":" +:+ hex out)).
  cbn match. unfold verify_pbkdf2.
  change (":" +:+ hex salt +:+ ":" +:+ hex out) with (String ":" (hex salt +:+ String ":" (hex out))).
  rewrite split_once_app by done. rewrite split_once_app by apply hex_no_colon.
  rewrite parse_to_string by done. rewrite !hex_roundtrip. cbn [negb].
  change ((1 <=? 60000)%N && (60000 <=? MAX_PBKDF2_ITERS)%N) with true. cbn [negb].
  rewrite Hl, Ho. unfold ct_eq. rewrite String.eqb_refl. destruct out; [done|]. by destruct salt.
Qed.

(** C28: A credential MKPASSWD makes, by any of its algorithms, is accepted for the password
    it was made from. *)
Theorem make_verifies algo p stored : make algo p = Some stored → verify stored p = true.
Proof.
  unfold make. cbn zeta. destruct (_ || _).
  { destruct (rand_bytes 16) as [salt|] eqn:Er; [|done]. cbn [fmap option_fmap option_map].
    apply verify_bcrypt, Er. }
  destruct (eq_ignore_ascii_case algo "pbkdf2").
  { destruct (rand_bytes 16) as [salt|] eqn:Er; [|done]. cbn [mbind option_bind].
    destruct (pbkdf2_hmac_sha256 p salt 60000 32) as [out|] eqn:Eo; [|done]. cbn [mbind option_bind].
    intros [= <-]. apply verify_made_pbkdf2; [by apply rand_length|done]. }
  destruct (digest_for algo) as [md|] eqn:Ed; [|done]. cbn [mbind option_bind].
  destruct (digest md p) as [d|] eqn:Eg; [|done]. cbn [mbind option_bind]. intros [= <-].
  rewrite (verify_digest _ md) by (by rewrite ?digest_for_lower || by eapply digest_names).
  rewrite Eg, hex_roundtrip. unfold ct_eq. apply String.eqb_refl.
Qed.

(** ** Credentials nobody satisfies *)

(** A PBKDF2 credential with an unusable work factor, salt or hash refuses every
    password. *)
Theorem bad_pbkdf2_refused iters salt want p :
  contains_byte ":" iters = false → contains_byte ":" salt = false →
  (parse_uint u64_max iters = None ∨ parse_uint u64_max iters = Some 0%N
   ∨ (∃ n, parse_uint u64_max iters = Some n ∧ (MAX_PBKDF2_ITERS < n)%N)
   ∨ salt = "" ∨ want = "" ∨ unhex salt = None ∨ unhex want = None) →
  verify ("pbkdf2:" +:+ iters +:+ ":" +:+ salt +:+ ":" +:+ want) p = false.
Proof.
  intros Hi Hs Hbad. unfold verify. change (is_bcrypt _) with false. cbn match.
  change (strip_prefix "pbkdf2:" _) with (Some (iters +:+ String ":" (salt +:+ String ":" want))). cbn match.
  unfold verify_pbkdf2. rewrite split_once_app, split_once_app by done.
  destruct (parse_uint u64_max iters) as [n|] eqn:En; [|done].
  destruct (unhex salt) as [sb|] eqn:Es; [|done]. destruct (unhex want) as [wb|] eqn:Ew; [|done].
  destruct Hbad as [?|[[= ->]|[(m & [= <-] & Hm)|[->|[->|[?|?]]]]]]; try done.
  - assert ((n <=? MAX_PBKDF2_ITERS)%N = false) as -> by (by apply N.leb_gt). by rewrite andb_false_r.
  - injection Es as <-. destruct (negb _); [done|]. cbn [is_empty]. by rewrite orb_true_r.
  - injection Ew as <-. destruct (negb _); [done|]. done.
Qed.

(** A credential that names no algorithm is compared as it is. *)
Theorem plain_password stored p :
  is_slow stored = false →
  (∀ algo rest, split_once ":" stored = Some (algo, rest) → digest_for algo = None) →
  verify stored p = String.eqb stored p.
Proof.
  intros Hslow Hd. unfold is_slow in Hslow. apply orb_false_iff in Hslow as [Hp Hq]. unfold verify.
  assert (is_bcrypt stored = false) as ->.
  { unfold is_bcrypt. destruct stored as [|c1 [|c2 r]]; [done|..].
    - cbn. by destruct (bool_decide ("$"%char = c1)).
    - cbn in Hp |- *. destruct (bool_decide ("$"%char = c1)); [|done]. by destruct (bool_decide ("2"%char = c2)). }
  destruct (strip_prefix "pbkdf2:" stored) as [r|] eqn:E.
  { apply strip_prefix_Some in E as ->. done. }
  destruct (split_once ":" stored) as [[algo rest]|] eqn:Es; [|done]. by rewrite (Hd _ _ eq_refl).
Qed.

End laws.

(** ** A machine on which the laws hold *)

(** A toy machine: random bytes that are all alike, digests that are the text
    itself, a cipher that hides nothing. *)
Fixpoint pad_with (n : nat) (s : string) : string :=
  match n with
  | 0 => ""
  | S n => match s with "" => String "x" (pad_with n "") | String b r => String b (pad_with n r) end
  end.

Definition toy_crypto : Crypto :=
  {| digest := λ _ b, Some b; pbkdf2_hmac_sha256 := λ p _ _ n, Some (pad_with n p);
     rand_bytes := λ n, Some (pad_with n ""); RsaKey := string; rsa_pem := λ k, Some k;
     rsa_pem_pkcs1 := λ _, None; rsa_encrypt_oaep := λ _ m, Some m; base64_block := λ b, b;
     ldap_simple_bind := λ _ _ p _, String.eqb p "ldap"; read_file := λ p, Some p |}.

Lemma pad_with_length n s : str_len (pad_with n s) = n.
Proof. revert s. induction n as [|n IH]; intros [|b r]; cbn; by rewrite ?IH. Qed.

#[local] Instance toy_laws : @CryptoLaws toy_crypto.
Proof. split; cbn; intros; simplify_eq; apply pad_with_length. Qed.

Lemma make_verifies_witness : ∃ stored, @make toy_crypto "pbkdf2" "secret" = Some stored ∧ @verify toy_crypto stored "secret" = true.
Proof.
  assert (is_some (@make toy_crypto "pbkdf2" "secret") = true) as E by (vm_compute; reflexivity).
  destruct (@make toy_crypto "pbkdf2" "secret") as [stored|] eqn:M; [|discriminate E].
  exists stored. split; [reflexivity|]. apply (@make_verifies toy_crypto toy_laws "pbkdf2" "secret" stored M).
Defined.
