(* ===== verification/Registration.v ===== *)
(** * Registration: the admission half of [src/src/modules/connclass.rs], the
    ident results of [src/src/modules/ident.rs], the guard of
    [src/src/connguard.rs], and the checks [src/src/ircd.rs] runs before a
    welcome *)

From Stdlib Require Import Ascii.
From S2P Require Import Prelude RustStr Glob Clock I18n Channel Numeric State Mode UserMode CoreMode Ban.
From S2P Require Import ConnClass Membership Watch Users Xline CoreChannel Filter Welcome Password.

Local Open Scope stdpp_scope.

Definition with_session (uid : Uid) (f : Session → Session) : Server → Server :=
  upd (with_user uid (λ u, u <| u_session ::= f |>)).

Definition session (c : Core) (uid : Uid) : option Session := u_session <$> users c !! uid.

Definition is_reg (c : Core) (uid : Uid) : bool := map_or false u_registered (users c !! uid).

(** ** The guard on unregistered connections *)

Definition over_cap (c : Core) : bool :=
  let cap := conf_num c i64_top "max_unregistered" 0 in (0 <? cap)%N && (cap <? unreg_count c)%N.

Definition floods (c : Core) (count : N) : bool :=
  let water := conf_num c i64_top "unreg_floodwater" 0 in (0 <? water)%N && (water <? count)%N.

Definition flood_active (c : Core) : bool := floods c (unreg_count c).

Definition flood_timeout (c : Core) : option N :=
  if flood_active c then Some (conf_num c u64_max "unreg_flood_timeout" 30) else None.

(** [connguard::tick]. *)
Definition guard_tick `{Outside} (s : Server) : Server :=
  let live := count_users (core s) (λ u, negb (u_registered u)) in
  let now_flood := floods (core s) live in
  let was_flood := unreg_flood (core s) in
  let s := upd (λ c, c <| unreg_count := live |> <| unreg_flood := now_flood |>) s in
  if now_flood && negb was_flood then
    snotice_c "x" ("Unregistered-connection flood: " +:+ to_string live +:+ " pending (> "
      +:+ to_string (conf_num (core s) i64_top "unreg_floodwater" 0) +:+ ") — handshake timeout cut to "
      +:+ to_string (conf_num (core s) u64_max "unreg_flood_timeout" 30) +:+ "s") s
  else if negb now_flood && was_flood then
    snotice_c "x" ("Unregistered-connection flood cleared: " +:+ to_string live +:+ " pending") s
  else s.

(** ** Idle connections *)

Definition REG_TIMEOUT : N := 60.
Definition PING_AFTER : N := 90.
Definition PING_TIMEOUT : N := 60.

Inductive Idle := IdleFine | IdlePing | IdleQuit.

Definition reg_limit (c : Core) (uid : Uid) : N :=
  let t := default (conf_num c u64_max "registration_timeout" REG_TIMEOUT) (reg_timeout c uid) in
  match flood_timeout c with Some ft => N.min t ft | None => t end.

Definition ping_limit (c : Core) (uid : Uid) : N :=
  default (conf_num c u64_max "ping_frequency" PING_AFTER) (ping_freq c uid).

(** What [idle_check] decides for one connection; the sum wraps, as it does in
    a release build. *)
Definition idle_of (c : Core) (now : N) (uid : Uid) (u : User) : Idle :=
  let idle := (now - ss_last_active (u_session u))%N in
  let pa := ping_limit c uid in
  if negb (u_registered u) then if (reg_limit c uid <=? idle)%N then IdleQuit else IdleFine
  else if ss_ping_sent (u_session u) then
    if (wrap_u64 (pa + conf_num c u64_max "ping_timeout" PING_TIMEOUT) <=? idle)%N then IdleQuit else IdleFine
  else if (pa <=? idle)%N then IdlePing else IdleFine.

Definition idle_check (now : N) (c : Core) : list Uid * list Uid :=
  let us := map_to_list (users c) in
  (omap (λ '(uid, u), match idle_of c now uid u with IdlePing => Some uid | _ => None end) us,
   omap (λ '(uid, u), match idle_of c now uid u with IdleQuit => Some uid | _ => None end) us).

(** ** Lines held back while names are looked up *)

Definition MAX_DEFERRED : nat := 32.

Definition defer_if_resolving (uid : Uid) (line : string) (s : Server) : bool * Server :=
  match session (core s) uid with
  | Some ss =>
      if ss_dns_pending ss && (length (ss_deferred ss) <? MAX_DEFERRED) then
        (true, with_session uid (λ ss, ss <| ss_deferred ::= (λ l, l ++ [line]) |>) s)
      else (false, s)
  | None => (false, s)
  end.

Definition take_deferred (uid : Uid) (s : Server) : list string * Server :=
  (map_or [] ss_deferred (session (core s) uid), with_session uid (λ ss, ss <| ss_deferred := [] |>) s).

(** ** Ident *)

(** [parse_reply]. *)
Definition parse_reply (reply : string) : option string :=
  match split ":" reply with
  | _ :: kind :: _ :: name :: _ =>
      if eq_ignore_ascii_case (trim kind) "USERID" && negb (is_empty (trim name)) then Some (trim name) else None
  | _ => None
  end.

Definition ident_result (uid : Uid) (ident : option string) (s : Server) : Server :=
  let s := match ident with
           | Some name => notice_star uid ("Received Ident response: " +:+ name) s
           | None => notice_star uid "No Ident response" s
           end in
  with_session uid (λ ss, ss <| ss_ident_result := Some ident |> <| ss_ident_pending := false |>) s.

(** [policy]: (useident, requireident). *)
Definition policy (c : Core) (uid : Uid) : bool * bool :=
  let '(use, require) := ident_policy c uid in
  (use || conf_bool c "useident" false, require || conf_bool c "requireident" false).

Definition finalize (uid : Uid) (s : Server) : option string * Server :=
  let s := match session (core s) uid ≫= ss_ident_result with
           | Some (Some name) => upd (with_user uid (λ u, u <| u_ident := ident_of name |>)) s
           | _ => s
           end in
  let unverified := map_or true (λ u, is_empty (u_ident u) || starts_with "~" (u_ident u)) (users (core s) !! uid) in
  if (policy (core s) uid).2 && unverified
  then (Some "Your connection class requires a valid ident response", s) else (None, s).

(** ** Choosing a class *)

Inductive Pick := PickDeny (name : string) | PickClass (cc : ConnClass) | PickNone.

Inductive AuthOutcome := Proceed | Reject (reason : string) | Pending.

(** What [pick] looks at in a client. *)
Record Client := mkClient {
  cl_ip : string; cl_host : string; cl_secure : bool; cl_cert : bool; cl_port : N; cl_asn : option N }.

Section registration.
Context `{UnicodeLower} `{Outside} `{Crypto}.

Definition country_ok (cc : ConnClass) (ip : string) : bool :=
  match cc_countries cc with
  | [] => true
  | l => map_or false (λ iso, existsb (String.eqb (to_ascii_uppercase iso)) l)
           (a ← parse_ip ip; geo_country ip)
  end.

(** The conditions of [pick] before a class is taken or denies. *)
Definition class_fits (cc : ConnClass) (cl : Client) : bool :=
  existsb (λ m, mask_match m (cl_ip cl) (cl_host cl)) (cc_allow cc)
  && negb (cc_ssl cc && negb (cl_secure cl))
  && negb (cc_ssl_trusted cc && negb (cl_cert cl))
  && (bool_decide (cc_ports cc = []) || bool_decide (cl_port cl ∈ cc_ports cc))
  && (bool_decide (cc_asn cc = []) || map_or false (λ a, bool_decide (a ∈ cc_asn cc)) (cl_asn cl))
  && country_ok cc (cl_ip cl).

Definition class_full (c : Core) (cc : ConnClass) (uid : Uid) : bool :=
  map_or false (λ max, (max <=? class_count c (cc_name cc) uid)%N) (cc_limit cc).

Fixpoint pick_from (uid : Uid) (cl : Client) (ccs : list ConnClass) (s : Server) : Pick * Server :=
  match ccs with
  | [] => (PickNone, s)
  | cc :: rest =>
      if negb (class_fits cc cl) then pick_from uid cl rest s
      else if cc_deny cc then (PickDeny (cc_name cc), s)
      else if class_full (core s) cc uid then
        let s := if cc_maxconnwarn cc then
                   snotice_c "c" (trf (core s) "connect class {0} is full ({1})"
                                    [cc_name cc; to_string (default 0%N (cc_limit cc))]) s
                 else s in
        pick_from uid cl rest s
      else (PickClass cc, s)
  end.

Definition pick (uid : Uid) (cl : Client) (s : Server) : Pick * Server := pick_from uid cl (all_classes (core s)) s.

Definition global_clones (c : Core) (ip : string) (uid : Uid) : N :=
  let self_in := map_or false (λ u, String.eqb (u_ip u) ip) (users c !! uid) in
  let loc := (default 0 (per_ip c !! ip) - (if self_in then 1 else 0))%N in
  (loc + N.of_nat (length (filter (λ '(_, ru), ru_ip ru = ip) (map_to_list (remote_users c)))))%N.

Definition over_local (c : Core) (cc : ConnClass) (ip : string) (uid : Uid) : bool :=
  map_or false (λ max, (max <=? local_clones c ip (cc_name cc) uid)%N) (cc_localmax cc).

Definition over_global (c : Core) (cc : ConnClass) (ip : string) (uid : Uid) : bool :=
  map_or false (λ max, (max <=? global_clones c ip uid)%N) (cc_globalmax cc).

Definition client_of (u : User) (host : string) : Client :=
  mkClient (u_ip u) host (u_secure u) (is_some (u_certfp u)) (ss_port (u_session u)) (asn_number (u_ip u)).

Definition denies (name : string) : string := "Connection class " +:+ name +:+ " denies your address".

Definition warn_refused (cc : ConnClass) (ip why : string) (s : Server) : Server :=
  if cc_maxconnwarn cc
  then snotice_c "c" (trf (core s) "connect class {0} refused {1}: {2}" [cc_name cc; ip; why]) s else s.

(** At connect time; [Some reason] turns the connection away. *)
Definition assign (uid : Uid) (s : Server) : option string * Server :=
  match users (core s) !! uid with
  | None => (None, s)
  | Some u =>
      let '(p, s) := pick uid (client_of u "") s in
      match p with
      | PickDeny name => (Some (denies name), s)
      | PickNone =>
          if negb (existsb (λ cc, negb (cc_deny cc)) (all_classes (core s)))
             || negb (conf_bool (core s) "connectclass_required" false)
          then (None, s) else (Some "You are not allowed to connect to this server", s)
      | PickClass cc =>
          if over_local (core s) cc (u_ip u) uid then
            (Some "Too many connections from your address", warn_refused cc (u_ip u) "local clone limit" s)
          else if over_global (core s) cc (u_ip u) uid then
            (Some "Too many global connections from your address", warn_refused cc (u_ip u) "global clone limit" s)
          else (None, upd (set_class uid (cc_name cc)) s)
      end
  end.

(** ** At registration *)

(** The class's modes, once nothing speaks against it. *)
Definition finish_register (uid : Uid) (s : Server) : Server :=
  match class_of (core s) uid ≫= cc_modes with
  | Some m => svs_set_user_modes uid m s
  | None => s
  end.

Definition check_sent (stored : string) (sent : option string) : bool := map_or false (verify stored) sent.

(** The password of a class. *)
Definition class_password (uid : Uid) (sent : option string) (cc : ConnClass) (s : Server) : AuthOutcome * Server :=
  match cc_password cc with
  | None => (Proceed, finish_register uid s)
  | Some pw =>
      if is_slow pw then
        let '(started, s) := spawn_crypto (JobClass uid pw sent) s in
        if negb started then (Reject "Server busy, try again", s)
        else (Pending, with_session uid (λ ss, ss <| ss_auth_pending := true |>) s)
      else if negb (check_sent pw sent) then (Reject "Password mismatch for your connection class", s)
      else (Proceed, finish_register uid s)
  end.

Definition class_checks (uid : Uid) (u : User) (s : Server) : AuthOutcome * Server :=
  match class_of (core s) uid with
  | None => (Proceed, s)
  | Some cc =>
      if over_local (core s) cc (u_ip u) uid || over_global (core s) cc (u_ip u) uid then
        (Reject "Too many connections from your address", s)
      else if cc_ssl_trusted cc && negb (is_some (u_certfp u)) then
        (Reject "Your connection class requires a client certificate", s)
      else class_password uid (ss_pass (u_session u)) cc s
  end.

Definition on_register (uid : Uid) (s : Server) : AuthOutcome * Server :=
  match users (core s) !! uid with
  | None => (Proceed, s)
  | Some u =>
      let '(p, s) := pick uid (client_of u (u_host u)) s in
      match p with
      | PickDeny name => (Reject (denies name), s)
      | PickClass cc => class_checks uid u (upd (set_class uid (cc_name cc)) s)
      | PickNone => class_checks uid u s
      end
  end.

(** "ERROR :Closing link: (reason)". *)
Definition closing (c : Core) (reason : string) : string := "ERROR :" +:+ trf c "Closing link: ({0})" [reason].

Definition reject_link (uid : Uid) (reason : string) (s : Server) : Server :=
  let s := numeric uid ERR_PASSWDMISMATCH (":" +:+ reason) s in
  remove_user uid reason (send uid (closing (core s) reason) s).

(** The connection class has the last word. *)
Definition admit_class (uid : Uid) (s : Server) : Server :=
  let '(o, s) := on_register uid s in
  match o with
  | Proceed => welcome uid s
  | Pending => s
  | Reject reason => reject_link uid reason s
  end.

(** [complete_registration] once no module objects.  It indexes the user table,
    which panics when a module has removed the user without objecting. *)
Definition final_checks (uid : Uid) (s : Server) : option Server :=
  u ← users (core s) !! uid;
  match matched_xline (core s) (u_ident u) (u_host u) (u_ip u) with
  | Some reason => Some (refuse_banned uid reason s)
  | None =>
      let '(r, s) := finalize uid s in
      match r with
      | Some reason => Some (remove_user uid reason (send uid (closing (core s) reason) s))
      | None =>
          u ← users (core s) !! uid;
          Some (match matched_rline (core s) (u_nick u) (u_ident u) (u_host u) (u_ip u) (u_realname u) with
                | Some reason => refuse_banned uid reason s
                | None => admit_class uid s
                end)
      end
  end.

(** The answer of a worker that checked a class password. *)
Definition class_auth (uid : Uid) (okay : bool) (s : Server) : Server :=
  let held := map_or false ss_auth_pending (session (core s) uid) in
  let s := with_session uid (λ ss, ss <| ss_auth_pending := false |>) s in
  if negb held then s
  else if okay then welcome uid (finish_register uid s)
  else reject_link uid "Password mismatch for your connection class" s.

(** What a connection needs before it is registered. *)
Definition ready (c : Core) (uid : Uid) : bool :=
  map_or false (λ u, let ss := u_session u in
    negb (u_registered u) && negb (is_empty (u_nick u)) && negb (is_empty (u_ident u))
    && negb (ss_cap ss) && negb (ss_dns_pending ss) && negb (ss_ident_pending ss)
    && negb (ss_auth_pending ss) && negb (is_some (ss_waitpong ss))) (users c !! uid).

End registration.
