(* ===== verification/OperTypes.v ===== *)
(** * Operator classes, types and levels: [src/src/modules/opertypes.rs] and
    [src/src/modules/operlevels.rs]

    The classes and types that ship with the server and those of the
    configuration, what a type resolves to, what becoming an operator of a type
    does to the user, and the gate in front of operator commands. *)

From Stdlib Require Import Ascii.
From S2P Require Import Prelude RustStr Glob Clock I18n Channel Numeric State UserMode CoreMode Watch Users.
From S2P Require Import Membership Account Filter.

Local Open Scope stdpp_scope.

(** ** Levels *)

Definition set_level (uid : Uid) (level : N) : Server → Server :=
  upd (with_user uid (λ u, u <| u_oper_level := Some level |>)).

Definition oper_level (c : Core) (uid : Uid) : N := default 0%N (users c !! uid ≫= u_oper_level).

Definition deny_kill (c : Core) (actor target : Uid) : option string :=
  if negb (is_oper c target) then None
  else if (oper_level c actor <? oper_level c target)%N then
    Some ("Permission Denied- " +:+ map_or "" u_nick (users c !! target)
          +:+ " outranks you (higher oper level)")
  else None.

(** ** The gated commands *)

Definition GATED : list string :=
  ["KILL"; "KLINE"; "GLINE"; "ZLINE"; "QLINE"; "ELINE"; "RLINE"; "SHUN"; "CBAN"; "CHECK";
   "NICKLOCK"; "NICKUNLOCK"; "SAJOIN"; "SAPART"; "SANICK"; "SAKICK"; "SAMODE"; "SATOPIC"; "SAQUIT";
   "CLEARCHAN"; "SVSNICK"; "SVSJOIN"; "SVSPART"; "SVSMODE"; "SVSLOGIN"; "SVSLOGOUT"; "CHGHOST";
   "CHGIDENT"; "CHGNAME"; "SETHOST"; "SETIDENT"; "SETIDLE"; "SWHOIS"; "WALLOPS"; "GLOBOPS";
   "CONNECT"; "SQUIT"; "DIE"; "RESTART"].

Definition gated (cmd : string) : bool := bool_decide (to_ascii_uppercase cmd ∈ GATED).

(** Whether a type may use a command. *)
Definition type_allows (t : OperType) (cmd : string) : bool :=
  (all_commands t || bool_decide (cmd ∈ commands t)) && negb (bool_decide (cmd ∈ deny_commands t)).

Definition BOLD : string := chr "002".

Definition opertypes_pre_command (uid : Uid) (cmd : string) (s : Server) : ModResult * Server :=
  if negb (is_oper (core s) uid) || negb (gated cmd) then (Passthru, s)
  else
    let up := to_ascii_uppercase cmd in
    match users (core s) !! uid ≫= u_opertype with
    | None => (Passthru, s)
    | Some t =>
        if type_allows t up then (Passthru, s)
        else (Deny, numeric uid ERR_NOPRIVS
                (up +:+ " :Permission denied — your " +:+ BOLD +:+ ot_title t +:+ BOLD
                 +:+ " oper type may not use " +:+ up) s)
    end.

(** The WHOIS line of a typed operator. *)
Definition whois_line (c : Core) (uid : Uid) : option string :=
  t ← users c !! uid ≫= u_opertype;
  let article := match chars (ot_title t) with
                 | ch :: _ => if is_letter_in ["a"; "e"; "i"; "o"; "u"; "A"; "E"; "I"; "O"; "U"] ch
                              then "an" else "a"
                 | [] => "a"
                 end in
  let body := "is " +:+ article +:+ " " +:+ ot_title t in
  Some (match ot_color t with
        | Some col => BOLD +:+ chr "003" +:+ pad_N 2 col +:+ body +:+ chr "015"
        | None => body
        end).

(** ** Classes and types *)

Record ClassDef := mkClassDef {
  cd_all_commands : bool; cd_commands : list string; cd_all_privs : bool; cd_privs : list string;
  cd_deny_commands : list string; cd_deny_privs : list string; cd_all_snomasks : bool;
  cd_snomasks : string; cd_usermodes : option ModeAllow; cd_chanmodes : option ModeAllow }.

#[export] Instance eta_ClassDef : Eta ClassDef := λ d,
  mkClassDef (cd_all_commands d) (cd_commands d) (cd_all_privs d) (cd_privs d) (cd_deny_commands d)
    (cd_deny_privs d) (cd_all_snomasks d) (cd_snomasks d) (cd_usermodes d) (cd_chanmodes d).

Record TypeDef := mkTypeDef {
  td_title : string; td_all_classes : bool; td_classes : list string; td_all_commands : bool;
  td_commands : list string; td_all_privs : bool; td_privs : list string;
  td_deny_commands : list string; td_deny_privs : list string; td_modes : string;
  td_all_snomasks : bool; td_snomasks : string; td_vhost : option string; td_level : option N;
  td_color : option N; td_usermodes : option ModeAllow; td_chanmodes : option ModeAllow }.

#[export] Instance eta_TypeDef : Eta TypeDef := λ d,
  mkTypeDef (td_title d) (td_all_classes d) (td_classes d) (td_all_commands d) (td_commands d)
    (td_all_privs d) (td_privs d) (td_deny_commands d) (td_deny_privs d) (td_modes d)
    (td_all_snomasks d) (td_snomasks d) (td_vhost d) (td_level d) (td_color d) (td_usermodes d)
    (td_chanmodes d).

Definition default_class : ClassDef := mkClassDef false [] false [] [] [] false "" None None.
Definition default_type : TypeDef :=
  mkTypeDef "" false [] false [] false [] [] [] "" false "" None None None None None.

Record Resolved := mkResolved {
  rv_title : string; rv_color : option N; rv_all_commands : bool; rv_commands : gset string;
  rv_all_privs : bool; rv_privs : gset string; rv_deny_commands : gset string;
  rv_deny_privs : gset string; rv_modes : string; rv_snomasks : option string;
  rv_all_snomasks : bool; rv_vhost : option string; rv_level : option N;
  rv_usermodes : ModeAllow; rv_chanmodes : ModeAllow }.

Definition cdef (cmds prvs : list string) (sno : string) : ClassDef :=
  default_class <| cd_commands := cmds |> <| cd_privs := prvs |> <| cd_snomasks := sno |>.

Definition tdef (title : string) (classes : list string) (all_classes : bool) (modes sno : string)
    (all_sno : bool) (level : N) (color : option N) : TypeDef :=
  default_type <| td_title := title |> <| td_all_classes := all_classes |> <| td_classes := classes |>
    <| td_modes := modes |> <| td_snomasks := sno |> <| td_all_snomasks := all_sno |>
    <| td_level := Some level |> <| td_color := color |>.

Definition builtin_classes : gmap string ClassDef := list_to_map
  [("announce", cdef ["WALLOPS"; "GLOBOPS"] [] "ag");
   ("ban", cdef ["KILL"; "KLINE"; "GLINE"; "ZLINE"; "QLINE"; "ELINE"; "RLINE"; "SHUN"; "CBAN"; "CHECK";
                 "NICKLOCK"; "NICKUNLOCK"] [] "kx");
   ("override", cdef ["SAJOIN"; "SAPART"; "SANICK"; "SAKICK"; "SAMODE"; "SATOPIC"; "SAQUIT"; "CLEARCHAN"]
      ["channels/override"; "users/flood"; "channels/restricted-create"; "channels/ignore-nonicks";
       "users/ignore-restrictmsg"; "servers/ignore-securelist"; "servers/ignore-blockamsg"] "v");
   ("host", cdef ["CHGHOST"; "CHGIDENT"; "CHGNAME"; "SETHOST"; "SETIDENT"; "SETIDLE"; "SWHOIS"] [] "");
   ("services", cdef ["SVSNICK"; "SVSJOIN"; "SVSPART"; "SVSMODE"; "SVSLOGIN"; "SVSLOGOUT"]
      ["users/ignore-noctcp"] "");
   ("server", cdef ["CONNECT"; "SQUIT"; "DIE"; "RESTART"] ["servers/use-disabled-commands"] "lr");
   ("auspex", cdef [] ["users/auspex"; "channels/auspex"; "servers/auspex"; "users/secret-whois";
                       "users/ignore-callerid"; "users/ignore-privdeaf"] "")].

Definition builtin_types : gmap string TypeDef := list_to_map
  [("helpop", tdef "Help Operator" [] false "+ih" "o" false 10 (Some 4%N));
   ("globop", tdef "GlobOp" ["announce"] false "+iw" "acgoq" false 20 (Some 4%N));
   ("admin", tdef "Administrator" ["announce"; "ban"; "override"; "host"] false "+iw" "" true 50 (Some 4%N));
   ("servadmin", tdef "Services Administrator" ["announce"; "ban"; "override"; "host"; "services"] false
      "+iw" "" true 70 (Some 4%N));
   ("netadmin", tdef "Network Administrator" [] true "+iw" "" true 100 (Some 4%N))].

(** ** The configuration's lines *)

Definition parse_modeallow (v : string) : ModeAllow :=
  if contains_byte "*" v then MA_All
  else MA_Only (list_to_set (filter (λ c, char_is is_alphabetic c = true) (chars v))).

Definition merge_modeallow (acc add : option ModeAllow) : option ModeAllow :=
  match add with
  | None => acc
  | Some MA_All => Some MA_All
  | Some (MA_Only l) =>
      match acc with
      | Some MA_All => acc
      | Some (MA_Only l0) => Some (MA_Only (l0 ∪ l))
      | None => Some (MA_Only l)
      end
  end.

(** What a list of tokens adds: everything, allowed names, denied names. *)
Definition fold_token (norm : string → string) (acc : bool * list string * list string) (tok : string)
    : bool * list string * list string :=
  let '(all, allow, deny) := acc in
  if String.eqb tok "*" then (true, allow, deny)
  else match opt_filter (λ r, negb (is_empty r)) (strip_prefix "-" tok) with
       | Some rest => (all, allow, deny ++ [norm rest])
       | None => (all, allow ++ [norm tok], deny)
       end.

Definition fold_tokens (norm : string → string) (v : string) (acc : bool * list string * list string)
    : bool * list string * list string :=
  foldl (fold_token norm) acc (nonempty (map trim (split "," v))).

Definition apply_class_kv (cd : ClassDef) (k v : string) : ClassDef :=
  if String.eqb k "commands" || String.eqb k "cmds" then
    let '(all, allow, deny) :=
      fold_tokens to_ascii_uppercase v (cd_all_commands cd, cd_commands cd, cd_deny_commands cd) in
    cd <| cd_all_commands := all |> <| cd_commands := allow |> <| cd_deny_commands := deny |>
  else if String.eqb k "privs" then
    let '(all, allow, deny) :=
      fold_tokens to_ascii_lowercase v (cd_all_privs cd, cd_privs cd, cd_deny_privs cd) in
    cd <| cd_all_privs := all |> <| cd_privs := allow |> <| cd_deny_privs := deny |>
  else if String.eqb k "snomasks" || String.eqb k "snomask" then
    if contains_byte "*" v then cd <| cd_all_snomasks := true |>
    else cd <| cd_snomasks ::= (λ x, x +:+ v) |>
  else if String.eqb k "usermodes" then cd <| cd_usermodes := Some (parse_modeallow v) |>
  else if String.eqb k "chanmodes" then cd <| cd_chanmodes := Some (parse_modeallow v) |>
  else cd.

Definition color_names : list (string * option N) :=
  [("none", None); ("off", None); ("no", None); ("plain", None); ("white", Some 0%N);
   ("black", Some 1%N); ("blue", Some 2%N); ("green", Some 3%N); ("red", Some 4%N);
   ("brown", Some 5%N); ("magenta", Some 6%N); ("purple", Some 6%N); ("orange", Some 7%N);
   ("yellow", Some 8%N); ("cyan", Some 10%N); ("teal", Some 10%N); ("pink", Some 13%N);
   ("grey", Some 14%N); ("gray", Some 14%N)].

Definition type_color (old : option N) (v : string) : option N :=
  let n := to_ascii_lowercase v in
  match find_first (λ '(name, _), String.eqb name n) color_names with
  | Some (_, col) => col
  | None => opt_or (opt_filter (λ c, (c <=? 15)%N) (parse_uint u8_max n)) old
  end.

Definition apply_type_kv (td : TypeDef) (k v : string) : TypeDef :=
  if String.eqb k "classes" then
    if String.eqb v "*" then td <| td_all_classes := true |>
    else td <| td_classes ::= (λ l, l ++ nonempty (split "," v)) |>
  else if String.eqb k "commands" || String.eqb k "cmds" then
    let '(all, allow, deny) :=
      fold_tokens to_ascii_uppercase v (td_all_commands td, td_commands td, td_deny_commands td) in
    td <| td_all_commands := all |> <| td_commands := allow |> <| td_deny_commands := deny |>
  else if String.eqb k "privs" then
    let '(all, allow, deny) :=
      fold_tokens to_ascii_lowercase v (td_all_privs td, td_privs td, td_deny_privs td) in
    td <| td_all_privs := all |> <| td_privs := allow |> <| td_deny_privs := deny |>
  else if String.eqb k "modes" then td <| td_modes := v |>
  else if String.eqb k "usermodes" then td <| td_usermodes := Some (parse_modeallow v) |>
  else if String.eqb k "chanmodes" then td <| td_chanmodes := Some (parse_modeallow v) |>
  else if String.eqb k "snomasks" || String.eqb k "snomask" then
    if contains_byte "*" v then td <| td_all_snomasks := true |>
    else td <| td_snomasks ::= (λ x, x +:+ v) |>
  else if String.eqb k "vhost" || String.eqb k "host" then td <| td_vhost := Some v |>
  else if String.eqb k "title" then
    td <| td_title := str_map (λ b, if bool_decide (b = "_"%char) then " "%char else b) v |>
  else if String.eqb k "level" then
    match parse_uint u32_max v with Some l => td <| td_level := Some l |> | None => td end
  else if String.eqb k "color" || String.eqb k "colour" then td <| td_color ::= (λ old, type_color old v) |>
  else td.

(** The [key=value] tokens of a line. *)
Definition apply_kvs {A} (kv : A → string → string → A) (toks : list string) (d : A) : A :=
  foldl (λ d tok, match split_once "=" tok with Some (k, v) => kv d k v | None => d end) d toks.

Definition class_line (classes : gmap string ClassDef) (line : string) : gmap string ClassDef :=
  match split_whitespace line with
  | [] => classes
  | id :: toks => <[id := apply_kvs apply_class_kv toks (default default_class (classes !! id))]> classes
  end.

Definition type_line (types : gmap string TypeDef) (line : string) : gmap string TypeDef :=
  match split_whitespace line with
  | [] => types
  | id :: toks =>
      let td := apply_kvs apply_type_kv toks (default default_type (types !! id)) in
      let td := if is_empty (td_title td) then td <| td_title := id |> else td in
      <[id := td]> types
  end.

(** ** What a type grants *)

Record Grant := mkGrant {
  g_all_commands : bool; g_commands : gset string; g_all_privs : bool; g_privs : gset string;
  g_deny_commands : gset string; g_deny_privs : gset string; g_all_sno : bool; g_sno : string;
  g_usermodes : option ModeAllow; g_chanmodes : option ModeAllow }.

(** The body of the loop over the classes of a type. *)
Definition add_class (g : Grant) (cd : ClassDef) : Grant :=
  mkGrant (g_all_commands g || cd_all_commands cd) (g_commands g ∪ list_to_set (cd_commands cd))
    (g_all_privs g || cd_all_privs cd) (g_privs g ∪ list_to_set (cd_privs cd))
    (g_deny_commands g ∪ list_to_set (cd_deny_commands cd))
    (g_deny_privs g ∪ list_to_set (cd_deny_privs cd))
    (g_all_sno g || cd_all_snomasks cd) (g_sno g +:+ cd_snomasks cd)
    (merge_modeallow (g_usermodes g) (cd_usermodes cd))
    (merge_modeallow (g_chanmodes g) (cd_chanmodes cd)).

Definition type_grant (td : TypeDef) : Grant :=
  mkGrant (td_all_commands td || td_all_classes td) (list_to_set (td_commands td))
    (td_all_privs td || td_all_classes td) (list_to_set (td_privs td))
    (list_to_set (td_deny_commands td)) (list_to_set (td_deny_privs td))
    (td_all_snomasks td) (td_snomasks td)
    (if td_all_classes td then Some MA_All else td_usermodes td)
    (if td_all_classes td then Some MA_All else td_chanmodes td).

Definition sno_letter (c : string) : bool := existsb (String.eqb c) (chars DEFAULT_SNOMASK).

Fixpoint sno_dedup (cs seen : list string) : list string :=
  match cs with
  | [] => seen
  | c :: r => sno_dedup r (if sno_letter c && negb (existsb (String.eqb c) seen) then seen ++ [c] else seen)
  end.

Definition resolve (td : TypeDef) (classes : gmap string ClassDef) : Resolved :=
  let names := if td_all_classes td then map fst (map_to_list classes) else td_classes td in
  let g := foldl add_class (type_grant td) (omap (λ n, classes !! n) names) in
  let seen := str_concat (sno_dedup (chars (g_sno g)) []) in
  mkResolved (td_title td) (td_color td) (g_all_commands g) (g_commands g) (g_all_privs g) (g_privs g)
    (g_deny_commands g) (g_deny_privs g) (td_modes td)
    (if g_all_sno g then None else if is_empty seen then None else Some seen)
    (g_all_sno g) (td_vhost td) (td_level td)
    (default MA_All (g_usermodes g)) (default MA_All (g_chanmodes g)).

Definition build_types (c : Core) : gmap string Resolved :=
  let classes := foldl class_line builtin_classes (conf_all c "class") in
  let types := foldl type_line builtin_types (conf_all c "opertype") in
  (λ td, resolve td classes) <$> types.

(** ** Becoming an operator of a type *)

Definition set_snomask (uid : Uid) (letters : string) : Server → Server :=
  let cats := str_concat (filter (λ c, sno_letter c = true) (chars letters)) in
  set_flags uid (λ f, f <| snomask := negb (is_empty cats) |> <| snomask_cats := cats |>).

Definition granted (r : Resolved) : OperType :=
  mkOperType (rv_title r) (rv_color r) (rv_all_commands r) (rv_commands r) (rv_deny_commands r)
    (rv_all_privs r) (rv_privs r) (rv_deny_privs r) (rv_usermodes r) (rv_chanmodes r).

Section opertypes.
Context `{UnicodeLower} `{Outside}.

Definition apply_resolved (uid : Uid) (r : Resolved) (s : Server) : Server :=
  let s := if is_empty (rv_modes r) then s else svs_set_user_modes uid (rv_modes r) s in
  let s := if rv_all_snomasks r then set_snomask uid DEFAULT_SNOMASK s
           else match rv_snomasks r with Some letters => set_snomask uid letters s | None => s end in
  let s := match rv_vhost r with Some h => change_host_ident uid None (Some h) s | None => s end in
  let s := match rv_level r with Some lvl => set_level uid lvl s | None => s end in
  upd (with_user uid (λ u, u <| u_opertype := Some (granted r) |>)) s.

(** The resolved types are rebuilt whenever the configuration has changed, so
    the lookup is in [build_types]. *)
Definition apply_opertype (uid : Uid) (type_id : option string) (s : Server) : Server :=
  match to_ascii_lowercase <$> type_id with
  | None => s
  | Some id =>
      match build_types (core s) !! id with
      | None => snotice_c "o" (trf (core s) "oper type '{0}' is not defined — granting full access" [id]) s
      | Some r => apply_resolved uid r s
      end
  end.

End opertypes.
