(* ===== verification/OperAuth.v ===== *)
(** * Becoming an operator: OPER and CHALLENGE of
    [src/src/coremods/core_oper.rs], the operator blocks of
    [src/src/config.rs], and the answer of a worker in [src/src/ircd.rs] *)

From Stdlib Require Import Ascii.
From S2P Require Import Prelude RustStr Glob Clock I18n Channel Numeric State UserMode CoreMode Watch Users.
From S2P Require Import Membership Account Filter Xline CoreChannel Bcrypt Password Registration OperTypes.

Local Open Scope stdpp_scope.

(** ** Operator blocks *)

Definition is_oper_option (tok : string) : bool :=
  existsb (λ p, starts_with p tok)
    ["password="; "fp="; "certfp="; "type="; "rsakey="; "key="; "ldapdn="].

(** The first of some prefixes a token has, taken off. *)
Definition option_value (keys : list string) (tok : string) : option string :=
  head (omap (λ p, strip_prefix p tok) keys).

Definition oper_token (b : OperBlock) (tok : string) : OperBlock :=
  match option_value ["password="] tok with
  | Some pw => b <| ob_password := pw |>
  | None =>
      match option_value ["fp="; "certfp="] tok with
      | Some fp => b <| ob_fingerprint := Some (to_ascii_lowercase fp) |>
      | None =>
          match option_value ["type="] tok with
          | Some t => b <| ob_type := Some t |>
          | None =>
              match option_value ["rsakey="; "key="] tok with
              | Some k => b <| ob_rsa_key := Some k |>
              | None =>
                  match option_value ["ldapdn="] tok with
                  | Some d => b <| ob_ldap_dn := Some d |>
                  | None =>
                      match parse_uint u32_max tok with
                      | Some l => b <| ob_level := l |>
                      | None => b
                      end
                  end
              end
          end
      end
  end.

Definition has_credential (b : OperBlock) : bool :=
  negb (is_empty (ob_password b)) || is_some (ob_fingerprint b) || is_some (ob_rsa_key b)
  || is_some (ob_ldap_dn b).

(** One [oper = ...] line of the configuration. *)
Definition oper_line (v : string) : option OperBlock :=
  match split_whitespace v with
  | [] => None
  | n :: it =>
      let b := mkOperBlock n "" 0 None None None None in
      let '(b, it) :=
        match it with
        | tok :: rest => if is_oper_option tok then (b, it) else (b <| ob_password := tok |>, rest)
        | [] => (b, it)
        end in
      let b := foldl oper_token b it in
      if has_credential b then Some b else None
  end.

Section oper_auth.
Context `{UnicodeLower} `{Outside} `{Crypto}.

(** ** Granting *)

Definition oper_granted (uid : Uid) (level : N) (otype : option string) (s : Server) : Server :=
  apply_opertype uid otype (set_level uid level (oper_up uid s)).

Definition fp_matches (c : Core) (uid : Uid) (want : string) : bool :=
  map_or false (λ f, eq_ignore_ascii_case f want) (users c !! uid ≫= u_certfp).

Definition wrong_password (uid : Uid) : Handler := refuse uid ERR_PASSWDMISMATCH ":Password incorrect".
Definition need_certificate (uid : Uid) : Handler :=
  refuse uid ERR_PASSWDMISMATCH ":Password incorrect (a matching TLS client certificate is required)".
Definition too_many_attempts (uid : Uid) : Handler :=
  refuse uid ERR_PASSWDMISMATCH ":Too many auth attempts, try again".

Definition find_block (c : Core) (p : OperBlock → bool) : option OperBlock := find_first p (opers c).

(** [str::replace] of a two-byte pattern. *)
Fixpoint replace_pct (s by_ : string) : string :=
  match s with
  | String "%" (String "s" r) => by_ +:+ replace_pct r by_
  | String b r => String b (replace_pct r by_)
  | "" => ""
  end.

(** A check that runs off the core thread. *)
Definition check_later (uid : Uid) (check : Check) (block : OperBlock) : Handler := λ s,
  let '(queued, s) := spawn_crypto (JobOper uid check (ob_level block) (ob_type block)) s in
  if queued then ok s else too_many_attempts uid s.

(** What is left of OPER once the certificate is in order. *)
Definition oper_password (uid : Uid) (pass : string) (block : OperBlock) : Handler := λ s,
  let name := ob_name block in
  match ob_ldap_dn block with
  | Some tmpl =>
      let server := default "" (conf (core s) "ldap_server") in
      if is_empty server then
        wrong_password uid (snotice_c "o" ("Failed OPER for " +:+ name +:+ ": ldap_server is not configured") s)
      else check_later uid
             (CheckLdap server (replace_pct tmpl name) pass (conf_bool (core s) "ldap_tls_verify" true)) block s
  | None =>
      if String.eqb (ob_password block) "*" then ok (oper_granted uid (ob_level block) (ob_type block) s)
      else if is_slow (ob_password block) then check_later uid (CheckHash (ob_password block) pass) block s
      else if verify (ob_password block) pass then ok (oper_granted uid (ob_level block) (ob_type block) s)
      else wrong_password uid s
  end.

Definition oper_cmd (uid : Uid) (name pass : string) : Handler := λ s,
  match find_block (core s) (λ o, String.eqb (ob_name o) name) with
  | None => wrong_password uid s
  | Some block =>
      if map_or false (λ want, negb (fp_matches (core s) uid want)) (ob_fingerprint block) then
        need_certificate uid
          (snotice_c "o" ("Failed OPER for " +:+ name +:+ ": certificate fingerprint mismatch") s)
      else oper_password uid pass block s
  end.

(** The answer of a worker.  A refusal goes to a user who is still there; a
    success is acted on without looking. *)
Definition oper_auth (uid : Uid) (okay : bool) (level : N) (otype : option string) (s : Server) : Server :=
  if okay then oper_granted uid level otype s
  else if is_some (users (core s) !! uid) then numeric uid ERR_PASSWDMISMATCH ":Password incorrect" s
  else s.

(** A worker is done: its slot is free again and its event runs.  What becomes
    of a dialled connection is the socket layer's business. *)
Definition job_done (n : nat) (s : Server) : Server :=
  match jobs (io s) !! n with
  | None => s
  | Some j =>
      let s := s <| io ::= (λ i, i <| jobs ::= delete n |>) |> in
      match j with
      | JobOper uid check level otype => oper_auth uid (run_check check) level otype s
      | JobHash uid algo plain => mkpasswd_result uid algo (make algo plain) s
      | JobClass uid stored sent => class_auth uid (check_sent stored sent) s
      | JobDial _ _ => s
      end
  end.

(** ** CHALLENGE *)

(** The expected answer and the line to send. *)
Definition make_challenge (pem : string) : option (string * string) :=
  key ← opt_or (rsa_pem pem) (rsa_pem_pkcs1 pem);
  secret ← rand_bytes 32;
  d ← digest SHA1 secret;
  ct ← rsa_encrypt_oaep key secret;
  Some (base64_block d, base64_block ct).

Fixpoint chunks_fuel (fuel n : nat) (s : string) : list string :=
  match fuel with
  | 0 => []
  | S f => if is_empty s then [] else str_take n s :: chunks_fuel f n (str_drop n s)
  end.

(** [as_bytes().chunks(300)]. *)
Definition chunks (n : nat) (s : string) : list string := chunks_fuel (str_len s) n s.

Definition rsa_block (name : string) (o : OperBlock) : bool :=
  String.eqb (ob_name o) name && is_some (ob_rsa_key o).

Definition set_challenge (uid : Uid) (c : option RsaChallenge) : Server → Server :=
  upd (with_user uid (λ u, u <| u_challenge := c |>)).

Definition challenge_issue (uid : Uid) (name : string) : Handler := λ s,
  match find_block (core s) (rsa_block name) with
  | None => refuse uid ERR_PASSWDMISMATCH ":CHALLENGE is not available for that name" s
  | Some block =>
      path ← ob_rsa_key block;
      match read_file path with
      | None =>
          refuse uid ERR_PASSWDMISMATCH ":CHALLENGE key unavailable"
            (snotice_c "o" ("CHALLENGE for " +:+ name +:+ ": cannot read key file " +:+ path) s)
      | Some pem =>
          match make_challenge pem with
          | None =>
              refuse uid ERR_PASSWDMISMATCH ":CHALLENGE key unavailable"
                (snotice_c "o" ("CHALLENGE for " +:+ name +:+ ": invalid public key") s)
          | Some (expected, challenge) =>
              let s := set_challenge uid (Some (mkRsaChallenge name expected (clock (core s)))) s in
              let s := for_each (chunks 300 challenge) (λ ch, numeric uid RPL_RSACHALLENGE2 (":" +:+ ch)) s in
              ok (numeric uid RPL_ENDOFRSACHALLENGE2 ":End of CHALLENGE" s)
          end
      end
  end.

Definition challenge_response (uid : Uid) (resp : string) : Handler := λ s,
  match users (core s) !! uid ≫= u_challenge with
  | None => refuse uid ERR_PASSWDMISMATCH ":No CHALLENGE in progress" s
  | Some pending =>
      let s := set_challenge uid None s in
      if (60 <? clock (core s) - rc_at pending)%N then
        refuse uid ERR_PASSWDMISMATCH ":CHALLENGE timed out" s
      else if negb (ct_eq resp (rc_expected pending)) then
        wrong_password uid (snotice_c "o" ("Failed CHALLENGE for " +:+ rc_name pending) s)
      else match find_block (core s) (rsa_block (rc_name pending)) with
      | None => wrong_password uid s
      | Some block =>
          if map_or false (λ want, negb (fp_matches (core s) uid want)) (ob_fingerprint block) then
            need_certificate uid s
          else ok (oper_granted uid (ob_level block) (ob_type block) s)
      end
  end.

Definition challenge_cmd (uid : Uid) (arg : string) : Handler :=
  match strip_prefix "+" arg with
  | Some resp => challenge_response uid resp
  | None => challenge_issue uid arg
  end.

End oper_auth.
