(* ===== verification/RegisterFacts.v ===== *)
(** * Registration keeps the tables consistent

    The welcome, the choice of a connection class and the checks before a
    welcome leave the tables consistent; what a class demands is enforced. *)

From Stdlib Require Import Ascii.
From S2P Require Import Prelude RustStr Glob Clock I18n Channel Numeric State Mode UserMode CoreMode Ban.
From S2P Require Import ConnClass Membership Watch Users Xline CoreChannel Filter Welcome Password Registration.
From S2P Require Import Tables ModeTables MembershipTables JoinFacts LeaveFacts ListFacts UserFacts XlineFacts.

Local Open Scope stdpp_scope.

Lemma spawn_core j s : core (spawn_crypto j s).2 = core s.
Proof. unfold spawn_crypto. by destruct (_ <=? _). Qed.

#[export] Instance with_session_stable uid f : StableTables (with_session uid f).
Proof. intros s. by apply same_with_user. Qed.

Lemma registered_same c c' uid : same_tables c c' → uget u_registered c uid = uget u_registered c' uid.
Proof. intros Hs. apply (uget_via _ ushape (λ x, x.1.1.1.2)); [done|apply Hs]. Qed.

Lemma count_total c p : count_users c p = total (λ u, if p u then 1%N else 0%N) (users c).
Proof.
  unfold count_users, total. rewrite map_fold_foldr. induction (map_to_list (users c)) as [|[i u] l IH]; [done|].
  rewrite filter_cons. cbn [foldr fst snd uncurry]. rewrite <-IH.
  case_decide as E; destruct (p u); try done; cbn [length]; lia.
Qed.

(** The counter of unregistered connections is a count. *)
Lemma count_unregistered c : wf c → unreg_count c = count_users c (λ u, negb (u_registered u)).
Proof.
  intros W. rewrite count_total, (wf_pool _ W). apply total_ext. intros u. unfold compose, pending.
  by destruct (u_registered u).
Qed.

(** So are the three clone counters. *)
Lemma count_keyed {K} `{Countable K} (m : gmap K N) key c k :
  counts m key c → default 0%N (m !! k) = count_users c (λ u, bool_decide (key u = Some k)).
Proof.
  intros Hc. rewrite count_total, (proj1 (Hc k)). apply total_ext. intros u. unfold one, hit, compose.
  by rewrite decide_bool_decide.
Qed.

Section register_facts.
Context `{UnicodeLower} `{Outside} `{Crypto}.

(** ** The welcome *)

#[local] Instance tell_out uid nick m : Outputs (tell uid nick m).
Proof. intros s. apply send_outputs. Qed.

Lemma send_isupport_stable uid b : StableTables (send_isupport uid b).
Proof.
  intros s. unfold send_isupport. destruct b.
  - unfold next_msgid. cbn zeta. rewrite send_outputs, for_each_outputs, send_outputs; [by split|].
    intros x s'. apply send_outputs.
  - rewrite for_each_outputs; [done|]. intros x s'. apply numeric_outputs.
Qed.

Lemma send_lusers_stable uid : StableTables (send_lusers uid).
Proof. intros s. unfold send_lusers. cbn zeta. rewrite !numeric_outputs. by split. Qed.

Lemma send_motd_outputs uid : Outputs (send_motd uid).
Proof.
  intros s. unfold send_motd. destruct (s_motd _); [apply numeric_outputs|]. cbn zeta.
  rewrite numeric_outputs, for_each_outputs, numeric_outputs; [done|]. intros x s'. apply numeric_outputs.
Qed.

Lemma greet_stable uid : StableTables (greet uid).
Proof.
  intros s. unfold greet. cbn zeta. rewrite for_each_outputs by (intros x s'; apply tell_out).
  rewrite send_motd_outputs. etrans; [|apply send_lusers_stable]. etrans; [|apply send_isupport_stable].
  by rewrite !numeric_outputs.
Qed.

Lemma join_all_wf uid l s :
  uget u_registered (core s) uid = Some true → wf (core s) →
  wf (core (for_each l (λ chan, join uid chan None) s)) ∧
  uget u_registered (core (for_each l (λ chan, join uid chan None) s)) uid = Some true.
Proof.
  unfold for_each. revert s. induction l as [|k l IH]; intros s Hr W; cbn [foldl]; [done|].
  destruct (join_wf uid k None s Hr W) as [W' Hr']. by apply IH.
Qed.

Lemma register_registered uid c : is_Some (users c !! uid) → uget u_registered (register_tables uid c) uid = Some true.
Proof.
  intros [u Hu]. unfold register_tables, uget. rewrite Hu. cbn [map_or].
  destruct (negb _); cbn; by rewrite lookup_alter_eq, Hu.
Qed.

Lemma welcomed_same uid s : same_tables (register_tables uid (core s)) (core (welcomed uid s)).
Proof.
  unfold welcomed. cbn zeta. set (s1 := greet _ _). set (s2 := match opt_or _ _ with Some _ => _ | None => _ end).
  assert (same_tables (register_tables uid (core s)) (core s2)) as E.
  { etrans; [apply (greet_stable uid (upd (register_tables uid) s))|]. fold s1. unfold s2.
    destruct (opt_or _ _); [apply svs_set_user_modes_stable|done]. }
  etrans; [exact E|]. destruct (users _ !! uid); [rewrite publish_event_outputs|];
    by rewrite push_event_outputs, watch_notify_online_outputs.
Qed.

Lemma welcome_wf uid s : is_Some (users (core s) !! uid) → wf (core s) → wf (core (welcome uid s)).
Proof.
  intros Hu W. unfold welcome. destruct (require_auth_check _ _).
  - apply remove_user_wf. by rewrite send_outputs, tell_out.
  - pose proof (welcomed_same uid s) as E. cbn zeta. apply join_all_wf.
    + rewrite <-(registered_same _ _ uid E). by apply register_registered.
    + eapply wf_proper; [exact E|]. by apply register_wf.
Qed.

(** ** Choosing a class *)

Lemma pick_from_core uid cl l s : core (pick_from uid cl l s).2 = core s.
Proof.
  revert s. induction l as [|cc l IH]; intros s; cbn [pick_from]; [done|].
  destruct (class_fits cc cl); cbn [negb]; [|apply IH]. destruct (cc_deny cc); [done|].
  destruct (class_full _ _ _); [|done]. rewrite IH. destruct (cc_maxconnwarn cc); [apply snotice_c_outputs|done].
Qed.

Lemma pick_core uid cl s : core (pick uid cl s).2 = core s.
Proof. apply pick_from_core. Qed.

#[local] Instance warn_outputs cc ip why : Outputs (warn_refused cc ip why).
Proof. intros s. unfold warn_refused. destruct (cc_maxconnwarn cc); [apply snotice_c_outputs|done]. Qed.

Lemma assign_wf uid s : wf (core s) → wf (core (assign uid s).2).
Proof.
  intros W. unfold assign. destruct (users (core s) !! uid) as [u|]; [|done].
  pose proof (pick_core uid (client_of u "") s) as E. destruct (pick _ _ _) as [p s'] eqn:Ep. cbn [snd] in E.
  rewrite <-E in W. destruct p as [n|cc|]; [done| |by destruct (_ || _)].
  destruct (over_local _ _ _ _); [cbn [snd]; by rewrite warn_outputs|].
  destruct (over_global _ _ _ _); [cbn [snd]; by rewrite warn_outputs|].
  by apply set_class_wf.
Qed.

#[local] Instance finish_register_stable uid : StableTables (finish_register uid).
Proof. intros s. unfold finish_register. destruct (_ ≫= _); [apply svs_set_user_modes_stable|done]. Qed.

Lemma class_password_same uid sent cc s : same_tables (core s) (core (class_password uid sent cc s).2).
Proof.
  unfold class_password. destruct (cc_password cc) as [pw|]; [|apply finish_register_stable].
  destruct (is_slow pw).
  - pose proof (spawn_core (JobClass uid pw sent) s) as E. destruct (spawn_crypto _ _) as [b s']. cbn in E.
    destruct b; cbn [negb snd]; [|by rewrite E]. rewrite <-E. apply with_session_stable.
  - destruct (check_sent pw sent); [apply finish_register_stable|done].
Qed.

Lemma class_checks_same uid u s : same_tables (core s) (core (class_checks uid u s).2).
Proof.
  unfold class_checks. destruct (class_of _ _); [|done]. destruct (_ || _); [done|]. destruct (_ && _); [done|].
  apply class_password_same.
Qed.

(** What [on_register] starts from once the class has been chosen. *)
Definition reclassed (uid : Uid) (u : User) (s : Server) : Server :=
  let '(p, s) := pick uid (client_of u (u_host u)) s in
  match p with PickClass cc => upd (set_class uid (cc_name cc)) s | _ => s end.

Lemma reclassed_wf uid u s : wf (core s) → wf (core (reclassed uid u s)).
Proof.
  intros W. unfold reclassed. pose proof (pick_core uid (client_of u (u_host u)) s) as E.
  destruct (pick _ _ _) as [p s']. cbn in E. rewrite <-E in W. destruct p; [done|by apply set_class_wf|done].
Qed.

Lemma on_register_same uid u s :
  users (core s) !! uid = Some u → same_tables (core (reclassed uid u s)) (core (on_register uid s).2).
Proof.
  intros Hu. unfold on_register, reclassed. rewrite Hu. destruct (pick _ _ _) as [p s'].
  destruct p; [done|apply class_checks_same..].
Qed.

Lemma on_register_wf uid s : wf (core s) → wf (core (on_register uid s).2).
Proof.
  intros W. destruct (users (core s) !! uid) as [u|] eqn:Hu.
  - eapply wf_proper; [by apply on_register_same|]. by apply reclassed_wf.
  - unfold on_register. by rewrite Hu.
Qed.

(** ** The checks before a welcome *)

Lemma present_same c c' uid : same_tables c c' → is_Some (users c !! uid) → is_Some (users c' !! uid).
Proof.
  intros Hs [u Hu]. pose proof (registered_same _ _ uid Hs) as E. unfold uget in E. rewrite Hu in E.
  destruct (users c' !! uid); [done|]. by inversion E.
Qed.

Lemma set_class_present uid i name c : is_Some (users c !! i) → is_Some (users (set_class uid name c) !! i).
Proof.
  intros Hi. unfold set_class. destruct (users c !! uid) as [u|]; [|done]. case_bool_decide; [done|].
  assert (∀ c', users c' = users c → is_Some (users (with_user uid (λ u, u <| u_class := Some name |>) c') !! i)) as Hw.
  { intros c' E. unfold with_user; cbn. rewrite E. by apply lookup_alter_is_Some. }
  apply Hw. by destruct (u_class u).
Qed.

Lemma reclassed_present uid u s : is_Some (users (core s) !! uid) → is_Some (users (core (reclassed uid u s)) !! uid).
Proof.
  intros Hu. unfold reclassed. pose proof (pick_core uid (client_of u (u_host u)) s) as E.
  destruct (pick _ _ _) as [p s']. cbn in E. rewrite <-E in Hu. destruct p; [done|by apply set_class_present|done].
Qed.

Lemma on_register_present uid s :
  is_Some (users (core s) !! uid) → is_Some (users (core (on_register uid s).2) !! uid).
Proof.
  intros [u Hu]. eapply present_same; [by apply on_register_same|]. by apply reclassed_present; rewrite Hu.
Qed.

Lemma turned_away_wf uid reason s : wf (core s) → wf (core (reject_link uid reason s)).
Proof. intros W. apply remove_user_wf. by rewrite send_outputs, numeric_outputs. Qed.

Lemma admit_class_wf uid s : is_Some (users (core s) !! uid) → wf (core s) → wf (core (admit_class uid s)).
Proof.
  intros Hu W. unfold admit_class. pose proof (on_register_wf uid s W) as W'.
  pose proof (on_register_present uid s Hu) as Hu'. destruct (on_register uid s) as [o s']. cbn in W', Hu'.
  destruct o; [by apply welcome_wf|by apply turned_away_wf|done].
Qed.

Lemma finalize_same uid s : same_tables (core s) (core (finalize uid s).2).
Proof.
  unfold finalize. cbn zeta. destruct (session _ _ ≫= _) as [[name|]|]; destruct (_ && _); try done;
    by apply same_with_user.
Qed.

(** The checks never meet the panic of an index into the user table, and keep
    the tables consistent. *)
Lemma admit_fine uid s :
  is_Some (users (core s) !! uid) → wf (core s) → ∃ s', final_checks uid s = Some s' ∧ wf (core s').
Proof.
  intros [u Hu] W. unfold final_checks. rewrite Hu. cbn [mbind option_bind].
  destruct (matched_xline _ _ _ _); [eexists; split; [done|by apply refuse_wf]|].
  pose proof (finalize_same uid s) as E. destruct (finalize uid s) as [r s']. cbn [snd] in E.
  assert (wf (core s')) as W' by (by eapply wf_proper).
  destruct (present_same _ _ uid E) as [u' Hu']; [by rewrite Hu|].
  destruct r; [eexists; split; [done|]; apply remove_user_wf; by rewrite send_outputs|].
  rewrite Hu'. cbn [mbind option_bind]. eexists. split; [done|].
  destruct (matched_rline _ _ _ _ _ _); [by apply refuse_wf|]. apply admit_class_wf; [by rewrite Hu'|done].
Qed.

Lemma class_auth_wf uid okay s : wf (core s) → wf (core (class_auth uid okay s)).
Proof.
  intros W. unfold class_auth. cbn zeta. set (s1 := with_session _ _ s).
  assert (wf (core s1)) as W1 by (eapply wf_proper, W; apply with_session_stable).
  destruct (map_or _ _ _) eqn:Eh; cbn [negb]; [|done]. destruct okay; [|by apply turned_away_wf].
  apply welcome_wf; [|eapply wf_proper, W1; apply finish_register_stable].
  eapply present_same; [apply finish_register_stable|]. eapply present_same; [apply with_session_stable|].
  unfold session in Eh. by destruct (users (core s) !! uid).
Qed.

(** The recount of every tick changes nothing in a consistent state. *)
Lemma guard_tick_same s : wf (core s) → same_tables (core s) (core (guard_tick s)).
Proof.
  intros W. unfold guard_tick. cbn zeta. rewrite <-(count_unregistered _ W).
  set (s1 := upd _ s). assert (same_tables (core s) (core s1)) as E by by split.
  destruct (_ && negb _); [by rewrite snotice_c_outputs|]. destruct (_ && _); [by rewrite snotice_c_outputs|done].
Qed.

(** ** What a class demands is enforced *)

(** A class [pick] goes past: it does not fit, or it is full. *)
Definition passed (c : Core) (uid : Uid) (cl : Client) (cc : ConnClass) : Prop :=
  class_fits cc cl = true → cc_deny cc = false ∧ class_full c cc uid = true.

(** The first class that fits and is not full, unless a class that fits denies. *)
Definition picks (c : Core) (uid : Uid) (cl : Client) (l : list ConnClass) (p : Pick) : Prop :=
  match p with
  | PickNone => Forall (passed c uid cl) l
  | PickDeny name => ∃ l1 cc l2, l = l1 ++ cc :: l2 ∧ Forall (passed c uid cl) l1
      ∧ (class_fits cc cl, cc_deny cc, cc_name cc) = (true, true, name)
  | PickClass cc => ∃ l1 l2, l = l1 ++ cc :: l2 ∧ Forall (passed c uid cl) l1
      ∧ (class_fits cc cl, cc_deny cc, class_full c cc uid) = (true, false, false)
  end.

Lemma picks_cons c uid cl cc l p : passed c uid cl cc → picks c uid cl l p → picks c uid cl (cc :: l) p.
Proof.
  intros Hc. destruct p as [n|c0|]; cbn.
  - intros (l1 & c0 & l2 & -> & Hl & E). exists (cc :: l1), c0, l2. split; [done|]. by split; [constructor|].
  - intros (l1 & l2 & -> & Hl & E). exists (cc :: l1), l2. split; [done|]. by split; [constructor|].
  - by constructor.
Qed.

Lemma pick_from_picks uid cl l s : picks (core s) uid cl l (pick_from uid cl l s).1.
Proof.
  revert s. induction l as [|cc l IH]; intros s; cbn [pick_from]; [by constructor|].
  destruct (class_fits cc cl) eqn:Ef; cbn [negb]; [|apply picks_cons, IH; unfold passed; by rewrite Ef].
  destruct (cc_deny cc) eqn:Ed; [exists [], cc, l; by rewrite Ef, Ed|].
  destruct (class_full _ _ _) eqn:El; [|exists [], l; by rewrite Ef, Ed, El].
  set (s1 := if cc_maxconnwarn cc then _ else _).
  assert (core s1 = core s) as E by (unfold s1; destruct (cc_maxconnwarn cc); [apply snotice_c_outputs|done]).
  specialize (IH s1). rewrite E in IH. apply picks_cons; [|done]. unfold passed. by rewrite Ed, El.
Qed.

(** ** The limits of a class *)

Definition from_ip (ip : string) (u : User) : bool := bool_decide (u_ip u = ip).
Definition in_class (name : string) (u : User) : bool := bool_decide (u_class u = Some name).

(** The users a class and an address may have, the newcomer included. *)
Definition within_limits (c : Core) (cc : ConnClass) (ip : string) : Prop :=
  (∀ max, cc_limit cc = Some max → (count_users c (in_class (cc_name cc)) <= max)%N)
  ∧ (∀ max, cc_localmax cc = Some max →
       (count_users c (λ u, from_ip ip u && in_class (cc_name cc) u) <= max)%N)
  ∧ (∀ max, cc_globalmax cc = Some max →
       (count_users c (from_ip ip)
        + N.of_nat (length (filter (λ '(_, ru), ru_ip ru = ip) (map_to_list (remote_users c)))) <= max)%N).

Lemma count_joined uid u p name c :
  users c !! uid = Some u → u_class u = None →
  (count_users (set_class uid name c) p + (if p u then 1 else 0)
   = count_users c p + (if p (u <| u_class := Some name |>) then 1 else 0))%N.
Proof.
  intros Hu Hn. rewrite !count_total. unfold set_class. rewrite Hu, Hn, bool_decide_eq_false_2 by done.
  by apply (total_alter (λ u, if p u then 1%N else 0%N)).
Qed.

Lemma count_ext c p q : (∀ u, p u = q u) → count_users c p = count_users c q.
Proof. intros E. rewrite !count_total. apply total_ext. intros u. by rewrite E. Qed.

Lemma in_ip_class ip name v : bool_decide (ip_class_key v = Some (ip, name)) = from_ip ip v && in_class name v.
Proof.
  apply eq_true_iff_eq. unfold from_ip, in_class. rewrite bool_decide_eq_true, andb_true_iff, !bool_decide_eq_true.
  unfold ip_class_key. destruct (u_class v); cbn; [|naive_solver]. split; [by intros [= -> ->]|by intros [-> [= ->]]].
Qed.

(** What the counters say of the others, for a connection without a class. *)
Section newcomer.
Variables (c : Core) (uid : Uid) (u : User).
Hypotheses (W : wf c) (Hu : users c !! uid = Some u) (Hn : u_class u = None).

Lemma class_count_others name : class_count c name uid = count_users c (in_class name).
Proof using W Hu Hn.
  destruct (wf_count _ W) as (_ & C2 & _). unfold class_count. rewrite (count_keyed _ _ _ _ C2), Hu.
  rewrite bool_decide_eq_false_2 by (cbn; by rewrite Hn). apply N.sub_0_r.
Qed.

Lemma local_clones_others ip name :
  local_clones c ip name uid = count_users c (λ v, from_ip ip v && in_class name v).
Proof using W Hu Hn.
  destruct (wf_count _ W) as (_ & _ & C3). unfold local_clones. rewrite (count_keyed _ _ _ _ C3), Hu. cbn [map_or].
  rewrite bool_decide_eq_false_2 by (unfold ip_class_key; by rewrite Hn). rewrite N.sub_0_r.
  apply count_ext. intros v. apply in_ip_class.
Qed.

Lemma global_clones_others :
  (global_clones c (u_ip u) uid + 1
   = count_users c (from_ip (u_ip u))
     + N.of_nat (length (filter (λ '(_, ru), ru_ip ru = u_ip u) (map_to_list (remote_users c)))))%N.
Proof using W Hu.
  destruct (wf_count _ W) as (C1 & _). unfold global_clones. rewrite (count_keyed _ _ _ _ C1), Hu.
  cbn [map_or]. rewrite String.eqb_refl.
  assert (count_users c (λ v, bool_decide (ip_key v = Some (u_ip u))) = count_users c (from_ip (u_ip u))) as ->.
  { apply count_ext. intros v. unfold from_ip, ip_key. by apply bool_decide_ext; split; [intros [= ->]|intros ->]. }
  assert (1 <= count_users c (from_ip (u_ip u)))%N; [|lia]. rewrite count_total.
  etrans; [|by apply (total_le _ uid u)]. unfold from_ip. by rewrite bool_decide_eq_true_2.
Qed.

Lemma assigned_limits cc :
  class_full c cc uid = false → over_local c cc (u_ip u) uid = false → over_global c cc (u_ip u) uid = false →
  within_limits (set_class uid (cc_name cc) c) cc (u_ip u).
Proof using W Hu Hn.
  unfold class_full, over_local, over_global. intros Hf Hl Hg.
  assert (∀ p, count_users (set_class uid (cc_name cc) c) p <= count_users c p + 1)%N as Hj.
  { intros p. pose proof (count_joined uid u p (cc_name cc) c Hu Hn) as E. destruct (p u), (p _); lia. }
  split_and!; intros max Hm; rewrite Hm in *; cbn [map_or] in *.
  - apply N.leb_gt in Hf. rewrite class_count_others in Hf. specialize (Hj (in_class (cc_name cc))). lia.
  - apply N.leb_gt in Hl. rewrite local_clones_others in Hl.
    specialize (Hj (λ v, from_ip (u_ip u) v && in_class (cc_name cc) v)). lia.
  - apply N.leb_gt in Hg. pose proof global_clones_others as E.
    pose proof (count_joined uid u (from_ip (u_ip u)) (cc_name cc) c Hu Hn) as E2.
    change (from_ip (u_ip u) (u <| u_class := Some (cc_name cc) |>)) with (from_ip (u_ip u) u) in E2.
    assert (remote_users (set_class uid (cc_name cc) c) = remote_users c) as ->; [|lia].
    unfold set_class. rewrite Hu, Hn. by case_bool_decide.
Qed.
End newcomer.

(** C18: A class given at connect time is one of the configured classes, fits the client, is
    not a deny class, and neither the class nor the client's address is over the limits
    of that class, the newcomer counted. *)
Theorem assign_limits uid u s s' name :
  wf (core s) → users (core s) !! uid = Some u → u_class u = None →
  assign uid s = (None, s') → uget u_class (core s') uid = Some (Some name) →
  ∃ cc, cc ∈ all_classes (core s) ∧ cc_name cc = name ∧ class_fits cc (client_of u "") = true
    ∧ cc_deny cc = false ∧ within_limits (core s') cc (u_ip u).
Proof.
  intros W Hu Hn Ha Hc. unfold assign in Ha. rewrite Hu in Ha.
  pose proof (pick_core uid (client_of u "") s) as E. unfold pick in Ha, E.
  pose proof (pick_from_picks uid (client_of u "") (all_classes (core s)) s) as Hp.
  destruct (pick_from _ _ _ _) as [p s1]. cbn [fst snd] in E, Hp.
  assert (core s' ≠ core s) as Hsame.
  { intros E'. rewrite E' in Hc. unfold uget in Hc. rewrite Hu in Hc. cbn in Hc. congruence. }
  destruct p as [n|cc|]; [done| |].
  - rewrite E in Ha. destruct (over_local _ _ _ _) eqn:El; [done|]. destruct (over_global _ _ _ _) eqn:Eg; [done|].
    injection Ha as <-. rewrite core_upd, E in *. destruct Hp as (l1 & l2 & El' & _ & [= Hfit Hdeny Hfull]).
    exists cc. split_and!; [rewrite El'; set_solver| |done|done|by apply assigned_limits].
    unfold uget, set_class in Hc. rewrite Hu, Hn, bool_decide_eq_false_2 in Hc by done. cbn in Hc.
    rewrite lookup_alter_eq, Hu in Hc. cbn in Hc. congruence.
  - destruct (_ || _) in Ha; [|done]. injection Ha as <-. by destruct Hsame.
Qed.

(** ** What a client has to show *)

Definition class_satisfied (u : User) (cc : ConnClass) : Prop :=
  (∀ pw, cc_password cc = Some pw → ∃ sent, ss_pass (u_session u) = Some sent ∧ verify pw sent = true)
  ∧ (cc_ssl_trusted cc = true → is_Some (u_certfp u)).

Lemma check_sent_true stored sent : check_sent stored sent = true → ∃ p, sent = Some p ∧ verify stored p = true.
Proof. unfold check_sent. destruct sent as [p|]; [|done]. by exists p. Qed.

Lemma class_checks_proceed uid u s s' cc :
  class_checks uid u s = (Proceed, s') → class_of (core s) uid = Some cc → class_satisfied u cc.
Proof.
  unfold class_checks. intros Hp Hc. rewrite Hc in Hp. destruct (_ || _); [done|].
  destruct (cc_ssl_trusted cc && _) eqn:Et; [done|]. split.
  - intros pw Hpw. unfold class_password in Hp. rewrite Hpw in Hp. destruct (is_slow pw).
    + destruct (spawn_crypto _ _) as [b s1]. by destruct b.
    + destruct (check_sent _ _) eqn:Ev; [|done]. by apply check_sent_true.
  - intros Ht. rewrite Ht in Et. by destruct (u_certfp u).
Qed.

Lemma on_register_proceed uid u s s' :
  users (core s) !! uid = Some u → on_register uid s = (Proceed, s') →
  (∀ name, (pick uid (client_of u (u_host u)) s).1 ≠ PickDeny name)
  ∧ (∀ cc, class_of (core (reclassed uid u s)) uid = Some cc → class_satisfied u cc).
Proof.
  intros Hu Ho. unfold on_register in Ho. rewrite Hu in Ho. unfold reclassed. destruct (pick _ _ _) as [p s1].
  destruct p; [done|split; [done|]; intros cc'; by eapply class_checks_proceed..].
Qed.

Lemma removed_unregistered uid reason s : uget u_registered (core (remove_user uid reason s)) uid = None.
Proof.
  pose proof (remove_user_identity uid reason s uid) as E. rewrite decide_True in E by done.
  unfold uget in *. by destruct (users (core (remove_user uid reason s)) !! uid).
Qed.

Lemma reject_unregistered uid reason s : uget u_registered (core (reject_link uid reason s)) uid = None.
Proof. apply removed_unregistered. Qed.

Lemma refused_unregistered uid reason s : uget u_registered (core (refuse_banned uid reason s)) uid = None.
Proof. apply removed_unregistered. Qed.

Lemma set_class_registered uid name c i : uget u_registered (set_class uid name c) i = uget u_registered c i.
Proof.
  unfold set_class. destruct (users c !! uid); [|done]. case_bool_decide; [done|].
  rewrite uget_with_user_ne by done. by destruct (u_class u).
Qed.

Lemma on_register_registered uid s : uget u_registered (core (on_register uid s).2) uid = uget u_registered (core s) uid.
Proof.
  destruct (users (core s) !! uid) as [u|] eqn:Hu; [|unfold on_register; by rewrite Hu].
  rewrite <-(registered_same _ _ uid (on_register_same uid u s Hu)). unfold reclassed.
  pose proof (pick_core uid (client_of u (u_host u)) s) as E. destruct (pick _ _ _) as [p s']. cbn in E.
  destruct p; rewrite ?core_upd, ?set_class_registered; by rewrite E.
Qed.

Lemma admit_class_registers uid s :
  uget u_registered (core s) uid ≠ Some true → uget u_registered (core (admit_class uid s)) uid = Some true →
  ∃ s', on_register uid s = (Proceed, s').
Proof.
  intros Hn Hr. unfold admit_class in Hr. pose proof (on_register_registered uid s) as E.
  destruct (on_register uid s) as [o s']. cbn in E. destruct o; [by exists s'|by rewrite reject_unregistered in Hr|].
  by rewrite E in Hr.
Qed.


End register_facts.
