(* ===== verification/Link.v ===== *)
(** * Linked servers: users and the life of a link ([src/src/link.rs])

    The registry of links and servers, the handshake with its burst, the remote
    users and what changes them, nick collisions, and netsplits.  The lines about
    channels are in [LinkChannel], the services lines and the dispatcher in
    [LinkServices]. *)

From Stdlib Require Import Ascii.
From S2P Require Import Prelude RustStr Message Glob Clock I18n Channel Numeric Regex State Mode UserMode.
From S2P Require Import CoreMode Ban Membership Watch Users Xline Account CoreChannel CoreMessage Filter.

Local Open Scope stdpp_scope.

(** [s.get(..3)]: the first three bytes, when that is a boundary between
    characters. *)
Definition get_sid (t : string) : option string :=
  if str_len t <? 3 then None
  else match String.get 3 t with
       | Some b => if (128 <=? byte_val b)%N && (byte_val b <? 192)%N then None else Some (str_take 3 t)
       | None => Some t
       end.

Definition valid_sid (t : string) : bool :=
  (str_len t =? 3) && map_or false is_digit (String.get 0 t)
  && str_all (λ b, is_upper b || is_digit b) t.

Definition with_link (uid : Uid) (f : Link → Link) (c : Core) : Core := c <| links ::= alter f uid |>.

Definition with_remote (uuid : string) (f : RemoteUser → RemoteUser) (c : Core) : Core :=
  c <| remote_users ::= alter f uuid |>.

(** ** Names *)

Definition uuid_prefix (c : Core) (uuid : string) : option string :=
  match remote_users c !! uuid with
  | Some ru => Some (ru_prefix ru)
  | None => user_prefix <$> (uid ← uuid_local c !! uuid; users c !! uid)
  end.

(** The prefix a source is shown with: a user's mask or a server's name. *)
Definition source_prefix (c : Core) (src : string) : option string :=
  opt_or (uuid_prefix c src) (rs_name <$> servers c !! src).

Definition uuid_to_nick (c : Core) (tok : string) : string :=
  match remote_users c !! tok with
  | Some ru => ru_nick ru
  | None => map_or tok u_nick (uid ← uuid_local c !! tok; users c !! uid)
  end.

(** A network id or a nick, as a local user. *)
Definition link_local_target (c : Core) (target : string) : option Uid :=
  opt_or (uuid_local c !! target) (find_nick c target).

(** A network id or a nick, as the id of a remote user. *)
Definition remote_target (c : Core) (target : string) : option string :=
  if is_some (remote_users c !! target) then Some target
  else remote_nick c !! to_ascii_lowercase target.

Definition forward_to_target (target : string) (msg : Message) (from : Uid) (s : Server) : Server :=
  match link_toward (core s) target with
  | Some v => if bool_decide (v = from) then s else link_out v (to_wire msg) s
  | None => s
  end.

(** Whether a remote user is reached through the link. *)
Definition sourced_via (c : Core) (uuid : string) (via : Uid) : bool :=
  bool_decide (ru_via <$> remote_users c !! uuid = Some via).

(** ** Services *)

Fixpoint uline_find (name : string) (entries : list string) : bool * bool :=
  match entries with
  | [] => (false, false)
  | line :: entries =>
      match split_whitespace line with
      | n :: ts =>
          if eq_ignore_ascii_case n name
          then (true, existsb (λ t, eq_ignore_ascii_case t "silent") ts)
          else uline_find name entries
      | [] => uline_find name entries
      end
  end.

(** Whether a server name is a services server, and whether it is silent. *)
Definition uline_match (c : Core) (name : string) : bool * bool :=
  if negb (is_empty (sasl_server c)) && eq_ignore_ascii_case name (sasl_server c) then (true, false)
  else uline_find name (conf_all c "uline").

Definition server_is_service (c : Core) (sid : string) : bool :=
  map_or false rs_service (servers c !! sid).

Definition source_is_service (c : Core) (msg : Message) : bool :=
  match source msg with
  | Some src => server_is_service c (default src (get_sid src))
  | None => false
  end.

Definition uuid_is_service (c : Core) (uuid : string) : bool :=
  map_or false (λ ru, server_is_service c (ru_sid ru)) (remote_users c !! uuid).

(** ** Telling local users about a remote one *)

(** The local members of the channels a remote user is in. *)
Definition common_local (c : Core) (uuid : string) : gset Uid :=
  ⋃ (map (λ ch, dom (members ch))
       (filter (λ ch, is_some (rmembers ch !! uuid) = true) (map snd (map_to_list (channels c))))).

Definition notify_common_local_if (uuid line : string) (want : Caps → bool) (s : Server) : Server :=
  for_each (elements (common_local (core s) uuid)) (λ m s,
    if map_or false (λ u, want (u_caps u)) (users (core s) !! m) then send m line s else s) s.

Definition notify_common_local (uuid line : string) : Server → Server :=
  notify_common_local_if uuid line (λ _, true).

(** ** Netsplits *)

(** Out of every channel. *)
Definition leave_channels (uuid : string) (c : Core) : Core :=
  c <| channels ::= fmap (λ ch, ch <| rmembers ::= delete uuid |>) |>.

Definition forget_remote (uuid nick : string) (c : Core) : Core :=
  c <| remote_users ::= delete uuid |> <| remote_nick ::= delete (to_ascii_lowercase nick) |>.

Definition drop_remote_user (uuid reason : string) (s : Server) : Server :=
  match remote_users (core s) !! uuid with
  | None => s
  | Some ru =>
      let notify := common_local (core s) uuid in
      let s := upd (leave_channels uuid) s in
      let s := for_each (elements notify) (λ m,
                 send m (":" +:+ ru_prefix ru +:+ " QUIT :" +:+ reason)) s in
      upd (forget_remote uuid (ru_nick ru) ∘ retain_alive) s
  end.

(** The remote users reached through a link. *)
Definition behind (c : Core) (uid : Uid) : list string :=
  map fst (filter (λ '(_, ru), ru_via ru = uid) (map_to_list (remote_users c))).

Definition close_link (uid : Uid) (reason : string) (s : Server) : Server :=
  let peer := default "" (links (core s) !! uid ≫= l_name) in
  let s := upd (λ c, c <| links ::= delete uid |>
                       <| servers ::= filter (λ '(_, sv), rs_via sv ≠ uid) |>) s in
  for_each (behind (core s) uid) (λ uuid,
    drop_remote_user uuid (s_name (core s) +:+ " " +:+ peer)) s.

Definition reject_link (uid : Uid) (why : string) (s : Server) : Server :=
  close_link uid why (link_out uid ("ERROR :" +:+ trf (core s) "Link denied: {0}" [why]) s).

(** ** Burst *)

(** The nick timestamp field carries the signon time. *)
Definition uid_line (c : Core) (u : User) : string :=
  ":" +:+ s_sid c +:+ " UID " +:+ u_uuid u +:+ " " +:+ to_string (u_signon u) +:+ " " +:+ u_nick u
  +:+ " " +:+ u_host u +:+ " " +:+ host_display u +:+ " " +:+ u_ident u +:+ " " +:+ u_ident u
  +:+ " " +:+ u_ip u +:+ " " +:+ to_string (u_signon u) +:+ " " +:+ umodes (u_flags u)
  +:+ " :" +:+ u_realname u.

Definition user_intro_lines (c : Core) (u : User) : list string :=
  uid_line c u
  :: match u_account u with
     | Some acct => [":" +:+ s_sid c +:+ " METADATA " +:+ u_uuid u +:+ " accountname :" +:+ acct]
     | None => []
     end
  ++ match u_certfp u with
     | Some fp => [":" +:+ s_sid c +:+ " METADATA " +:+ u_uuid u +:+ " ssl_cert :vsT " +:+ fp]
     | None => []
     end.

Definition burst_users (link : Uid) (s : Server) : Server :=
  for_each (mjoin (map (user_intro_lines (core s))
             (filter (λ u, u_registered u = true) (map snd (map_to_list (users (core s)))))))
    (link_out link) s.

Definition introduce_to_links (uid : Uid) (s : Server) : Server :=
  if no_links (core s) then s
  else match users (core s) !! uid with
       | Some u => for_each (user_intro_lines (core s) u) (λ line, propagate line None) s
       | None => s
       end.

Definition fmode_line (c : Core) (ch : Channel) (letter arg : string) : string :=
  ":" +:+ s_sid c +:+ " FMODE " +:+ ch_name ch +:+ " " +:+ to_string (created ch) +:+ " +"
  +:+ letter +:+ " " +:+ arg.

Definition burst_members (c : Core) (ch : Channel) : list string :=
  omap (λ '(uid, m), (λ u, mode_letters (prefix_cfg c) m +:+ "," +:+ u_uuid u) <$> users c !! uid)
    (map_to_list (members ch))
  ++ map (λ '(uuid, m), mode_letters (prefix_cfg c) m +:+ "," +:+ uuid) (map_to_list (rmembers ch)).

Definition fjoin_line (c : Core) (ch : Channel) (mem : list string) : string :=
  ":" +:+ s_sid c +:+ " FJOIN " +:+ ch_name ch +:+ " " +:+ to_string (created ch) +:+ " "
  +:+ modes_render (modes ch) false +:+ " :" +:+ str_join " " mem.

(** The membership, then the key, the limit and three of the six lists. *)
Definition burst_channel (c : Core) (ch : Channel) : list string :=
  match burst_members c ch with
  | [] => []
  | mem =>
      [fjoin_line c ch mem]
      ++ map_or [] (λ key, [fmode_line c ch "k" key]) (key (modes ch))
      ++ map_or [] (λ n, [fmode_line c ch "l" (to_string n)]) (limit (modes ch))
      ++ map (λ b, fmode_line c ch "b" (b_mask b)) (bans ch)
      ++ map (λ b, fmode_line c ch "e" (b_mask b)) (excepts ch)
      ++ map (λ b, fmode_line c ch "I" (b_mask b)) (invex ch)
  end.

Definition burst_channels (link : Uid) (s : Server) : Server :=
  for_each (mjoin (map (burst_channel (core s)) (map snd (map_to_list (channels (core s))))))
    (link_out link) s.

(** ** Links *)

Section link.
Context `{UnicodeLower} `{Outside}.

Definition server_line (c : Core) (pass : string) : string :=
  "SERVER " +:+ s_name c +:+ " " +:+ pass +:+ " " +:+ s_sid c +:+ " :" +:+ server_desc c.

(** An outbound link introduces itself when a block for the address exists. *)
Definition add_link (uid : Uid) (ip : string) (outbound : bool) (s : Server) : Server :=
  let pass := if outbound
              then lb_password <$> find_first (λ b, String.eqb (lb_ip b) ip) (link_blocks (core s))
              else None in
  let s := match pass with
           | Some p => s <| io ::= (λ i, i <| link_q ::= push_out uid (server_line (core s) p) |>) |>
           | None => s
           end in
  upd (λ c, c <| links ::= <[uid := mkLink outbound false (is_some pass) None None false (clock c)]> |>) s.

(** The link is accepted: registered, its server known, our own line sent if it
    has not been, and the burst. *)
Definition accept_link (uid : Uid) (name sid desc pass : string) (s : Server) : Server :=
  let already := map_or false l_sent_server (links (core s) !! uid) in
  let s := upd (with_link uid (λ l, l <| l_registered := true |> <| l_sid := Some sid |>
                                      <| l_name := Some name |>)) s in
  let '(service, silent) := uline_match (core s) name in
  let s := upd (λ c, c <| servers ::= <[sid := mkRemoteServer sid name desc uid service silent]> |>) s in
  let s := if already then s
           else upd (with_link uid (λ l, l <| l_sent_server := true |>))
                  (link_out uid (server_line (core s) pass) s) in
  let s := link_out uid ("BURST " +:+ to_string (clock (core s))) s in
  let s := burst_filters uid (burst_xlines uid (burst_channels uid (burst_users uid s))) in
  link_out uid "ENDBURST" s.

Definition link_server (uid : Uid) (msg : Message) (s : Server) : Server :=
  match params msg with
  | name :: pass :: sid :: desc :: _ =>
      match matched_jupe (core s) name with
      | Some reason => reject_link uid ("Server name is juped: " +:+ reason) s
      | None =>
          match find_first (λ b, String.eqb (lb_name b) name) (link_blocks (core s)) with
          | None => reject_link uid "No link block for that server name" s
          | Some block =>
              if negb (String.eqb (lb_password block) pass) then
                reject_link uid "Invalid link password" s
              else if negb (valid_sid sid) || String.eqb sid (s_sid (core s))
                      || is_some (servers (core s) !! sid) then
                reject_link uid "Bad or already-present SID" s
              else accept_link uid name sid desc (lb_password block) s
          end
      end
  | _ => reject_link uid "Not enough SERVER parameters" s
  end.

(** The keep-alive, and the links that have been silent for too long. *)
Definition ping_links (s : Server) : Server :=
  for_each (map fst (filter (λ '(_, l), l_registered l = true) (map_to_list (links (core s)))))
    (λ u s, link_out u ("PING :" +:+ s_sid (core s)) s) s.

Definition dead_links (c : Core) (now : N) : list Uid :=
  let deadline := wrap_u64 (conf_num c u64_max "ping_frequency" 120
                            + conf_num c u64_max "ping_timeout" 30) in
  map fst (filter (λ '(_, l), (deadline <? now - l_last_seen l)%N = true) (map_to_list (links c))).

(** ** Nick collisions *)

(** Who must change: the local (or existing) user, the remote (or incoming) one. *)
Definition collision_decision (local_ts remote_ts : N) (same_person : bool) : bool * bool :=
  if (remote_ts =? local_ts)%N then (true, true)
  else if (same_person && (remote_ts <? local_ts)%N) || (negb same_person && (local_ts <? remote_ts)%N)
  then (false, true)
  else (true, false).

Definition save_line (c : Core) (uuid : string) (ts : N) : string :=
  ":" +:+ s_sid c +:+ " SAVE " +:+ uuid +:+ " " +:+ to_string ts.

Definition resolve_collision (via luid : Uid) (remote_ts : N) (remote_user remote_ip remote_uuid : string)
    (remote_is_service : bool) (s : Server) : bool * Server :=
  match users (core s) !! luid with
  | None => (true, s)
  | Some u =>
      let same := String.eqb (u_ident u) remote_user && String.eqb (u_ip u) remote_ip in
      let '(change_local, change_remote) :=
        if remote_is_service then (true, false)
        else collision_decision (u_nick_ts u) remote_ts same in
      let s := if change_local then set_nick luid (u_uuid u) s else s in
      (change_remote,
       if change_remote then link_out via (save_line (core s) remote_uuid remote_ts) s else s)
  end.

Definition rename_remote (uuid old new : string) (c : Core) : Core :=
  c <| remote_nick ::= (λ m, <[to_ascii_lowercase new := uuid]> (delete (to_ascii_lowercase old) m)) |>.

Definition save_remote_user (uuid : string) (s : Server) : Server :=
  match remote_users (core s) !! uuid with
  | None => s
  | Some r =>
      let s := upd (with_remote uuid (λ r, r <| ru_nick := uuid |>)) s in
      if eq_ignore_ascii_case (ru_nick r) uuid then s
      else
        let s := upd (rename_remote uuid (ru_nick r) uuid) s in
        let s := notify_common_local uuid (":" +:+ ru_prefix r +:+ " NICK " +:+ uuid) s in
        propagate (save_line (core s) uuid (ru_nick_ts r)) None s
  end.

Definition resolve_remote_collision (via : Uid) (existing : string) (remote_ts : N)
    (remote_user remote_ip remote_uuid remote_sid : string) (s : Server) : bool * Server :=
  match remote_users (core s) !! existing with
  | None => (false, s)
  | Some r =>
      let same := String.eqb (ru_ident r) remote_user && String.eqb (ru_ip r) remote_ip in
      let '(change_existing, change_incoming) :=
        if server_is_service (core s) remote_sid then (true, false)
        else if uuid_is_service (core s) existing then (false, true)
        else collision_decision (ru_nick_ts r) remote_ts same in
      let s := if change_existing then save_remote_user existing s else s in
      (change_incoming,
       if change_incoming then link_out via (save_line (core s) remote_uuid remote_ts) s else s)
  end.

(** The two collision checks of a user that comes with a nick: whether it must
    give it up, to a local user or to another remote one. *)
Definition contest_local (via : Uid) (ts : N) (user ip uuid : string) (service : bool) (nick : string)
    (s : Server) : bool * Server :=
  match find_nick (core s) nick with
  | Some luid => resolve_collision via luid ts user ip uuid service s
  | None => (false, s)
  end.

Definition contest_remote (via : Uid) (ts : N) (user ip uuid sid nick : string) (s : Server)
    : bool * Server :=
  match remote_nick (core s) !! to_ascii_lowercase nick with
  | Some existing =>
      if String.eqb existing uuid then (false, s)
      else resolve_remote_collision via existing ts user ip uuid sid s
  | None => (false, s)
  end.

(** ** Users *)

Definition plain_message (src : option string) (cmd : string) (ps : list string) : Message :=
  mkMessage src cmd ps "" None None false.

Definition link_uid_recv (via : Uid) (msg : Message) (s : Server) : Server :=
  match params msg with
  | uuid :: ts :: nick0 :: _ :: host :: _ :: ident :: ip :: _ :: modes :: _ :: _ =>
      let sid := default "" (source msg) in
      if negb (source_behind (core s) sid via) then s
      else if negb (str_len sid =? 3) || negb (str_len uuid =? 9) || negb (starts_with sid uuid)
              || is_some (remote_users (core s) !! uuid) then s
      else
        let realname := default "" (last (params msg)) in
        let nickts := default (clock (core s)) (parse_uint u64_max ts) in
        let '(lost, s) := contest_local via nickts ident ip uuid (server_is_service (core s) sid) nick0 s in
        let nick := if lost then uuid else nick0 in
        let '(lost, s) := contest_remote via nickts ident ip uuid sid nick s in
        let nick := if lost then uuid else nick in
        let s := upd (λ c, c <| remote_nick ::= <[to_ascii_lowercase nick := uuid]> |>
                             <| remote_users ::= <[uuid := mkRemoteUser nick ident host realname None ip
                                  (trim_start_matches "+" modes) sid via nickts None]> |>) s in
        let fwd := if String.eqb nick nick0 then msg
                   else plain_message (source msg) (command msg) (<[2 := nick]> (params msg)) in
        propagate (to_wire fwd) (Some via) s
  | _ => s
  end.

Definition link_save_recv (via : Uid) (msg : Message) (s : Server) : Server :=
  match params msg with
  | target :: ts :: _ =>
      match uuid_local (core s) !! target with
      | Some luid =>
          match users (core s) !! luid with
          | Some u => if (u_nick_ts u =? default 0 (parse_uint u64_max ts))%N
                      then set_nick luid (u_uuid u) s else s
          | None => s
          end
      | None => forward_to_target target msg via s
      end
  | _ => s
  end.

Definition link_nick_recv (via : Uid) (msg : Message) (s : Server) : Server :=
  match source msg, params msg with
  | Some uuid, newnick :: rest =>
      match remote_users (core s) !! uuid with
      | None => s
      | Some ru =>
          if negb (sourced_via (core s) uuid via) then s
          else
            let ts := default (clock (core s)) (t ← head rest; parse_uint u64_max t) in
            let '(lost, s) := contest_local via ts (ru_ident ru) (ru_ip ru) uuid
                                (uuid_is_service (core s) uuid) newnick s in
            if lost then s
            else
              let '(lost, s) := contest_remote via ts (ru_ident ru) (ru_ip ru) uuid (ru_sid ru) newnick s in
              if lost then s
              else
                let s := upd (rename_remote uuid (ru_nick ru) newnick ∘
                              with_remote uuid (λ r, r <| ru_nick := newnick |> <| ru_nick_ts := ts |>)) s in
                let s := notify_common_local uuid (":" +:+ ru_prefix ru +:+ " NICK " +:+ newnick) s in
                propagate (":" +:+ uuid +:+ " NICK " +:+ newnick +:+ " " +:+ to_string ts) (Some via) s
      end
  | _, _ => s
  end.

Definition link_quit_recv (via : Uid) (msg : Message) (s : Server) : Server :=
  match source msg with
  | Some uuid =>
      if negb (sourced_via (core s) uuid via) then s
      else
        let reason := default "" (head (params msg)) in
        propagate (":" +:+ uuid +:+ " QUIT :" +:+ reason) (Some via) (drop_remote_user uuid reason s)
  | None => s
  end.

Definition link_kill_recv (via : Uid) (msg : Message) (s : Server) : Server :=
  match source msg, params msg with
  | Some src, target :: reason :: _ =>
      if negb (source_behind (core s) src via) then s
      else match link_local_target (core s) target with
      | Some tuid =>
          let from := default src (source_prefix (core s) src) in
          let nick := map_or "" u_nick (users (core s) !! tuid) in
          remove_user tuid ("Killed (" +:+ reason +:+ ")")
            (send tuid (":" +:+ from +:+ " KILL " +:+ nick +:+ " :" +:+ reason) s)
      | None => forward_to_target target msg via s
      end
  | _, _ => s
  end.

Definition route_kill (killer target reason : string) (s : Server) : Server :=
  match link_toward (core s) target with
  | Some v => link_out v (":" +:+ killer +:+ " KILL " +:+ target +:+ " :" +:+ reason) s
  | None => s
  end.

Definition link_away_recv (via : Uid) (msg : Message) (s : Server) : Server :=
  match source msg with
  | Some uuid =>
      if negb (sourced_via (core s) uuid via) then s
      else match remote_users (core s) !! uuid with
      | None => s
      | Some ru =>
          let reason := opt_filter (λ r, negb (is_empty r)) (head (params msg)) in
          let tail := map_or "" (λ r, " :" +:+ r) reason in
          let s := upd (with_remote uuid (λ r, r <| ru_away := reason |>)) s in
          let s := notify_common_local_if uuid (":" +:+ ru_prefix ru +:+ " AWAY" +:+ tail)
                     (λ c, cap_has c "away-notify") s in
          propagate (":" +:+ uuid +:+ " AWAY" +:+ tail) (Some via) s
      end
  | None => s
  end.

Definition link_setname_recv (via : Uid) (msg : Message) (s : Server) : Server :=
  match source msg, params msg with
  | Some uuid, realname :: _ =>
      if negb (sourced_via (core s) uuid via) then s
      else match remote_users (core s) !! uuid with
      | None => s
      | Some ru =>
          let s := upd (with_remote uuid (λ r, r <| ru_realname := realname |>)) s in
          let s := notify_common_local_if uuid (":" +:+ ru_prefix ru +:+ " SETNAME :" +:+ realname)
                     (λ c, cap_has c "setname") s in
          propagate (":" +:+ uuid +:+ " SETNAME :" +:+ realname) (Some via) s
      end
  | _, _ => s
  end.

Definition link_opertype_recv (via : Uid) (msg : Message) (s : Server) : Server :=
  match source msg with
  | Some src =>
      if negb (sourced_via (core s) src via) then s
      else upd (with_remote src (λ r,
             if contains_byte "o" (ru_modes r) then r else r <| ru_modes ::= (λ m, m +:+ "o") |>)) s
  | None => s
  end.

(** ** Account, host and ident of a remote user *)

(** Whether anything changed; a peer may only speak for its own side. *)
Definition apply_remote_account (target value : string) (from : Uid) (s : Server) : bool * Server :=
  match remote_target (core s) target with
  | None => (false, s)
  | Some uuid =>
      if negb (sourced_via (core s) uuid from) then (false, s)
      else match remote_users (core s) !! uuid with
      | None => (false, s)
      | Some r =>
          let acct := if is_empty value || String.eqb value "*" || String.eqb value "0"
                      then None else Some value in
          if bool_decide (ru_account r = acct) then (false, s)
          else
            let s := upd (with_remote uuid (λ r, r <| ru_account := acct |>)) s in
            (true, notify_common_local_if uuid
                     (":" +:+ ru_prefix r +:+ " ACCOUNT " +:+ default "*" acct)
                     (λ c, cap_has c "account-notify") s)
      end
  end.

Definition apply_remote_host_ident (target : string) (new_ident new_host : option string) (s : Server)
    : Server :=
  match remote_target (core s) target with
  | None => s
  | Some uuid =>
      match remote_users (core s) !! uuid with
      | None => s
      | Some r =>
          let r' := r <| ru_ident := default (ru_ident r) new_ident |>
                      <| ru_host := default (ru_host r) new_host |> in
          let s := upd (with_remote uuid (λ r, r <| ru_ident := default (ru_ident r) new_ident |>
                                                 <| ru_host := default (ru_host r) new_host |>)) s in
          let s := notify_common_local_if uuid
                     (":" +:+ ru_prefix r +:+ " CHGHOST " +:+ ru_ident r' +:+ " " +:+ ru_host r')
                     (λ c, cap_has c "chghost") s in
          for_each (map snd (map_to_list (channels (core s)))) (λ ch s,
            match rmembers ch !! uuid with
            | None => s
            | Some mem =>
                for_each (cycle_recipients (core s) ch None) (λ '(m, ext),
                  cycle_member (ru_prefix r) (ru_prefix r') (ru_nick r') (default "*" (ru_account r'))
                    (ru_realname r') (ch_name ch) (status_letters mem) m ext) s
            end) s
      end
  end.

(** A host of the form [ident@host] sets both. *)
Definition split_vhost (host : string) : option string * string :=
  match split_once "@" host with
  | Some (i, h) => if is_empty i || is_empty h then (None, host) else (Some i, h)
  | None => (None, host)
  end.

Definition link_chghost_recv (from : Uid) (msg : Message) (s : Server) : Server :=
  match params msg with
  | target :: host :: _ =>
      let '(i, h) := split_vhost host in
      match link_local_target (core s) target with
      | Some tuid => change_host_ident_quiet tuid i (Some h) s
      | None => forward_to_target target msg from (apply_remote_host_ident target i (Some h) s)
      end
  | _ => s
  end.

Definition link_chgident_recv (from : Uid) (msg : Message) (s : Server) : Server :=
  match params msg with
  | target :: ident :: _ =>
      match link_local_target (core s) target with
      | Some tuid => change_host_ident_quiet tuid (Some ident) None s
      | None => forward_to_target target msg from (apply_remote_host_ident target (Some ident) None s)
      end
  | _ => s
  end.

End link.
