(* ===== verification/LinkChannel.v ===== *)
(** * Linked servers: channels ([src/src/link.rs])

    The lines of a linked server about channels: joining and leaving, topics,
    kicks, modes, messages, and the burst of a channel with its timestamp
    arbitration. *)

From Stdlib Require Import Ascii.
From S2P Require Import Prelude RustStr Message Glob Clock I18n Channel Numeric Regex State Mode UserMode.
From S2P Require Import CoreMode Ban Membership Watch Users Xline Account CoreChannel CoreMessage Filter Link.

Local Open Scope stdpp_scope.

(** [entry(key).or_insert_with(..)] and an update of the channel. *)
Definition with_entry (k : string) (fresh : Channel) (f : Channel → Channel) (c : Core) : Core :=
  c <| channels ::= <[k := f (default fresh (channels c !! k))]> |>.

Definition put_rmember (uuid : string) (m : Member) (ch : Channel) : Channel :=
  ch <| rmembers ::= <[uuid := m]> |>.

(** ** Joining and leaving *)

Definition link_join_recv (via : Uid) (msg : Message) (s : Server) : Server :=
  match source msg, params msg with
  | Some uuid, chan :: _ =>
      if negb (sourced_via (core s) uuid via) then s
      else
        let k := to_ascii_lowercase chan in
        let s := upd (with_entry k (new_channel (clock (core s)) chan) (put_rmember uuid default_member)) s in
        let prefix := map_or "" ru_prefix (remote_users (core s) !! uuid) in
        let s := to_channel k (":" +:+ prefix +:+ " JOIN " +:+ chan) None s in
        propagate (":" +:+ uuid +:+ " JOIN " +:+ chan) (Some via) s
  | _, _ => s
  end.

Definition prefixed (cfg : option PrefixCfg) (letters : string) : Member :=
  foldl (λ m c, set_prefix cfg c true m) default_member (chars letters).

(** The status a member joins with: a fourth parameter of letters only. *)
Definition ijoin_status (ps : list string) : option string :=
  opt_filter (λ t, negb (is_empty t) && forallb (char_is is_alphabetic) (chars t)) (ps !! 3).

Definition link_ijoin_recv (via : Uid) (msg : Message) (s : Server) : Server :=
  match source msg, params msg with
  | Some uuid, chan :: _ =>
      if negb (starts_with "#" chan) || negb (sourced_via (core s) uuid via) then s
      else
        let k := to_ascii_lowercase chan in
        let status := ijoin_status (params msg) in
        let m := map_or default_member (prefixed (prefix_cfg (core s))) status in
        let now := clock (core s) in
        let ts := default now (t ← params msg !! 2; parse_uint u64_max t) in
        let s := upd (with_entry k ((new_channel now chan) <| created := ts |>) (put_rmember uuid m)) s in
        let ru := remote_users (core s) !! uuid in
        let s := to_channel k (":" +:+ map_or "" ru_prefix ru +:+ " JOIN " +:+ chan) None s in
        let s := match status with
                 | None => s
                 | Some letters =>
                     let nick := map_or uuid ru_nick ru in
                     let src := map_or (s_name (core s)) rs_name
                                  (sid ← get_sid uuid; servers (core s) !! sid) in
                     to_channel k (":" +:+ src +:+ " MODE " +:+ chan +:+ " +" +:+ letters +:+ " "
                                   +:+ str_join " " (replicate (str_len letters) nick)) None s
                 end in
        propagate (to_wire msg) (Some via) s
  | _, _ => s
  end.

Definition link_part_recv (via : Uid) (msg : Message) (s : Server) : Server :=
  match source msg, params msg with
  | Some uuid, chan :: rest =>
      if negb (sourced_via (core s) uuid via) then s
      else
        let reason := default "" (head rest) in
        let k := to_ascii_lowercase chan in
        if negb (map_or false (λ ch, is_some (rmembers ch !! uuid)) (channels (core s) !! k)) then s
        else
          let s := upd (with_chan k (λ ch, ch <| rmembers ::= delete uuid |>)) s in
          let tail := if is_empty reason then "" else " :" +:+ reason in
          let prefix := map_or "" ru_prefix (remote_users (core s) !! uuid) in
          let s := to_channel k (":" +:+ prefix +:+ " PART " +:+ chan +:+ tail) None s in
          propagate (":" +:+ uuid +:+ " PART " +:+ chan +:+ tail) (Some via) (upd retain_alive s)
  | _, _ => s
  end.

Definition link_kick_recv (via : Uid) (msg : Message) (s : Server) : Server :=
  match source msg, params msg with
  | Some src, chan :: victim :: rest =>
      if negb (source_behind (core s) src via) then s
      else
        let k := to_ascii_lowercase chan in
        let reason := default "" (head rest) in
        let prefix := default "" (uuid_prefix (core s) src) in
        let line nick := ":" +:+ prefix +:+ " KICK " +:+ chan +:+ " " +:+ nick +:+ " :" +:+ reason in
        let finish nick s :=
          propagate (to_wire msg) (Some via) (upd retain_alive (to_channel k (line nick) None s)) in
        match link_local_target (core s) victim with
        | Some vuid =>
            let vnick := map_or victim u_nick (users (core s) !! vuid) in
            if is_member (core s) vuid k then
              finish vnick (send vuid (line vnick) (upd (drop_member vuid k) s))
            else s
        | None =>
            match (if is_some (remote_users (core s) !! victim) then Some victim
                   else fst <$> find_remote (core s) victim) with
            | None => s
            | Some vuuid =>
                let vnick := map_or victim ru_nick (remote_users (core s) !! vuuid) in
                if map_or false (λ ch, is_some (rmembers ch !! vuuid)) (channels (core s) !! k) then
                  finish vnick (upd (with_chan k (λ ch, ch <| rmembers ::= delete vuuid |>)) s)
                else s
            end
        end
  | _, _ => s
  end.

(** ** Topics *)

Definition set_topic (k text setter : string) (ts : N) (c : Core) : Core :=
  with_chan k (λ ch, ch <| ch_topic := Some (mkTopic text setter ts) |>) c.

Definition link_topic_recv (via : Uid) (msg : Message) (s : Server) : Server :=
  match source msg, params msg with
  | Some src, chan :: text :: _ =>
      if negb (source_behind (core s) src via) then s
      else
        let k := to_ascii_lowercase chan in
        match channels (core s) !! k with
        | None => s
        | Some ch =>
            let setter := map_or "" ru_nick (remote_users (core s) !! src) in
            let now := clock (core s) in
            let s := upd (set_topic k text setter now) s in
            let prefix := default "" (uuid_prefix (core s) src) in
            let s := to_channel k (":" +:+ prefix +:+ " TOPIC " +:+ chan +:+ " :" +:+ text) None s in
            propagate (":" +:+ src +:+ " FTOPIC " +:+ chan +:+ " " +:+ to_string (created ch) +:+ " "
                       +:+ to_string now +:+ " :" +:+ text) (Some via) s
        end
  | _, _ => s
  end.

(** A topic is taken unless our channel is older, or the topic we have is newer. *)
Definition ftopic_stale (ch : Channel) (chants ts : N) : bool :=
  (created ch <? chants)%N || map_or false (λ t, (ts <? t_ts t)%N) (ch_topic ch).

Definition link_ftopic_recv (via : Uid) (msg : Message) (s : Server) : Server :=
  match source msg, params msg with
  | Some src, chan :: chants :: ts :: p3 :: rest =>
      if negb (source_behind (core s) src via) then s
      else
        let k := to_ascii_lowercase chan in
        match channels (core s) !! k with
        | None => s
        | Some ch =>
            let ts := default (clock (core s)) (parse_uint u64_max ts) in
            let topic := default p3 (last rest) in
            if ftopic_stale ch (default 0%N (parse_uint u64_max chants)) ts then
              propagate (to_wire msg) (Some via) s
            else
              let setter := match rest with
                            | _ :: _ => p3
                            | [] => match remote_users (core s) !! src with
                                    | Some r => ru_nick r
                                    | None => map_or src rs_name (servers (core s) !! src)
                                    end
                            end in
              let s := upd (set_topic k topic setter ts) s in
              let prefix := default setter (source_prefix (core s) src) in
              let s := to_channel k (":" +:+ prefix +:+ " TOPIC " +:+ chan +:+ " :" +:+ topic) None s in
              propagate (to_wire msg) (Some via) s
        end
  | _, _ => s
  end.

(** ** Messages *)

(** The line one member gets: badged, time-tagged or plain. *)
Definition relay_line (c : Core) (u : User) (base : string) (service : bool) : string :=
  if service && cap_has (u_caps u) "message-tags" then "@echo/services " +:+ base
  else if starts_with ":" base && cap_has (u_caps u) "server-time" then time_tagged c base
  else base.

Definition relay_channel_message (k base : string) (service : bool) (s : Server) : Server :=
  for_each (chan_members (core s) k) (λ m s,
    match users (core s) !! m with
    | Some u => if deaf (u_flags u) then s else emit_to m (relay_line (core s) u base service) s
    | None => s
    end) s.

Definition link_message_recv (via : Uid) (msg : Message) (notice : bool) (s : Server) : Server :=
  let cmd := if notice then "NOTICE" else "PRIVMSG" in
  match source msg, params msg with
  | Some src, target :: text :: _ =>
      if negb (source_behind (core s) src via) then s
      else match source_prefix (core s) src with
      | None => s
      | Some prefix =>
          let service := uuid_is_service (core s) src || server_is_service (core s) src in
          if starts_with "#" target then
            let k := to_ascii_lowercase target in
            match channels (core s) !! k with
            | None => s
            | Some _ =>
                let s := relay_channel_message k
                  (":" +:+ prefix +:+ " " +:+ cmd +:+ " " +:+ target +:+ " :" +:+ text) service s in
                for_each (channel_link_targets (core s) k (Some via)) (λ l,
                  link_out l (":" +:+ src +:+ " " +:+ cmd +:+ " " +:+ target +:+ " :" +:+ text)) s
            end
          else match uuid_local (core s) !! target with
          | Some dst =>
              let nick := map_or "" u_nick (users (core s) !! dst) in
              let tag := if service && has_cap (core s) dst "message-tags" then "@echo/services " else "" in
              send dst (tag +:+ ":" +:+ prefix +:+ " " +:+ cmd +:+ " " +:+ nick +:+ " :" +:+ text) s
          | None => forward_to_target target msg via s
          end
      end
  | _, _ => s
  end.

(** [chathistory::forget]. *)
Definition forget (k msgid : string) (c : Core) : Core :=
  c <| s_history ::= alter (retain (λ m, negb (String.eqb (h_msgid m) msgid))) k |>.

Definition link_redact_recv (via : Uid) (msg : Message) (s : Server) : Server :=
  match source msg, params msg with
  | Some src, target :: msgid :: rest =>
      if negb (source_behind (core s) src via) then s
      else if negb (starts_with "#" target) then s
      else match source_prefix (core s) src with
      | None => s
      | Some prefix =>
          let k := to_ascii_lowercase target in
          let s := match channels (core s) !! k with
                   | None => s
                   | Some ch =>
                       let line := ":" +:+ prefix +:+ " REDACT " +:+ target +:+ " " +:+ msgid
                                   +:+ map_or "" (λ r, " :" +:+ r) (head rest) in
                       let s := for_each (elements (dom (members ch))) (λ m s,
                                  if has_cap (core s) m "draft/message-redaction"
                                  then send m line s else s) s in
                       for_each (channel_link_targets (core s) k (Some via)) (λ l,
                         link_out l (to_wire msg)) s
                   end in
          upd (forget k msgid) s
      end
  | _, _ => s
  end.

Definition link_invite_recv (via : Uid) (msg : Message) (s : Server) : Server :=
  match source msg, params msg with
  | Some src, target :: chan :: _ =>
      if negb (source_behind (core s) src via) then s
      else match uuid_local (core s) !! target with
      | Some luid =>
          let s := upd (add_invite luid (to_ascii_lowercase chan)) s in
          let prefix := default src (uuid_prefix (core s) src) in
          let nick := map_or "" u_nick (users (core s) !! luid) in
          send luid (":" +:+ prefix +:+ " INVITE " +:+ nick +:+ " :" +:+ chan) s
      | None => forward_to_target target msg via s
      end
  | _, _ => s
  end.

(** ** Modes *)

Fixpoint umode_delta (modes : list string) (adding : bool) (cs : list string) : list string :=
  match cs with
  | [] => modes
  | c :: cs =>
      if String.eqb c "+" then umode_delta modes true cs
      else if String.eqb c "-" then umode_delta modes false cs
      else if adding then umode_delta (if contains_str c modes then modes else modes ++ [c]) adding cs
      else umode_delta (retain (λ m, negb (String.eqb m c)) modes) adding cs
  end.

Definition apply_umode_string (modes changes : string) : string :=
  str_concat (umode_delta (chars modes) true (chars changes)).

(** A status prefix on a member named by network id or nick. *)
Definition set_member_prefix (k who letter : string) (adding : bool) (c : Core) : Core :=
  let set := set_prefix (prefix_cfg c) letter adding in
  match link_local_target c who with
  | Some uid => with_chan k (λ ch, ch <| members ::= alter set uid |>) c
  | None =>
      match (if is_some (remote_users c !! who) then Some who else fst <$> find_remote c who) with
      | Some uuid => with_chan k (λ ch, ch <| rmembers ::= alter set uuid |>) c
      | None => c
      end
  end.

Definition list_letter (c : string) : option ListKind :=
  if String.eqb c "b" then Some LBan else if String.eqb c "e" then Some LExcept
  else if String.eqb c "I" then Some LInvex else None.

(** The three lists as a peer edits them: exact masks, no limit. *)
Definition peer_list_edit (kind : ListKind) (adding : bool) (b : Ban) (ch : Channel) : Channel :=
  kind_update kind (λ l,
    if adding then if existsb (λ x, String.eqb (b_mask x) (b_mask b)) l then l else l ++ [b]
    else retain (λ x, negb (String.eqb (b_mask x) (b_mask b))) l) ch.

(** A mode with neither a prefix, a key, a limit nor one of the three lists. *)
Definition peer_other_mode (chan k c : string) (adding : bool) (args : list string) (s : Server)
    : list string * list string * Server :=
  match chan_mode (prefix_cfg (core s)) c with
  | Some h =>
      let '(param, args) := take_param h adding args in
      (args, match param with Some p => [p] | None => [] end,
       set_sudo false (chan_apply h chan k 0 adding param (set_sudo true s)).2)
  | None => (args, [], upd (with_chan k (λ ch, ch <| modes ::= set_by_letter c adding |>)) s)
  end.

(** One letter: the arguments left, the parameters to show, and the server. *)
Definition peer_mode_letter (src chan k c : string) (adding : bool) (args : list string) (s : Server)
    : list string * list string * Server :=
  if is_letter_in ["y"; "q"; "a"; "o"; "h"; "v"] c then
    match args with
    | n :: args =>
        let s := upd (set_member_prefix k n c adding) s in (args, [uuid_to_nick (core s) n], s)
    | [] => ([], [], s)
    end
  else if String.eqb c "k" then
    let p := head args in
    (tail args, match p with Some p => [p] | None => [] end,
     upd (with_chan k (λ ch, ch <| modes ::= (λ m, m <| key := if adding then p else None |>) |>)) s)
  else if String.eqb c "l" then
    if adding then
      match args with
      | a :: rest =>
          match parse_uint u32_max a with
          | Some n => (rest, [a],
              upd (with_chan k (λ ch, ch <| modes ::= (λ m, m <| limit := Some n |>) |>)) s)
          | None => (args, [], s)
          end
      | [] => ([], [], s)
      end
    else (args, [], upd (with_chan k (λ ch, ch <| modes ::= (λ m, m <| limit := None |>) |>)) s)
  else match list_letter c with
  | Some kind =>
      match args with
      | mask :: args =>
          let setter := map_or src ru_nick (remote_users (core s) !! src) in
          (args, [mask],
           upd (with_chan k (peer_list_edit kind adding (mkBan mask setter (clock (core s)) None))) s)
      | [] => ([], [], s)
      end
  | None => peer_other_mode chan k c adding args s
  end.

Fixpoint peer_mode_loop (src chan k : string) (sign : string) (cs args shown : list string) (s : Server)
    : list string * Server :=
  match cs with
  | [] => (shown, s)
  | c :: cs =>
      if is_letter_in ["+"; "-"] c then peer_mode_loop src chan k c cs args shown s
      else
        let '(args, more, s) := peer_mode_letter src chan k c (String.eqb sign "+") args s in
        peer_mode_loop src chan k sign cs args (shown ++ more) s
  end.

Definition apply_peer_modes (via : Uid) (msg : Message) (src chan modestring : string)
    (args : list string) (s : Server) : Server :=
  let k := to_ascii_lowercase chan in
  let '(shown, s) := peer_mode_loop src chan k "+" (chars modestring) args [] s in
  let prefix := default (s_name (core s)) (source_prefix (core s) src) in
  let s := to_channel k (":" +:+ prefix +:+ " MODE " +:+ chan +:+ " " +:+ modestring
                         +:+ params_str shown) None s in
  propagate (to_wire msg) (Some via) s.

Definition link_mode_recv (via : Uid) (msg : Message) (s : Server) : Server :=
  match source msg, params msg with
  | Some src, target :: p1 :: rest =>
      if negb (source_behind (core s) src via) then s
      else if negb (starts_with "#" target) then
        propagate (to_wire msg) (Some via)
          (upd (with_remote target (λ r, r <| ru_modes ::= (λ m, apply_umode_string m p1) |>)) s)
      else
        match channels (core s) !! to_ascii_lowercase target with
        | None => s
        | Some ch =>
            if String.eqb (command msg) "FMODE" then
              if map_or false (λ ts, (created ch <? ts)%N) (parse_uint u64_max p1) then
                propagate (to_wire msg) (Some via) s
              else match rest with
                   | modestring :: args => apply_peer_modes via msg src target modestring args s
                   | [] => s
                   end
            else apply_peer_modes via msg src target p1 rest s
        end
  | _, _ => s
  end.

(** ** FJOIN *)

Fixpoint flag_string (sign : bool) (cs : list string) (m : ChanModes) : ChanModes :=
  match cs with
  | [] => m
  | c :: cs =>
      if String.eqb c "+" then flag_string true cs m
      else if String.eqb c "-" then flag_string false cs m
      else flag_string sign cs (set_by_letter c sign m)
  end.

(** Our side lost the timestamp war: modes, lists, topic and status go. *)
Definition wipe_channel (ch : Channel) : Channel :=
  ch <| modes := default_modes |> <| bans := [] |> <| excepts := [] |> <| invex := [] |>
     <| filters := [] |> <| exemptchanops := [] |> <| autoop := [] |> <| ch_topic := None |>
     <| members ::= fmap clear_status |> <| rmembers ::= fmap clear_status |>.

(** The channel after arbitration: [ours] is our timestamp, [None] if the
    channel is new. *)
Definition arbitrate (ours : option N) (ts : N) (modestring : string) (ch : Channel) : Channel :=
  if map_or false (λ o, (o <? ts)%N) ours then ch
  else
    let ch := if map_or false (λ o, (ts <? o)%N) ours then wipe_channel ch else ch in
    ch <| created := ts |> <| modes ::= flag_string true (chars modestring) |>.

Definition split_member (tok : string) : string * string :=
  let '(letters, rest) := default ("", tok) (split_once "," tok) in
  (letters, default rest (head (split ":" rest))).

(** The remote users a burst adds, with their status if it counts. *)
Definition fjoin_adds (c : Core) (keep : bool) (memberlist : string) : list (string * Member) :=
  omap (λ tok,
    let '(letters, uuid) := split_member tok in
    if is_some (uuid_local c !! uuid) || negb (is_some (remote_users c !! uuid)) then None
    else Some (uuid, if keep then prefixed (prefix_cfg c) letters else default_member))
    (split_whitespace memberlist).

Definition fjoin_add (k chan : string) (e : string * Member) (s : Server) : Server :=
  let '(uuid, m) := e in
  let already := map_or false (λ ch, is_some (rmembers ch !! uuid)) (channels (core s) !! k) in
  let s := upd (with_chan k (put_rmember uuid m)) s in
  if already then s
  else match remote_users (core s) !! uuid with
       | Some r => to_channel k (":" +:+ ru_prefix r +:+ " JOIN " +:+ chan) None s
       | None => s
       end.

Definition link_fjoin_recv (via : Uid) (msg : Message) (s : Server) : Server :=
  match params msg with
  | chan :: ts0 :: modestring :: memberlist :: _ =>
      let k := to_ascii_lowercase chan in
      let now := clock (core s) in
      let ts := default now (parse_uint u64_max ts0) in
      let ours := created <$> channels (core s) !! k in
      let keep := negb (map_or false (λ o, (o <? ts)%N) ours) in
      let s := upd (with_entry k (new_channel now chan) (arbitrate ours ts modestring)) s in
      let s := for_each (fjoin_adds (core s) keep memberlist) (fjoin_add k chan) s in
      propagate (":" +:+ default "" (source msg) +:+ " FJOIN " +:+ chan +:+ " " +:+ to_string ts
                 +:+ " " +:+ modestring +:+ " :" +:+ memberlist) (Some via) s
  | _ => s
  end.

Section rename.
Context `{UnicodeLower} `{Outside}.

Definition link_rename_recv (via : Uid) (msg : Message) (s : Server) : Server :=
  match source msg, params msg with
  | Some src, old :: new :: rest =>
      if negb (source_behind (core s) src via) then s
      else
        let oldkey := to_ascii_lowercase old in
        let c := core s in
        match channels c !! oldkey,
              opt_or (ru_prefix <$> remote_users c !! src)
                (opt_or (rs_name <$> servers c !! src)
                   (rs_name <$> servers c !! default src (get_sid src))) with
        | Some _, Some prefix =>
            let reason := default "" (head rest) in
            let '(okay, s) := rename_channel oldkey new prefix reason s in
            if is_some okay then propagate_rename src old new reason (Some via) s else s
        | _, _ => s
        end
  | _, _ => s
  end.

End rename.
