(* ===== verification/LinkServices.v ===== *)
(** * Linked servers: services and the dispatcher ([src/src/link.rs])

    What a services server may do to local users and channels, metadata, the
    SASL relay, encapsulated commands, and [on_link], which hands a line of a
    link to its handler. *)

From Stdlib Require Import Ascii.
From S2P Require Import Prelude RustStr Message Glob Clock I18n Channel Numeric Duration Regex State Mode UserMode.
From S2P Require Import CoreMode Ban Membership Watch Users Xline Account CoreChannel CoreMessage Filter.
From S2P Require Import Link LinkChannel.

Local Open Scope stdpp_scope.

Section services.
Context `{UnicodeLower} `{Outside}.

(** ** SVS* *)

(** Act on a local target, or pass the line on towards a remote one. *)
Definition svs_target (from : Uid) (msg : Message) (target : string) (act : Uid → Server → Server)
    (s : Server) : Server :=
  match link_local_target (core s) target with
  | Some tuid => act tuid s
  | None => forward_to_target target msg from s
  end.

(** The guard of a forced nick change. *)
Definition svsnick_taken (c : Core) (newnick : string) : bool :=
  negb (valid_nick newnick (conf_num c u64_max "maxnick" 30)) || is_some (find_nick c newnick)
  || is_some (remote_nick c !! to_ascii_lowercase newnick).

Definition link_svsnick (from : Uid) (msg : Message) (s : Server) : Server :=
  match params msg with
  | target :: newnick :: _ =>
      svs_target from msg target (λ tuid s,
        if svsnick_taken (core s) newnick then s else set_nick tuid newnick s) s
  | _ => s
  end.

Definition link_svsjoin (from : Uid) (msg : Message) (s : Server) : Server :=
  match params msg with
  | target :: chan :: _ => svs_target from msg target (λ tuid, join tuid chan None) s
  | _ => s
  end.

(** [None]: the unchecked lookup of [force_part] fails. *)
Definition link_svspart (from : Uid) (msg : Message) (s : Server) : option Server :=
  match params msg with
  | target :: chan :: rest =>
      match link_local_target (core s) target with
      | Some tuid => force_part tuid chan (default "Services forced part" (head rest)) s
      | None => Some (forward_to_target target msg from s)
      end
  | _ => Some s
  end.

Definition link_svsmode (from : Uid) (msg : Message) (s : Server) : Server :=
  match params msg with
  | target :: changes :: _ =>
      if starts_with "#" target then s
      else svs_target from msg target (λ tuid, svs_set_user_modes tuid changes) s
  | _ => s
  end.

Definition link_svslogin (from : Uid) (msg : Message) (s : Server) : Server :=
  match params msg with
  | target :: account :: _ =>
      svs_target from msg target (λ tuid,
        if String.eqb account "*" || String.eqb account "0" then logout tuid
        else set_login tuid account) s
  | _ => s
  end.

Definition link_svslogout (from : Uid) (msg : Message) (s : Server) : Server :=
  match params msg with
  | target :: _ => svs_target from msg target logout s
  | _ => s
  end.

(** A topic of services: four parameters set it, fewer clear it. *)
Definition link_svstopic (from : Uid) (msg : Message) (s : Server) : Server :=
  match params msg with
  | chan :: rest =>
      let k := to_ascii_lowercase chan in
      match channels (core s) !! k with
      | None => s
      | Some _ =>
          let '(text, setter, ts) :=
            match rest with
            | ts :: setter :: text :: _ =>
                (text, setter, default (clock (core s)) (parse_uint u64_max ts))
            | _ => ("", "", 0%N)
            end in
          let s := upd (with_chan k (λ ch, ch <| ch_topic :=
                     if is_empty text then None else Some (mkTopic text setter ts) |>)) s in
          let s := to_channel k (":" +:+ link_setter (core s) msg +:+ " TOPIC " +:+ chan
                                 +:+ " :" +:+ text) None s in
          propagate (to_wire msg) (Some from) s
      end
  | [] => s
  end.

Definition link_svsoper (from : Uid) (msg : Message) (s : Server) : Server :=
  match params msg with
  | target :: _ :: _ =>
      svs_target from msg target (λ tuid s, if is_oper (core s) tuid then s else oper_up tuid s) s
  | _ => s
  end.

(** The entries of the named lists that match a user, with their letter. *)
Definition svscmode_removals (c : Core) (tuid : Uid) (ch : Channel) (letters : string)
    : list (string * string) :=
  mjoin (map (λ mc,
    match list_letter mc with
    | Some kind => map (λ b, (mc, b_mask b)) (retain (λ b, ban_list_hit c tuid [b]) (kind_list kind ch))
    | None => []
    end) (chars letters)).

Definition link_svscmode (from : Uid) (msg : Message) (s : Server) : Server :=
  match params msg with
  | target :: chan :: letters :: _ =>
      svs_target from msg target (λ tuid s,
        match channels (core s) !! to_ascii_lowercase chan with
        | None => s
        | Some ch =>
            for_each (svscmode_removals (core s) tuid ch letters) (λ '(mc, mask) s,
              (svs_set_chan_modes chan ("-" +:+ mc) [mask] s).2) s
        end) s
  | _ => s
  end.

(** ** Metadata *)

(** [metadata::apply_user]. *)
Definition metadata_apply_user (uid : Uid) (nick mkey : string) (value : option string) (setter : string)
    (s : Server) : Server :=
  let sk := "u" +:+ to_string uid in
  let s := upd (λ c, c <| s_metadata ::= (λ st,
             match value with
             | Some v => <[sk := <[mkey := v]> (default ∅ (st !! sk))]> st
             | None => alter (delete mkey) sk st
             end) |>) s in
  if has_cap (core s) uid "draft/metadata-2" then
    send uid (":" +:+ setter +:+ " METADATA " +:+ nick +:+ " " +:+ mkey +:+ " *"
              +:+ map_or "" (λ v, " :" +:+ v) value) s
  else s.

(** What services may set on a local user. *)
Definition apply_local_metadata (msg : Message) (tuid : Uid) (key value : string) (s : Server) : Server :=
  if String.eqb key "accountname" then
    if is_empty value || String.eqb value "*" then logout tuid s else set_login tuid value s
  else if is_letter_in ["avatar"; "bio"; "pronouns"; "timezone"; "url"] key then
    let nick := map_or "" u_nick (users (core s) !! tuid) in
    let setter := map_or (s_name (core s)) rs_name (src ← source msg; servers (core s) !! src) in
    metadata_apply_user tuid nick key (if is_empty value then None else Some value) setter s
  else if String.eqb key "swhois" then
    upd (with_user tuid (λ u, u <| u_swhois := if is_empty value then None else Some value |>)) s
  else if String.eqb key "signore" then
    upd (with_user tuid (λ u, u <| u_signore := nonempty (split " " value) |>)) s
  else s.

Definition link_metadata (from : Uid) (msg : Message) (s : Server) : Server :=
  match params msg with
  | target :: key :: value :: _ =>
      if String.eqb target "*" then
        propagate (to_wire msg) (Some from)
          (if String.eqb key "filter" then upd (apply_filter_metadata value) s else s)
      else match link_local_target (core s) target with
      | None =>
          if String.eqb key "accountname" then
            let '(changed, s) := apply_remote_account target value from s in
            if changed then propagate (to_wire msg) (Some from) s else s
          else forward_to_target target msg from s
      | Some tuid =>
          if negb (source_is_service (core s) msg) then s else apply_local_metadata msg tuid key value s
      end
  | _ => s
  end.

(** ** SASL and standard replies *)

Definition sasl_relay (uid : Uid) (rest : string) (s : Server) : Server :=
  match sasl_link (core s), users (core s) !! uid with
  | Some via, Some u =>
      let mask := map_or "*" rs_sid (find_first (λ sv, bool_decide (rs_via sv = via))
                                       (map snd (map_to_list (servers (core s))))) in
      link_out via (":" +:+ s_sid (core s) +:+ " ENCAP " +:+ mask +:+ " SASL " +:+ u_uuid u
                    +:+ " * " +:+ rest) s
  | _, _ => s
  end.

Definition sasl_done (uid : Uid) (success : bool) (account : string) (s : Server) : Server :=
  if success then
    let mask := map_or "*" user_prefix (users (core s) !! uid) in
    numeric uid RPL_SASLSUCCESS ":SASL authentication successful"
      (numeric uid RPL_LOGGEDIN (mask +:+ " " +:+ account +:+ " :You are now logged in as " +:+ account) s)
  else numeric uid ERR_SASLFAIL ":SASL authentication failed" s.

Definition link_sasl (from : Uid) (msg : Message) (s : Server) : Server :=
  match params msg with
  | _ :: client :: mode :: rest =>
      match uuid_local (core s) !! client with
      | None => forward_to_target client msg from s
      | Some uid =>
          if String.eqb mode "C" then
            match rest with
            | data :: _ => send uid ("AUTHENTICATE " +:+ data) s
            | [] => s
            end
          else if String.eqb mode "D" then
            let okay := map_or false (String.eqb "S") (head rest) in
            let account := default "" (users (core s) !! uid ≫= u_account) in
            upd (with_user uid (λ u, u <| u_sasl_mech := None |>)) (sasl_done uid okay account s)
          else s
      end
  | _ => s
  end.

Definition link_stdreply_recv (from : Uid) (msg : Message) (s : Server) : Server :=
  match params msg with
  | to :: _ :: kind :: cmd :: code :: rest =>
      match uuid_local (core s) !! to with
      | None => forward_to_target to msg from s
      | Some dst =>
          standard_reply dst (if is_letter_in ["WARN"; "NOTE"] kind then kind else "FAIL") cmd code
            (default "" (head rest)) s
      end
  | _ => s
  end.

(** ** ENCAP and the dispatcher *)

(** The link towards a server given by id or name. *)
Definition server_link (c : Core) (m : string) : option Uid :=
  rs_via <$> find_first (λ sv, String.eqb (rs_sid sv) m || eq_ignore_ascii_case (rs_name sv) m)
               (map snd (map_to_list (servers c))).

(** The handlers of a registered link that only return, and those that are for
    services only. *)
Definition Recv : Type := Uid → Message → Server → Server.

Definition link_table : list (string * Recv) :=
  [("PING", λ uid msg, link_out uid ("PONG :" +:+ default "" (head (params msg))));
   ("UID", link_uid_recv); ("NICK", link_nick_recv); ("QUIT", link_quit_recv);
   ("KILL", link_kill_recv); ("SAVE", link_save_recv); ("INVITE", link_invite_recv);
   ("ADDLINE", link_addline_recv); ("DELLINE", link_delline_recv);
   ("PRIVMSG", λ uid msg, link_message_recv uid msg false);
   ("NOTICE", λ uid msg, link_message_recv uid msg true);
   ("JOIN", link_join_recv); ("PART", link_part_recv); ("TOPIC", link_topic_recv);
   ("FTOPIC", link_ftopic_recv); ("KICK", link_kick_recv); ("RENAME", link_rename_recv);
   ("MODE", link_mode_recv); ("FMODE", link_mode_recv); ("FJOIN", link_fjoin_recv);
   ("IJOIN", link_ijoin_recv); ("METADATA", link_metadata); ("CHGHOST", link_chghost_recv);
   ("CHGIDENT", link_chgident_recv); ("AWAY", link_away_recv); ("SETNAME", link_setname_recv);
   ("SWSTDRPL", link_stdreply_recv); ("OPERTYPE", link_opertype_recv);
   ("REDACT", link_redact_recv); ("SASL", link_sasl)].

Definition svs_table : list (string * Recv) :=
  [("SVSNICK", link_svsnick); ("SVSJOIN", link_svsjoin); ("SVSMODE", link_svsmode);
   ("SVSLOGIN", link_svslogin); ("SVSLOGOUT", link_svslogout); ("SVSHOLD", link_svshold);
   ("SVSTOPIC", link_svstopic); ("SVSOPER", link_svsoper); ("SVSCMODE", link_svscmode)].

Definition handler_in (table : list (string * Recv)) (cmd : string) : option Recv :=
  snd <$> find_first (λ e, String.eqb e.1 cmd) table.

Definition link_handler (cmd : string) (c : Core) (msg : Message) : option Recv :=
  match handler_in link_table cmd with
  | Some h => Some h
  | None => if source_is_service c msg then handler_in svs_table cmd else None
  end.

(** The lines that are handled whether or not the link has registered. *)
Definition always_handled (uid : Uid) (msg : Message) (s : Server) : Server :=
  if String.eqb (command msg) "BURST" then upd (with_link uid (λ l, l <| l_bursting := true |>)) s
  else if String.eqb (command msg) "ENDBURST" then
    upd (with_link uid (λ l, l <| l_bursting := false |>)) s
  else if String.eqb (command msg) "SQUIT" then close_link uid "SQUIT" s
  else if String.eqb (command msg) "ERROR" then close_link uid "peer error" s
  else s.

(** What an ENCAP carries. *)
Definition unwrapped (msg : Message) (sub : string) (ps : list string) : Message :=
  plain_message (source msg) (to_ascii_uppercase sub) ps.

(** [on_link]; an ENCAP for us is dispatched again, with two parameters fewer. *)
Fixpoint on_link_fuel (fuel : nat) (uid : Uid) (msg : Message) (s : Server) : option Server :=
  match fuel with
  | O => None
  | S fuel =>
      let s := upd (with_link uid (λ l, l <| l_last_seen := clock (core s) |>)) s in
      let registered := map_or false l_registered (links (core s) !! uid) in
      if negb registered then
        if String.eqb (command msg) "SERVER" then Some (link_server uid msg s)
        else Some (always_handled uid msg s)
      else if String.eqb (command msg) "ENCAP" then
        match params msg with
        | m :: sub :: ps =>
            let inner := on_link_fuel fuel uid (unwrapped msg sub ps) in
            if String.eqb m "*" then propagate (to_wire msg) (Some uid) <$> inner s
            else if String.eqb m (s_sid (core s)) || glob_match m (s_name (core s)) then inner s
            else match server_link (core s) m with
                 | Some v => Some (if bool_decide (v = uid) then s else link_out v (to_wire msg) s)
                 | None => Some s
                 end
        | _ => Some s
        end
      else if String.eqb (command msg) "SVSPART" then
        if source_is_service (core s) msg then link_svspart uid msg s else Some s
      else match link_handler (command msg) (core s) msg with
           | Some h => Some (h uid msg s)
           | None => Some (always_handled uid msg s)
           end
  end.

Definition on_link (uid : Uid) (msg : Message) : Server → option Server :=
  on_link_fuel (S (length (params msg))) uid msg.

End services.
