(* ===== verification/CoreOper.v ===== *)
(** * Operator commands: [src/src/coremods/core_oper.rs]

    KILL, WALLOPS, GLOBOPS, the SA and SVS commands, the CHG and SET tools,
    JUPE, NICKLOCK, CONNECT and SQUIT, CHECK and the rest; OPER and CHALLENGE are
    in [OperAuth], the x-line commands in [Xline]. *)

From Stdlib Require Import Ascii.
From S2P Require Import Prelude RustStr Message Glob Clock I18n Channel Numeric State UserMode CoreMode Ban.
From S2P Require Import Watch Users Membership Account Filter Xline CoreChannel Bcrypt Password OperTypes Link.

Local Open Scope stdpp_scope.

(** A block of the handler that runs only for operators. *)
Definition if_oper (uid : Uid) (h : Handler) : Handler := λ s,
  let '(okay, s) := require_oper uid s in if okay then h s else failed s.

Definition onotice (uid : Uid) (msg : string) (s : Server) : Server :=
  tell uid (map_or "*" u_nick (users (core s) !! uid)) msg s.

Definition onotices (uid : Uid) (l : list string) (s : Server) : Server := for_each l (onotice uid) s.

(** [oper_target]: resolve a nick or refuse. *)
Definition with_target (uid : Uid) (nick : string) (h : Uid → Handler) : Handler := λ s,
  match find_nick (core s) nick with
  | Some t => h t s
  | None => no_such_nick uid nick s
  end.

Definition no_sa_service (uid : Uid) : Handler :=
  refuse uid ERR_NOPRIVILEGES ":Cannot use an SA command on a network service".

Section core_oper.
Context `{UnicodeLower} `{Outside}.

(** The audit notice most commands end with. *)
Definition audit (uid : Uid) (template : string) (args : list string) (s : Server) : Server :=
  snotice_c "v" (trf (core s) template (nick_of (core s) uid :: args)) s.

(** ** OPERMOTD, ALLTIME *)

Definition opermotd_cmd (uid : Uid) : Handler := if_oper uid (λ s,
  let nick := nick_of (core s) uid in
  match conf_all (core s) "opermotd" with
  | [] => ok (tell uid nick "No OPERMOTD is set" s)
  | motd =>
      let s := tell uid nick "- IRC Operators Message of the Day -" s in
      let s := for_each motd (λ line, tell uid nick ("- " +:+ line)) s in
      ok (tell uid nick "- End of OPERMOTD -" s)
  end).

Definition alltime_cmd (uid : Uid) : Handler := if_oper uid (λ s,
  ok (onotice uid ("ALLTIME: " +:+ s_name (core s) +:+ " " +:+ iso_time (clock (core s))) s)).

(** ** KILL *)

Definition no_kill_service (uid : Uid) : Handler :=
  refuse uid ERR_NOPRIVILEGES ":You cannot KILL a network service".

(** The target is not a local user. *)
Definition kill_elsewhere (uid : Uid) (target reason : string) : Handler := λ s,
  let c := core s in
  match find_remote c target with
  | Some (uuid, _) =>
      if uuid_is_service c uuid
         || map_or false (λ r, contains_byte "k" (ru_modes r)) (remote_users c !! uuid) then
        no_kill_service uid s
      else
        let killer_uuid := map_or "" u_uuid (users c !! uid) in
        ok (route_kill killer_uuid uuid (nick_of c uid +:+ " (" +:+ reason +:+ ")") s)
  | None =>
      if eq_ignore_ascii_case target (s_name c)
         || existsb (λ '(_, sv), eq_ignore_ascii_case (rs_name sv) target) (map_to_list (servers c)) then
        refuse uid ERR_CANTKILLSERVER ":You can't KILL a server" s
      else no_such_nick uid target s
  end.

Definition kill_cmd (uid : Uid) (target : string) (why : option string) : Handler := if_oper uid (λ s,
  let reason := default "Killed" why in
  match find_nick (core s) target with
  | None => kill_elsewhere uid target reason s
  | Some tuid =>
      if uid_servprotected (core s) tuid then no_kill_service uid s
      else match deny_kill (core s) uid tuid with
      | Some r => refuse uid ERR_NOPRIVILEGES (":" +:+ r) s
      | None =>
          let killer := nick_of (core s) uid in
          let s := send tuid (":" +:+ s_name (core s) +:+ " KILL " +:+ target +:+ " :" +:+ killer +:+ " ("
                              +:+ reason +:+ ")") s in
          ok (remove_user tuid ("Killed by " +:+ killer +:+ ": " +:+ reason) s)
      end
  end).

(** ** Accounts *)

(** The two commands share their gates. *)
Definition account_gate (uid : Uid) (cmd : string) (h : Handler) : Handler := λ s,
  if negb (is_oper (core s) uid) then
    refuse uid ERR_NOPRIVILEGES (":Permission Denied- " +:+ cmd +:+ " is a services command") s
  else if negb (conf_bool (core s) "oper_svslogin" false) then
    refuse uid ERR_NOPRIVILEGES
      ":Permission Denied- account login is handled by services (set oper_svslogin to override)" s
  else h s.

Definition svslogin_cmd (uid : Uid) (target account : string) : Handler :=
  account_gate uid "SVSLOGIN" (with_target uid target (λ tuid s,
    ok (if String.eqb account "*" || String.eqb account "0" then logout tuid s
        else set_login tuid account s))).

Definition svslogout_cmd (uid : Uid) (target : string) : Handler :=
  account_gate uid "SVSLOGOUT" (with_target uid target (λ tuid s, ok (logout tuid s))).

(** ** Announcements *)

(** [Server::wallops] of [src/src/users.rs]. *)
Definition wallops_targets (c : Core) : list Uid :=
  map fst (filter (λ '(_, u), oper (u_flags u) || wallops (u_flags u) = true) (map_to_list (users c))).

Definition send_wallops (from text : string) (s : Server) : Server :=
  for_each (wallops_targets (core s)) (λ u, send u (":" +:+ from +:+ " WALLOPS :" +:+ text)) s.

Definition wallops_cmd (uid : Uid) (text : string) : Handler := if_oper uid (λ s,
  ok (send_wallops (nick_of (core s) uid) text s)).

Definition oper_uids (c : Core) : list Uid :=
  map fst (filter (λ '(_, u), oper (u_flags u) = true) (map_to_list (users c))).

Definition globops_cmd (uid : Uid) (text : string) : Handler := if_oper uid (λ s,
  let m := trf (core s) "GLOBOPS from {0}: {1}" [nick_of (core s) uid; text] in
  ok (for_each (oper_uids (core s)) (λ o s, tell o (nick_of (core s) o) ("*** " +:+ m) s) s)).

(** ** Forced joins, parts, nicks and modes *)

Definition sajoin_cmd (uid : Uid) (target chan : string) : Handler :=
  if_oper uid (with_target uid target (λ tuid s, ok (join tuid chan None s))).

Definition svsjoin_cmd (uid : Uid) (target chan : string) : Handler :=
  if_oper uid (with_target uid target (λ tuid s, ok (join tuid chan None s))).

Definition sapart_cmd (uid : Uid) (target chan : string) (why : option string) : Handler :=
  if_oper uid (with_target uid target (λ tuid s,
    s ← force_part tuid chan (default "Removed" why) s; ok s)).

Definition svspart_cmd (uid : Uid) (target chan : string) (why : option string) : Handler :=
  if_oper uid (with_target uid target (λ tuid s,
    s ← force_part tuid chan (default "Services forced part" why) s; ok s)).

(** Whether a nick belongs to somebody else. *)
Definition nick_in_use (c : Core) (tuid : Uid) (newnick : string) : bool :=
  negb (eq_ignore_ascii_case newnick (nick_of c tuid))
  && (is_some (find_nick c newnick) || is_some (remote_nick c !! to_ascii_lowercase newnick)).

Definition bad_nick (uid : Uid) (nick : string) : Handler :=
  refuse uid ERR_ERRONEUSNICKNAME (nick +:+ " :Erroneous nickname").
Definition nick_taken (uid : Uid) (nick : string) : Handler :=
  refuse uid ERR_NICKNAMEINUSE (nick +:+ " :Nickname is already in use").

Definition nick_valid (c : Core) (nick : string) : bool := valid_nick nick (conf_num c u64_max "maxnick" 30).

(** The checks and the change that SANICK and SVSNICK share. *)
Definition force_nick (uid tuid : Uid) (newnick : string) : Handler := λ s,
  if negb (nick_valid (core s) newnick) then bad_nick uid newnick s
  else if nick_in_use (core s) tuid newnick then nick_taken uid newnick s
  else ok (set_nick tuid newnick s).

Definition sanick_cmd (uid : Uid) (target newnick : string) : Handler :=
  if_oper uid (with_target uid target (λ tuid s,
    if uid_servprotected (core s) tuid then no_sa_service uid s else force_nick uid tuid newnick s)).

Definition svsnick_cmd (uid : Uid) (target newnick : string) : Handler :=
  if_oper uid (with_target uid target (λ tuid, force_nick uid tuid newnick)).

(** A mode change with the authority of the server. *)
Definition sudo_mode (uid : Uid) (target : string) (params : list string) (s : Server) : CmdResult * Server :=
  let '(r, s) := apply_mode uid target params (set_sudo true s) in (r, set_sudo false s).

Definition svsmode_cmd (uid : Uid) (target ms : string) (rest : list string) : Handler := if_oper uid (λ s,
  if starts_with "#" target then Some (sudo_mode uid target (ms :: rest) s)
  else with_target uid target (λ tuid s, ok (svs_set_user_modes tuid ms s)) s).

Definition samode_cmd (uid : Uid) (target ms : string) (rest : list string) : Handler := if_oper uid (λ s,
  let '(r, s) := sudo_mode uid target (ms :: rest) s in
  Some (r, audit uid "{0} used SAMODE: {1}" [str_join " " (target :: ms :: rest)] s)).

(** ** DIE and RESTART *)

(** [inl] is the end of the process, with its exit code. *)
Definition exit_cmd (cmd : string) (uid : Uid) (name : string) (s : Server) : N + (CmdResult * Server) :=
  let '(okay, s) := require_oper uid s in
  if negb okay then inr (CmdFail, s)
  else if negb (String.eqb name (s_name (core s))) then
    inr (CmdFail, numeric uid ERR_NOPRIVILEGES (":" +:+ cmd +:+ " requires the server name") s)
  else inl 0%N.

Definition die_cmd : Uid → string → Server → N + (CmdResult * Server) := exit_cmd "DIE".
Definition restart_cmd : Uid → string → Server → N + (CmdResult * Server) := exit_cmd "RESTART".

(** ** Servers *)

Definition linked_servers (c : Core) : list (Uid * string) :=
  map (λ '(_, sv), (rs_via sv, rs_name sv)) (map_to_list (servers c)).

Definition close_juped (s : Server) : Server :=
  for_each (linked_servers (core s)) (λ '(via, name) s,
    if is_some (matched_jupe (core s) name) then
      close_link via "Juped"
        (snotice_c "l" (trf (core s) "juped server {0} — closing link" [name]) s)
    else s) s.

Definition jupe_cmd (uid : Uid) (mask : string) (rest : list string) (s : Server) : CmdResult * Server :=
  let '(r, s) := do_xline uid mask rest Jupe s in
  match r, rest with
  | CmdOk, _ :: _ => (r, close_juped s)
  | _, _ => (r, s)
  end.

Definition DEFAULT_MAX_LINE : N := 16384.

Definition connect_cmd (uid : Uid) (name : string) : Handler := if_oper uid (λ s,
  match find_first (λ b, eq_ignore_ascii_case (lb_name b) name) (link_blocks (core s)) with
  | None => failed (onotice uid ("CONNECT: no link block named " +:+ name) s)
  | Some b =>
      if existsb (λ '(_, sv), eq_ignore_ascii_case sv (lb_name b)) (linked_servers (core s)) then
        failed (onotice uid ("CONNECT: " +:+ lb_name b +:+ " is already linked") s)
      else
        let addr := lb_ip b +:+ ":" +:+ to_string (lb_port b) in
        let s := start_job (JobDial addr (conf_num (core s) u64_max "max_line" DEFAULT_MAX_LINE)) s in
        ok (snotice_c "l" (nick_of (core s) uid +:+ " used CONNECT to " +:+ lb_name b +:+ " (" +:+ addr +:+ ")") s)
  end).

Definition squit_cmd (uid : Uid) (name : string) : Handler := if_oper uid (λ s,
  match find_first (λ '(_, n), eq_ignore_ascii_case n name) (linked_servers (core s)) with
  | None => refuse uid ERR_NOSUCHSERVER (name +:+ " :No such server") s
  | Some (via, _) =>
      let by_ := nick_of (core s) uid in
      let s := snotice_c "l" (trf (core s) "{0} used SQUIT on {1}" [by_; name]) s in
      ok (close_link via ("SQUIT from " +:+ by_) s)
  end).

(** ** Locked nicks *)

Definition set_nick_locked (uid : Uid) (b : bool) : Server → Server :=
  set_flags uid (λ f, f <| nick_locked := b |>).

Definition nicklock_cmd (uid : Uid) (target newnick : string) : Handler :=
  if_oper uid (with_target uid target (λ tuid s,
    if negb (nick_valid (core s) newnick) then bad_nick uid newnick s
    else if nick_in_use (core s) tuid newnick then nick_taken uid newnick s
    else
      let s := if eq_ignore_ascii_case newnick (nick_of (core s) tuid) then s else set_nick tuid newnick s in
      ok (audit uid "{0} used NICKLOCK on {1}" [newnick] (set_nick_locked tuid true s)))).

Definition nickunlock_cmd (uid : Uid) (target : string) : Handler :=
  if_oper uid (with_target uid target (λ tuid s,
    ok (audit uid "{0} used NICKUNLOCK on {1}" [target] (set_nick_locked tuid false s)))).

(** ** Hosts, idents, names *)

Definition chghost_cmd (uid : Uid) (target host : string) : Handler := if_oper uid (λ s,
  if negb (valid_host host) then failed (onotice uid "*** CHGHOST: invalid characters in hostname" s)
  else with_target uid target (λ t s,
    let s := change_host_ident t None (Some host) s in
    ok (snotice_c "v" (nick_of (core s) uid +:+ " used CHGHOST on " +:+ target +:+ ": " +:+ host) s)) s).

Definition sethost_cmd (uid : Uid) (host : string) : Handler := if_oper uid (λ s,
  if negb (valid_host host) then failed (onotice uid "*** SETHOST: invalid characters in hostname" s)
  else ok (change_host_ident uid None (Some host) s)).

Definition chgident_cmd (uid : Uid) (target ident : string) : Handler := if_oper uid (λ s,
  if negb (valid_ident ident) then failed (onotice uid "*** CHGIDENT: invalid characters in ident" s)
  else with_target uid target (λ t s,
    let s := change_host_ident t (Some ident) None s in
    ok (snotice_c "v" (nick_of (core s) uid +:+ " used CHGIDENT on " +:+ target +:+ ": " +:+ ident) s)) s).

Definition setident_cmd (uid : Uid) (ident : string) : Handler := if_oper uid (λ s,
  if negb (valid_ident ident) then failed (onotice uid "*** SETIDENT: invalid characters in ident" s)
  else ok (change_host_ident uid (Some ident) None s)).

Definition chgname_cmd (uid : Uid) (target realname : string) : Handler :=
  if_oper uid (with_target uid target (λ t s,
    match users (core s) !! t with
    | None => failed s
    | Some u =>
        let s := upd (with_user t (λ u, u <| u_realname := realname |>)) s in
        let line := ":" +:+ user_prefix u +:+ " SETNAME :" +:+ realname in
        let s := if has_cap (core s) t "setname" then send t line s else s in
        let s := notify_peers t line "setname" s in
        ok (audit uid "{0} used CHGNAME on {1}: {2}" [target; realname] s)
    end)).

Definition swhois_cmd (uid : Uid) (target : string) (words : list string) : Handler :=
  if_oper uid (with_target uid target (λ t s,
    let text := str_join " " words in
    let s := upd (with_user t (λ u, u <| u_swhois := if is_empty text then None else Some text |>)) s in
    ok (audit uid "{0} used SWHOIS on {1}: {2}" [target; text] s))).

Definition setidle_cmd (uid : Uid) (arg : string) : Handler := if_oper uid (λ s,
  let secs := default 0%N (parse_uint u64_max arg) in
  let s := upd (with_user uid (λ u, u <| u_last_msg := (clock (core s) - secs)%N |>)) s in
  ok (onotice uid ("*** SETIDLE: idle time set to " +:+ to_string secs +:+ "s") s)).

(** ** Channels *)

Definition satopic_cmd (uid : Uid) (chan text : string) : Handler := if_oper uid (λ s,
  let k := to_ascii_lowercase chan in
  if negb (is_some (channels (core s) !! k)) then no_such_channel uid chan s
  else
    u ← users (core s) !! uid;
    let s := upd (with_chan k (λ c, c <| ch_topic := Some (mkTopic text (u_nick u) (clock (core s))) |>)) s in
    let s := to_channel k (":" +:+ user_prefix u +:+ " TOPIC " +:+ chan +:+ " :" +:+ text) None s in
    let s := propagate_topic uid chan text s in
    ok (audit uid "{0} used SATOPIC on {1}" [chan] s)).

Definition sakick_cmd (uid : Uid) (chan victim : string) (why : option string) : Handler := if_oper uid (λ s,
  let k := to_ascii_lowercase chan in
  match channels (core s) !! k with
  | None => no_such_channel uid chan s
  | Some ch =>
      with_target uid victim (λ tuid s,
        if negb (is_some (members ch !! tuid)) then
          refuse uid ERR_USERNOTINCHANNEL (victim +:+ " " +:+ chan +:+ " :They aren't on that channel") s
        else if uid_servprotected (core s) tuid then no_sa_service uid s
        else
          let reason := default "Kicked by services" why in
          u ← users (core s) !! uid;
          let kickline := ":" +:+ user_prefix u +:+ " KICK " +:+ chan +:+ " " +:+ victim +:+ " :" +:+ reason in
          let s := to_channel k kickline None (record_event k kickline s) in
          let s := propagate_kick uid chan victim reason s in
          let s := upd (retain_alive ∘ drop_member tuid k) s in
          ok (audit uid "{0} used SAKICK on {1} in {2}" [victim; chan] s)) s
  end).

(** One turn of CLEARCHAN. *)
Definition clear_one (uid : Uid) (prefix k chan reason : string) (tuid : Uid) (s : Server) : Server :=
  let victim := nick_of (core s) tuid in
  if is_empty victim then s
  else
    let s := to_channel k (":" +:+ prefix +:+ " KICK " +:+ chan +:+ " " +:+ victim +:+ " :" +:+ reason) None s in
    let s := propagate_kick uid chan victim reason s in
    let s := upd (drop_member tuid k) s in
    push_event (HPart tuid k "cleared") s.

Definition clearchan_cmd (uid : Uid) (chan : string) (why : option string) : Handler := if_oper uid (λ s,
  let k := to_ascii_lowercase chan in
  match channels (core s) !! k with
  | None => no_such_channel uid chan s
  | Some ch =>
      let reason := default "Channel cleared by services" why in
      u ← users (core s) !! uid;
      let s := for_each (elements (dom (members ch))) (clear_one uid (user_prefix u) k chan reason) s in
      ok (audit uid "{0} used CLEARCHAN on {1}" [chan] (upd retain_alive s))
  end).

(** ** SAQUIT *)

Definition saquit_cmd (uid : Uid) (target : string) (why : option string) : Handler :=
  if_oper uid (with_target uid target (λ tuid s,
    let reason := default "Services forced quit" why in
    if uid_servprotected (core s) tuid then no_sa_service uid s
    else
      let s := send tuid ("ERROR :" +:+ trf (core s) "Closing link: (SAQUIT: {0})" [reason]) s in
      let s := remove_user tuid ("Quit: " +:+ reason) s in
      ok (audit uid "{0} used SAQUIT on {1}: {2}" [target; reason] s))).

(** ** CHECK *)

Definition check_channel (c : Core) (target : string) (ch : Channel) : list string :=
  let topic := map_or "" t_text (ch_topic ch) in
  let names := omap (λ m, u_nick <$> users c !! m) (elements (dom (members ch))) in
  ["*** CHECK " +:+ target +:+ ": channel, " +:+ to_string (N.of_nat (size (members ch))) +:+ " members"]
  ++ (if is_empty topic then [] else ["*** topic: " +:+ topic])
  ++ ["*** members: " +:+ str_join " " names].

Definition check_user (c : Core) (target : string) (u : User) : list string :=
  ["*** CHECK " +:+ target +:+ ": " +:+ user_prefix u;
   "*** realhost " +:+ u_host u +:+ " ip " +:+ u_ip u;
   "*** realname: " +:+ u_realname u;
   "*** account: " +:+ default "*" (u_account u) +:+ "  secure: " +:+ (if u_secure u then "true" else "false");
   "*** umodes: +" +:+ umodes (u_flags u);
   "*** signon " +:+ iso_time (u_signon u) +:+ " idle " +:+ to_string (clock c - u_last_msg u)%N +:+ "s";
   "*** channels: " +:+ str_join " " (elements (u_channels u))].

Definition check_cmd (uid : Uid) (target : string) : Handler := if_oper uid (λ s,
  let c := core s in
  if starts_with "#" target then
    match channels c !! to_ascii_lowercase target with
    | None => no_such_channel uid target s
    | Some ch => ok (onotices uid (check_channel c target ch) s)
    end
  else match find_nick c target with
  | Some t => u ← users c !! t; ok (onotices uid (check_user c target u) s)
  | None => no_such_nick uid target s
  end).

(** ** The GLOBOPS of [src/src/modules/globops.rs] *)

(** It is registered after the one above and takes its place. *)
Definition globops_notice (uid : Uid) (words : list string) : Handler := λ s,
  if negb (is_oper (core s) uid) then
    refuse uid ERR_NOPRIVILEGES ":Permission Denied- You're not an IRC operator" s
  else ok (snotice_c "g" (trf (core s) "GLOBOPS from {0}: {1}" [nick_of (core s) uid; str_join " " words]) s).

End core_oper.
