(* ===== verification/CoreUser.v ===== *)
(** * Session commands: [src/src/coremods/core_user.rs]

    CAP, AUTHENTICATE, NICK, USER, PING, PONG, PASS, QUIT, AWAY, SETNAME and
    VHOST, with [src/src/modules/conn_waitpong.rs].  WEBIRC is not modelled. *)

From Stdlib Require Import Ascii.
From S2P Require Import Prelude RustStr Glob Clock I18n Channel Numeric State Mode UserMode CoreMode Ban.
From S2P Require Import Watch Users Membership Account Filter Xline CoreChannel CoreMessage Multiline Password.
From S2P Require Import Registration CoreOper LinkServices.

Local Open Scope stdpp_scope.

(** ** CAP *)

(** [account_registration::cap_tokens]; [acctreg_enabled] is its [enabled]. *)
Definition acctreg_enabled (c : Core) : bool :=
  conf_bool c "account_registration" false && is_some (conf c "acctregister_registerurl").

Definition cap_tokens (c : Core) : string :=
  if negb (acctreg_enabled c) then ""
  else str_join "," (["custom-account-name"]
         ++ (if conf_bool c "acctregister_beforeconnect" true then ["before-connect"] else [])
         ++ (if conf_bool c "acctregister_emailrequired" true then ["email-required"] else [])).

(** [Caps::ls_line]. *)
Definition ls_token (cap302 secure : bool) (acctreg : string) (mbytes mlines : N) (cap : string) : string :=
  if String.eqb cap "sasl" && cap302 then
    if secure then "sasl=PLAIN,EXTERNAL,SCRAM-SHA-256,ECDSA-NIST256P-CHALLENGE"
    else "sasl=PLAIN,SCRAM-SHA-256,ECDSA-NIST256P-CHALLENGE"
  else if String.eqb cap "draft/multiline" && cap302 then
    "draft/multiline=max-bytes=" +:+ to_string mbytes +:+ ",max-lines=" +:+ to_string mlines
  else if String.eqb cap "draft/account-registration" && cap302 && negb (is_empty acctreg) then
    "draft/account-registration=" +:+ acctreg
  else cap.

Definition ls_line (cap302 secure : bool) (acctreg : string) (mbytes mlines : N) : string :=
  str_join " " (map (ls_token cap302 secure acctreg mbytes mlines) SUPPORTED_CAPS).

Definition caps_enabled (c : Caps) : string := str_join " " (filter (λ n, cap_has c n = true) SUPPORTED_CAPS).

(** The STS policy offered to 302 clients. *)
Definition sts_token (c : Core) (cap302 secure : bool) : string :=
  let dur := conf_num c u64_max "sts_duration" 0 in
  if cap302 && (0 <? dur)%N then
    let preload := if conf_bool c "sts_preload" false then ",preload" else "" in
    if secure then " sts=duration=" +:+ to_string dur +:+ preload
    else
      let port := conf_num c u16_max "sts_port" 0 in
      if (0 <? port)%N then
        " sts=port=" +:+ to_string port +:+ ",duration=" +:+ to_string dur +:+ preload
      else ""
  else "".

(** One token of the list, folded into the lines built so far. *)
Definition fold_ls (budget : nat) (acc : list string * string) (t : string) : list string * string :=
  let '(full, cur) := acc in
  let '(full, cur) :=
    if negb (is_empty cur) && (budget <? str_len cur + 1 + str_len t) then (full ++ [cur], "") else (full, cur) in
  (full, (if is_empty cur then "" else cur +:+ " ") +:+ t).

Definition ls_chunks (budget : nat) (tokens : list string) : list string :=
  let '(full, cur) := foldl (fold_ls budget) ([], "") tokens in full ++ [cur].

Definition cap_target (c : Core) (uid : Uid) : string :=
  map_or "*" (λ u, if is_empty (u_nick u) then "*" else u_nick u) (users c !! uid).

(** ": server CAP who rest". *)
Definition cap_reply (uid : Uid) (rest : string) (s : Server) : Server :=
  send uid (":" +:+ s_name (core s) +:+ " CAP " +:+ cap_target (core s) uid +:+ " " +:+ rest) s.

Definition ls_payload (c : Core) (uid : Uid) (cap302 : bool) : string :=
  let secure := map_or false u_secure (users c !! uid) in
  ls_line cap302 secure (cap_tokens c) (max_bytes c) (max_lines c) +:+ sts_token c cap302 secure.

Definition ls_budget (c : Core) (uid : Uid) : nat := 500 - (str_len (s_name c) + str_len (cap_target c uid) + 12).

Definition cap_ls (uid : Uid) (cap302 : bool) (s : Server) : Server :=
  let s := with_session uid (λ ss, ss <| ss_cap := true |> <| ss_cap_302 ::= (λ b, b || cap302) |>) s in
  let payload := ls_payload (core s) uid cap302 in
  if negb cap302 then cap_reply uid ("LS :" +:+ payload) s
  else
    let chunks := ls_chunks (ls_budget (core s) uid) (filter (λ t, is_empty t = false) (split " " payload)) in
    for_each (imap pair chunks) (λ '(i, chunk),
      cap_reply uid ("LS " +:+ (if i <? length chunks - 1 then "* " else "") +:+ ":" +:+ chunk)) s.

(** A requested capability and whether it is turned on. *)
Definition cap_wanted (t : string) : string * bool :=
  match strip_prefix "-" t with Some rest => (rest, false) | None => (t, true) end.

Definition set_caps (wanted : list (string * bool)) (caps : Caps) : Caps :=
  foldl (λ caps '(name, on), (cap_set caps name on).2) caps wanted.

Definition cap_req (uid : Uid) (req : string) (s : Server) : Server :=
  let s := with_session uid (λ ss, ss <| ss_cap := true |>) s in
  let wanted := map cap_wanted (split_whitespace req) in
  if negb (bool_decide (wanted = [])) && forallb (λ '(n, _), cap_known n) wanted then
    cap_reply uid ("ACK :" +:+ req) (upd (with_user uid (λ u, u <| u_caps ::= set_caps wanted |>)) s)
  else cap_reply uid ("NAK :" +:+ req) s.

Definition cap_cmd (uid : Uid) (sub : string) (arg : option string) : Handler := λ s,
  let up := to_ascii_uppercase sub in
  ok (if String.eqb up "LS" then cap_ls uid (bool_decide (arg = Some "302")) s
      else if String.eqb up "REQ" then cap_req uid (default "" arg) s
      else if String.eqb up "LIST" then
        cap_reply uid ("LIST :" +:+ map_or "" (λ u, caps_enabled (u_caps u)) (users (core s) !! uid)) s
      else if String.eqb up "END" then with_session uid (λ ss, ss <| ss_cap := false |>) s
      else s).

(** ** AUTHENTICATE *)

Definition set_mech (uid : Uid) (mech : option string) : Server → Server :=
  upd (with_user uid (λ u, u <| u_sasl_mech := mech |>)).

Definition no_services (uid : Uid) : Handler :=
  refuse uid ERR_SASLFAIL ":SASL authentication failed (services are not available)".

Definition SASL_MECHS : list string := ["PLAIN"; "SCRAM-SHA-256"; "ECDSA-NIST256P-CHALLENGE"].

Section core_user.
Context `{UnicodeLower} `{Outside}.

(** The client picks a mechanism. *)
Definition sasl_start (uid : Uid) (arg : string) : Handler := λ s,
  let have_services := is_some (sasl_link (core s)) in
  if String.eqb arg "*" then ok (numeric uid ERR_SASLABORTED ":SASL authentication aborted" s)
  else match find_first (eq_ignore_ascii_case arg) SASL_MECHS with
  | Some mech =>
      if negb have_services then no_services uid s
      else ok (sasl_relay uid ("S " +:+ mech) (set_mech uid (Some mech) s))
  | None =>
      if eq_ignore_ascii_case arg "EXTERNAL" then
        match users (core s) !! uid ≫= u_certfp with
        | Some fp =>
            if have_services then ok (sasl_relay uid ("S EXTERNAL " +:+ fp) (set_mech uid (Some "EXTERNAL") s))
            else refuse uid ERR_SASLFAIL ":SASL EXTERNAL requires a client certificate" s
        | None => refuse uid ERR_SASLFAIL ":SASL EXTERNAL requires a client certificate" s
        end
      else
        refuse uid ERR_SASLFAIL ":Unsupported SASL mechanism"
          (numeric uid RPL_SASLMECHS
             "PLAIN,SCRAM-SHA-256,ECDSA-NIST256P-CHALLENGE :are available SASL mechanisms" s)
  end.

(** The client sends its payload, or gives up. *)
Definition sasl_continue (uid : Uid) (arg : string) : Handler := λ s,
  let have_services := is_some (sasl_link (core s)) in
  if String.eqb arg "*" then
    let s := if have_services then sasl_relay uid "D A" s else s in
    ok (numeric uid ERR_SASLABORTED ":SASL authentication aborted" (set_mech uid None s))
  else if 400 <? str_len arg then
    refuse uid ERR_SASLTOOLONG ":SASL message too long" (set_mech uid None s)
  else if have_services then ok (sasl_relay uid ("C " +:+ arg) s)
  else no_services uid (set_mech uid None s).

Definition authenticate_cmd (uid : Uid) (arg : string) : Handler := λ s,
  if negb (has_cap (core s) uid "sasl") then
    refuse uid ERR_SASLFAIL ":You must request the sasl capability first" s
  else if is_logged_in (core s) uid then
    refuse uid ERR_SASLALREADY ":You have already authenticated using SASL" s
  else match users (core s) !! uid ≫= u_sasl_mech with
  | None => sasl_start uid arg s
  | Some _ => sasl_continue uid arg s
  end.

(** ** VHOST, AWAY, SETNAME *)

Definition vhost_line (user pass line : string) : option string :=
  match split_whitespace line with
  | u :: p :: h :: _ => if String.eqb u user && ct_eq p pass then Some h else None
  | _ => None
  end.

Definition vhost_cmd (uid : Uid) (user pass : string) : Handler := λ s,
  let host := head (omap (vhost_line user pass) (conf_all (core s) "vhost")) in
  let nick := map_or "*" u_nick (users (core s) !! uid) in
  match host with
  | Some h =>
      let s := change_host_ident uid None (Some h) s in
      ok (tell uid nick (trf (core s) "Your vhost is now {0}" [h]) s)
  | None => failed (tell uid nick "Invalid vhost credentials" s)
  end.

(** How long until AWAY may be used again. *)
Definition away_wait (c : Core) (uid : Uid) : option N :=
  let delay := conf_num c u64_max "away_delay" 0 in
  if (0 <? delay)%N && negb (is_oper c uid) then
    let since := (clock c - map_or 0 ss_last_away (session c uid))%N in
    if (since <? delay)%N then Some (delay - since)%N else None
  else None.

Definition away_cmd (uid : Uid) (arg : option string) : Handler := λ s,
  let msg := opt_filter (λ m, negb (is_empty m)) arg in
  match away_wait (core s) uid with
  | Some wait =>
      failed (tell uid (nick_of (core s) uid)
                ("Please wait " +:+ to_string wait +:+ "s before changing your away status") s)
  | None =>
      match users (core s) !! uid with
      | None => failed s
      | Some u =>
          let s := set_flags uid (λ f, f <| away := msg |>) s in
          let s := with_session uid (λ ss, ss <| ss_last_away := clock (core s) |>) s in
          let text := match msg with Some m => "AWAY :" +:+ m | None => "AWAY" end in
          let s := notify_peers uid (":" +:+ user_prefix u +:+ " " +:+ text) "away-notify" s in
          let s := propagate_from_user uid text s in
          ok (if is_some msg then numeric uid RPL_NOWAWAY ":You have been marked as being away" s
              else numeric uid RPL_UNAWAY ":You are no longer marked as being away" s)
      end
  end.

Definition setname_cmd (uid : Uid) (realname : string) : Handler := λ s,
  match users (core s) !! uid with
  | None => failed s
  | Some u =>
      let s := upd (with_user uid (λ u, u <| u_realname := realname |>)) s in
      let line := ":" +:+ user_prefix u +:+ " SETNAME :" +:+ realname in
      let s := if has_cap (core s) uid "setname" then send uid line s else s in
      let s := notify_peers uid line "setname" s in
      ok (propagate_from_user uid ("SETNAME :" +:+ realname) s)
  end.

(** ** NICK *)

Definition CHANNELS_IGNORE_NONICKS : string := "channels/ignore-nonicks".

Definition user_chans (c : Core) (uid : Uid) : list string := map_or [] (λ u, elements (u_channels u)) (users c !! uid).

(** The name of a channel the user is on where [+N] is set. *)
Definition no_nick_chan (c : Core) (uid : Uid) : option string :=
  head (omap (λ k, ch ← channels c !! k; if no_nick (modes ch) then Some (ch_name ch) else None) (user_chans c uid)).

(** A channel where the user is under an [n:] extban. *)
Definition nick_banned_chan (c : Core) (uid : Uid) : option string :=
  (λ k, map_or k ch_name (channels c !! k)) <$> find_first (λ k, extban_active c uid k "n") (user_chans c uid).

(** What the channels a user is on have against a nick change. *)
Definition nick_blocked (uid : Uid) (s : Server) : option string * Server :=
  if has_priv (core s) uid CHANNELS_IGNORE_NONICKS then (None, s)
  else match no_nick_chan (core s) uid with
  | Some cn => (Some (cn +:+ " :Cannot change nick while on this channel (+N is set)"), s)
  | None =>
      match nick_banned_chan (core s) uid with
      | Some cn => (Some (cn +:+ " :Cannot change nick here (+b n:)"), s)
      | None =>
          let '(r, s) := nickflood_blocked uid s in
          ((λ cn, cn +:+ " :Too many nick changes, try later (+F is set)") <$> r, s)
      end
  end.

(** [rline_matchonnickchange]. *)
Definition nick_rlined (uid : Uid) (s : Server) : Server :=
  if conf_bool (core s) "rline_matchonnickchange" false then
    match users (core s) !! uid with
    | Some u =>
        match matched_rline (core s) (u_nick u) (u_ident u) (u_host u) (u_ip u) (u_realname u) with
        | Some reason =>
            let s := send uid ("ERROR :" +:+ trf (core s) "Closing link: ({0})" [reason]) s in
            remove_user uid reason s
        | None => s
        end
    | None => s
    end
  else s.

Definition nick_cmd (uid : Uid) (arg : option string) : Handler := λ s,
  match arg with
  | None => refuse uid ERR_NONICKNAMEGIVEN ":No nickname given" s
  | Some newnick =>
      if negb (nick_valid (core s) newnick) then bad_nick uid newnick s
      else if map_or false (λ u, nick_locked (u_flags u)) (users (core s) !! uid) && negb (is_oper (core s) uid) then
        refuse uid ERR_CANTCHANGENICK ":Your nickname is locked and cannot be changed" s
      else match (if is_oper (core s) uid then None else nick_reserved (core s) newnick) with
      | Some reason => refuse uid ERR_ERRONEUSNICKNAME (newnick +:+ " :Nickname is reserved: " +:+ reason) s
      | None =>
          match find_nick (core s) newnick with
          | Some other => if bool_decide (other = uid) then ok s else nick_taken uid newnick s
          | None =>
              if is_some (remote_nick (core s) !! to_ascii_lowercase newnick) then nick_taken uid newnick s
              else
                let '(r, s) := nick_blocked uid s in
                match r with
                | Some text => refuse uid ERR_CANTCHANGENICK text s
                | None => ok (nick_rlined uid (set_nick uid newnick s))
                end
          end
      end
  end.

(** ** USER, PING, PONG, PASS, QUIT *)

Definition user_cmd (uid : Uid) (user realname : string) : Handler := λ s,
  if is_reg (core s) uid then refuse uid ERR_ALREADYREGISTERED ":You may not reregister" s
  else ok (upd (with_user uid (λ u, u <| u_ident := "~" +:+ ident_of user |> <| u_realname := realname |>)) s).

Definition ping_cmd (uid : Uid) (token : string) : Handler := λ s,
  ok (send uid (":" +:+ s_name (core s) +:+ " PONG " +:+ s_name (core s) +:+ " :" +:+ token) s).

(** [conn_waitpong::on_pong]. *)
Definition on_pong (uid : Uid) (params : list string) (s : Server) : Server :=
  match session (core s) uid ≫= ss_waitpong with
  | None => s
  | Some want =>
      if String.eqb (default "" (last params)) want then with_session uid (λ ss, ss <| ss_waitpong := None |>) s
      else if conf_bool (core s) "conn_waitpong_killonbadreply" false then
        let s := send uid ("ERROR :" +:+ trf (core s) "Closing link (incorrect ping reply)" []) s in
        remove_user uid "Incorrect ping reply" s
      else s
  end.

Definition pong_cmd (uid : Uid) (params : list string) : Handler := λ s, ok (on_pong uid params s).

Definition pass_cmd (uid : Uid) (pass : string) : Handler := λ s,
  if is_reg (core s) uid then failed s else ok (with_session uid (λ ss, ss <| ss_pass := Some pass |>) s).

Definition quit_cmd (uid : Uid) (arg : option string) : Handler := λ s,
  ok (with_session uid (λ ss, ss <| ss_quitting := Some ("Quit: " +:+ default "Client quit" arg) |>) s).

End core_user.
