(* ===== verification/CoreInfo.v ===== *)
(** * Informational commands: [src/src/coremods/core_extra.rs] and
    [src/src/coremods/core_info.rs]

    LIST, WHOWAS, USERHOST, ISON, TIME, ADMIN, INFO, STATS, MAP, LINKS, WHO with
    its extended form, SSLINFO, LUSERS and MOTD.  HELP, MODULES, VERSION and
    WHOIS are not modelled. *)

From Stdlib Require Import Ascii.
From S2P Require Import Prelude RustStr Glob Clock I18n Channel Numeric State Mode UserMode CoreMode Ban.
From S2P Require Import Watch Users Membership Xline CoreChannel CoreMessage Welcome.

Local Open Scope stdpp_scope.

Definition USERS_AUSPEX : string := "users/auspex".
Definition SERVERS_AUSPEX : string := "servers/auspex".
Definition VERSION : string := "5.0.4".

(** [sort] by a total order. *)
Fixpoint insert_by {A} (le : A → A → bool) (x : A) (l : list A) : list A :=
  match l with
  | [] => [x]
  | y :: r => if le x y then x :: l else y :: insert_by le x r
  end.

Definition sort_by {A} (le : A → A → bool) (l : list A) : list A := foldr (insert_by le) [] l.

(** The order of Rust's pairs of strings. *)
Definition pair_leb (a b : string * string) : bool :=
  if String.eqb a.1 b.1 then String.leb a.2 b.2 else String.leb a.1 b.1.

(** Answer with a list of numerics. *)
Definition numerics (uid : Uid) (rows : list (N * string)) (s : Server) : Server :=
  for_each rows (λ '(code, text), numeric uid code text) s.

(** ** LIST *)

(** A channel that is kept from those outside. *)
Definition is_hidden (ch : Channel) : bool := secret (modes ch) || private (modes ch).

Definition listed (c : Core) (uid : Uid) (ch : Channel) : bool :=
  negb (is_hidden ch && negb (is_some (members ch !! uid)) && negb (has_priv c uid CHANNELS_AUSPEX)).

Definition list_row (ch : Channel) : string :=
  ch_name ch +:+ " " +:+ to_string (N.of_nat (size (members ch) + size (rmembers ch))) +:+ " :"
  +:+ map_or "" t_text (ch_topic ch).

Definition list_rows (c : Core) (uid : Uid) : list string :=
  map list_row (filter (λ ch, listed c uid ch = true) (map snd (map_to_list (channels c)))).

Definition list_cmd (uid : Uid) : Handler := λ s,
  ok (numerics uid ([(RPL_LISTSTART, "Channel :Users Name")]
        ++ map (pair RPL_LIST) (list_rows (core s) uid) ++ [(RPL_LISTEND, ":End of /LIST")]) s).

(** ** WHOWAS, USERHOST, ISON *)

Definition whowas_hits (c : Core) (target : string) (limit : N) : list WhowasEntry :=
  let hits := filter (λ e, to_ascii_lowercase (w_nick e) = to_ascii_lowercase target) (whowas c) in
  take (N.to_nat (N.min limit (N.of_nat (length hits)))) hits.

Definition whowas_rows (c : Core) (e : WhowasEntry) : list (N * string) :=
  [(RPL_WHOWASUSER, w_nick e +:+ " " +:+ w_ident e +:+ " " +:+ w_host e +:+ " * :" +:+ w_realname e);
   (RPL_WHOISSERVER, w_nick e +:+ " " +:+ s_name c +:+ " :" +:+ iso_time (w_ts e))].

Definition whowas_cmd (uid : Uid) (target : string) (count : option string) : Handler := λ s,
  let limit := default 8%N (count ≫= parse_uint u64_max) in
  let hits := whowas_hits (core s) target limit in
  ok (numerics uid
        ((match hits with [] => [(ERR_WASNOSUCHNICK, target +:+ " :There was no such nickname")] | _ => [] end)
         ++ concat (map (whowas_rows (core s)) hits) ++ [(RPL_ENDOFWHOWAS, target +:+ " :End of WHOWAS")]) s).

Definition userhost_part (c : Core) (nick : string) : option string :=
  t ← find_nick c nick;
  u ← users c !! t;
  Some (u_nick u +:+ (if oper (u_flags u) then "*" else "") +:+ "="
        +:+ (if is_some (away (u_flags u)) then "-" else "+") +:+ u_ident u +:+ "@" +:+ host_display u).

Definition userhost_cmd (uid : Uid) (nicks : list string) : Handler := λ s,
  ok (numeric uid RPL_USERHOST (":" +:+ str_join " " (omap (userhost_part (core s)) (take 5 nicks))) s).

Definition is_online (c : Core) (nick : string) : bool := is_some (find_nick c nick) || is_some (find_remote c nick).

Definition ison_cmd (uid : Uid) (ps : list string) : Handler := λ s,
  let on := filter (λ n, is_online (core s) n = true) (concat (map split_whitespace ps)) in
  let lines := match chunk_join on " " 400 with [] => [""] | l => l end in
  ok (numerics uid (map (λ l, (RPL_ISON, ":" +:+ l)) lines) s).

(** ** TIME, ADMIN, INFO *)

Definition time_cmd (uid : Uid) : Handler := λ s,
  ok (numeric uid RPL_TIME (s_name (core s) +:+ " :" +:+ iso_time (clock (core s))) s).

Definition admin_cmd (uid : Uid) : Handler := λ s,
  ok (numerics uid
        [(RPL_ADMINME, s_name (core s) +:+ " :Administrative info");
         (RPL_ADMINLOC1, ":" +:+ trf (core s) "{0} IRC network" [s_network (core s)]);
         (RPL_ADMINLOC2, ":echoIRCd — a from-scratch ircd in Rust");
         (RPL_ADMINEMAIL, ":admin@" +:+ s_name (core s))] s).

Definition info_cmd (uid : Uid) : Handler := λ s,
  ok (numerics uid
        [(RPL_INFO, ":echoircd-" +:+ VERSION +:+ " — a from-scratch IRC daemon in Rust");
         (RPL_INFO, ":Memory-safe by construction; no unsafe code");
         (RPL_INFO, ":Running the " +:+ s_network (core s) +:+ " network");
         (RPL_ENDOFINFO, ":End of /INFO list")] s).

(** ** STATS *)

Definition stats_kind (letter : string) : option XKind :=
  if is_letter_in ["k"; "g"; "z"; "e"; "q"; "s"; "S"; "R"; "j"] letter then
    Some (match letter with
          | "k" => Kline | "g" => Gline | "z" => Zline | "e" => Eline | "q" => Qline
          | "S" => Svshold | "R" => Rline | "j" => Jupe | _ => Shun
          end)
  else None.

Definition uptime (up : N) : string :=
  ":Server Up " +:+ to_string (up / 86400) +:+ " days " +:+ pad_N 2 (up mod 86400 / 3600) +:+ ":"
  +:+ pad_N 2 (up mod 3600 / 60) +:+ ":" +:+ pad_N 2 (up mod 60).

Definition xline_row (x : XLine) : string :=
  xtag (x_kind x) +:+ " " +:+ x_mask x +:+ " " +:+ to_string (x_expires x) +:+ " " +:+ x_setter x +:+ " :"
  +:+ x_reason x.

Definition stats_rows (c : Core) (letter : string) : list (N * string) :=
  if String.eqb letter "u" then [(RPL_STATSUPTIME, uptime (clock c - s_created c)%N)]
  else if String.eqb letter "o" then map (λ o, (RPL_STATSOLINE, "O * * " +:+ ob_name o +:+ " :oper")) (opers c)
  else match stats_kind letter with
  | Some kind => map (λ x, (RPL_STATSXLINE, xline_row x)) (filter (λ x, x_kind x = kind) (xlines c))
  | None =>
      if String.eqb letter "l" then
        map (λ '(_, sv), (RPL_STATSLINKINFO, rs_name sv +:+ " 0 0 0 0 :" +:+ rs_desc sv)) (map_to_list (servers c))
      else []
  end.

Definition stats_cmd (uid : Uid) (arg : string) : Handler := λ s,
  let letter := default " " (head (chars arg)) in
  let fin := (RPL_ENDOFSTATS, letter +:+ " :End of /STATS report") in
  if negb (String.eqb letter "u") && negb (is_oper (core s) uid) then
    failed (numerics uid [(ERR_NOPRIVILEGES, ":Permission Denied- You're not an IRC operator"); fin] s)
  else ok (numerics uid (stats_rows (core s) letter ++ [fin]) s).

(** ** MAP and LINKS *)

(** [hideservices]: the servers a user is shown. *)
Definition shown_servers (c : Core) (uid : Uid) : list RemoteServer :=
  let hide := conf_bool c "hideservices" false && negb (has_priv c uid SERVERS_AUSPEX) in
  filter (λ sv, negb (hide && rs_service sv) = true) (map snd (map_to_list (servers c))).

Definition map_cmd (uid : Uid) : Handler := λ s,
  let c := core s in
  ok (numerics uid
        ([(RPL_MAP, s_name c +:+ " (" +:+ to_string (N.of_nat (size (users c))) +:+ " users)")]
         ++ map (λ n, (RPL_MAP, "`- " +:+ n)) (sort_by String.leb (map rs_name (shown_servers c uid)))
         ++ [(RPL_MAPEND, ":End of /MAP")]) s).

Definition links_cmd (uid : Uid) : Handler := λ s,
  let c := core s in
  ok (numerics uid
        ([(RPL_LINKS, s_name c +:+ " " +:+ s_name c +:+ " :0 " +:+ server_desc c)]
         ++ map (λ '(n, d), (RPL_LINKS, n +:+ " " +:+ s_name c +:+ " :1 " +:+ d))
              (sort_by pair_leb (map (λ sv, (rs_name sv, rs_desc sv)) (shown_servers c uid)))
         ++ [(RPL_ENDOFLINKS, "* :End of /LINKS list")]) s).

(** ** WHO *)

(** The fields and the query type of a WHOX request. *)
Definition whox_spec (opts : option string) : option (string * string) :=
  o ← opts;
  '(_, spec) ← split_once "%" o;
  Some (default (spec, "") (split_once "," spec)).

Definition whox_row (srv : string) (u : User) (chan flags fields qtype : string)
    (asker_oper is_self : bool) (now : N) : string :=
  let has b := contains_byte b fields in
  let part b v := if has b then [v] else [] in
  let row := str_join " "
    (part "t"%char (if is_empty qtype then "0" else qtype)
     ++ part "c"%char chan ++ part "u"%char (u_ident u)
     ++ part "i"%char (if asker_oper || is_self then u_ip u else "255.255.255.255")
     ++ part "h"%char (host_display u) ++ part "s"%char srv ++ part "n"%char (u_nick u) ++ part "f"%char flags
     ++ part "d"%char "0" ++ part "l"%char (to_string (now - u_last_msg u)%N)
     ++ part "a"%char (default "0" (u_account u)) ++ part "o"%char "n/a") in
  if has "r"%char then (if is_empty row then "" else row +:+ " ") +:+ ":" +:+ u_realname u else row.

(** The members of a channel a user is shown, with their prefixes. *)
Definition who_members (c : Core) (uid : Uid) (ch : Channel) : list (Uid * (string * string)) :=
  let multi := has_cap c uid "multi-prefix" in
  let hide := auditorium (modes ch)
              && (map_or 0 (member_rank (prefix_cfg c)) (members ch !! uid) <? RANK_OP)%N in
  omap (λ '(m, mem),
    if negb (bool_decide (m = uid))
       && ((hide && (member_rank (prefix_cfg c) mem <? RANK_OP)%N) || hidden mem)
    then None
    else Some (m, (ch_name ch, if multi then all_prefixes (prefix_cfg c) mem else prefix_char (prefix_cfg c) mem)))
    (map_to_list (members ch)).

(** Two users are on one channel. *)
Definition meet (c : Core) (a b : Uid) : bool :=
  existsb (λ '(_, ch), is_some (members ch !! a) && is_some (members ch !! b)) (map_to_list (channels c)).

(** A +i user is shown to those who share a channel with them. *)
Definition who_concealed (c : Core) (uid tuid : Uid) : bool :=
  map_or false (λ u, invisible (u_flags u)) (users c !! tuid) && negb (bool_decide (tuid = uid))
  && negb (has_priv c uid USERS_AUSPEX) && negb (meet c uid tuid).

Definition who_targets (c : Core) (uid : Uid) (target : string) : list (Uid * (string * string)) :=
  if starts_with "#" target then
    match channels c !! to_ascii_lowercase target with
    | Some ch => if listed c uid ch then who_members c uid ch else []
    | None => []
    end
  else match find_nick c target with
  | Some t => if who_concealed c uid t then [] else [(t, ("*", ""))]
  | None => []
  end.

Definition who_flags (asker_oper : bool) (u : User) (pfx : string) : string :=
  (if is_some (away (u_flags u)) then "G" else "H")
  +:+ (if oper (u_flags u) && (negb (hideoper (u_flags u)) || asker_oper) then "*" else "") +:+ pfx.

Definition who_row (c : Core) (uid : Uid) (whox : option (string * string)) (row : Uid * (string * string))
    : option (N * string) :=
  let '(m, (chan, pfx)) := row in
  u ← users c !! m;
  let flags := who_flags (is_oper c uid) u pfx in
  Some (match whox with
        | Some (fields, qtype) =>
            (RPL_WHOSPCRPL, whox_row (s_name c) u chan flags fields qtype (is_oper c uid)
                              (bool_decide (m = uid)) (clock c))
        | None =>
            (RPL_WHOREPLY, chan +:+ " " +:+ u_ident u +:+ " " +:+ host_display u +:+ " " +:+ s_name c +:+ " "
               +:+ u_nick u +:+ " " +:+ flags +:+ " :0 " +:+ u_realname u)
        end).

Definition who_cmd (uid : Uid) (target : string) (opts : option string) : Handler := λ s,
  let c := core s in
  ok (numerics uid (omap (who_row c uid (whox_spec opts)) (who_targets c uid target)
                    ++ [(RPL_ENDOFWHO, target +:+ " :End of /WHO list")]) s).

(** ** SSLINFO, LUSERS, MOTD *)

Definition sslinfo_cmd (uid : Uid) (target : string) : Handler := λ s,
  match find_nick (core s) target with
  | None => no_such_nick uid target s
  | Some t =>
      if negb (bool_decide (t = uid)) && negb (is_oper (core s) uid) then
        refuse uid ERR_NOPRIVILEGES ":You may only SSLINFO yourself" s
      else
        u ← users (core s) !! t;
        ok (tell uid (map_or "*" u_nick (users (core s) !! uid))
              (trf (core s) "SSLINFO {0}: TLS={1} certfp={2}"
                 [u_nick u; if u_secure u then "yes" else "no"; default "none" (u_certfp u)]) s)
  end.

Section core_info.
Context `{UnicodeLower} `{Outside}.

Definition lusers_cmd (uid : Uid) : Handler := λ s, ok (send_lusers uid s).
Definition motd_cmd (uid : Uid) : Handler := λ s, ok (send_motd uid s).

End core_info.
