(* ===== verification/LinkFacts.v ===== *)
(** * Linked servers keep the tables consistent

    Every line of a link, the handshake and its burst, and the closing of a link
    preserve [wf], so the network tables never refer to a link, a server or a
    user that is gone.  What a netsplit removes is stated exactly. *)

From Stdlib Require Import Ascii.
From S2P Require Import Prelude RustStr Message Glob Clock I18n Channel Numeric Regex State Mode UserMode.
From S2P Require Import CoreMode Ban Membership Watch Users Xline Account CoreChannel CoreMessage Filter.
From S2P Require Import Tables ModeTables MembershipTables JoinFacts LeaveFacts ListFacts UserFacts.
From S2P Require Import XlineFacts MessageFacts SpeechFacts FilterFacts Link LinkChannel LinkServices.

Local Open Scope stdpp_scope.

(** ** Output *)

#[export] Instance if_outputs (b : bool) f g : Outputs f → Outputs g → Outputs (λ s, if b then f s else g s).
Proof. intros Hf Hg s. by destruct b. Qed.

#[export] Instance forward_outputs target msg from : Outputs (forward_to_target target msg from).
Proof. intros s. unfold forward_to_target. repeat case_match; by frame. Qed.

#[export] Instance notify_if_outputs uuid line want : Outputs (notify_common_local_if uuid line want).
Proof. intros s. apply for_each_outputs. intros m s'. case_match; by frame. Qed.

#[export] Instance notify_common_outputs uuid line : Outputs (notify_common_local uuid line).
Proof. apply notify_if_outputs. Qed.

#[export] Instance burst_users_outputs link : Outputs (burst_users link).
Proof. intros s. apply for_each_outputs. apply _. Qed.

#[export] Instance burst_channels_outputs link : Outputs (burst_channels link).
Proof. intros s. apply for_each_outputs. apply _. Qed.

#[export] Instance burst_xlines_outputs link : Outputs (burst_xlines link).
Proof. intros s. apply for_each_outputs. intros x s'. by frame. Qed.

#[export] Instance burst_filters_outputs link : Outputs (burst_filters link).
Proof. intros s. apply for_each_outputs. intros x s'. by frame. Qed.

#[export] Instance introduce_outputs uid : Outputs (introduce_to_links uid).
Proof. intros s. unfold introduce_to_links. repeat case_match; try done. apply for_each_outputs. apply _. Qed.

#[export] Instance ping_links_outputs : Outputs ping_links.
Proof. intros s. apply for_each_outputs. intros u s'. by frame. Qed.

#[export] Instance route_kill_outputs a b c : Outputs (route_kill a b c).
Proof. intros s. unfold route_kill. case_match; by frame. Qed.

#[export] Instance cycle_member_outputs a b c d e f g m x : Outputs (cycle_member a b c d e f g m x).
Proof. intros s. unfold cycle_member. destruct (is_empty g); by rewrite !send_outputs. Qed.

#[export] Instance relay_message_outputs k base service : Outputs (relay_channel_message k base service).
Proof. intros s. apply for_each_outputs. intros m s'. repeat case_match; by frame. Qed.

#[export] Instance link_message_outputs via msg notice : Outputs (link_message_recv via msg notice).
Proof.
  intros s. unfold link_message_recv. destruct (source msg); [|done]. destruct (params msg) as [|? [|? ?]]; try done.
  destruct (source_behind _ _ _); [|done]. cbn [negb]. destruct (source_prefix _ _); [|done].
  destruct (starts_with _ _).
  - destruct (channels _ !! _); [|done]. rewrite for_each_outputs by apply _. apply relay_message_outputs.
  - destruct (uuid_local _ !! _); [apply send_outputs|apply forward_outputs].
Qed.

(** ** Changes of the network tables *)

Section network.
Context (c : Core) (W : wf c).

(** What a change of the network leaves alone. *)
Definition locals (c : Core) :=
  (users c, channels c, (nick_index c, uuid_local c), (watch_by c, monitor_by c, accepted_nicks c),
   (per_ip c, per_class c, per_ip_class c, unreg_count c)).

Lemma set_network_wf c' ls ss rs rn :
  locals c' = locals c →
  (links c', servers c', remote_users c', remote_nick c') = (ls, ss, rs, rn) →
  (∀ uuid ru, rs !! uuid = Some ru → is_Some (ls !! ru_via ru)) →
  (∀ sid sv, ss !! sid = Some sv → is_Some (ls !! rs_via sv)) →
  (∀ n uuid, rn !! n = Some uuid →
     ∃ ru, rs !! uuid = Some ru ∧ to_ascii_lowercase (ru_nick ru) = n) →
  (∀ k d uuid, cget rchan_dom c k = Some d → uuid ∈ d → is_Some (rs !! uuid)) →
  wf c'.
Proof.
  intros [= Hu Hc E1 E2 E3 E4 E5 E6 E7 E8 E9] [= <- <- <- <-] N1 N2 N3 N4.
  assert (∀ A (p : User → A) i, uget p c i = uget p c' i) as Eu by (intros; unfold uget; by rewrite Hu).
  assert (∀ A (p : Channel → A) i, cget p c i = cget p c' i) as Ec by (intros; unfold cget; by rewrite Hc).
  split.
  - by eapply mem_inv_ext, W.
  - by eapply key_inv_ext, W.
  - by eapply nick_inv_ext, W.
  - by eapply uuid_inv_ext, W.
  - by eapply unreg_inv_ext, W.
  - by eapply mirrors_ext, W.
  - by eapply mirrors_ext, W.
  - by eapply accept_inv_ext, W.
  - eapply count_inv_ext, W; congruence.
  - by eapply pool_inv_ext, W.
  - by split_and!.
  - intros k d uuid. rewrite <-Ec. apply N4.
Qed.

Lemma with_link_wf uid f : wf (with_link uid f c).
Proof.
  destruct (wf_net _ W) as (H1 & H2 & H3).
  apply (set_network_wf _ (alter f uid (links c)) (servers c) (remote_users c) (remote_nick c)); [done|done| | |done|apply W].
  - intros i r Hi. rewrite lookup_alter_is_Some. by eapply H1.
  - intros i r Hi. rewrite lookup_alter_is_Some. by eapply H2.
Qed.

Lemma with_remote_wf uuid f :
  (∀ r, (ru_via (f r), ru_nick (f r)) = (ru_via r, ru_nick r)) → wf (with_remote uuid f c).
Proof.
  intros Hf. destruct (wf_net _ W) as (H1 & H2 & H3).
  apply (set_network_wf _ (links c) (servers c) (alter f uuid (remote_users c)) (remote_nick c)); [done|done| |done| |].
  - intros i r. rewrite lookup_alter. case_decide; [|apply H1]. subst i.
    destruct (remote_users c !! uuid) as [r0|] eqn:E; [|done]. cbn. intros [= <-].
    injection (Hf r0) as -> _. by eapply H1.
  - intros n i Hi. destruct (H3 n i Hi) as (r & Hr & Hn). destruct (decide (uuid = i)) as [<-|Hd].
    + rewrite lookup_alter_eq, Hr. exists (f r). split; [done|]. by injection (Hf r) as _ ->.
    + rewrite lookup_alter_ne by done. by exists r.
  - intros k d i Hk Hi. rewrite lookup_alter_is_Some. by eapply (wf_rmem _ W).
Qed.

(** A remote user takes a nick: its old entry goes, the new one comes. *)
Lemma rename_remote_wf uuid ru f new :
  remote_users c !! uuid = Some ru →
  (∀ r, (ru_via (f r), ru_nick (f r)) = (ru_via r, new)) →
  wf (rename_remote uuid (ru_nick ru) new (with_remote uuid f c)).
Proof.
  intros Hu Hf. destruct (wf_net _ W) as (H1 & H2 & H3). injection (Hf ru) as Hv Hn.
  apply (set_network_wf _ (links c) (servers c) (alter f uuid (remote_users c))
    (<[to_ascii_lowercase new := uuid]> (delete (to_ascii_lowercase (ru_nick ru)) (remote_nick c))));
    [done|done| |done| |].
  - intros i r. rewrite lookup_alter. case_decide; [|apply H1]. subst i. rewrite Hu. cbn.
    intros [= <-]. rewrite Hv. by eapply H1.
  - intros n i. rewrite lookup_insert. case_decide as Hd.
    + intros [= <-]. rewrite lookup_alter_eq, Hu. eexists. split; [done|]. by rewrite Hn.
    + rewrite lookup_delete. case_decide as Hd2; [done|]. intros Hi.
      destruct (H3 n i Hi) as (r & Hr & Hrn). rewrite lookup_alter_ne; [by exists r|].
      intros <-. apply Hd2. congruence.
  - intros k d i Hk Hi. rewrite lookup_alter_is_Some. by eapply (wf_rmem _ W).
Qed.

Lemma add_remote_wf uuid ru :
  remote_users c !! uuid = None → is_Some (links c !! ru_via ru) →
  wf (c <| remote_nick ::= <[to_ascii_lowercase (ru_nick ru) := uuid]> |>
        <| remote_users ::= <[uuid := ru]> |>).
Proof.
  intros Hu Hl. destruct (wf_net _ W) as (H1 & H2 & H3).
  apply (set_network_wf _ (links c) (servers c) (<[uuid := ru]> (remote_users c))
    (<[to_ascii_lowercase (ru_nick ru) := uuid]> (remote_nick c))); [done|done| |done| |].
  - intros i r. rewrite lookup_insert. case_decide; [by intros [= <-]|apply H1].
  - intros n i. rewrite lookup_insert. case_decide as Hd.
    + intros [= <-]. rewrite lookup_insert_eq. by exists ru.
    + intros Hi. destruct (H3 n i Hi) as (r & Hr & Hrn). rewrite lookup_insert_ne; [by exists r|congruence].
  - intros k d i Hk Hi. rewrite lookup_insert. case_decide; [done|]. by eapply (wf_rmem _ W).
Qed.

Lemma add_server_wf sid sv : is_Some (links c !! rs_via sv) → wf (c <| servers ::= <[sid := sv]> |>).
Proof.
  intros Hl. destruct (wf_net _ W) as (H1 & H2 & H3).
  apply (set_network_wf _ (links c) (<[sid := sv]> (servers c)) (remote_users c) (remote_nick c));
    [done|done|done| |done|apply W].
  intros i r. rewrite lookup_insert. case_decide; [by intros [= <-]|apply H2].
Qed.

(** A channel that is created on first use, by a remote user. *)
Lemma with_entry_wf k fresh f :
  members fresh = ∅ → rmembers fresh = ∅ → to_ascii_lowercase (ch_name fresh) = k →
  (∀ ch, (ch_name (f ch), chan_dom (f ch)) = (ch_name ch, chan_dom ch)) →
  (∀ ch uuid, uuid ∈ rchan_dom (f ch) → uuid ∈ rchan_dom ch ∨ is_Some (remote_users c !! uuid)) →
  wf (with_entry k fresh f c).
Proof.
  intros Hm Hrm Hk Hf Hr. destruct (channels c !! k) as [ch|] eqn:E.
  - assert (with_entry k fresh f c = with_chan k f c) as ->.
    { unfold with_entry, with_chan. rewrite E. cbn. destruct c; unfold update_field; cbn in *. f_equal.
      apply map_eq. intros i. rewrite lookup_insert, lookup_alter. by case_decide; simplify_eq; rewrite ?E. }
    apply remote_members_wf; eauto.
  - set (c' := with_entry k fresh f c).
    assert (∀ i, channels c' !! i = if decide (k = i) then Some (f fresh) else channels c !! i) as Hi.
    { intros i. unfold c', with_entry. cbn. by rewrite E, lookup_insert. }
    apply (wf_membership c); [done| | |apply W| |done].
    + intros u i. change (in_list c' u i) with (in_list c u i). rewrite <-(wf_mem _ W u i).
      unfold on_chan, cget. rewrite Hi. case_decide; [|done]. subst i. rewrite E. cbn.
      injection (Hf fresh) as _ ->. unfold chan_dom. rewrite Hm, dom_empty_L.
      split; [|by intros (? & ? & _)]. by intros (? & [= <-] & ?%not_elem_of_empty).
    + intros i name. unfold cget. rewrite Hi. case_decide; [|apply W]. cbn. subst i.
      intros [= <-]. injection (Hf fresh) as -> _. done.
    + intros i d uuid. unfold cget. rewrite Hi. case_decide; [|apply (wf_rmem _ W i d uuid)].
      cbn. intros [= <-] [Hd|Hd]%Hr; [|done]. unfold rchan_dom in Hd. rewrite Hrm, dom_empty_L in Hd.
      by apply not_elem_of_empty in Hd.
Qed.

End network.

Lemma put_rmember_dom uuid m ch i : i ∈ rchan_dom (put_rmember uuid m ch) → i ∈ rchan_dom ch ∨ i = uuid.
Proof. unfold rchan_dom, put_rmember. cbn. rewrite dom_insert_L. set_solver. Qed.

(** ** Netsplits *)

(** What [drop_remote_user] does to the core. *)
Definition drop_core (uuid : string) (c : Core) : Core :=
  match remote_users c !! uuid with
  | None => c
  | Some ru => forget_remote uuid (ru_nick ru) (retain_alive (leave_channels uuid c))
  end.

Lemma drop_remote_user_core uuid reason s : core (drop_remote_user uuid reason s) = drop_core uuid (core s).
Proof.
  unfold drop_remote_user, drop_core. destruct (remote_users (core s) !! uuid); [|done].
  rewrite core_upd, for_each_outputs by apply _. done.
Qed.

Lemma cget_leave {A} (p : Channel → A) uuid c k :
  cget p (leave_channels uuid c) k = cget (λ ch, p (ch <| rmembers ::= delete uuid |>)) c k.
Proof. unfold cget, leave_channels; cbn. rewrite lookup_fmap. by destruct (channels c !! k). Qed.

Lemma rchan_leave uuid ch : rchan_dom (ch <| rmembers ::= delete uuid |>) = rchan_dom ch ∖ {[uuid]}.
Proof. unfold rchan_dom; cbn. by rewrite dom_delete_L. Qed.

Lemma leave_channels_wf uuid c : wf c → wf (leave_channels uuid c).
Proof.
  intros W. apply (wf_membership c); [done| | |apply W| |done].
  - eapply mem_inv_ext, W; [done|]. intros k. by rewrite cget_leave.
  - eapply key_inv_ext, W. intros k. by rewrite cget_leave.
  - intros k d i. rewrite cget_leave. unfold cget.
    destruct (channels c !! k) as [ch|] eqn:E; [|done].
    change (Some (rchan_dom (ch <| rmembers ::= delete uuid |>)) = Some d → i ∈ d → is_Some (remote_users c !! i)).
    rewrite rchan_leave. intros [= <-] Hi.
    apply (wf_rmem _ W k (rchan_dom ch)); [unfold cget; by rewrite E|set_solver].
Qed.

Lemma left_everywhere uuid c k d :
  cget rchan_dom (retain_alive (leave_channels uuid c)) k = Some d → uuid ∉ d.
Proof.
  intros Hk%cget_retain. revert Hk. rewrite cget_leave. unfold cget.
  destruct (channels c !! k) as [ch|]; [|done].
  change (Some (rchan_dom (ch <| rmembers ::= delete uuid |>)) = Some d → uuid ∉ d).
  rewrite rchan_leave. intros [= <-]. set_solver.
Qed.

Lemma drop_core_wf uuid c : wf c → wf (drop_core uuid c).
Proof.
  intros W0. unfold drop_core. destruct (remote_users c !! uuid) as [ru|] eqn:Hu; [|done].
  assert (wf (retain_alive (leave_channels uuid c))) as W by (by apply retain_wf, leave_channels_wf).
  destruct (wf_net _ W) as (H1 & H2 & H3).
  apply (set_network_wf _ W _ (links c) (servers c) (delete uuid (remote_users c))
    (delete (to_ascii_lowercase (ru_nick ru)) (remote_nick c))); [done|done| |done| |].
  - intros i r [_ Hi]%lookup_delete_Some. by eapply H1.
  - intros n i [Hn Hi]%lookup_delete_Some. destruct (H3 n i Hi) as (r & Hr & Hrn). exists r.
    split; [|done]. rewrite lookup_delete_ne; [done|]. intros <-. apply Hn.
    change (remote_users c !! uuid = Some r) in Hr. congruence.
  - intros k d i Hk Hi. rewrite lookup_delete_ne; [by eapply (wf_rmem _ W)|].
    intros <-. by apply left_everywhere in Hk.
Qed.

(** The links and servers of a split, taken out. *)
Definition unlink (uid : Uid) (c : Core) : Core :=
  c <| links ::= delete uid |> <| servers ::= filter (λ '(_, sv), rs_via sv ≠ uid) |>.

Lemma drop_unlink uuid uid c : drop_core uuid (unlink uid c) = unlink uid (drop_core uuid c).
Proof. unfold drop_core. cbn. by destruct (remote_users c !! uuid). Qed.

Definition drop_all (l : list string) (c : Core) : Core := foldl (λ c uuid, drop_core uuid c) c l.

Lemma for_each_drop l reason s :
  core (for_each l (λ uuid, drop_remote_user uuid reason) s) = drop_all l (core s).
Proof.
  unfold for_each, drop_all. revert s. induction l as [|uuid l IH]; intros s; cbn [foldl]; [done|].
  by rewrite IH, drop_remote_user_core.
Qed.

Lemma close_link_core uid reason s :
  core (close_link uid reason s) = unlink uid (drop_all (behind (core s) uid) (core s)).
Proof.
  unfold close_link. cbn zeta. rewrite for_each_drop.
  change (behind (core (upd _ s)) uid) with (behind (core s) uid).
  rewrite core_upd. change (drop_all (behind (core s) uid) (unlink uid (core s))
    = unlink uid (drop_all (behind (core s) uid) (core s))).
  generalize (behind (core s) uid). generalize (core s). intros c l. unfold drop_all. revert c.
  induction l as [|uuid l IH]; intros c; cbn [foldl]; [done|]. by rewrite drop_unlink, IH.
Qed.

Lemma drop_all_wf l c : wf c → wf (drop_all l c).
Proof.
  unfold drop_all. revert c. induction l as [|uuid l IH]; intros c W; cbn; [done|]. by apply IH, drop_core_wf.
Qed.

Lemma drop_all_remote l c uuid :
  remote_users (drop_all l c) !! uuid = if decide (uuid ∈ l) then None else remote_users c !! uuid.
Proof.
  unfold drop_all. revert c. induction l as [|i l IH]; intros c; cbn [foldl].
  - case_decide as Hd; [by apply not_elem_of_nil in Hd|done].
  - rewrite IH. assert (remote_users (drop_core i c) = delete i (remote_users c)) as ->.
    { unfold drop_core. destruct (remote_users c !! i) eqn:E; [done|]. by rewrite delete_id. }
    destruct (decide (uuid ∈ l)), (decide (uuid ∈ i :: l)) as [Hd|Hd]; try set_solver.
    + apply elem_of_cons in Hd as [->|]; [by rewrite lookup_delete_eq|done].
    + rewrite lookup_delete_ne; [done|set_solver].
Qed.

Lemma elem_of_behind c uid uuid :
  uuid ∈ behind c uid ↔ ∃ ru, remote_users c !! uuid = Some ru ∧ ru_via ru = uid.
Proof.
  unfold behind. rewrite list_elem_of_fmap. split.
  - intros ([i ru] & -> & [Hv Hi]%list_elem_of_filter). apply elem_of_map_to_list in Hi. by exists ru.
  - intros (ru & Hi & Hv). exists (uuid, ru). split; [done|]. apply list_elem_of_filter.
    split; [done|]. by apply elem_of_map_to_list.
Qed.

Lemma drop_all_frame l c :
  (users (drop_all l c), links (drop_all l c), servers (drop_all l c))
  = (users c, links c, servers c).
Proof.
  unfold drop_all. revert c. induction l as [|i l IH]; intros c; cbn [foldl]; [done|]. rewrite IH.
  unfold drop_core. by destruct (remote_users c !! i).
Qed.

Lemma close_link_wf uid reason s : wf (core s) → wf (core (close_link uid reason s)).
Proof.
  intros W0. rewrite close_link_core. set (c := drop_all _ _).
  assert (wf c) as W by (by apply drop_all_wf). destruct (wf_net _ W) as (H1 & H2 & H3).
  apply (set_network_wf c W _ (delete uid (links c)) (filter (λ '(_, sv), rs_via sv ≠ uid) (servers c))
    (remote_users c) (remote_nick c)); [done|done| | |done|apply W].
  - intros i r Hi. rewrite lookup_delete_ne; [by eapply H1|]. intros E. unfold c in Hi.
    rewrite drop_all_remote in Hi. case_decide as Hd; [done|]. apply Hd, elem_of_behind. by exists r.
  - intros i r [Hi Hv]%map_lookup_filter_Some. rewrite lookup_delete_ne by done. by eapply H2.
Qed.

(** ** Nick collisions *)

(** No local user has taken another's network id as a nick, so that falling back
    to one's own id never clashes. *)
Definition uuids_free (c : Core) : Prop :=
  ∀ uid u, users c !! uid = Some u → nick_free c uid (u_uuid u).

Section handlers.
Context `{UnicodeLower} `{Outside}.

Lemma set_nick_net uid nick s :
  (links (core (set_nick uid nick s)), servers (core (set_nick uid nick s)),
   remote_users (core (set_nick uid nick s)), remote_nick (core (set_nick uid nick s)))
  = (links (core s), servers (core s), remote_users (core s), remote_nick (core s)).
Proof.
  destruct (users (core s) !! uid) as [u|] eqn:Hu; [|unfold set_nick; by rewrite Hu].
  rewrite <-(st_net _ _ (set_nick_core uid nick s u Hu)).
  unfold set_nick_tables.
  destruct (u_registered u), (is_empty (u_nick u)); unfold push_whowas, move_accepts; repeat case_match; done.
Qed.

Lemma resolve_collision_spec via luid ts user ip uuid service s :
  uuids_free (core s) → wf (core s) →
  let s' := (resolve_collision via luid ts user ip uuid service s).2 in
  wf (core s') ∧ links (core s') = links (core s) ∧ remote_users (core s') = remote_users (core s).
Proof.
  intros Hf W. unfold resolve_collision. destruct (users (core s) !! luid) as [u|] eqn:Hu; [|done].
  destruct (if service then _ else _) as [cl cr]. cbn zeta. cbn [snd].
  set (s1 := if cl then _ else _).
  assert (wf (core s1) ∧ links (core s1) = links (core s) ∧ remote_users (core s1) = remote_users (core s)) as Hs.
  { unfold s1. destruct cl; [|done]. split; [apply set_nick_wf; [by eapply Hf|done]|].
    pose proof (set_nick_net luid (u_uuid u) s). split; congruence. }
  destruct cr; [by rewrite link_out_outputs|done].
Qed.

Lemma save_remote_user_spec uuid s :
  wf (core s) →
  wf (core (save_remote_user uuid s)) ∧ links (core (save_remote_user uuid s)) = links (core s)
  ∧ ∀ i, i ≠ uuid → remote_users (core (save_remote_user uuid s)) !! i = remote_users (core s) !! i.
Proof.
  intros W. unfold save_remote_user. destruct (remote_users (core s) !! uuid) as [r|] eqn:Hr; [|done].
  destruct (eq_ignore_ascii_case (ru_nick r) uuid) eqn:E.
  - split_and!; [|done|intros i Hi; by apply lookup_alter_ne].
    destruct (wf_net _ W) as (H1 & H2 & H3). rewrite core_upd.
    apply (set_network_wf _ W _ (links (core s)) (servers (core s))
      (alter (λ r, r <| ru_nick := uuid |>) uuid (remote_users (core s))) (remote_nick (core s)));
      [done|done| |done| |].
    + intros i r'. rewrite lookup_alter. case_decide; [|apply H1]. subst i. rewrite Hr. cbn.
      intros [= <-]. exact (H1 uuid r Hr).
    + intros n i Hi. destruct (H3 n i Hi) as (r' & Hr' & Hn). destruct (decide (uuid = i)) as [<-|Hd].
      * rewrite lookup_alter_eq, Hr. eexists. split; [done|]. cbn.
        apply eq_ignore_case_spec in E. congruence.
      * rewrite lookup_alter_ne by done. by exists r'.
    + intros k d i Hk Hi. rewrite lookup_alter_is_Some. by eapply (wf_rmem _ W).
  - cbn zeta. split_and!; [| |intros i Hi]; rewrite propagate_outputs, notify_common_outputs, !core_upd;
      [by apply rename_remote_wf|done|by apply lookup_alter_ne].
Qed.

Lemma resolve_remote_spec via existing ts user ip uuid sid s :
  wf (core s) →
  let s' := (resolve_remote_collision via existing ts user ip uuid sid s).2 in
  wf (core s') ∧ links (core s') = links (core s)
  ∧ ∀ i, i ≠ existing → remote_users (core s') !! i = remote_users (core s) !! i.
Proof.
  intros W. unfold resolve_remote_collision. destruct (remote_users (core s) !! existing) as [r|]; [|done].
  destruct (if server_is_service _ _ then _ else _) as [ce ci]. cbn zeta. cbn [snd].
  set (s1 := if ce then _ else _).
  assert (wf (core s1) ∧ links (core s1) = links (core s)
          ∧ ∀ i, i ≠ existing → remote_users (core s1) !! i = remote_users (core s) !! i) as Hs.
  { unfold s1. destruct ce; [by apply save_remote_user_spec|done]. }
  destruct ci; [|done]. destruct Hs as (? & ? & Hs). split_and!; [| |intros i Hi];
    rewrite link_out_outputs; [done|done|by apply Hs].
Qed.

(** A peer that is believed is up. *)
Lemma source_behind_link c src via : wf c → source_behind c src via = true → is_Some (links c !! via).
Proof.
  intros W. destruct (wf_net _ W) as (H1 & H2 & _). unfold source_behind.
  destruct (remote_users c !! src) as [ru|] eqn:E.
  - intros Hv%bool_decide_eq_true. subst via. by eapply H1.
  - intros (sv & Hs & Hv%bool_decide_eq_true)%map_or_true. subst via. by eapply H2.
Qed.

Lemma contest_local_spec via ts user ip uuid service nick s :
  uuids_free (core s) → wf (core s) →
  let s' := (contest_local via ts user ip uuid service nick s).2 in
  wf (core s') ∧ links (core s') = links (core s) ∧ remote_users (core s') = remote_users (core s).
Proof.
  intros Hf W. unfold contest_local. destruct (find_nick (core s) nick); [|done].
  by apply resolve_collision_spec.
Qed.

Lemma contest_remote_spec via ts user ip uuid sid nick s :
  wf (core s) →
  let s' := (contest_remote via ts user ip uuid sid nick s).2 in
  wf (core s') ∧ links (core s') = links (core s)
  ∧ remote_users (core s') !! uuid = remote_users (core s) !! uuid.
Proof.
  intros W. unfold contest_remote. destruct (remote_nick (core s) !! _) as [existing|]; [|done].
  destruct (String.eqb_spec existing uuid) as [|Hne]; [done|].
  pose proof (resolve_remote_spec via existing ts user ip uuid sid s W) as (W' & L & R). cbn zeta.
  split_and!; [done|done|]. by apply R.
Qed.

Lemma link_uid_wf via msg s : uuids_free (core s) → wf (core s) → wf (core (link_uid_recv via msg s)).
Proof.
  intros Hf W. unfold link_uid_recv.
  destruct (params msg) as [|uuid [|ts [|nick0 [|? [|host [|? [|ident [|ip [|? [|modes [|? ps]]]]]]]]]]] eqn:Ep;
    try done. rewrite <-Ep. cbn zeta. set (sid := default "" (source msg)).
  destruct (source_behind (core s) sid via) eqn:Hsb; cbn [negb]; [|done].
  destruct (_ || is_some (remote_users (core s) !! uuid)) eqn:E; [done|].
  apply orb_false_iff in E as [_ Hnew]. apply (source_behind_link _ _ _ W) in Hsb.
  destruct (remote_users (core s) !! uuid) as [|] eqn:Hu; [done|]. clear Hnew.
  set (nickts := default _ _). set (rsvc := server_is_service _ _).
  pose proof (contest_local_spec via nickts ident ip uuid rsvc nick0 s Hf W) as (W1 & L1 & R1).
  destruct (contest_local _ _ _ _ _ _ _ _) as [lost t1]. cbn [snd] in *.
  set (nick := if lost then uuid else nick0).
  pose proof (contest_remote_spec via nickts ident ip uuid sid nick t1 W1) as (W2 & L2 & R2).
  destruct (contest_remote _ _ _ _ _ _ _ _) as [lost2 t2]. cbn [snd] in *. frame.
  apply (add_remote_wf _ W2 uuid (mkRemoteUser (if lost2 then uuid else nick) ident host _ None ip _ sid via nickts None)).
  - by rewrite R2, R1.
  - cbn. by rewrite L2, L1.
Qed.

Lemma sourced_via_spec c uuid via :
  sourced_via c uuid via = true ↔ ∃ ru, remote_users c !! uuid = Some ru ∧ ru_via ru = via.
Proof.
  unfold sourced_via. rewrite bool_decide_eq_true. destruct (remote_users c !! uuid) as [ru|]; cbn.
  - split; [intros [= <-]; by exists ru|]. by intros (? & [= ->] & ->).
  - split; [done|by intros (? & ? & _)].
Qed.

Lemma link_nick_wf via msg s : uuids_free (core s) → wf (core s) → wf (core (link_nick_recv via msg s)).
Proof.
  intros Hf W. unfold link_nick_recv. destruct (source msg) as [uuid|]; [|done].
  destruct (params msg) as [|new rest]; [done|].
  destruct (remote_users (core s) !! uuid) as [ru|] eqn:Hu; [|done].
  destruct (sourced_via _ _ _); cbn [negb]; [|done]. cbn zeta.
  set (ts := default _ _). set (rsvc := uuid_is_service _ _).
  pose proof (contest_local_spec via ts (ru_ident ru) (ru_ip ru) uuid rsvc new s Hf W) as (W1 & L1 & R1).
  destruct (contest_local _ _ _ _ _ _ _ _) as [[] s1]; cbn [snd] in *; [done|].
  pose proof (contest_remote_spec via ts (ru_ident ru) (ru_ip ru) uuid (ru_sid ru) new s1 W1) as (W2 & L2 & R2).
  destruct (contest_remote _ _ _ _ _ _ _ _) as [[] s2]; cbn [snd] in *; [done|].
  frame. apply rename_remote_wf; [done|by rewrite R2, R1|done].
Qed.

Lemma link_save_wf via msg s : uuids_free (core s) → wf (core s) → wf (core (link_save_recv via msg s)).
Proof.
  intros Hf W. unfold link_save_recv. destruct (params msg) as [|target [|ts ?]]; try done.
  destruct (uuid_local (core s) !! target) as [luid|]; [|by frame].
  destruct (users (core s) !! luid) as [u|] eqn:Hu; [|done].
  destruct (_ =? _)%N; [|done]. apply set_nick_wf; [by eapply Hf|done].
Qed.

#[export] Instance link_quit_keeps via msg : KeepsWf (link_quit_recv via msg).
Proof.
  intros s W. unfold link_quit_recv. destruct (source msg); [|done].
  destruct (sourced_via _ _ _); cbn [negb]; [|done]. frame. rewrite drop_remote_user_core. by apply drop_core_wf.
Qed.

#[export] Instance link_kill_keeps via msg : KeepsWf (link_kill_recv via msg).
Proof.
  intros s W. unfold link_kill_recv. destruct (source msg); [|done].
  destruct (params msg) as [|target [|reason ?]]; try done. destruct (source_behind _ _ _); cbn [negb]; [|done].
  destruct (link_local_target _ _); [|by frame]. apply remove_user_wf. by frame.
Qed.

#[export] Instance link_away_keeps via msg : KeepsWf (link_away_recv via msg).
Proof.
  intros s W. unfold link_away_recv. destruct (source msg); [|done]. destruct (sourced_via _ _ _); cbn [negb]; [|done].
  destruct (remote_users _ !! _); [|done]. frame. by apply with_remote_wf.
Qed.

#[export] Instance link_setname_keeps via msg : KeepsWf (link_setname_recv via msg).
Proof.
  intros s W. unfold link_setname_recv. destruct (source msg); [|done]. destruct (params msg); [done|].
  destruct (sourced_via _ _ _); cbn [negb]; [|done].
  destruct (remote_users _ !! _); [|done]. frame. by apply with_remote_wf.
Qed.

#[export] Instance link_opertype_keeps via msg : KeepsWf (link_opertype_recv via msg).
Proof.
  intros s W. unfold link_opertype_recv. destruct (source msg); [|done]. destruct (sourced_via _ _ _); cbn [negb]; [|done].
  apply with_remote_wf; [done|]. intros r. by destruct (contains_byte _ _).
Qed.

Lemma remote_account_keeps target value from s :
  wf (core s) → wf (core (apply_remote_account target value from s).2).
Proof.
  intros W. unfold apply_remote_account. destruct (remote_target _ _); [|done].
  destruct (sourced_via _ _ _); cbn [negb]; [|done]. destruct (remote_users _ !! _); [|done].
  destruct (bool_decide _); [done|]. cbn [snd]. frame. by apply with_remote_wf.
Qed.

#[export] Instance remote_identity_keeps target i h : KeepsWf (apply_remote_host_ident target i h).
Proof.
  intros s W. unfold apply_remote_host_ident. destruct (remote_target _ _); [|done].
  destruct (remote_users _ !! _); [|done]. cbn zeta. rewrite for_each_outputs.
  2: { intros ch s'. destruct (rmembers ch !! _); [|done]. apply for_each_outputs. intros [x ext]. apply _. }
  frame. by apply with_remote_wf.
Qed.

#[export] Instance change_identity_stable uid i h relay : StableTables (change_host_ident_inner uid i h relay).
Proof.
  intros s. unfold change_host_ident_inner. destruct (users (core s) !! uid) as [u0|]; [|done]. cbn zeta.
  set (s1 := upd _ s). assert (same_tables (core s) (core s1)) as Hs.
  { apply same_with_user. intros u. destruct h, i; done. }
  set (u := default u0 _). set (s2 := notify_peers _ _ _ _).
  set (s3 := if cap_has _ _ then _ else _). set (s4 := if relay && _ then _ else _).
  set (s5 := if is_some h || _ then _ else _).
  assert (core s5 = core s1) as E; [|destruct (is_some h); [rewrite numeric_outputs|]; by rewrite E].
  unfold s5. assert (core s4 = core s1) as E4.
  { unfold s4, s3, s2. destruct (cap_has _ _), (relay && _), i, h; by frame. }
  destruct (is_some h || is_some i); [|done]. rewrite for_each_outputs; [done|].
  intros k s'. destruct (channels _ !! k); [|done]. apply for_each_outputs. intros [m ext]. apply _.
Qed.

#[export] Instance link_chghost_keeps via msg : KeepsWf (link_chghost_recv via msg).
Proof.
  intros s W. unfold link_chghost_recv. destruct (params msg) as [|target [|host ?]]; try done.
  destruct (split_vhost host) as [i h].
  destruct (link_local_target _ _); [by apply stable_wf; [apply change_identity_stable|]|].
  frame. by apply remote_identity_keeps.
Qed.

#[export] Instance link_chgident_keeps via msg : KeepsWf (link_chgident_recv via msg).
Proof.
  intros s W. unfold link_chgident_recv. destruct (params msg) as [|target [|ident ?]]; try done.
  destruct (link_local_target _ _); [by apply stable_wf; [apply change_identity_stable|]|].
  frame. by apply remote_identity_keeps.
Qed.

End handlers.
