(* ===== verification/LinkSafe.v ===== *)
(** * No line of a link breaks the server

    The channel and services lines of [LinkChannel] and [LinkServices] keep the
    tables consistent, and the dispatcher, with an ENCAP inside an ENCAP inside
    an ENCAP, always comes to an end without a panic. *)

From Stdlib Require Import Ascii.
From S2P Require Import Prelude RustStr Message Glob Clock I18n Channel Numeric Regex State Mode UserMode.
From S2P Require Import CoreMode Ban Membership Watch Users Xline Account CoreChannel CoreMessage Filter.
From S2P Require Import Tables ModeTables MembershipTables JoinFacts LeaveFacts ListFacts UserFacts.
From S2P Require Import XlineFacts MessageFacts SpeechFacts FilterFacts Link LinkChannel LinkServices LinkFacts.

Local Open Scope stdpp_scope.

(** ** Members *)

(** A known remote user enters a channel, which exists from then on. *)
Lemma enter_remote_wf uuid chan m fresh c :
  wf c → is_Some (remote_users c !! uuid) → (members fresh, rmembers fresh, ch_name fresh) = (∅, ∅, chan) →
  wf (with_entry (to_ascii_lowercase chan) fresh (put_rmember uuid m) c).
Proof.
  intros W Hu [= H1 H2 H3]. apply with_entry_wf; try done; [by rewrite H3|].
  intros ch i [Hi| ->]%put_rmember_dom; auto.
Qed.

#[export] Instance link_join_keeps via msg : KeepsWf (link_join_recv via msg).
Proof.
  intros s W. unfold link_join_recv. destruct (source msg) as [uuid|]; [|done].
  destruct (params msg) as [|chan ?]; [done|]. destruct (sourced_via _ _ _) eqn:Hv; cbn [negb]; [|done].
  apply sourced_via_spec in Hv as (ru & Hu & _). frame. by apply enter_remote_wf.
Qed.

#[export] Instance link_ijoin_keeps via msg : KeepsWf (link_ijoin_recv via msg).
Proof.
  intros s W. unfold link_ijoin_recv. destruct (source msg) as [uuid|]; [|done].
  destruct (params msg) as [|chan ?]; [done|]. destruct (negb (starts_with _ _)); [done|].
  destruct (sourced_via _ _ _) eqn:Hv; cbn [negb orb]; [|done].
  apply sourced_via_spec in Hv as (ru & Hu & _). cbn zeta. rewrite propagate_outputs.
  destruct (ijoin_status _); rewrite ?to_channel_outputs, core_upd; by apply enter_remote_wf.
Qed.

#[export] Instance link_part_keeps via msg : KeepsWf (link_part_recv via msg).
Proof.
  intros s W. unfold link_part_recv. destruct (source msg) as [uuid|]; [|done].
  destruct (params msg) as [|chan ?]; [done|]. destruct (sourced_via _ _ _) eqn:Hv; cbn [negb]; [|done].
  cbn zeta. destruct (negb _); [done|]. rewrite propagate_outputs, core_upd, to_channel_outputs, core_upd.
  by apply retain_wf, drop_remote_wf.
Qed.

#[export] Instance link_kick_keeps via msg : KeepsWf (link_kick_recv via msg).
Proof.
  intros s W. unfold link_kick_recv. destruct (source msg) as [src|]; [|done].
  destruct (params msg) as [|chan [|victim ?]]; try done. destruct (source_behind _ _ _); cbn [negb]; [|done].
  cbn zeta. destruct (link_local_target _ _).
  - destruct (is_member _ _ _); [|done].
    rewrite propagate_outputs, core_upd, to_channel_outputs, send_outputs, core_upd.
    by apply retain_wf, drop_wf.
  - destruct (if is_some _ then _ else _); [|done]. destruct (map_or _ _ _); [|done].
    rewrite propagate_outputs, core_upd, to_channel_outputs, core_upd. by apply retain_wf, drop_remote_wf.
Qed.

(** ** Topics, messages and invitations *)

#[export] Instance set_topic_stable k a b n : StableTables (upd (set_topic k a b n)).
Proof. intros s. by apply same_with_chan. Qed.

#[export] Instance link_topic_stable via msg : StableTables (link_topic_recv via msg).
Proof.
  intros s. unfold link_topic_recv. destruct (source msg); [|done].
  destruct (params msg) as [|? [|? ?]]; try done. destruct (source_behind _ _ _); cbn [negb]; [|done].
  destruct (channels _ !! _); [|done]. frame. by apply same_with_chan.
Qed.

#[export] Instance link_ftopic_stable via msg : StableTables (link_ftopic_recv via msg).
Proof.
  intros s. unfold link_ftopic_recv. destruct (source msg); [|done].
  destruct (params msg) as [|? [|? [|? [|? ?]]]]; try done. destruct (source_behind _ _ _); cbn [negb]; [|done].
  destruct (channels _ !! _); [|done]. cbn zeta. destruct (ftopic_stale _ _ _); [by frame|].
  frame. by apply same_with_chan.
Qed.

#[export] Instance link_redact_stable via msg : StableTables (link_redact_recv via msg).
Proof.
  intros s. unfold link_redact_recv. destruct (source msg); [|done].
  destruct (params msg) as [|? [|? ?]]; try done. destruct (source_behind _ _ _); cbn [negb]; [|done].
  destruct (starts_with _ _); cbn [negb]; [|done]. destruct (source_prefix _ _); [|done]. cbn zeta.
  set (t1 := match channels _ !! _ with Some _ => _ | None => _ end).
  assert (core t1 = core s) as E.
  { unfold t1. destruct (channels _ !! _); [|done]. rewrite !for_each_outputs; [done| |apply _].
    intros m s'. case_match; by frame. }
  rewrite core_upd, E. by split.
Qed.

Lemma same_add_invite uid k c : same_tables c (add_invite uid k c).
Proof. etrans; [|by apply same_with_user]. by apply same_with_chan. Qed.

#[export] Instance link_invite_stable via msg : StableTables (link_invite_recv via msg).
Proof.
  intros s. unfold link_invite_recv. destruct (source msg); [|done].
  destruct (params msg) as [|? [|? ?]]; try done. destruct (source_behind _ _ _); cbn [negb]; [|done].
  destruct (uuid_local _ !! _); [|by frame]. frame. apply same_add_invite.
Qed.

(** ** Modes *)

Lemma dom_alter_rmembers f uuid ch : rchan_dom (ch <| rmembers ::= alter f uuid |>) = rchan_dom ch.
Proof. unfold rchan_dom. cbn. by rewrite dom_alter_L. Qed.

Lemma set_member_prefix_same k who letter adding c : same_tables c (set_member_prefix k who letter adding c).
Proof.
  unfold set_member_prefix. destruct (link_local_target c who).
  - apply same_with_chan. intros ch. unfold cshape, chan_dom, rchan_dom; cbn. by rewrite dom_alter_L.
  - destruct (if is_some _ then _ else _); [|done]. apply same_with_chan. intros ch.
    unfold cshape, chan_dom, rchan_dom; cbn. by rewrite dom_alter_L.
Qed.

Section modes.
Context `{UnicodeLower} `{Outside}.

Lemma peer_other_mode_same chan k c adding args s :
  same_tables (core s) (core (peer_other_mode chan k c adding args s).2).
Proof.
  unfold peer_other_mode. destruct (chan_mode _ _) as [h|]; [|by apply same_with_chan].
  destruct (take_param h adding args) as [param rest]. cbn [snd].
  etrans; [apply (set_sudo_stable true)|]. etrans; [apply chan_apply_stable|]. apply set_sudo_stable.
Qed.

Lemma peer_mode_letter_same src chan k c adding args s :
  same_tables (core s) (core (peer_mode_letter src chan k c adding args s).2).
Proof.
  unfold peer_mode_letter. destruct (is_letter_in _ c).
  { destruct args; [done|]. apply set_member_prefix_same. }
  destruct (String.eqb c "k"); [by apply same_with_chan|]. destruct (String.eqb c "l").
  { destruct adding; [|by apply same_with_chan]. destruct args; [done|].
    destruct (parse_uint _ _); [by apply same_with_chan|done]. }
  destruct (list_letter c); [|apply peer_other_mode_same]. destruct args; [done|].
  apply same_with_chan. intros ch. apply kind_update_shape.
Qed.

Lemma peer_mode_loop_same src chan k sign cs args shown s :
  same_tables (core s) (core (peer_mode_loop src chan k sign cs args shown s).2).
Proof.
  revert sign args shown s. induction cs as [|c cs IH]; intros sign args shown s; cbn [peer_mode_loop]; [done|].
  destruct (is_letter_in _ c); [apply IH|].
  pose proof (peer_mode_letter_same src chan k c (String.eqb sign "+") args s) as Hs.
  destruct (peer_mode_letter _ _ _ _ _ _ _) as [[args' more] s']. etrans; [exact Hs|apply IH].
Qed.

#[export] Instance apply_peer_modes_stable via msg src chan ms args :
  StableTables (apply_peer_modes via msg src chan ms args).
Proof.
  intros s. unfold apply_peer_modes. cbn zeta.
  pose proof (peer_mode_loop_same src chan (to_ascii_lowercase chan) "+" (chars ms) args [] s) as Hs.
  destruct (peer_mode_loop _ _ _ _ _ _ _ _) as [shown s']. by frame.
Qed.

#[export] Instance link_mode_keeps via msg : KeepsWf (link_mode_recv via msg).
Proof.
  intros s W. unfold link_mode_recv. destruct (source msg); [|done].
  destruct (params msg) as [|target [|p1 rest]]; try done. destruct (source_behind _ _ _); cbn [negb]; [|done].
  destruct (starts_with _ _); cbn [negb]; [|frame; by apply with_remote_wf].
  destruct (channels _ !! _); [|done].
  destruct (String.eqb _ _); [|by apply stable_wf; [apply _|]].
  destruct (map_or _ _ _); [by frame|]. destruct rest; [done|]. by apply stable_wf; [apply _|].
Qed.

(** ** FJOIN *)

Lemma arbitrate_shape ours ts ms ch : cshape (arbitrate ours ts ms ch) = cshape ch.
Proof.
  unfold arbitrate. destruct (map_or _ _ ours); [done|].
  destruct (map_or _ _ ours); [|done]. unfold cshape, chan_dom, rchan_dom. cbn. by rewrite !dom_fmap_L.
Qed.

Lemma fjoin_add_wf k chan e s :
  wf (core s) → is_Some (remote_users (core s) !! e.1) →
  wf (core (fjoin_add k chan e s)) ∧ remote_users (core (fjoin_add k chan e s)) = remote_users (core s).
Proof.
  intros W Hu. destruct e as [uuid m]. unfold fjoin_add. cbn zeta.
  assert (wf (core (upd (with_chan k (put_rmember uuid m)) s))) as W'.
  { apply remote_members_wf; [done| |done]. intros ch i _ [Hi| ->]%put_rmember_dom; auto. }
  destruct (map_or _ _ _); [done|]. destruct (remote_users _ !! _); [|done].
  by rewrite to_channel_outputs.
Qed.

Lemma fjoin_adds_known c keep l e : e ∈ fjoin_adds c keep l → is_Some (remote_users c !! e.1).
Proof.
  unfold fjoin_adds. rewrite list_elem_of_omap. intros (tok & _ & Ht).
  destruct (split_member tok) as [letters uuid].
  destruct (uuid_local c !! uuid), (remote_users c !! uuid) as [r|] eqn:E; simplify_eq/=; by rewrite E.
Qed.

#[export] Instance link_fjoin_keeps via msg : KeepsWf (link_fjoin_recv via msg).
Proof.
  intros s W. unfold link_fjoin_recv. destruct (params msg) as [|chan [|ts [|ms [|ml more]]]]; try done.
  cbn zeta. rewrite propagate_outputs. set (s1 := upd _ s).
  assert (wf (core s1)) as W1.
  { unfold s1. rewrite core_upd. set (ours := created <$> _). set (n := default _ _).
    assert (∀ ch, cshape (arbitrate ours n ms ch) = cshape ch) as Hs by (intros; apply arbitrate_shape).
    apply with_entry_wf; try done.
    - intros ch. by injection (Hs ch) as -> -> _.
    - intros ch i. injection (Hs ch) as _ _ ->. auto. }
  set (adds := fjoin_adds _ _ _).
  assert (∀ e, e ∈ adds → is_Some (remote_users (core s1) !! e.1)) as Hl by (intros e; apply fjoin_adds_known).
  clearbody adds s1. clear W s. unfold for_each. revert s1 W1 Hl.
  induction adds as [|e adds IH]; intros s W Hl; cbn [foldl]; [done|].
  destruct (fjoin_add_wf (to_ascii_lowercase chan) chan e s W) as [W' E]; [apply Hl; set_solver|].
  apply IH; [done|]. intros e' He. rewrite E. apply Hl. set_solver.
Qed.

End modes.

(** ** RENAME *)

Section rename.
Context `{UnicodeLower} `{Outside}.

#[export] Instance emulate_rename_outputs m a b c d : Outputs (emulate_rename_join m a b c d).
Proof.
  intros s. unfold emulate_rename_join. case_match; [|done].
  by rewrite send_names_outputs, send_topic_outputs, !send_outputs.
Qed.

Lemma rename_case_same old new ch c :
  to_ascii_lowercase new = old → wf c → wf (rename_tables old new ch c).
Proof.
  intros E W. unfold rename_tables. rewrite E, String.eqb_refl.
  apply (wf_membership c); [done| | |apply W| |done].
  - eapply mem_inv_ext, W; [done|]. intros k. symmetry. by apply cget_with_chan_ne.
  - intros k name. rewrite (cget_with_chan ch_name (λ _, new)) by done.
    case_decide as Hd; [|apply W]. subst k. destruct (cget _ c old); [|done]. cbn. by intros [= <-].
  - eapply rmem_inv_ext, W; [|done]. intros k. symmetry. by apply cget_with_chan_ne.
Qed.

Lemma rename_channel_wf old new pfx reason s :
  wf (core s) → wf (core (rename_channel old new pfx reason s).2).
Proof.
  intros W. unfold rename_channel. case_match eqn:Hch; [|done]. case_match eqn:Hx; [done|]. cbn [snd].
  rewrite for_each_outputs.
  2: { intros m s'. repeat case_match; done || apply send_outputs || apply emulate_rename_outputs. }
  rewrite core_upd. destruct (String.eqb_spec (to_ascii_lowercase new) old) as [E|E].
  - by apply rename_case_same.
  - apply rename_tables_wf; try done. cbn in Hx. by destruct (channels (core s) !! to_ascii_lowercase new).
Qed.

#[export] Instance link_rename_keeps via msg : KeepsWf (link_rename_recv via msg).
Proof.
  intros s W. unfold link_rename_recv. destruct (source msg); [|done].
  destruct (params msg) as [|old [|new ?]]; try done. destruct (source_behind _ _ _); cbn [negb]; [|done].
  cbn zeta. destruct (channels _ !! _); [|done]. destruct (opt_or _ _) as [prefix|]; [|done].
  pose proof (rename_channel_wf (to_ascii_lowercase old) new prefix (default "" (head l)) s W) as W'.
  destruct (rename_channel _ _ _ _ _) as [res s']. destruct (is_some res); [by frame|done].
Qed.

End rename.

(** ** Services *)

Lemma find_nick_user c n uid : wf c → find_nick c n = Some uid → ∃ u, users c !! uid = Some u.
Proof.
  intros W Hn. apply (wf_nick _ W) in Hn as (nick & Hn & _). unfold uget in Hn.
  destruct (users c !! uid) as [u|]; [by exists u|done].
Qed.

Lemma local_target_user c target uid :
  wf c → link_local_target c target = Some uid → ∃ u, users c !! uid = Some u.
Proof.
  intros W. unfold link_local_target. destruct (uuid_local c !! target) as [i|] eqn:E; cbn.
  - intros [= <-]. apply (wf_uuid _ W) in E. unfold uget in E. destruct (users c !! i); [by eexists|done].
  - by apply find_nick_user.
Qed.

Section services.
Context `{UnicodeLower} `{Outside}.

#[export] Instance set_login_stable uid a : StableTables (set_login uid a).
Proof.
  intros s. unfold set_login. destruct (users _ !! _) as [u|]; [|done]. cbn zeta.
  destruct (u_registered u); frame; by apply same_with_user.
Qed.

#[export] Instance logout_stable uid : StableTables (logout uid).
Proof.
  intros s. unfold logout. destruct (users _ !! _) as [u|]; [|done]. destruct (is_some _); [|done]. cbn zeta.
  frame. by apply same_with_user.
Qed.

Lemma svs_target_keeps from msg target act :
  (∀ uid, KeepsWf (act uid)) → KeepsWf (svs_target from msg target act).
Proof. intros Ha s W. unfold svs_target. destruct (link_local_target _ _); [by apply Ha|by frame]. Qed.

Lemma valid_nick_nonempty n m : valid_nick n m = true → n ≠ "".
Proof. by destruct n. Qed.

#[export] Instance link_svsnick_keeps from msg : KeepsWf (link_svsnick from msg).
Proof.
  intros s W. unfold link_svsnick. destruct (params msg) as [|target [|new ?]]; try done.
  apply svs_target_keeps; [|done]. intros uid s' W'. destruct (svsnick_taken _ _) eqn:E; [done|].
  apply orb_false_iff in E as [[Hv Hn]%orb_false_iff _]. apply negb_false_iff in Hv.
  apply set_nick_wf; [|done]. split; [by eapply valid_nick_nonempty|].
  intros i. by destruct (find_nick _ _).
Qed.

#[export] Instance link_svsmode_keeps from msg : KeepsWf (link_svsmode from msg).
Proof.
  intros s W. unfold link_svsmode. destruct (params msg) as [|target [|new ?]]; try done.
  destruct (starts_with _ _); [done|]. apply svs_target_keeps; [apply _|done].
Qed.

#[export] Instance link_svslogin_keeps from msg : KeepsWf (link_svslogin from msg).
Proof.
  intros s W. unfold link_svslogin. destruct (params msg) as [|target [|a ?]]; try done.
  apply svs_target_keeps; [|done]. intros uid. destruct (_ || _); apply _.
Qed.

#[export] Instance link_svslogout_keeps from msg : KeepsWf (link_svslogout from msg).
Proof.
  intros s W. unfold link_svslogout. destruct (params msg) as [|target ?]; try done.
  apply svs_target_keeps; [apply _|done].
Qed.

#[export] Instance link_svstopic_keeps from msg : KeepsWf (link_svstopic from msg).
Proof.
  intros s W. unfold link_svstopic. destruct (params msg) as [|chan rest]; [done|].
  destruct (channels _ !! _); [|done]. destruct rest as [|ts [|setter [|text more]]];
  frame; eapply wf_proper, W; by apply same_with_chan.
Qed.

#[export] Instance link_svscmode_keeps from msg : KeepsWf (link_svscmode from msg).
Proof.
  intros s W. unfold link_svscmode. destruct (params msg) as [|target [|chan [|letters ?]]]; try done.
  apply svs_target_keeps; [|done]. intros uid s' W'. destruct (channels _ !! _); [|done].
  apply for_each_keeps; [|done]. intros [mc mask] s2 W2. eapply wf_proper, W2. apply svs_set_chan_modes_stable.
Qed.

#[export] Instance metadata_user_stable uid nick key v setter :
  StableTables (metadata_apply_user uid nick key v setter).
Proof. intros s. unfold metadata_apply_user. cbn zeta. destruct (has_cap _ _ _); frame; by split. Qed.

#[export] Instance local_metadata_keeps msg uid key v : KeepsWf (apply_local_metadata msg uid key v).
Proof.
  intros s W. unfold apply_local_metadata. destruct (String.eqb key _).
  { destruct (_ || _); by apply keeps_wf. }
  destruct (is_letter_in _ key); [by apply keeps_wf|].
  destruct (String.eqb key _); [eapply wf_proper, W; by apply same_with_user|].
  destruct (String.eqb key _); [eapply wf_proper, W; by apply same_with_user|done].
Qed.

#[export] Instance link_metadata_keeps from msg : KeepsWf (link_metadata from msg).
Proof.
  intros s W. unfold link_metadata. destruct (params msg) as [|target [|key [|value ?]]]; try done.
  destruct (String.eqb target "*").
  { rewrite propagate_outputs. destruct (String.eqb key _); [|done]. rewrite core_upd.
    eapply wf_proper, W. unfold apply_filter_metadata. destruct (decode_filter _ _); by split. }
  destruct (link_local_target _ _).
  - destruct (negb _); [done|]. by apply local_metadata_keeps.
  - destruct (String.eqb key _); [|by frame].
    pose proof (remote_account_keeps target value from s W) as W'.
    destruct (apply_remote_account _ _ _ _) as [[] s']; [by frame|done].
Qed.

#[export] Instance link_sasl_keeps from msg : KeepsWf (link_sasl from msg).
Proof.
  intros s W. unfold link_sasl. destruct (params msg) as [|? [|client [|mode rest]]]; try done.
  destruct (uuid_local _ !! _); [|by frame]. destruct (String.eqb mode "C"); [destruct rest; by frame|].
  destruct (String.eqb mode "D"); [|done]. rewrite core_upd. unfold sasl_done.
  eapply wf_proper; [by apply same_with_user|]. destruct (map_or _ _ _); by frame.
Qed.

#[export] Instance link_stdreply_outputs from msg : Outputs (link_stdreply_recv from msg).
Proof.
  intros s. unfold link_stdreply_recv. destruct (params msg) as [|? [|? [|? [|? [|? ?]]]]]; try done.
  destruct (uuid_local _ !! _); by frame.
Qed.

End services.

(** ** The dispatcher *)

Section dispatch.
Context `{UnicodeLower} `{Outside}.

(** Somebody who has left joins nothing. *)
Lemma join_absent uid name ka s : users (core s) !! uid = None → core (join uid name ka s) = core s.
Proof.
  intros Hu. unfold join, JOIN_FUEL. cbn [join_fuel]. unfold join_gate, entry_gate. cbn zeta. rewrite Hu.
  destruct (negb _); [apply numeric_outputs|done].
Qed.

(** A connection that is not in the middle of registering: a registered user,
    or nobody any more. *)
Definition not_pending (c : Core) (uid : Uid) : Prop := uget u_registered c uid ≠ Some false.

Lemma join_wf_not_pending uid name ka s :
  not_pending (core s) uid → wf (core s) →
  wf (core (join uid name ka s)) ∧ not_pending (core (join uid name ka s)) uid.
Proof.
  unfold not_pending. intros Hp W. destruct (uget u_registered (core s) uid) as [[]|] eqn:E; [|done|].
  - destruct (join_wf uid name ka s E W) as [W' E']. by rewrite E'.
  - rewrite join_absent; [by rewrite E|]. unfold uget in E. by destruct (users _ !! uid).
Qed.

Lemma joins_wf uid names s :
  not_pending (core s) uid → wf (core s) →
  wf (core (for_each names (λ chan, join uid chan None) s)).
Proof.
  unfold for_each. revert s. induction names as [|n names IH]; intros s Hr W; cbn [foldl]; [done|].
  destruct (join_wf_not_pending uid n None s Hr W). by apply IH.
Qed.

#[export] Instance grant_all_stable uid : StableTables (operprefix_grant_all uid).
Proof. intros s. unfold operprefix_grant_all. destruct (negb _); [done|]. apply for_each_stable. apply _. Qed.

Lemma same_registered c c' uid : same_tables c c' → uget u_registered c uid = uget u_registered c' uid.
Proof. intros Hs. by eapply (uget_via _ ushape (λ x, x.1.1.1.2)), Hs. Qed.

Lemma oper_up_wf uid s :
  not_pending (core s) uid → wf (core s) → wf (core (oper_up uid s)).
Proof.
  intros Hr W. unfold oper_up. cbn zeta. set (s0 := upd _ s).
  set (s1 := operprefix_grant_all uid _). set (s2 := match opt_or _ _ with Some _ => _ | None => _ end).
  assert (same_tables (core s) (core s2)) as Hs.
  { assert (same_tables (core s) (core s1)) as Hs1.
    { unfold s1. etrans; [|apply grant_all_stable]. frame. by apply same_with_user. }
    unfold s2. destruct (opt_or _ _); [|done]. etrans; [done|apply svs_set_user_modes_stable]. }
  set (s3 := for_each _ _ _). assert (wf (core s3)) as W3.
  { apply joins_wf; [unfold not_pending; by rewrite <-(same_registered _ _ uid Hs)|by eapply wf_proper]. }
  destruct (no_links _); [done|]. destruct (users (core s3) !! uid); [by rewrite propagate_outputs|done].
Qed.

(** The lines an ENCAP may carry, at any depth. *)
Inductive carries : Message → Message → Prop :=
  | carries_self msg : carries msg msg
  | carries_encap msg m sub ps inner :
      command msg = "ENCAP" → params msg = m :: sub :: ps → carries (unwrapped msg sub ps) inner → carries msg inner.

(** What the services and the nick rules of other servers have to respect: a
    forced join or operator is a user that has registered, and no user is named
    after another's network id. *)
Definition forced_target (c : Core) (msg : Message) : Prop :=
  command msg ∈ ["SVSJOIN"; "SVSOPER"] → ∀ target uid,
    head (params msg) = Some target → link_local_target c target = Some uid →
    uget u_registered c uid = Some true.

Definition link_ok (c : Core) (msg : Message) : Prop :=
  uuids_free c ∧ ∀ inner, carries msg inner → forced_target c inner.

Lemma carries_plain msg inner : command msg ≠ "ENCAP" → carries msg inner → inner = msg.
Proof. intros Hn Hc. destruct Hc as [|msg m sub ps inner Hc]; [done|by destruct Hn]. Qed.

Lemma link_ok_plain c msg :
  uuids_free c → command msg ∉ ["ENCAP"; "SVSJOIN"; "SVSOPER"] → link_ok c msg.
Proof.
  intros Hf Hn. split; [done|]. intros inner Hi. apply carries_plain in Hi as ->; [|set_solver].
  intros Hin. set_solver.
Qed.

(** [Safe h]: the handler keeps the tables consistent on every acceptable line. *)
Definition Safe (e : string * Recv) : Prop :=
  ∀ uid msg s, command msg = e.1 → uuids_free (core s) → forced_target (core s) msg →
    wf (core s) → wf (core (e.2 uid msg s)).

Lemma keeps_safe name h : (∀ uid msg, KeepsWf (h uid msg)) → Safe (name, h).
Proof. intros Hh uid msg s _ _ _ W. by apply Hh. Qed.

Lemma svsjoin_safe : Safe ("SVSJOIN", link_svsjoin).
Proof.
  intros from msg s Hc _ Ht W. cbn in Hc |- *. unfold link_svsjoin, forced_target in *. rewrite Hc in Ht.
  destruct (params msg) as [|target [|chan ?]]; try done. unfold svs_target.
  destruct (link_local_target _ _) as [uid|] eqn:E; [|by frame].
  apply join_wf; [|done]. apply (Ht ltac:(set_solver) target); done.
Qed.

Lemma svsoper_safe : Safe ("SVSOPER", link_svsoper).
Proof.
  intros from msg s Hc _ Ht W. cbn in Hc |- *. unfold link_svsoper, forced_target in *. rewrite Hc in Ht.
  destruct (params msg) as [|target [|chan ?]]; try done. unfold svs_target.
  destruct (link_local_target _ _) as [uid|] eqn:E; [|by frame]. destruct (is_oper _ _); [done|].
  apply oper_up_wf; [|done]. unfold not_pending. by rewrite (Ht ltac:(set_solver) target).
Qed.

Lemma link_table_safe : Forall Safe link_table.
Proof.
  unfold link_table. repeat (apply Forall_cons_2; [try (apply keeps_safe; apply _)|]); [..|by apply Forall_nil_2].
  - intros uid msg s _ Hf _. by apply link_uid_wf.
  - intros uid msg s _ Hf _. by apply link_nick_wf.
  - intros uid msg s _ Hf _. by apply link_save_wf.
  - intros uid msg s _ _ _. by apply link_addline_wf.
  - intros uid msg s _ _ _. by apply link_delline_wf.
Qed.

Lemma svs_table_safe : Forall Safe svs_table.
Proof.
  unfold svs_table. repeat (apply Forall_cons_2; [try (apply keeps_safe; apply _)|]); [..|by apply Forall_nil_2].
  - apply svsjoin_safe.
  - intros uid msg s _ _ _. by apply link_svshold_wf.
  - apply svsoper_safe.
Qed.

Lemma handler_in_safe table cmd h : Forall Safe table → handler_in table cmd = Some h → Safe (cmd, h).
Proof.
  unfold handler_in. intros Hs Hh. destruct (find_first _ table) as [[n h']|] eqn:E; [|done].
  injection Hh as <-. apply find_first_Some in E as [Hin E%String.eqb_eq]. cbn in E. subst n.
  by eapply Forall_forall in Hs.
Qed.

Lemma link_handler_safe c msg h : link_handler (command msg) c msg = Some h → Safe (command msg, h).
Proof.
  unfold link_handler. destruct (handler_in link_table (command msg)) eqn:E.
  - intros [= <-]. by eapply handler_in_safe, E; apply link_table_safe.
  - destruct (source_is_service c msg); [|done]. apply handler_in_safe, svs_table_safe.
Qed.

Lemma always_handled_keeps uid msg : KeepsWf (always_handled uid msg).
Proof.
  intros s W. unfold always_handled. do 2 (destruct (String.eqb _ _); [by apply with_link_wf|]).
  do 2 (destruct (String.eqb _ _); [by apply close_link_wf|]). done.
Qed.

Lemma reject_link_wf uid why s : wf (core s) → wf (core (reject_link uid why s)).
Proof. intros W. apply close_link_wf. by frame. Qed.

Lemma accept_link_wf uid name sid desc pass s :
  is_Some (links (core s) !! uid) → wf (core s) → wf (core (accept_link uid name sid desc pass s)).
Proof.
  intros Hl W. unfold accept_link. cbn zeta. set (s1 := upd (with_link _ _) s).
  assert (wf (core s1)) as W1 by (by apply with_link_wf).
  destruct (uline_match _ _) as [service silent]. set (s2 := upd _ s1).
  assert (wf (core s2)) as W2.
  { apply (add_server_wf _ W1). cbn. by apply lookup_alter_is_Some. }
  frame. destruct (map_or _ _ _); [done|]. rewrite core_upd. apply with_link_wf. by frame.
Qed.

Lemma link_server_wf uid msg s :
  is_Some (links (core s) !! uid) → wf (core s) → wf (core (link_server uid msg s)).
Proof.
  intros Hl W. unfold link_server.
  destruct (params msg) as [|name [|pass [|sid [|desc ?]]]]; try by apply reject_link_wf.
  destruct (matched_jupe _ _); [by apply reject_link_wf|].
  destruct (find_first _ _); [|by apply reject_link_wf].
  destruct (negb _); [by apply reject_link_wf|]. destruct (_ || _); [by apply reject_link_wf|].
  by apply accept_link_wf.
Qed.

Lemma force_part_some uid chan reason s :
  is_Some (users (core s) !! uid) → is_Some (force_part uid chan reason s).
Proof.
  intros [u Hu]. unfold force_part. cbn zeta. destruct (negb _); [done|]. by rewrite Hu.
Qed.

Lemma link_svspart_safe from msg s :
  wf (core s) → ∃ s', link_svspart from msg s = Some s' ∧ wf (core s').
Proof.
  intros W. unfold link_svspart. destruct (params msg) as [|target [|chan rest]]; try by eexists.
  destruct (link_local_target _ _) as [uid|] eqn:E; [|eexists; split; [done|by frame]].
  destruct (local_target_user _ _ _ W E) as [u Hu].
  destruct (force_part_some uid chan (default "Services forced part" (head rest)) s) as [s' Hs'];
    [by eexists|].
  exists s'. split; [done|]. rewrite (force_part_core _ _ _ _ _ Hs'). case_match; [by apply left_tables_wf|done].
Qed.

Lemma link_ok_same c c' msg :
  (users c', nick_index c', uuid_local c') = (users c, nick_index c, uuid_local c) → link_ok c msg → link_ok c' msg.
Proof.
  intros [= E1 E2 E3]. unfold link_ok, uuids_free, forced_target, nick_free, link_local_target, find_nick, uget.
  by rewrite E1, E2, E3.
Qed.

(** A line of a known link: no panic, no endless unwrapping, consistent tables. *)
Lemma on_link_fuel_safe fuel uid msg s :
  length (params msg) < fuel → is_Some (links (core s) !! uid) → link_ok (core s) msg → wf (core s) →
  ∃ s', on_link_fuel fuel uid msg s = Some s' ∧ wf (core s').
Proof.
  revert msg s. induction fuel as [|fuel IH]; intros msg s Hf Hl Hok W; [lia|]. cbn [on_link_fuel].
  set (s1 := upd _ s).
  assert (wf (core s1)) as W1 by (by apply with_link_wf).
  assert (is_Some (links (core s1) !! uid)) as L1 by (apply lookup_alter_is_Some, Hl).
  assert (link_ok (core s1) msg) as Hok1 by (by eapply link_ok_same, Hok).
  clearbody s1. clear s Hl Hok W. cbn zeta.
  destruct (map_or _ _ (links _ !! uid)); cbn [negb].
  2: { destruct (String.eqb _ _); eexists; (split; [done|]); [by apply link_server_wf|by apply always_handled_keeps]. }
  destruct (String.eqb_spec (command msg) "ENCAP") as [Ec|].
  { destruct (params msg) as [|m [|sub ps]] eqn:Ep; try by eexists.
    destruct (IH (unwrapped msg sub ps) s1) as (s' & E & W').
    { cbn in Hf |- *. lia. } { done. }
    { destruct Hok1 as [H1 H2]. split; [done|]. intros inner Hi. by eapply H2, (carries_encap msg m sub ps). } { done. }
    rewrite E. destruct (String.eqb m "*"); [eexists; split; [done|by frame]|].
    destruct (_ || _); [by eexists|].
    destruct (server_link _ _); eexists; (split; [done|]); [case_match; by frame|done]. }
  destruct (String.eqb _ "SVSPART").
  { destruct (source_is_service _ _); [by apply link_svspart_safe|by eexists]. }
  destruct (link_handler _ _ _) as [h|] eqn:E; eexists; (split; [done|]); [|by apply always_handled_keeps].
  apply (link_handler_safe _ _ _ E); [done|apply Hok1| |done]. apply Hok1, carries_self.
Qed.

Lemma on_link_safe uid msg s :
  is_Some (links (core s) !! uid) → link_ok (core s) msg → wf (core s) →
  ∃ s', on_link uid msg s = Some s' ∧ wf (core s').
Proof. apply on_link_fuel_safe. lia. Qed.

Lemma add_link_wf uid ip outbound s : wf (core s) → wf (core (add_link uid ip outbound s)).
Proof.
  intros W. unfold add_link. cbn zeta. set (pass := if outbound then _ else _).
  set (s1 := match pass with Some _ => _ | None => _ end).
  assert (core s1 = core s) as E by (unfold s1; by destruct pass).
  rewrite core_upd, E. destruct (wf_net _ W) as (N1 & N2 & N3).
  eapply (set_network_wf _ W _ (<[uid := _]> (links (core s))) (servers (core s)) (remote_users (core s))
    (remote_nick (core s))); [done|done| | |done|apply W].
  - intros i r Hi. rewrite lookup_insert. case_decide; [done|]. by eapply N1.
  - intros i r Hi. rewrite lookup_insert. case_decide; [done|]. by eapply N2.
Qed.

End dispatch.
