(* ===== verification/Handlers.v ===== *)
(** * What a safe command handler is

    A handler is safe when, run for a registered user on consistent tables, it
    does not panic and leaves the tables consistent.  The lemmas here close the
    branches the handlers share. *)

From Stdlib Require Import Ascii.
From S2P Require Import Prelude RustStr Message Glob Clock I18n Channel State Mode UserMode CoreMode Watch Users.
From S2P Require Import Ban Membership CoreChannel Tables ModeTables MembershipTables.
From S2P Require Import Xline JoinFacts LeaveFacts ListFacts UserFacts XlineFacts.

Local Open Scope stdpp_scope.

Definition is_registered (c : Core) (uid : Uid) : Prop := uget u_registered c uid = Some true.

#[export] Instance is_registered_dec c uid : Decision (is_registered c uid).
Proof. unfold is_registered. apply _. Defined.

(** The outcome of a handler: no panic, and consistent tables. *)
Definition fine (o : option (CmdResult * Server)) : Prop :=
  ∃ r s', o = Some (r, s') ∧ wf (core s').

Definition safe (uid : Uid) (h : Handler) : Prop :=
  ∀ s, is_registered (core s) uid → wf (core s) → fine (h s).

Lemma fine_ok s : wf (core s) → fine (ok s).
Proof. intros W. by exists CmdOk, s. Qed.

Lemma fine_failed s : wf (core s) → fine (failed s).
Proof. intros W. by exists CmdFail, s. Qed.

Lemma fine_refuse uid code rest s : wf (core s) → fine (refuse uid code rest s).
Proof. intros W. apply fine_failed. by frame. Qed.

#[export] Hint Resolve fine_refuse : echo.
#[export] Hint Unfold no_such_channel not_operator not_on_channel no_such_nick no_kick_service no_kick_rank : echo.

Ltac refused := autounfold with echo; by apply fine_refuse.

Lemma registered_user c uid : is_registered c uid → ∃ u, users c !! uid = Some u ∧ u_registered u = true.
Proof.
  unfold is_registered, uget. destruct (users c !! uid) as [u|]; [|done].
  intros [= E]. by exists u.
Qed.

Lemma member_user c uid k : wf c → is_member c uid k = true → ∃ u, users c !! uid = Some u.
Proof.
  intros W Hm. assert (on_chan c uid k) as (l & Hl & _)%(wf_mem _ W).
  { unfold is_member in Hm. apply map_or_true in Hm as (ch & Hch & Hm). exists (chan_dom ch).
    unfold cget. rewrite Hch. split; [done|]. unfold chan_dom. apply elem_of_dom.
    by destruct (members ch !! uid). }
  unfold uget in Hl. destruct (users c !! uid) as [u|]; [by exists u|done].
Qed.

Lemma same_fine s s' : same_tables (core s) (core s') → wf (core s) → fine (ok s').
Proof. intros Hs W. apply fine_ok. by eapply wf_proper. Qed.


Section handlers.
Context `{UnicodeLower} `{Outside}.

(** Destroying a dead channel loses no membership. *)
#[export] Instance cull_keeps k : KeepsWf (cull k).
Proof.
  intros s W. unfold cull. destruct (channels (core s) !! k) as [ch|] eqn:E; [|done].
  destruct (keep_alive ch) eqn:Ek; [done|]. apply keep_alive_false in Ek. rewrite core_upd.
  apply (wf_membership (core s)); [done| | |apply W| |done].
  - intros u k'. change (in_list _ u k') with (in_list (core s) u k'). rewrite <-(wf_mem _ W u k').
    unfold on_chan, cget; cbn. destruct (decide (k = k')) as [<-|Hne]; [|by rewrite lookup_delete_ne].
    rewrite lookup_delete_eq, E. cbn. unfold chan_dom. rewrite Ek, dom_empty_L.
    split; [by intros (? & ? & _)|by intros (? & [= <-] & ?%not_elem_of_empty)].
  - intros k' name. unfold cget; cbn. destruct (decide (k = k')) as [<-|Hne].
    + by rewrite lookup_delete_eq.
    + rewrite lookup_delete_ne by done. apply (wf_key _ W k' name).
  - intros k' d uuid. unfold cget; cbn. destruct (decide (k = k')) as [<-|Hne].
    + by rewrite lookup_delete_eq.
    + rewrite lookup_delete_ne by done. apply (wf_rmem _ W k' d uuid).
Qed.

Lemma apply_mode_wf uid t ps s : wf (core s) → wf (core (apply_mode uid t ps s).2).
Proof.
  intros W. unfold apply_mode. case_match; [|eapply wf_proper, W; apply apply_user_modes_stable].
  unfold apply_chan_mode. cbn zeta. case_match; [|cbn; by frame]. case_match; [cbn; by frame|].
  case_match; [cbn; by frame|].
  destruct (mode_loop _ _ _ _ _ _ _) as [ml s'] eqn:E. cbn [snd]. apply cull_keeps.
  eapply wf_proper; [apply announce_modes_stable|].
  rewrite <-(f_equal snd E : _ = s'). eapply wf_proper, W. apply mode_loop_stable.
Qed.

End handlers.
