(* ===== verification/OperFacts.v ===== *)
(** * The operator commands keep the tables consistent

    Each handler of [CoreOper], [OperAuth] and [Password] is safe; a forced join
    needs a target that has registered. *)

From Stdlib Require Import Ascii.
From S2P Require Import Prelude RustStr Message Glob Clock I18n Channel Numeric State Mode UserMode CoreMode Ban.
From S2P Require Import Watch Users Membership Account Filter Xline CoreChannel Bcrypt Password OperTypes OperAuth.
From S2P Require Import Link CoreOper Tables ModeTables MembershipTables JoinFacts LeaveFacts ListFacts UserFacts.
From S2P Require Import XlineFacts LinkFacts LinkSafe Handlers Registration RegisterFacts.

Local Open Scope stdpp_scope.

(** ** Outputs *)

#[local] Instance tell_outputs uid nick m : Outputs (tell uid nick m).
Proof. intros s. apply send_outputs. Qed.

#[local] Instance onotice_outputs uid m : Outputs (onotice uid m).
Proof. intros s. apply tell_outputs. Qed.

#[local] Instance onotices_outputs uid l : Outputs (onotices uid l).
Proof. intros s. apply for_each_outputs. intros m. apply onotice_outputs. Qed.

#[local] Instance start_job_outputs j : Outputs (start_job j).
Proof. by intros s. Qed.

Section oper_facts.
Context `{UnicodeLower} `{Outside} `{Crypto}.

#[local] Instance audit_outputs uid t args : Outputs (audit uid t args).
Proof. intros s. apply snotice_c_outputs. Qed.

#[local] Instance wallops_outputs from text : Outputs (send_wallops from text).
Proof. intros s. apply for_each_outputs. intros u. apply send_outputs. Qed.

(** ** Shared branches *)

Lemma if_oper_fine uid h s : wf (core s) → fine (h s) → fine (if_oper uid h s).
Proof.
  intros W Hh. unfold if_oper, require_oper. destruct (is_oper _ _); [done|]. apply fine_failed. by frame.
Qed.

Lemma if_oper_safe uid h : safe uid h → safe uid (if_oper uid h).
Proof. intros Hh s Hr W. apply if_oper_fine; [done|]. by apply Hh. Qed.

(** The target of a command is a user with that nick. *)
Lemma with_target_fine uid nick h s :
  wf (core s) → (∀ t u, find_nick (core s) nick = Some t → users (core s) !! t = Some u → fine (h t s)) →
  fine (with_target uid nick h s).
Proof.
  intros W Hh. unfold with_target. destruct (find_nick _ _) as [t|] eqn:E; [|by apply fine_refuse].
  destruct (find_nick_user _ _ _ W E) as [u Hu]. by eapply Hh.
Qed.

Lemma fine_keeps f s : KeepsWf f → wf (core s) → fine (ok (f s)).
Proof. intros Hf W. by apply fine_ok, Hf. Qed.

Lemma outputs_fine f s : Outputs f → wf (core s) → fine (ok (f s)).
Proof. intros Hf W. apply fine_ok. by rewrite outputs. Qed.

Ltac target := apply with_target_fine; [done|]; intros tuid tusr Ht Hv.
Ltac oper_only := intros s Hr W; apply if_oper_fine; [done|].
Ltac silent := apply fine_failed; by frame.

#[local] Hint Extern 1 (fine (failed _)) => silent : core.

(** ** Announcements and reports *)

Lemma opermotd_safe uid : safe uid (opermotd_cmd uid).
Proof.
  oper_only. destruct (conf_all _ _) as [|l motd]; apply fine_ok; [by rewrite tell_outputs|].
  rewrite tell_outputs, for_each_outputs by (intros; apply tell_outputs). by rewrite tell_outputs.
Qed.

Lemma alltime_safe uid : safe uid (alltime_cmd uid).
Proof. oper_only. apply fine_ok. by frame. Qed.

Lemma wallops_safe uid t : safe uid (wallops_cmd uid t).
Proof. oper_only. by apply outputs_fine; [apply _|]. Qed.

Lemma globops_safe uid t : safe uid (globops_cmd uid t).
Proof. oper_only. cbn zeta. apply fine_ok. rewrite for_each_outputs; [done|]. intros o s'. apply tell_outputs. Qed.

Lemma check_safe uid t : safe uid (check_cmd uid t).
Proof.
  oper_only. cbn zeta. destruct (starts_with _ _).
  - destruct (channels _ !! _); [|refused]. apply fine_ok. by frame.
  - destruct (find_nick _ _) as [i|] eqn:E; [|refused]. destruct (find_nick_user _ _ _ W E) as [u ->].
    cbn [mbind option_bind]. apply fine_ok. by frame.
Qed.

Lemma mkpasswd_safe uid a p : safe uid (mkpasswd_cmd uid a p).
Proof.
  intros s Hr W. unfold mkpasswd_cmd. destruct (negb _); [refused|]. cbn zeta. destruct (is_slow_algo a).
  - pose proof (spawn_core (JobHash uid a p) s) as E. destruct (spawn_crypto _ _) as [[] s']; cbn in E;
      apply fine_ok; [by rewrite E|]. by rewrite tell_outputs, E.
  - destruct (make a p); [apply fine_ok|apply fine_failed]; by rewrite tell_outputs.
Qed.

(** ** KILL, SAQUIT *)

Lemma kill_safe uid t why : safe uid (kill_cmd uid t why).
Proof.
  oper_only. cbn zeta. destruct (find_nick _ _) as [i|].
  - destruct (uid_servprotected _ _); [refused|]. destruct (deny_kill _ _ _); [refused|].
    apply fine_ok, remove_user_wf. by frame.
  - unfold kill_elsewhere. cbn zeta. destruct (find_remote _ _) as [[uuid via]|].
    + destruct (_ || _); [refused|]. by apply outputs_fine; [apply _|].
    + destruct (_ || _); refused.
Qed.

Lemma saquit_safe uid t why : safe uid (saquit_cmd uid t why).
Proof.
  oper_only. target. cbn zeta. destruct (uid_servprotected _ _); [refused|].
  apply fine_ok. frame. apply remove_user_wf. by frame.
Qed.

(** ** Accounts *)

Lemma account_gate_fine uid cmd h s : wf (core s) → fine (h s) → fine (account_gate uid cmd h s).
Proof. intros W Hh. unfold account_gate. destruct (negb _); [refused|]. destruct (negb _); [refused|done]. Qed.

Lemma svslogin_safe uid t a : safe uid (svslogin_cmd uid t a).
Proof.
  intros s Hr W. apply account_gate_fine; [done|]. target. apply fine_ok.
  destruct (_ || _); eapply wf_proper, W; [apply logout_stable|apply set_login_stable].
Qed.

Lemma svslogout_safe uid t : safe uid (svslogout_cmd uid t).
Proof. intros s Hr W. apply account_gate_fine; [done|]. target. by apply fine_keeps; [apply _|]. Qed.
(** ** Forced joins, parts, nicks and modes *)

Lemma sajoin_safe uid t chan s :
  is_registered (core s) uid → (∀ i, find_nick (core s) t = Some i → is_registered (core s) i) →
  wf (core s) → fine (sajoin_cmd uid t chan s) ∧ fine (svsjoin_cmd uid t chan s).
Proof.
  intros Hr Hreg W. split; (apply if_oper_fine; [done|]; target; apply fine_ok, join_wf; [by apply Hreg|done]).
Qed.

Lemma force_part_fine tuid chan reason s u :
  wf (core s) → users (core s) !! tuid = Some u → fine (s' ← force_part tuid chan reason s; ok s').
Proof.
  intros W Hu. destruct (force_part_some tuid chan reason s ltac:(by eexists)) as [s' E]. rewrite E.
  apply fine_ok. rewrite (force_part_core _ _ _ _ _ E). case_match; [by apply left_tables_wf|done].
Qed.

Lemma sapart_safe uid t chan why : safe uid (sapart_cmd uid t chan why).
Proof. oper_only. target. by eapply force_part_fine. Qed.

Lemma svspart_safe uid t chan why : safe uid (svspart_cmd uid t chan why).
Proof. oper_only. target. by eapply force_part_fine. Qed.

(** A nick that is not in use by another is free. *)
Lemma not_in_use_free c tuid u newnick :
  wf c → users c !! tuid = Some u → nick_valid c newnick = true → nick_in_use c tuid newnick = false →
  nick_free c tuid newnick.
Proof.
  intros W Hu Hv Hn. split; [by eapply valid_nick_nonempty|]. intros i Hi.
  unfold nick_in_use in Hn. rewrite Hi in Hn. cbn [is_some orb] in Hn. rewrite andb_true_r in Hn.
  apply negb_false_iff, eq_ignore_case_spec in Hn. unfold nick_of in Hn. rewrite Hu in Hn. cbn in Hn.
  assert (u_nick u ≠ "") as Hne.
  { intros E. rewrite E in Hn. by destruct newnick. }
  destruct (nick_free_self c tuid u Hu (wf_nick _ W) Hne) as [_ Hself]. apply Hself.
  unfold find_nick in *. by rewrite <-Hn.
Qed.

Lemma force_nick_fine uid tuid newnick u s :
  wf (core s) → users (core s) !! tuid = Some u → fine (force_nick uid tuid newnick s).
Proof.
  intros W Hu. unfold force_nick. destruct (nick_valid _ _) eqn:Hv; cbn [negb]; [|by apply fine_refuse].
  destruct (nick_in_use _ _ _) eqn:Hn; [by apply fine_refuse|].
  apply fine_ok, set_nick_wf; [|done]. by eapply not_in_use_free.
Qed.

Lemma sanick_safe uid t n : safe uid (sanick_cmd uid t n).
Proof. oper_only. target. destruct (uid_servprotected _ _); [refused|]. by eapply force_nick_fine. Qed.

Lemma svsnick_safe uid t n : safe uid (svsnick_cmd uid t n).
Proof. oper_only. target. by eapply force_nick_fine. Qed.

Lemma set_sudo_same b s : same_tables (core s) (core (set_sudo b s)).
Proof. by split. Qed.

Lemma sudo_mode_wf uid t ps s : wf (core s) → wf (core (sudo_mode uid t ps s).2).
Proof.
  intros W. unfold sudo_mode. pose proof (apply_mode_wf uid t ps (set_sudo true s)) as Ha.
  destruct (apply_mode _ _ _ _) as [r s']. cbn in *.
  eapply wf_proper; [apply set_sudo_same|]. apply Ha. eapply wf_proper, W. apply set_sudo_same.
Qed.

Lemma fine_pair (x : CmdResult * Server) : wf (core x.2) → fine (Some x).
Proof. intros W. by exists x.1, x.2; destruct x. Qed.

Lemma svsmode_safe uid t ms rest : safe uid (svsmode_cmd uid t ms rest).
Proof.
  oper_only. destruct (starts_with _ _).
  - apply fine_pair. by apply sudo_mode_wf.
  - target. by apply fine_keeps; [apply _|].
Qed.

Lemma samode_safe uid t ms rest : safe uid (samode_cmd uid t ms rest).
Proof.
  oper_only. pose proof (sudo_mode_wf uid t (ms :: rest) s W) as Ws.
  destruct (sudo_mode _ _ _ _) as [r s']. apply fine_pair. cbn in *. by rewrite audit_outputs.
Qed.

(** ** Servers *)

Lemma close_juped_wf s : wf (core s) → wf (core (close_juped s)).
Proof.
  intros W. unfold close_juped. apply for_each_keeps; [|done]. intros [via name] s' W'.
  destruct (is_some _); [|done]. apply close_link_wf. by rewrite snotice_c_outputs.
Qed.

Lemma jupe_wf uid m rest s : wf (core s) → wf (core (jupe_cmd uid m rest s).2).
Proof.
  intros W. unfold jupe_cmd. pose proof (do_xline_wf uid m rest Jupe s W) as Wd.
  destruct (do_xline _ _ _ _ _) as [[] s']; cbn in Wd; [|done]. destruct rest; [done|]. by apply close_juped_wf.
Qed.

Lemma connect_safe uid n : safe uid (connect_cmd uid n).
Proof.
  oper_only. destruct (find_first _ _) as [b|]; [|silent]. destruct (existsb _ _); [silent|].
  apply fine_ok. by rewrite snotice_c_outputs, start_job_outputs.
Qed.

Lemma squit_safe uid n : safe uid (squit_cmd uid n).
Proof.
  oper_only. destruct (find_first _ _) as [[via b]|]; [|refused]. cbn zeta.
  apply fine_ok, close_link_wf. by rewrite snotice_c_outputs.
Qed.

(** ** Locked nicks, hosts, names *)

Lemma set_flags_same uid f s : same_tables (core s) (core (set_flags uid f s)).
Proof. by apply same_with_user. Qed.

Lemma nicklock_safe uid t n : safe uid (nicklock_cmd uid t n).
Proof.
  oper_only. target. destruct (nick_valid _ _) eqn:Ev; cbn [negb]; [|by apply fine_refuse].
  destruct (nick_in_use _ _ _) eqn:En; [by apply fine_refuse|]. cbn zeta. apply fine_ok. rewrite audit_outputs.
  eapply wf_proper; [apply set_flags_same|]. destruct (eq_ignore_ascii_case _ _); [done|].
  apply set_nick_wf; [|done]. by eapply not_in_use_free.
Qed.

Lemma nickunlock_safe uid t : safe uid (nickunlock_cmd uid t).
Proof.
  oper_only. target. apply fine_ok. rewrite audit_outputs. eapply wf_proper, W. apply set_flags_same.
Qed.

Lemma change_host_ident_wf uid i h s : wf (core s) → wf (core (change_host_ident uid i h s)).
Proof. intros W. eapply wf_proper, W. apply change_identity_stable. Qed.

Lemma chghost_safe uid t h : safe uid (chghost_cmd uid t h).
Proof.
  oper_only. destruct (valid_host _); cbn [negb]; [|silent]. target. cbn zeta. apply fine_ok.
  rewrite snotice_c_outputs. by apply change_host_ident_wf.
Qed.

Lemma sethost_safe uid h : safe uid (sethost_cmd uid h).
Proof. oper_only. destruct (valid_host _); cbn [negb]; [|silent]. by apply fine_ok, change_host_ident_wf. Qed.

Lemma chgident_safe uid t i : safe uid (chgident_cmd uid t i).
Proof.
  oper_only. destruct (valid_ident _); cbn [negb]; [|silent]. target. cbn zeta. apply fine_ok.
  rewrite snotice_c_outputs. by apply change_host_ident_wf.
Qed.

Lemma setident_safe uid i : safe uid (setident_cmd uid i).
Proof. oper_only. destruct (valid_ident _); cbn [negb]; [|silent]. by apply fine_ok, change_host_ident_wf. Qed.

Lemma chgname_safe uid t r : safe uid (chgname_cmd uid t r).
Proof.
  oper_only. target. rewrite Hv. cbn zeta. eapply same_fine, W. rewrite audit_outputs, notify_peers_outputs.
  destruct (has_cap _ _ _); [rewrite send_outputs|]; by apply same_with_user.
Qed.

Lemma swhois_safe uid t ws : safe uid (swhois_cmd uid t ws).
Proof. oper_only. target. cbn zeta. eapply same_fine, W. rewrite audit_outputs. by apply same_with_user. Qed.

Lemma setidle_safe uid a : safe uid (setidle_cmd uid a).
Proof. oper_only. cbn zeta. eapply same_fine, W. rewrite onotice_outputs. by apply same_with_user. Qed.

(** ** Channels *)

Lemma satopic_safe uid chan text : safe uid (satopic_cmd uid chan text).
Proof.
  oper_only. apply registered_user in Hr as (u & Hu & _). cbn zeta. destruct (negb _); [refused|].
  rewrite Hu. cbn [mbind option_bind]. eapply same_fine, W.
  rewrite audit_outputs, propagate_topic_outputs, to_channel_outputs. by apply same_with_chan.
Qed.

Lemma sakick_safe uid chan v why : safe uid (sakick_cmd uid chan v why).
Proof.
  oper_only. apply registered_user in Hr as (u & Hu & _). cbn zeta. destruct (channels _ !! _) as [ch|]; [|refused].
  target. destruct (negb _); [refused|]. destruct (uid_servprotected _ _); [refused|]. cbn zeta.
  rewrite Hu. cbn [mbind option_bind]. apply fine_ok. rewrite audit_outputs, core_upd. apply part_tables_wf.
  rewrite propagate_kick_outputs, to_channel_outputs. eapply wf_proper, W. apply record_event_stable.
Qed.

Lemma clear_one_wf uid p k chan r tuid s : wf (core s) → wf (core (clear_one uid p k chan r tuid s)).
Proof.
  intros W. unfold clear_one. cbn zeta. destruct (is_empty _); [done|].
  rewrite push_event_outputs, core_upd. apply drop_wf. by rewrite propagate_kick_outputs, to_channel_outputs.
Qed.

Lemma clearchan_safe uid chan why : safe uid (clearchan_cmd uid chan why).
Proof.
  oper_only. apply registered_user in Hr as (u & Hu & _). cbn zeta. destruct (channels _ !! _) as [ch|]; [|refused].
  rewrite Hu. cbn [mbind option_bind]. apply fine_ok. rewrite audit_outputs, core_upd. apply retain_wf.
  apply for_each_keeps; [|done]. intros i s'. apply clear_one_wf.
Qed.
(** ** OPER and CHALLENGE *)

Lemma set_snomask_same uid l s : same_tables (core s) (core (set_snomask uid l s)).
Proof. apply set_flags_same. Qed.

#[export] Instance apply_resolved_stable uid r : StableTables (apply_resolved uid r).
Proof.
  intros s. unfold apply_resolved. cbn zeta. etrans; [|by apply same_with_user].
  set (s1 := if is_empty _ then _ else _). assert (same_tables (core s) (core s1)) as H1'.
  { unfold s1. destruct (is_empty _); [done|]. apply svs_set_user_modes_stable. }
  set (s2 := if rv_all_snomasks r then _ else _). assert (same_tables (core s) (core s2)) as H2'.
  { etrans; [exact H1'|]. unfold s2. destruct (rv_all_snomasks r); [apply set_snomask_same|].
    destruct (rv_snomasks r); [apply set_snomask_same|done]. }
  set (s3 := match rv_vhost r with Some _ => _ | None => _ end).
  assert (same_tables (core s) (core s3)) as H3'.
  { etrans; [exact H2'|]. unfold s3. destruct (rv_vhost r); [apply change_identity_stable|done]. }
  etrans; [exact H3'|]. destruct (rv_level r); [by apply same_with_user|done].
Qed.

#[export] Instance apply_opertype_stable uid t : StableTables (apply_opertype uid t).
Proof.
  intros s. unfold apply_opertype. destruct (_ <$> t) as [id|]; [|done].
  destruct (_ !! id); [apply apply_resolved_stable|]. by rewrite snotice_c_outputs.
Qed.

Lemma oper_granted_wf uid level t s : not_pending (core s) uid → wf (core s) → wf (core (oper_granted uid level t s)).
Proof.
  intros Hp W. unfold oper_granted. eapply wf_proper; [apply apply_opertype_stable|].
  eapply wf_proper; [by apply same_with_user|]. by apply oper_up_wf.
Qed.

Lemma oper_auth_wf uid okay level t s : not_pending (core s) uid → wf (core s) → wf (core (oper_auth uid okay level t s)).
Proof.
  intros Hp W. unfold oper_auth. destruct okay; [by apply oper_granted_wf|].
  destruct (is_some _); [by rewrite numeric_outputs|done].
Qed.

Lemma mkpasswd_result_outputs uid a h : Outputs (mkpasswd_result uid a h).
Proof. intros s. unfold mkpasswd_result. destruct h; apply tell_outputs. Qed.

(** The connection a finished job answers. *)
Definition job_asker (j : Job) : option Uid := match j with JobOper uid _ _ _ => Some uid | _ => None end.

Lemma job_done_wf n s :
  (∀ j uid, jobs (io s) !! n = Some j → job_asker j = Some uid → not_pending (core s) uid) →
  wf (core s) → wf (core (job_done n s)).
Proof.
  intros Hp W. unfold job_done. destruct (jobs (io s) !! n) as [j|] eqn:E; [|done]. cbn zeta.
  destruct j; [|by rewrite mkpasswd_result_outputs|by apply class_auth_wf|done]. apply oper_auth_wf; [|done]. by eapply Hp.
Qed.

Lemma registered_not_pending c uid : is_registered c uid → not_pending c uid.
Proof. unfold is_registered, not_pending. by intros ->. Qed.

Lemma check_later_fine uid ck b s : wf (core s) → fine (check_later uid ck b s).
Proof.
  intros W. unfold check_later. pose proof (spawn_core (JobOper uid ck (ob_level b) (ob_type b)) s) as E.
  destruct (spawn_crypto _ _) as [[] s']; cbn in E; [apply fine_ok|apply fine_refuse]; by rewrite E.
Qed.

Lemma oper_password_safe uid p b : safe uid (oper_password uid p b).
Proof.
  intros s Hr W. unfold oper_password. cbn zeta. destruct (ob_ldap_dn b).
  - destruct (is_empty _); [|by apply check_later_fine]. apply fine_refuse. by rewrite snotice_c_outputs.
  - apply registered_not_pending in Hr. destruct (String.eqb _ _); [by apply fine_ok, oper_granted_wf|].
    destruct (is_slow _); [by apply check_later_fine|].
    destruct (verify _ _); [by apply fine_ok, oper_granted_wf|by apply fine_refuse].
Qed.

Lemma oper_safe uid n p : safe uid (oper_cmd uid n p).
Proof.
  intros s Hr W. unfold oper_cmd. destruct (find_block _ _); [|by apply fine_refuse].
  destruct (map_or _ _ _); [|by apply oper_password_safe]. apply fine_refuse. by rewrite snotice_c_outputs.
Qed.

Lemma find_first_holds {A} (p : A → bool) l x : find_first p l = Some x → p x = true.
Proof.
  induction l as [|y l IH]; cbn [find_first]; [done|]. destruct (p y) eqn:E; [by intros [= <-]|done].
Qed.

Lemma challenge_issue_safe uid n : safe uid (challenge_issue uid n).
Proof.
  intros s Hr W. unfold challenge_issue. destruct (find_block _ _) as [b|] eqn:Eb; [|by apply fine_refuse].
  apply find_first_holds in Eb. unfold rsa_block in Eb. apply andb_true_iff in Eb as [_ Eb].
  destruct (ob_rsa_key b) as [path|]; [|done]. cbn [mbind option_bind].
  destruct (read_file path); [|apply fine_refuse; by rewrite snotice_c_outputs].
  destruct (make_challenge _) as [[]|]; [|apply fine_refuse; by rewrite snotice_c_outputs]. cbn zeta.
  apply fine_ok. rewrite numeric_outputs, for_each_outputs by (intros; apply numeric_outputs).
  eapply wf_proper, W. by apply same_with_user.
Qed.

Lemma challenge_response_safe uid r : safe uid (challenge_response uid r).
Proof.
  intros s Hr W. unfold challenge_response. destruct (_ ≫= u_challenge) as [p|]; [|by apply fine_refuse].
  cbn zeta. set (s1 := set_challenge uid None s).
  assert (same_tables (core s) (core s1)) as Hs by (by apply same_with_user).
  assert (wf (core s1)) as W1 by (by eapply wf_proper).
  destruct (_ <? _)%N; [by apply fine_refuse|].
  destruct (negb _); [apply fine_refuse; by rewrite snotice_c_outputs|].
  destruct (find_block _ _) as [b|]; [|by apply fine_refuse]. destruct (map_or _ _ _); [by apply fine_refuse|].
  apply fine_ok, oper_granted_wf; [|done]. apply registered_not_pending. unfold is_registered.
  by rewrite <-(same_registered _ _ uid Hs).
Qed.

Lemma challenge_safe uid a : safe uid (challenge_cmd uid a).
Proof. unfold challenge_cmd. destruct (strip_prefix _ _); [apply challenge_response_safe|apply challenge_issue_safe]. Qed.

End oper_facts.
