(* ===== verification/SessionFacts.v ===== *)
(** * The session commands keep the tables consistent, and do what they promise

    CAP, AUTHENTICATE, NICK, USER, AWAY and the others may run before
    registration: they are safe for every connection. *)

From Stdlib Require Import Ascii.
From S2P Require Import Prelude RustStr Message Glob Clock I18n Channel Numeric State Mode UserMode CoreMode Ban.
From S2P Require Import Watch Users Membership Account Filter Xline CoreChannel CoreMessage Multiline Password.
From S2P Require Import Registration CoreOper LinkServices CoreUser Welcome CoreInfo.
From S2P Require Import Tables ModeTables MembershipTables JoinFacts LeaveFacts ListFacts UserFacts XlineFacts.
From S2P Require Import SpeechFacts LinkFacts LinkSafe Handlers RegisterFacts OperFacts.

Local Open Scope stdpp_scope.

Section session_facts.
Context `{UnicodeLower} `{Outside}.

#[local] Instance tell_outs uid nick m : Outputs (tell uid nick m).
Proof. intros s. apply send_outputs. Qed.

#[local] Instance cap_reply_outputs uid rest : Outputs (cap_reply uid rest).
Proof. intros s. apply send_outputs. Qed.

Lemma nickflood_same uid s : same_tables (core s) (core (nickflood_blocked uid s).2).
Proof.
  unfold nickflood_blocked. cbn zeta. generalize (map_or [] (λ u, elements (u_channels u)) (users (core s) !! uid)).
  intros l. change (core s) with (core (None : option string, s).2) at 1.
  generalize (None : option string, s). generalize (clock (core s)).
  generalize (conf_num (core s) u64_max "nickflood_duration" 60). intros dur n.
  induction l as [|k l IH]; intros acc; cbn [foldl]; [done|]. etrans; [|apply IH].
  destruct acc as [b s']. unfold nickflood_chan.
  repeat case_match; cbn [snd]; try done; by apply same_with_chan.
Qed.


#[local] Instance sasl_relay_outputs uid rest : Outputs (sasl_relay uid rest).
Proof.
  intros s. unfold sasl_relay. destruct (sasl_link _); [|done]. destruct (users _ !! _); [|done]. apply link_out_outputs.
Qed.

(** A handler that is safe for any connection. *)
Definition always (h : Handler) : Prop := ∀ s, wf (core s) → fine (h s).

Lemma always_safe uid h : always h → safe uid h.
Proof. intros Hh s _ W. by apply Hh. Qed.

(** ** CAP and AUTHENTICATE *)

Lemma cap_ls_stable uid b : StableTables (cap_ls uid b).
Proof.
  intros s. unfold cap_ls. cbn zeta. set (s1 := with_session _ _ s).
  assert (same_tables (core s) (core s1)) as E by apply with_session_stable.
  destruct (negb b); [by rewrite cap_reply_outputs|]. rewrite for_each_outputs; [done|].
  intros [i ch] s'. apply cap_reply_outputs.
Qed.

Lemma cap_req_stable uid r : StableTables (cap_req uid r).
Proof.
  intros s. unfold cap_req. cbn zeta. set (s1 := with_session _ _ s).
  assert (same_tables (core s) (core s1)) as E by apply with_session_stable.
  destruct (_ && _); rewrite cap_reply_outputs; [|done]. etrans; [exact E|]. by apply same_with_user.
Qed.

Lemma cap_always uid sub arg : always (cap_cmd uid sub arg).
Proof.
  intros s W. unfold cap_cmd. cbn zeta. eapply same_fine, W. destruct (String.eqb _ _); [apply cap_ls_stable|].
  destruct (String.eqb _ _); [apply cap_req_stable|]. destruct (String.eqb _ _); [by rewrite cap_reply_outputs|].
  destruct (String.eqb _ _); [apply with_session_stable|done].
Qed.

Lemma set_mech_same uid m s : same_tables (core s) (core (set_mech uid m s)).
Proof. by apply same_with_user. Qed.

Lemma sasl_start_always uid arg : always (sasl_start uid arg).
Proof.
  intros s W. unfold sasl_start. cbn zeta. destruct (String.eqb _ _); [apply fine_ok; by rewrite numeric_outputs|].
  destruct (find_first _ _).
  - destruct (negb _); [by apply fine_refuse|]. eapply same_fine, W. rewrite sasl_relay_outputs. apply set_mech_same.
  - destruct (eq_ignore_ascii_case _ _); [|by apply fine_refuse; rewrite numeric_outputs].
    destruct (_ ≫= _); [|by apply fine_refuse]. destruct (is_some _); [|by apply fine_refuse].
    eapply same_fine, W. rewrite sasl_relay_outputs. apply set_mech_same.
Qed.

Lemma sasl_continue_always uid arg : always (sasl_continue uid arg).
Proof.
  intros s W. assert (∀ m s', same_tables (core s) (core s') → wf (core (set_mech uid m s'))) as Wm.
  { intros m s' E. eapply wf_proper; [apply set_mech_same|]. by eapply wf_proper. }
  unfold sasl_continue. cbn zeta. destruct (String.eqb _ _).
  - apply fine_ok. rewrite numeric_outputs. apply Wm. destruct (is_some _); [by rewrite sasl_relay_outputs|done].
  - destruct (_ <? _); [by apply fine_refuse, Wm|].
    destruct (is_some _); [apply fine_ok; by rewrite sasl_relay_outputs|by apply fine_refuse, Wm].
Qed.

Lemma authenticate_always uid arg : always (authenticate_cmd uid arg).
Proof.
  intros s W. unfold authenticate_cmd. destruct (negb _); [by apply fine_refuse|].
  destruct (is_logged_in _ _); [by apply fine_refuse|].
  destruct (_ ≫= _); [by apply sasl_continue_always|by apply sasl_start_always].
Qed.

(** ** VHOST, AWAY, SETNAME *)

Lemma vhost_always uid u p : always (vhost_cmd uid u p).
Proof.
  intros s W. unfold vhost_cmd. cbn zeta. destruct (head _).
  - apply fine_ok. rewrite tell_outs. by apply change_host_ident_wf.
  - apply fine_failed. by rewrite tell_outs.
Qed.

Lemma away_always uid arg : always (away_cmd uid arg).
Proof.
  intros s W. unfold away_cmd. cbn zeta. destruct (away_wait _ _); [apply fine_failed; by rewrite tell_outs|].
  destruct (users (core s) !! uid); [|by apply fine_failed]. set (s1 := with_session _ _ _).
  assert (same_tables (core s) (core s1)) as E.
  { etrans; [apply (set_flags_stable uid (λ f, f <| away := opt_filter (λ m, negb (is_empty m)) arg |>))|].
    apply with_session_stable. }
  eapply same_fine, W. destruct (is_some _); by rewrite numeric_outputs, propagate_from_user_outputs, notify_peers_outputs.
Qed.

Lemma setname_always uid r : always (setname_cmd uid r).
Proof.
  intros s W. unfold setname_cmd. cbn zeta. destruct (users (core s) !! uid); [|by apply fine_failed].
  eapply same_fine, W. rewrite propagate_from_user_outputs, notify_peers_outputs.
  destruct (has_cap _ _ _); [rewrite send_outputs|]; by apply same_with_user.
Qed.

(** ** NICK *)

Lemma nick_blocked_same uid s : same_tables (core s) (core (nick_blocked uid s).2).
Proof.
  unfold nick_blocked. destruct (has_priv _ _ _); [done|]. destruct (no_nick_chan _ _); [done|].
  destruct (nick_banned_chan _ _); [done|]. pose proof (nickflood_same uid s) as E.
  by destruct (nickflood_blocked uid s).
Qed.

Lemma nick_rlined_wf uid s : wf (core s) → wf (core (nick_rlined uid s)).
Proof.
  intros W. unfold nick_rlined. destruct (conf_bool _ _ _); [|done]. destruct (users _ !! _); [|done].
  destruct (matched_rline _ _ _ _ _ _); [|done]. apply remove_user_wf. by rewrite send_outputs.
Qed.

Lemma nick_always uid arg : always (nick_cmd uid arg).
Proof.
  intros s W. unfold nick_cmd. destruct arg as [n|]; [|by apply fine_refuse].
  destruct (nick_valid (core s) n) eqn:Ev; cbn [negb]; [|by apply fine_refuse]. destruct (_ && _); [by apply fine_refuse|].
  destruct (if is_oper _ _ then _ else _); [by apply fine_refuse|].
  destruct (find_nick (core s) n) as [i|] eqn:Ef; [case_bool_decide; [by apply fine_ok|by apply fine_refuse]|].
  destruct (is_some _); [by apply fine_refuse|]. pose proof (nick_blocked_same uid s) as E.
  destruct (nick_blocked uid s) as [r s']. cbn in E. assert (wf (core s')) as W' by by eapply wf_proper.
  destruct r; [by apply fine_refuse|]. apply fine_ok, nick_rlined_wf, set_nick_wf; [|done].
  split; [by eapply valid_nick_nonempty|]. unfold find_nick in *. rewrite <-(st_nick _ _ E), Ef. by intros i.
Qed.

(** ** USER, PONG, PASS, QUIT, BATCH *)

Lemma user_always uid u r : always (user_cmd uid u r).
Proof.
  intros s W. unfold user_cmd. destruct (is_reg _ _); [by apply fine_refuse|]. eapply same_fine, W.
  by apply same_with_user.
Qed.

Lemma ping_always uid t : always (ping_cmd uid t).
Proof. intros s W. apply fine_ok. by rewrite send_outputs. Qed.

Lemma pong_always uid ps : always (pong_cmd uid ps).
Proof.
  intros s W. apply fine_ok. unfold on_pong. destruct (_ ≫= _); [|done].
  destruct (String.eqb _ _); [eapply wf_proper, W; apply with_session_stable|].
  destruct (conf_bool _ _ _); [|done]. apply remove_user_wf. by rewrite send_outputs.
Qed.

Lemma pass_always uid p : always (pass_cmd uid p).
Proof.
  intros s W. unfold pass_cmd. destruct (is_reg _ _); [by apply fine_failed|]. eapply same_fine, W.
  apply with_session_stable.
Qed.

Lemma quit_always uid a : always (quit_cmd uid a).
Proof. intros s W. eapply same_fine, W. apply with_session_stable. Qed.

(** ** A hidden channel stays hidden *)

(** The server as it is without a channel. *)
Definition forget_channel (k : string) (c : Core) : Core := c <| channels ::= delete k |>.

Lemma channels_forget k c : channels (forget_channel k c) = delete k (channels c).
Proof. done. Qed.

Section hidden_channel.
Variables (c : Core) (uid : Uid) (k : string) (ch : Channel).
Hypotheses (Hk : channels c !! k = Some ch) (Hl : listed c uid ch = false).

Lemma unlisted_outside : members ch !! uid = None.
Proof using Hl.
  unfold listed in Hl. destruct (members ch !! uid); [|done]. cbn in Hl. by rewrite andb_false_r in Hl.
Qed.

Lemma list_forgets : list_rows c uid ≡ₚ list_rows (forget_channel k c) uid.
Proof using Hk Hl.
  unfold list_rows. apply fmap_Permutation. change (listed (forget_channel k c) uid) with (listed c uid).
  rewrite channels_forget, <-(map_to_list_delete _ _ _ Hk) at 1. cbn [map snd].
  by rewrite filter_cons_False by (by rewrite Hl).
Qed.

Lemma meet_spec c' a b :
  meet c' a b = true ↔ ∃ k ch, channels c' !! k = Some ch ∧ is_Some (members ch !! a) ∧ is_Some (members ch !! b).
Proof.
  unfold meet. rewrite existsb_exists. split.
  - intros ([k' ch'] & Hin & E). apply list_elem_of_In, elem_of_map_to_list in Hin. exists k', ch'.
    by destruct (members ch' !! a), (members ch' !! b).
  - intros (k' & ch' & E & [x Hx] & [y Hy]). exists (k', ch'). rewrite Hx, Hy. split; [|done].
    by apply list_elem_of_In, elem_of_map_to_list.
Qed.

Lemma meet_forgets t : meet (forget_channel k c) uid t = meet c uid t.
Proof using Hk Hl.
  apply eq_true_iff_eq. rewrite !meet_spec, channels_forget. pose proof unlisted_outside as Ho.
  split; intros (k' & ch' & E & Ha & Hb); exists k', ch'.
  - by apply lookup_delete_Some in E as [_ E].
  - rewrite lookup_delete_ne; [done|]. intros <-. rewrite Hk in E. injection E as <-. by rewrite Ho in Ha; destruct Ha.
Qed.

Lemma targets_forget target : who_targets (forget_channel k c) uid target = who_targets c uid target.
Proof using Hk Hl.
  unfold who_targets. destruct (starts_with _ _).
  - rewrite channels_forget. change (listed (forget_channel k c) uid) with (listed c uid).
    destruct (decide (k = to_ascii_lowercase target)) as [<-|E]; [|by rewrite lookup_delete_ne].
    by rewrite lookup_delete_eq, Hk, Hl.
  - unfold who_concealed. change (find_nick (forget_channel k c)) with (find_nick c).
    destruct (find_nick c target) as [t|]; [|done]. by rewrite meet_forgets.
Qed.
End hidden_channel.

(** C16: Someone outside a secret or private channel, who has no right to look in, gets the
    same LIST and the same WHO replies as if the channel did not exist. *)
Theorem hidden_channel_unseen c uid k ch :
  channels c !! k = Some ch → is_hidden ch = true → members ch !! uid = None →
  has_priv c uid CHANNELS_AUSPEX = false →
  list_rows c uid ≡ₚ list_rows (forget_channel k c) uid
  ∧ ∀ target spec, omap (who_row c uid spec) (who_targets c uid target)
                   = omap (who_row (forget_channel k c) uid spec) (who_targets (forget_channel k c) uid target).
Proof.
  intros Hk Hh Hm Hp. assert (listed c uid ch = false) as Hl by (unfold listed; by rewrite Hh, Hm, Hp).
  split; [by eapply list_forgets|]. intros target spec. by rewrite (targets_forget c uid k ch Hk Hl target).
Qed.

(** ** A cloaked address stays hidden *)

Lemma omap_same {A B} (f g : A → option B) (l : list A) : (∀ x, f x = g x) → omap f l = omap g l.
Proof. intros E. apply list_omap_ext, Forall_Forall2_diag, Forall_true, E. Qed.

Definition move_to (ip host : string) (u : User) : User := u <| u_ip := ip |> <| u_host := host |>.

(** The display host is not the real one. *)
Definition cloaked (u : User) : bool :=
  is_some (u_vhost u) || (cloak_on (u_flags u) && negb (is_empty (u_cloak u))).

Section cloaked_user.
Variables (c : Core) (uid m : Uid) (u : User) (ip host : string).
Hypotheses (Hu : users c !! m = Some u) (Hc : cloaked u = true) (Hm : m ≠ uid).

Lemma cloaked_host : host_display (move_to ip host u) = host_display u.
Proof using Hc.
  unfold cloaked in Hc. unfold host_display, move_to. cbn. destruct (u_vhost u); [done|]. cbn in Hc. by rewrite Hc.
Qed.

Let c' := with_user m (move_to ip host) c.

Lemma moved_same i : i ≠ m → users c' !! i = users c !! i.
Proof. intros. unfold c', with_user. cbn. by rewrite lookup_alter_ne. Qed.

Lemma moved_self : users c' !! m = Some (move_to ip host u).
Proof using Hu. unfold c', with_user. cbn. by rewrite lookup_alter_eq, Hu. Qed.

Lemma row_moved spec row : is_oper c uid = false → who_row c' uid spec row = who_row c uid spec row.
Proof using Hu Hc Hm.
  intros Ho. destruct row as [i [chan pfx]]. unfold who_row, is_oper in *.
  rewrite (moved_same uid) by done. rewrite Ho. destruct (decide (i = m)) as [->|Hi].
  - rewrite moved_self, Hu. cbn [mbind option_bind]. rewrite cloaked_host. destruct spec as [[fields qtype]|]; [|done].
    unfold whox_row. rewrite cloaked_host. by rewrite !(bool_decide_eq_false_2 (m = uid)) by done.
  - by rewrite moved_same.
Qed.

Lemma targets_moved target : who_targets c' uid target = who_targets c uid target.
Proof using Hu Hm.
  assert (∀ name, has_priv c' uid name = has_priv c uid name) as Hp
    by (intros name; unfold has_priv; by rewrite (moved_same uid)).
  unfold who_targets. destruct (starts_with _ _).
  - change (channels c') with (channels c). destruct (channels c !! _) as [ch|]; [|done].
    assert (listed c' uid ch = listed c uid ch) as -> by (unfold listed; by rewrite Hp).
    assert (who_members c' uid ch = who_members c uid ch) as ->; [|done].
    unfold who_members, has_cap. by rewrite (moved_same uid).
  - change (find_nick c') with (find_nick c). destruct (find_nick c target) as [t|]; [|done].
    assert (who_concealed c' uid t = who_concealed c uid t) as ->; [|done].
    unfold who_concealed. rewrite Hp. change (meet c') with (meet c).
    destruct (decide (t = m)) as [->|]; [by rewrite moved_self, Hu|by rewrite moved_same].
Qed.

Lemma userhost_moved nick : userhost_part c' nick = userhost_part c nick.
Proof using Hu Hc.
  unfold userhost_part. change (find_nick c') with (find_nick c). destruct (find_nick c nick) as [t|]; [|done].
  cbn [mbind option_bind]. destruct (decide (t = m)) as [->|]; [|by rewrite moved_same].
  rewrite moved_self, Hu. cbn [mbind option_bind]. by rewrite cloaked_host.
Qed.
End cloaked_user.

(** C17: While a user has a cloak or a virtual host, nobody but an operator and the user
    learns anything of the real address from WHO, WHOX or USERHOST: the replies are the
    same for every address and every real host name. *)
Theorem address_unseen c uid m u ip host :
  users c !! m = Some u → cloaked u = true → m ≠ uid → is_oper c uid = false →
  let c' := with_user m (move_to ip host) c in
  (∀ target spec, omap (who_row c' uid spec) (who_targets c' uid target)
                  = omap (who_row c uid spec) (who_targets c uid target))
  ∧ ∀ nicks : list string, omap (userhost_part c') nicks = omap (userhost_part c) nicks.
Proof.
  intros Hu Hc Hm Ho. split.
  - intros target spec. rewrite (targets_moved c uid m u ip host Hu Hm).
    apply omap_same. intros row. by apply (row_moved c uid m u ip host).
  - intros nicks. apply omap_same. intros nick. by apply (userhost_moved c m u ip host).
Qed.

(** ** The informational commands only answer *)

Lemma numerics_outputs uid rows : Outputs (numerics uid rows).
Proof. intros s. apply for_each_outputs. intros [code text] s'. apply numeric_outputs. Qed.

Lemma answers_fine uid rows s : wf (core s) → fine (ok (numerics uid rows s)).
Proof. intros W. apply fine_ok. by rewrite numerics_outputs. Qed.

Lemma stats_always uid a : always (stats_cmd uid a).
Proof.
  intros s W. unfold stats_cmd. cbn zeta. destruct (_ && _); [apply fine_failed; by rewrite numerics_outputs|].
  by apply answers_fine.
Qed.

Lemma sslinfo_always uid t : always (sslinfo_cmd uid t).
Proof.
  intros s W. unfold sslinfo_cmd. destruct (find_nick _ _) as [i|] eqn:E; [|refused].
  destruct (_ && _); [by apply fine_refuse|]. destruct (find_nick_user _ _ _ W E) as [u ->]. cbn [mbind option_bind].
  apply fine_ok. by rewrite tell_outs.
Qed.

Lemma lusers_always uid : always (lusers_cmd uid).
Proof. intros s W. eapply same_fine, W. apply send_lusers_stable. Qed.

Lemma motd_always uid : always (motd_cmd uid).
Proof. intros s W. apply fine_ok. by rewrite send_motd_outputs. Qed.

End session_facts.
