(* ===== verification/System.v ===== *)
(** * The server as a transition system

    The client commands of the modelled modules as one dispatch function, the
    lifecycle and background events as further steps, and the consistency of the
    tables as an invariant of every reachable state.  The same induction shows
    that no command handler panics. *)

From Stdlib Require Import Ascii.
From S2P Require Import Prelude RustStr Message Glob Clock I18n Channel State Mode UserMode CoreMode Watch Users.
From S2P Require Import Ban Membership CoreChannel Tables ModeTables MembershipTables.
From S2P Require Import Xline JoinFacts LeaveFacts ListFacts UserFacts XlineFacts CoreMessage SpeechFacts.
From S2P Require Import Filter FilterFacts Link LinkServices LinkFacts LinkSafe Handlers.
From S2P Require Import Bcrypt Password OperTypes OperAuth CoreOper OperFacts.
From S2P Require Import Welcome Multiline Registration RegisterFacts CoreUser CoreInfo SessionFacts.

Local Open Scope stdpp_scope.

(** ** Commands *)

(** A command with the parameters the dispatcher guarantees ([min_params]) and
    the optional ones. *)
Inductive OperCmd :=
  | OOper (name pass : string)
  | OChallenge (arg : string)
  | OMkpasswd (algo pass : string)
  | OOpermotd
  | OAlltime
  | OKill (target : string) (why : option string)
  | OSvslogin (target account : string)
  | OSvslogout (target : string)
  | OWallops (text : string)
  | OGlobops (text : string)
  | OSajoin (target chan : string)
  | OSvsjoin (target chan : string)
  | OSapart (target chan : string) (why : option string)
  | OSvspart (target chan : string) (why : option string)
  | OSanick (target newnick : string)
  | OSvsnick (target newnick : string)
  | OSvsmode (target ms : string) (rest : list string)
  | OSamode (target ms : string) (rest : list string)
  | OJupe (mask : string) (rest : list string)
  | OConnect (name : string)
  | OSquit (name : string)
  | ONicklock (target newnick : string)
  | ONickunlock (target : string)
  | OChghost (target host : string)
  | OSethost (host : string)
  | OChgident (target ident : string)
  | OSetident (ident : string)
  | OChgname (target realname : string)
  | OSwhois (target : string) (words : list string)
  | OSetidle (arg : string)
  | OSatopic (chan text : string)
  | OSakick (chan victim : string) (why : option string)
  | OClearchan (chan : string) (why : option string)
  | OSaquit (target : string) (why : option string)
  | OCheck (target : string).

(** The commands that a connection may use before it has registered, and the
    others of [core_user.rs]. *)
Inductive SessionCmd :=
  | SCap (sub : string) (arg : option string)
  | SAuthenticate (arg : string)
  | SVhost (user pass : string)
  | SAway (arg : option string)
  | SSetname (realname : string)
  | SNick (arg : option string)
  | SUser (user realname : string)
  | SPing (token : string)
  | SPong (params : list string)
  | SPass (pass : string)
  | SQuit (arg : option string).

(** The informational commands. *)
Inductive InfoCmd :=
  | IList
  | IWhowas (target : string) (count : option string)
  | IUserhost (nicks : list string)
  | IIson (params : list string)
  | ITime
  | IAdmin
  | IInfo
  | IStats (arg : string)
  | IMap
  | ILinks
  | IWho (target : string) (opts : option string)
  | ISslinfo (target : string)
  | ILusers
  | IMotd.

Inductive Cmd :=
  | COper (cmd : OperCmd)
  | CGlobops (words : list string)
  | CInfo (cmd : InfoCmd)
  | CSession (cmd : SessionCmd)
  | CBatch (tag : string) (rest : list string)
  | CJoin (targets : string) (keys : option string)
  | CPart (targets : string) (reason : option string)
  | CNames (targets : string)
  | CRename (old new : string) (reason : option string)
  | CKick (chan victim : string) (reason : option string)
  | CTopic (target : string) (text : option string)
  | CInvite (nick chan : string)
  | CUninvite (nick chan : string)
  | CKnock (chan : string) (reason : option string)
  | CCycle (chan : string)
  | CRemove (chan victim : string) (why : option string)
  | CTban (chan duration mask : string)
  | CMode (target : string) (params : list string)
  | CWatch (params : list string)
  | CMonitor (sub : string) (arg : option string)
  | CSilence (arg : option string)
  | CSignore (arg : option string)
  | CAccept (params : list string)
  | CXline (kind : XKind) (mask : string) (rest : list string)
  | CRline (pattern : string) (rest : list string)
  | CMessage (notice : bool) (params : list string)
  | CTagmsg (target : string)
  | CFilter (params : list string).

Section system.
Context `{UnicodeLower} `{Outside} `{Crypto}.

(** DIE and RESTART, which end the process, are steps of their own. *)
Definition oper_exec (uid : Uid) (cmd : OperCmd) : Handler :=
  match cmd with
  | OOper n p => oper_cmd uid n p
  | OChallenge a => challenge_cmd uid a
  | OMkpasswd a p => mkpasswd_cmd uid a p
  | OOpermotd => opermotd_cmd uid
  | OAlltime => alltime_cmd uid
  | OKill t w => kill_cmd uid t w
  | OSvslogin t a => svslogin_cmd uid t a
  | OSvslogout t => svslogout_cmd uid t
  | OWallops t => wallops_cmd uid t
  | OGlobops t => globops_cmd uid t
  | OSajoin t c => sajoin_cmd uid t c
  | OSvsjoin t c => svsjoin_cmd uid t c
  | OSapart t c w => sapart_cmd uid t c w
  | OSvspart t c w => svspart_cmd uid t c w
  | OSanick t n => sanick_cmd uid t n
  | OSvsnick t n => svsnick_cmd uid t n
  | OSvsmode t m r => svsmode_cmd uid t m r
  | OSamode t m r => samode_cmd uid t m r
  | OJupe m r => λ s, Some (jupe_cmd uid m r s)
  | OConnect n => connect_cmd uid n
  | OSquit n => squit_cmd uid n
  | ONicklock t n => nicklock_cmd uid t n
  | ONickunlock t => nickunlock_cmd uid t
  | OChghost t h => chghost_cmd uid t h
  | OSethost h => sethost_cmd uid h
  | OChgident t i => chgident_cmd uid t i
  | OSetident i => setident_cmd uid i
  | OChgname t r => chgname_cmd uid t r
  | OSwhois t w => swhois_cmd uid t w
  | OSetidle a => setidle_cmd uid a
  | OSatopic c t => satopic_cmd uid c t
  | OSakick c v w => sakick_cmd uid c v w
  | OClearchan c w => clearchan_cmd uid c w
  | OSaquit t w => saquit_cmd uid t w
  | OCheck t => check_cmd uid t
  end.

Definition session_exec (uid : Uid) (cmd : SessionCmd) : Handler :=
  match cmd with
  | SCap sub a => cap_cmd uid sub a
  | SAuthenticate a => authenticate_cmd uid a
  | SVhost u p => vhost_cmd uid u p
  | SAway a => away_cmd uid a
  | SSetname r => setname_cmd uid r
  | SNick a => nick_cmd uid a
  | SUser u r => user_cmd uid u r
  | SPing t => ping_cmd uid t
  | SPong ps => pong_cmd uid ps
  | SPass p => pass_cmd uid p
  | SQuit a => quit_cmd uid a
  end.

Definition info_exec (uid : Uid) (cmd : InfoCmd) : Handler :=
  match cmd with
  | IList => list_cmd uid
  | IWhowas t n => whowas_cmd uid t n
  | IUserhost ns => userhost_cmd uid ns
  | IIson ps => ison_cmd uid ps
  | ITime => time_cmd uid
  | IAdmin => admin_cmd uid
  | IInfo => info_cmd uid
  | IStats a => stats_cmd uid a
  | IMap => map_cmd uid
  | ILinks => links_cmd uid
  | IWho t o => who_cmd uid t o
  | ISslinfo t => sslinfo_cmd uid t
  | ILusers => lusers_cmd uid
  | IMotd => motd_cmd uid
  end.

(** Whom a command forces into a channel; the tables stay consistent when that
    client has registered. *)
Definition forced_join (cmd : Cmd) : option string :=
  match cmd with
  | COper (OSajoin t _) | COper (OSvsjoin t _) => Some t
  | _ => None
  end.

Definition cmd_ready (c : Core) (cmd : Cmd) : bool :=
  match forced_join cmd ≫= find_nick c with
  | Some i => bool_decide (is_registered c i)
  | None => true
  end.

(** [None] is a panic.  MODE and the list commands read the issuer's record
    only while it is present. *)
Definition exec (uid : Uid) (cmd : Cmd) (s : Server) : option Server :=
  match cmd with
  | COper o => snd <$> oper_exec uid o s
  | CGlobops ws => snd <$> globops_notice uid ws s
  | CInfo o => snd <$> info_exec uid o s
  | CSession o => snd <$> session_exec uid o s
  | CBatch tag rest => Some (batch_cmd uid tag rest s)
  | CJoin t k => snd <$> join_cmd uid t k s
  | CPart t r => snd <$> part_cmd uid t r s
  | CNames t => snd <$> names_cmd uid t s
  | CRename o n r => snd <$> rename_cmd uid o n r s
  | CKick c v r => snd <$> kick_cmd uid c v r s
  | CTopic t x => snd <$> topic_cmd uid t x s
  | CInvite n c => snd <$> invite_cmd uid n c s
  | CUninvite n c => snd <$> uninvite_cmd uid n c s
  | CKnock c r => snd <$> knock_cmd uid c r s
  | CCycle c => snd <$> cycle_cmd uid c s
  | CRemove c v w => snd <$> remove_cmd uid c v w s
  | CTban c d m => snd <$> tban_cmd uid c d m s
  | CMode t ps => Some (snd (apply_mode uid t ps s))
  | CWatch ps => Some (watch_cmd uid ps s)
  | CMonitor sub a => Some (monitor_cmd uid sub a s)
  | CSilence a => Some (snd (silence_cmd uid a s))
  | CSignore a => Some (snd (signore_cmd uid a s))
  | CAccept ps => Some (accept_cmd uid ps s)
  | CXline kind m rest => Some (snd (do_xline uid m rest kind s))
  | CRline pat rest => Some (snd (rline_cmd uid pat rest s))
  | CMessage notice ps => Some (snd (deliver uid ps notice s))
  | CTagmsg t => Some (snd (tagmsg_cmd uid t s))
  | CFilter ps => Some (snd (filter_cmd uid ps s))
  end.

(** ** Every command is safe *)

Lemma tban_safe uid chan dur mask : safe uid (tban_cmd uid chan dur mask).
Proof.
  intros s Hr W. unfold tban_cmd. apply registered_user in Hr as (u & Hu & _).
  case_match; [|refused]. case_match; [refused|].
  case_match; [|apply fine_failed; by frame]. rewrite Hu. cbn [mbind option_bind].
  case_match; [apply fine_failed; by frame|].
  eapply same_fine, W. frame. by apply same_with_chan.
Qed.

Lemma knock_safe uid chan r : safe uid (knock_cmd uid chan r).
Proof.
  intros s Hr W. unfold knock_cmd. apply registered_user in Hr as (u & Hu & _).
  case_match; [|refused]. case_match; [apply fine_failed; by frame|]. rewrite Hu. cbn [mbind option_bind].
  apply fine_ok. by frame.
Qed.

Lemma cycle_safe uid chan : safe uid (cycle_cmd uid chan).
Proof.
  intros s Hr W. unfold cycle_cmd. pose proof Hr as Hr'. apply registered_user in Hr as (u & Hu & Hreg).
  case_match; [refused|]. rewrite Hu. cbn [mbind option_bind]. apply fine_ok.
  apply join_wf.
  - rewrite core_upd. frame. unfold compose. unfold uget.
    change (users (retain_alive ?c)) with (users c).
    unfold drop_member, with_user; cbn. rewrite lookup_alter_eq, Hu. cbn. by rewrite Hreg.
  - rewrite core_upd. frame. by apply part_tables_wf.
Qed.

Lemma remove_safe uid chan v w : safe uid (remove_cmd uid chan v w).
Proof.
  intros s Hr W. unfold remove_cmd. apply registered_user in Hr as (u & Hu & _).
  case_match; [|refused]. case_match; [refused|]. case_match eqn:Hn; [|refused].
  case_match; [refused|]. case_match; [refused|]. rewrite Hu. cbn [mbind option_bind].
  destruct (find_nick_user _ _ _ W Hn) as [t Ht]. rewrite Ht.
  apply fine_ok. rewrite core_upd. frame. by apply part_tables_wf.
Qed.

Lemma same_del_invite tuid k c : same_tables c (del_invite tuid k c).
Proof. etrans; [|by apply same_with_user]. by apply same_with_chan. Qed.

Lemma invite_safe uid n chan : safe uid (invite_cmd uid n chan).
Proof.
  intros s Hr W. unfold invite_cmd. apply registered_user in Hr as (u & Hu & _).
  case_match; [|refused]. case_match; [refused|]. case_match; [refused|]. case_match eqn:Hn.
  - unfold invite_local. case_match; [refused|]. case_match; [apply fine_failed; by frame|]. cbn zeta.
    match goal with |- context [upd (add_invite ?t ?k) s] => set (s1 := upd (add_invite t k) s) end.
    assert (wf (core s1)) as W1 by (eapply wf_proper, W; apply same_add_invite).
    destruct (find_nick_user _ _ _ W Hn) as [t Ht].
    assert (∀ i, is_Some (users (core s) !! i) → is_Some (users (core s1) !! i)) as Hs.
    { intros i Hi. unfold s1, add_invite, with_user; cbn.
      by rewrite lookup_alter_is_Some. }
    destruct (Hs _ (mk_is_Some _ _ Ht)) as [t1 Ht1]. destruct (Hs _ (mk_is_Some _ _ Hu)) as [u1 Hu1].
    rewrite Ht1. cbn [mbind option_bind]. rewrite numeric_outputs, Hu1. cbn [mbind option_bind].
    apply fine_ok. rewrite for_each_outputs; [by frame|].
    intros m s'. case_match; [apply send_outputs|done].
  - unfold invite_remote. case_match; [|refused]. destruct p. rewrite Hu. cbn [mbind option_bind].
    apply fine_ok. by frame.
Qed.

Lemma uninvite_safe uid n chan : safe uid (uninvite_cmd uid n chan).
Proof.
  intros s Hr W. unfold uninvite_cmd. apply registered_user in Hr as (u & Hu & _).
  case_match; [|refused]. case_match; [refused|]. case_match; [refused|]. case_match eqn:Hn; [|refused].
  cbn zeta.
  match goal with |- context [upd (del_invite ?t ?k) s] => set (s1 := upd (del_invite t k) s) end.
  assert (wf (core s1)) as W1 by (eapply wf_proper, W; apply same_del_invite).
  destruct (find_nick_user _ _ _ W Hn) as [t Ht].
  assert (∀ i, is_Some (users (core s) !! i) → is_Some (users (core s1) !! i)) as Hs.
  { intros i Hi. unfold s1, del_invite, with_user; cbn. by rewrite lookup_alter_is_Some. }
  destruct (Hs _ (mk_is_Some _ _ Ht)) as [t1 Ht1]. destruct (Hs _ (mk_is_Some _ _ Hu)) as [u1 Hu1].
  rewrite Ht1, Hu1. cbn [mbind option_bind]. apply fine_ok. case_match; by frame.
Qed.

Lemma topic_safe uid t x : safe uid (topic_cmd uid t x).
Proof.
  intros s Hr W. unfold topic_cmd. apply registered_user in Hr as (u & Hu & _).
  case_match; [|refused]. case_match; [|apply fine_ok; case_match; by frame].
  case_match; [refused|]. case_match; [refused|]. rewrite Hu. cbn [mbind option_bind].
  eapply same_fine, W. rewrite propagate_topic_outputs, to_channel_outputs.
  etrans; [|apply record_event_stable]. by apply with_chan_stable.
Qed.

Lemma kick_safe uid chan v r : safe uid (kick_cmd uid chan v r).
Proof.
  intros s Hr W. unfold kick_cmd. apply registered_user in Hr as (u & Hu & _).
  case_match; [|refused]. case_match; [refused|]. case_match.
  - unfold kick_local. cbn zeta. do 4 (case_match; [refused|]). rewrite Hu. cbn [mbind option_bind].
    apply fine_ok. rewrite core_upd. unfold compose. apply retain_wf, drop_wf.
    eapply wf_proper; [apply note_kick_same|].
    rewrite publish_event_outputs, propagate_kick_outputs, to_channel_outputs.
    eapply wf_proper, W. apply record_event_stable.
  - unfold kick_remote. case_match; [|refused]. destruct p as [vuuid m]. case_match; [refused|].
    case_match; [refused|]. rewrite Hu. cbn [mbind option_bind]. apply fine_ok.
    rewrite core_upd. apply drop_remote_wf.
    rewrite publish_event_outputs, propagate_kick_outputs, to_channel_outputs.
    eapply wf_proper, W. apply record_event_stable.
Qed.

Lemma rename_safe uid o n r : safe uid (rename_cmd uid o n r).
Proof.
  intros s Hr W. unfold rename_cmd. apply registered_user in Hr as (u & Hu & _). cbn zeta.
  case_match; [|refused]. do 2 (case_match; [refused|]).
  do 4 (case_match; [apply fine_failed; by frame|]).
  destruct (if is_oper _ _ then _ else _); [apply fine_failed; by frame|].
  rewrite Hu. cbn [mbind option_bind].
  pose proof (rename_channel_wf (to_ascii_lowercase o) n (user_prefix u) (default "" r) s W) as Wr.
  destruct (rename_channel _ _ _ _ _) as [res s'] eqn:E. cbn in Wr.
  case_match; [|apply fine_failed; by frame]. apply fine_ok.
  by rewrite propagate_rename_outputs, snotice_c_outputs.
Qed.

Lemma names_safe uid t : safe uid (names_cmd uid t).
Proof.
  intros s Hr W. apply fine_ok. rewrite for_each_outputs; [done|]. intros. apply send_names_outputs.
Qed.

Lemma join_safe uid t k : safe uid (join_cmd uid t k).
Proof.
  intros s Hr W. unfold join_cmd. apply fine_ok. cbn zeta.
  generalize (imap pair (nonempty (split "," t))). intros l. revert s Hr W. unfold for_each.
  induction l as [|[i name] l IH]; intros s Hr W; cbn; [done|].
  apply IH; apply join_wf; done.
Qed.

Lemma part_safe uid t r : safe uid (part_cmd uid t r).
Proof.
  intros s Hr W. unfold part_cmd. apply fine_ok.
  apply for_each_keeps; [|done]. intros target s' W'.
  destruct (part uid target (default "" r) s') as [b s1] eqn:E.
  pose proof (part_core uid target (default "" r) s') as Hc. rewrite E in Hc. cbn in Hc.
  assert (wf (core s1)) as W1 by (rewrite Hc; case_match; [by apply left_tables_wf|done]).
  case_match; [done|by frame].
Qed.

Lemma oper_exec_fine uid cmd s :
  is_registered (core s) uid → cmd_ready (core s) (COper cmd) = true → wf (core s) → fine (oper_exec uid cmd s).
Proof.
  intros Hr Hc W.
  assert (∀ t, forced_join (COper cmd) = Some t → ∀ i, find_nick (core s) t = Some i → is_registered (core s) i) as Hj.
  { intros t Ht i Hi. unfold cmd_ready in Hc. rewrite Ht in Hc. cbn [mbind option_bind] in Hc. rewrite Hi in Hc.
    by apply bool_decide_eq_true in Hc. }
  destruct cmd; cbn [oper_exec]; cbn [forced_join] in Hj.
  11-12: by destruct (sajoin_safe uid target chan s Hr (Hj _ eq_refl) W).
  17: by apply fine_pair, jupe_wf.
  all: revert Hr W; clear Hc Hj; revert s.
  - apply oper_safe.
  - apply challenge_safe.
  - apply mkpasswd_safe.
  - apply opermotd_safe.
  - apply alltime_safe.
  - apply kill_safe.
  - apply svslogin_safe.
  - apply svslogout_safe.
  - apply wallops_safe.
  - apply globops_safe.
  - apply sapart_safe.
  - apply svspart_safe.
  - apply sanick_safe.
  - apply svsnick_safe.
  - apply svsmode_safe.
  - apply samode_safe.
  - apply connect_safe.
  - apply squit_safe.
  - apply nicklock_safe.
  - apply nickunlock_safe.
  - apply chghost_safe.
  - apply sethost_safe.
  - apply chgident_safe.
  - apply setident_safe.
  - apply chgname_safe.
  - apply swhois_safe.
  - apply setidle_safe.
  - apply satopic_safe.
  - apply sakick_safe.
  - apply clearchan_safe.
  - apply saquit_safe.
  - apply check_safe.
Qed.

Lemma session_always uid cmd : always (session_exec uid cmd).
Proof.
  destruct cmd; cbn [session_exec];
    [apply cap_always|apply authenticate_always|apply vhost_always|apply away_always|apply setname_always
    |apply nick_always|apply user_always|apply ping_always|apply pong_always|apply pass_always|apply quit_always].
Qed.

Lemma info_always uid cmd : always (info_exec uid cmd).
Proof.
  destruct cmd; cbn [info_exec];
    [| | | | | | |apply stats_always| | | |apply sslinfo_always|apply lusers_always|apply motd_always];
    intros s W; apply fine_ok; try (by rewrite numerics_outputs); by rewrite numeric_outputs.
Qed.

Lemma globops_always uid ws : always (globops_notice uid ws).
Proof.
  intros s W. unfold globops_notice. destruct (negb _); [by apply fine_refuse|]. apply fine_ok.
  by rewrite snotice_c_outputs.
Qed.

Lemma mlines_same s f : same_tables (core s) (core (upd (λ c, c <| mlines ::= f |>) s)).
Proof. by split. Qed.

Lemma batch_wf uid tag rest s : wf (core s) → wf (core (batch_cmd uid tag rest s)).
Proof.
  intros W. assert (∀ f, wf (core (upd (λ c, c <| mlines ::= f |>) s))) as Wf.
  { intros f. eapply wf_proper, W. apply mlines_same. }
  unfold batch_cmd. destruct (strip_prefix "+" tag); [case_bool_decide; [apply Wf|done]|].
  destruct (strip_prefix "-" tag) as [bref|]; [|done]. unfold close_batch.
  destruct (mlines _ !! _) as [mb|]; [|done]. destruct (negb _); [done|]. cbn zeta.
  destruct (mb_overflowed mb); [rewrite fail_reply_outputs; apply Wf|].
  apply for_each_keeps; [|apply Wf]. intros l s'. apply deliver_wf.
Qed.

Lemma exit_cmd_core cmd uid name s r s' : exit_cmd cmd uid name s = inr (r, s') → core s' = core s.
Proof.
  unfold exit_cmd. destruct (require_oper uid s) as [b s1] eqn:E. apply require_oper_core in E.
  destruct b; cbn [negb].
  - destruct (String.eqb _ _); [done|]. intros [= _ <-]. by rewrite numeric_outputs.
  - by intros [= _ <-].
Qed.

(** No command panics, and every command keeps the tables consistent. *)
Lemma exec_fine uid cmd s :
  is_registered (core s) uid → cmd_ready (core s) cmd = true → wf (core s) →
  ∃ s', exec uid cmd s = Some s' ∧ wf (core s').
Proof.
  intros Hr Hc W.
  assert (∀ h : Handler, safe uid h → ∃ s', snd <$> h s = Some s' ∧ wf (core s')) as Hs.
  { intros h Hh. destruct (Hh s Hr W) as (r & s' & -> & W'). by exists s'. }
  destruct cmd; cbn [exec].
  - destruct (oper_exec_fine uid _ s Hr Hc W) as (r & s' & -> & W'). by exists s'.
  - apply Hs, always_safe, globops_always.
  - apply Hs, always_safe, info_always.
  - apply Hs, always_safe, session_always.
  - eexists; split; [done|]. by apply batch_wf.
  - apply Hs, join_safe.
  - apply Hs, part_safe.
  - apply Hs, names_safe.
  - apply Hs, rename_safe.
  - apply Hs, kick_safe.
  - apply Hs, topic_safe.
  - apply Hs, invite_safe.
  - apply Hs, uninvite_safe.
  - apply Hs, knock_safe.
  - apply Hs, cycle_safe.
  - apply Hs, remove_safe.
  - apply Hs, tban_safe.
  - eexists; split; [done|]. by apply apply_mode_wf.
  - eexists; split; [done|]. by apply watch_cmd_keeps.
  - eexists; split; [done|]. by apply monitor_cmd_keeps.
  - eexists; split; [done|]. eapply wf_proper, W. apply silence_cmd_stable.
  - eexists; split; [done|]. eapply wf_proper, W. apply signore_cmd_stable.
  - eexists; split; [done|]. by apply accept_cmd_keeps.
  - eexists; split; [done|]. by apply do_xline_wf.
  - eexists; split; [done|]. by apply rline_cmd_wf.
  - eexists; split; [done|]. by apply deliver_wf.
  - eexists; split; [done|]. by apply tagmsg_wf.
  - eexists; split; [done|]. by apply filter_cmd_wf.
Qed.

(** ** Steps *)

(** The part of [on_tick] that concerns the modelled tables: links that have
    been silent for too long, expired server bans, timed channel bans, flood
    state. *)
Definition tick (now : N) (s : Server) : Server :=
  let s := ping_links (upd (λ c, c <| clock := now |>) s) in
  let s := for_each (dead_links (core s) now) (λ uid, close_link uid "Ping timeout") s in
  purge_flood_state (purge_tbans (purge_xlines s)).

Inductive step : Server → Server → Prop :=
  | step_connect uid ip port secure certfp brand s c' :
      users (core s) !! uid = None → add_conn_tables uid ip port secure certfp brand (core s) = Some c' →
      step s (s <| core := c' |>)
  | step_class uid name s : step s (upd (set_class uid name) s)
  | step_register uid s : step s (upd (register_tables uid) s)
  | step_assign uid s : step s (assign uid s).2
  | step_early uid cmd s r s' : session_exec uid cmd s = Some (r, s') → step s s'
  | step_ident uid name s : step s (ident_result uid name s)
  | step_session uid f s : step s (with_session uid f s)
  | step_admit uid s s' : is_Some (users (core s) !! uid) → final_checks uid s = Some s' → step s s'
  | step_guard s : step s (guard_tick s)
  | step_part uid bref notice text concat s : step s (accumulate uid bref notice text concat s).2
  | step_nick uid nick s : nick_free (core s) uid nick → step s (set_nick uid nick s)
  | step_cmd uid cmd s s' :
      is_registered (core s) uid → cmd_ready (core s) cmd = true → exec uid cmd s = Some s' → step s s'
  | step_svs_chan target ms args s : step s (svs_set_chan_modes target ms args s).2
  | step_svs_user tuid ms s : step s (svs_set_user_modes tuid ms s)
  | step_force_part uid chan reason s s' : force_part uid chan reason s = Some s' → step s s'
  | step_flood_hit uid k s : step s (messageflood_hit uid k s).2
  | step_nickflood uid s : step s (nickflood_blocked uid s).2
  | step_flood_kick uid k ban s : step s (flood_kick uid k ban s)
  | step_rehash s : step s (upd rebuild s)
  | step_quit uid reason s : step s (remove_user uid reason s)
  | step_tick now s : step s (tick now s)
  | step_load rows text s : step s (load_xlines rows text s)
  | step_add_link uid ip outbound s : step s (add_link uid ip outbound s)
  | step_link uid msg s s' :
      is_Some (links (core s) !! uid) → link_ok (core s) msg → on_link uid msg s = Some s' → step s s'
  | step_close_link uid reason s : step s (close_link uid reason s)
  | step_filter uid text s : step s (filter_pre_message uid text s).2
  | step_job n s :
      (∀ j uid, jobs (io s) !! n = Some j → job_asker j = Some uid → not_pending (core s) uid) →
      step s (job_done n s)
  | step_no_exit cmd uid name s r s' : exit_cmd cmd uid name s = inr (r, s') → step s s'
  | step_line_tags tags s : step s (upd (λ c, c <| line_ctags := tags |>) s).

(** The state [Server::new] builds: names and clock, the configuration, the
    message catalog, the prefix table, the censor rules and the link blocks; every
    other table is empty. *)
Definition boot (name sid : string) (now : N) (conf : gmap string (list string))
    (cat : Catalog) (pfx : option PrefixCfg) (censor : list (string * string))
    (blocks : list LinkBlock) (opers : list OperBlock) (desc sasl network : string)
    (motd : list string) : Server :=
  mkServer
    (mkCore name sid now ∅ ∅ ∅ ∅ ∅ ∅ ∅ [] [] false false 0 conf cat pfx ∅ ∅ ∅ ∅ ∅ ∅ sasl blocks opers desc (mkFilters [] None []) ∅ ∅ ∅ 0 false 0 0
       "" censor ∅ network motd 0 0 now)
    (mkIO ∅ ∅ None 0 [] [] [] ∅ ∅ []).

Inductive reachable : Server → Prop :=
  | reach_boot name sid now conf cat pfx censor blocks opers desc sasl network motd :
      reachable (boot name sid now conf cat pfx censor blocks opers desc sasl network motd)
  | reach_step s s' : reachable s → step s s' → reachable s'.

Lemma boot_wf name sid now conf cat pfx censor blocks opers desc sasl network motd :
  wf (core (boot name sid now conf cat pfx censor blocks opers desc sasl network motd)).
Proof.
  split; try done.
  - intros uid k. split; [by intros (? & ? & _)|by intros (? & ? & _)].
  - intros n uid. cbn. split; [done|]. by intros (? & ? & _).
  - split; [|done]. intros n uid. cbn. split; [by intros (? & ? & _)|by intros (? & ? & _)].
  - split; [|done]. intros n uid. cbn. split; [by intros (? & ? & _)|by intros (? & ? & _)].
Qed.

#[export] Instance lift_tban_stable e : StableTables (lift_tban e).
Proof.
  intros s. destruct e as [[k name] mask]. unfold lift_tban. frame. by apply same_with_chan.
Qed.

Lemma tick_wf now s : wf (core s) → wf (core (tick now s)).
Proof.
  intros W. unfold tick. cbn zeta. set (s0 := ping_links _). set (s1 := for_each _ _ s0).
  assert (wf (core s1)) as W1.
  { apply for_each_keeps; [intros uid s'; apply close_link_wf|].
    unfold s0. rewrite ping_links_outputs. eapply wf_proper, W. by split. }
  apply purge_xlines_wf in W1. assert (wf (core (purge_tbans (purge_xlines s1)))) as W2.
  { eapply wf_proper, W1. unfold purge_tbans. apply for_each_stable. apply _. }
  eapply wf_proper, W2. split; try done. intros k. unfold cget; cbn. rewrite lookup_fmap.
  by destruct (channels _ !! k).
Qed.

Lemma rebuild_id c : wf c → rebuild c = c.
Proof.
  intros W. destruct (wf_count _ W) as (C1 & C2 & C3). unfold rebuild.
  change (λ u, Some (u_ip u)) with ip_key.
  rewrite (counts_unique ip_key _ _ c (recount_counts ip_key c) C1).
  rewrite (counts_unique u_class _ _ c (recount_counts u_class c) C2).
  rewrite (counts_unique ip_class_key _ _ c (recount_counts ip_class_key c) C3). by destruct c.
Qed.

Lemma step_wf s s' : step s s' → wf (core s) → wf (core s').
Proof.
  destruct 1 as [uid ip port secure certfp brand s c' Hu Ha| | | |uid cmd s r s' He| | |uid s s' Hu Ha| | |uid nick s Hf|uid cmd s s' Hr Hc He| | |
    uid chan reason s s' Hp| | | |s| | | | |uid msg s s' Hl Hok He| | |n s Hj|cmd uid name s r s' He| ]; intros W.
  - by eapply add_conn_wf.
  - by apply set_class_wf.
  - by apply register_wf.
  - by apply assign_wf.
  - destruct (session_always uid cmd s W) as (r2 & s2 & E & W2). congruence.
  - eapply wf_proper, W. etrans; [|apply with_session_stable].
    destruct name; unfold notice_star; by rewrite send_outputs.
  - eapply wf_proper, W. apply with_session_stable.
  - destruct (admit_fine uid s Hu W) as (s2 & E & W2). congruence.
  - eapply wf_proper, W. by apply guard_tick_same.
  - unfold accumulate. destruct (mlines _ !! _); [|done]. destruct (String.eqb _ _); [|done].
    eapply wf_proper, W. apply mlines_same.
  - by apply set_nick_wf.
  - destruct (exec_fine uid cmd s Hr Hc W) as (s2 & E & W2). congruence.
  - eapply wf_proper, W. apply svs_set_chan_modes_stable.
  - eapply wf_proper, W. apply svs_set_user_modes_stable.
  - rewrite (force_part_core _ _ _ _ _ Hp). case_match; [by apply left_tables_wf|done].
  - eapply wf_proper, W. apply messageflood_same.
  - eapply wf_proper, W. apply nickflood_same.
  - by apply flood_kick_wf.
  - rewrite core_upd. by rewrite rebuild_id.
  - by apply remove_user_wf.
  - by apply tick_wf.
  - by apply load_xlines_wf.
  - by apply add_link_wf.
  - destruct (on_link_safe uid msg s Hl Hok W) as (s2 & E & W2). congruence.
  - by apply close_link_wf.
  - by apply filter_pre_message_wf.
  - by apply job_done_wf.
  - by rewrite (exit_cmd_core _ _ _ _ _ _ He).
  - eapply wf_proper, W. by split.
Qed.

Lemma reachable_wf s : reachable s → wf (core s).
Proof. induction 1 as [|s s' _ IH Hs]; [apply boot_wf|by eapply step_wf]. Qed.

End system.

(** ** A concrete run

    Two users connect, register and take nicks; alice creates [#c] and bob
    joins it, watching and accepting alice. *)

Section demo.
#[local] Existing Instance ascii_only.
#[local] Existing Instance bare_outside.
#[local] Existing Instance bare_crypto.

Definition connect (uid : Uid) (ip : string) (s : Server) : Server :=
  match add_conn_tables uid ip 6667 false None (None, None) (core s) with
  | Some c => s <| core := c |>
  | None => s
  end.

Definition run (uid : Uid) (cmd : Cmd) (s : Server) : Server := default s (exec uid cmd s).

Definition demo_boot : Server := boot "irc.test" "0AA" 1000 ∅ ∅ None [] [] [] "" "" "" [].
Definition demo_alice : Server :=
  set_nick 1 "Alice" (upd (register_tables 1) (upd (set_class 1 "main") (connect 1 "10.0.0.1" demo_boot))).
Definition demo_bob : Server :=
  set_nick 2 "bob" (upd (register_tables 2) (connect 2 "10.0.0.2" demo_alice)).
Definition demo : Server :=
  run 2 (CWatch ["+alice"]) (run 2 (CAccept ["alice"])
    (run 2 (CJoin "#c" None) (run 1 (CJoin "#C" None) demo_bob))).

Lemma reach_cmd uid cmd s :
  reachable s →
  (bool_decide (is_registered (core s) uid) && cmd_ready (core s) cmd && is_some (exec uid cmd s)) = true →
  reachable (run uid cmd s).
Proof.
  intros Hr [[Hb Hc]%andb_true_iff Hs]%andb_true_iff. apply bool_decide_eq_true in Hb.
  eapply reach_step; [exact Hr|]. apply (step_cmd uid cmd); [exact Hb|exact Hc|]. unfold run. revert Hs.
  by destruct (exec uid cmd s).
Qed.

Lemma reach_conn uid ip s :
  reachable s → is_some (users (core s) !! uid) = false → reachable (connect uid ip s).
Proof.
  intros Hr Hn. unfold connect. destruct (add_conn_tables _ _ _ _ _ _ _) as [c|] eqn:E; [|done].
  eapply reach_step; [exact Hr|]. eapply step_connect, E. revert Hn.
  by destruct (users (core s) !! uid).
Qed.

Lemma reach_nick uid nick s :
  reachable s → is_empty nick = false → find_nick (core s) nick = None → reachable (set_nick uid nick s).
Proof.
  intros Hr Hn Hf. eapply reach_step; [exact Hr|]. apply step_nick. split; [by destruct nick|].
  by rewrite Hf.
Qed.

Lemma demo_reachable : reachable demo.
Proof.
  unfold demo. do 4 (apply reach_cmd; [|vm_compute; reflexivity]).
  unfold demo_bob, demo_alice.
  apply reach_nick; [|done|vm_compute; reflexivity].
  eapply reach_step; [|apply step_register]. apply reach_conn; [|vm_compute; reflexivity].
  apply reach_nick; [|done|vm_compute; reflexivity].
  eapply reach_step; [|apply step_register]. eapply reach_step; [|apply step_class].
  apply reach_conn; [|vm_compute; reflexivity]. apply reach_boot.
Qed.
End demo.
