(* ===== verification/Dispatch.v ===== *)
(** * The dispatcher: [src/src/ircd.rs]

    A line a client sends is parsed, held back while names are looked up,
    captured when its reply is to be labelled, and dispatched: the gates in front
    of a handler, the handler, and what follows it.  The modules are the
    interface of [src/src/module.rs]; the command registry is a table.  The
    counters of the metrics page are left out. *)

From Stdlib Require Import Ascii.
From S2P Require Import Prelude RustStr Message Glob Clock I18n Channel Numeric State Mode UserMode CoreMode Ban.
From S2P Require Import Watch Users Membership Account Filter Xline CoreChannel CoreMessage Multiline Password.
From S2P Require Import Welcome Registration CoreUser System.

Local Open Scope stdpp_scope.

(** ** The module interface *)

(** The hooks of the [Module] trait that a client's line can reach.  A module
    has a state of its own and may act on the server. *)
Class ModuleApi (M : Type) := {
  on_user_register : Uid → M → Server → ModResult * M * Server;
  on_pre_command : Uid → string → list string → M → Server → ModResult * M * Server;
  on_pre_message : Uid → string → string → M → Server → ModResult * M * Server;
  on_post_command : Uid → string → M → Server → M * Server;
  on_user_quit : Uid → string → M → Server → M * Server;
}.

(** ** The command interface *)

(** A command handler of the registry; [None] is a panic. *)
Record Command := mkCommand {
  min_params : nat; before_reg : bool; handle : Uid → list string → Server → option Server }.

Record Ircd (M : Type) := mkIrcd { server : Server; modules : list M; registry : gmap string Command }.
Arguments mkIrcd {_} _ _ _.
Arguments server {_} _.
Arguments modules {_} _.
Arguments registry {_} _.

#[export] Instance eta_Ircd M : Eta (Ircd M) := λ i, mkIrcd (server i) (modules i) (registry i).

(** ** Words of the configuration *)

(** [split_once(char::is_whitespace)]. *)
Fixpoint split_ws (acc : string) (cs : list string) : option (string * string) :=
  match cs with
  | [] => None
  | ch :: r => if is_whitespace ch then Some (acc, str_concat r) else split_ws (acc +:+ ch) r
  end.

Definition showfile_path (c : Core) (cmd : string) : option string :=
  head (omap (λ line, '(name, path) ← split_ws "" (chars line);
                      if eq_ignore_ascii_case name cmd then Some (trim path) else None) (conf_all c "showfile")).

Definition SHOWFILE_MAX : N := 262144.

Definition alias_target (c : Core) (cmd : string) : option string :=
  head (omap (λ line, match split_whitespace line with
                      | n :: t :: _ => if eq_ignore_ascii_case n cmd then Some t else None
                      | _ => None
                      end) (conf_all c "alias")).

(** ** Labelled replies *)

Definition with_extra_tag (line tag : string) : string :=
  match strip_prefix "@" line with
  | Some rest =>
      match split_once " " rest with
      | Some (tags, body) => "@" +:+ tags +:+ ";" +:+ tag +:+ " " +:+ body
      | None => "@" +:+ rest +:+ ";" +:+ tag
      end
  | None => "@" +:+ tag +:+ " " +:+ line
  end.

Definition emit_labeled (uid : Uid) (lab : string) (lines : list string) (s : Server) : Server :=
  let name := s_name (core s) in
  match lines with
  | [] => send uid ("@label=" +:+ lab +:+ " :" +:+ name +:+ " ACK") s
  | [l] => send uid (with_extra_tag l ("label=" +:+ lab)) s
  | _ =>
      let '(msgid, s) := next_msgid s in
      let bref := remove_dash msgid in
      let s := send uid ("@label=" +:+ lab +:+ " :" +:+ name +:+ " BATCH +" +:+ bref +:+ " labeled-response") s in
      let s := for_each lines (λ l, send uid (with_extra_tag l ("batch=" +:+ bref))) s in
      send uid (":" +:+ name +:+ " BATCH -" +:+ bref) s
  end.

Definition set_capture (x : option (Uid * list string)) (s : Server) : Server :=
  s <| io ::= (λ i, i <| label_capture := x |>) |>.

(** ** The gates *)

Definition is_speech (cmd : string) : bool := String.eqb cmd "PRIVMSG" || String.eqb cmd "NOTICE".
Definition shun_exempt (cmd : string) : bool := existsb (String.eqb cmd) ["PING"; "PONG"; "QUIT"].

(** Abbreviated commands. *)
Definition resolve (c : Core) (reg : gmap string Command) (registered : bool) (typed : string) : string :=
  if is_some (reg !! typed) || negb (registered && conf_bool c "abbreviation" false) then typed
  else match filter (λ k, starts_with typed k = true) (map fst (map_to_list reg)) with
       | [full] => full
       | _ => typed
       end.

Definition take_quit (uid : Uid) (s : Server) : option string * Server :=
  (session (core s) uid ≫= ss_quitting, with_session uid (λ ss, ss <| ss_quitting := None |>) s).

Section dispatch.
Context `{UnicodeLower} `{Outside} `{Crypto} {M : Type} `{ModuleApi M}.

(** Ask each module in turn until one gives an answer that [stop]s. *)
Fixpoint ask (stop : ModResult → bool) (hook : M → Server → ModResult * M * Server) (ms : list M) (s : Server)
    : option ModResult * list M * Server :=
  match ms with
  | [] => (None, [], s)
  | m :: rest =>
      let '(r, m, s) := hook m s in
      if stop r then (Some r, m :: rest, s)
      else let '(v, rest, s) := ask stop hook rest s in (v, m :: rest, s)
  end.

Fixpoint tell_all (hook : M → Server → M * Server) (ms : list M) (s : Server) : list M * Server :=
  match ms with
  | [] => ([], s)
  | m :: rest =>
      let '(m, s) := hook m s in
      let '(rest, s) := tell_all hook rest s in (m :: rest, s)
  end.

Definition is_deny (r : ModResult) : bool := bool_decide (r = Deny).
Definition ends_registration (r : ModResult) : bool := bool_decide (r = Deny) || bool_decide (r = Hold).

(** [showfile::maybe_show]. *)
Definition maybe_show (uid : Uid) (cmd : string) (s : Server) : bool * Server :=
  match showfile_path (core s) cmd with
  | None => (false, s)
  | Some path =>
      let nick := map_or "" u_nick (users (core s) !! uid) in
      (true, match read_text SHOWFILE_MAX path with
             | Some body => for_each (lines body) (λ l, tell uid nick l) s
             | None => tell uid nick ("*** " +:+ trf (core s) "{0}: file not available." [cmd]) s
             end)
  end.

(** A command nobody registered. *)
Definition unknown_command (uid : Uid) (cmd : string) (ps : list string) (registered : bool) (s : Server) : Server :=
  if negb registered then s
  else
    let '(shown, s) := maybe_show uid cmd s in
    if shown then s
    else match alias_target (core s) cmd with
    | Some target =>
        match ps with
        | [] => s
        | _ => (deliver uid [target; str_join " " ps] false s).2
        end
    | None => numeric uid ERR_UNKNOWNCOMMAND (cmd +:+ " :Unknown command") s
    end.

(** ** Registering and leaving *)

Definition quit_user (uid : Uid) (reason : string) (i : Ircd M) : Ircd M :=
  match users (core (server i)) !! uid with
  | None => i
  | Some _ =>
      let '(ms, s) := tell_all (on_user_quit uid reason) (modules i) (server i) in
      mkIrcd (remove_user uid reason s) ms (registry i)
  end.

Definition complete_registration (uid : Uid) (i : Ircd M) : option (Ircd M) :=
  let '(v, ms, s) := ask ends_registration (on_user_register uid) (modules i) (server i) in
  match v with
  | Some Deny =>
      let s := send uid ("ERROR :" +:+ trf (core s) "Closing link (registration refused)" []) s in
      Some (mkIrcd (remove_user uid "Registration refused" s) ms (registry i))
  | Some _ => Some (mkIrcd s ms (registry i))
  | None => s ← final_checks uid s; Some (mkIrcd s ms (registry i))
  end.

Definition try_register (uid : Uid) (i : Ircd M) : option (Ircd M) :=
  if ready (core (server i)) uid then complete_registration uid i else Some i.

(** ** One command *)

(** What follows a handler: the modules are told, then the connection leaves or
    finishes its registration. *)
Definition after_command (uid : Uid) (cmd : string) (registered : bool) (i : Ircd M) : option (Ircd M) :=
  let '(ms, s) := tell_all (on_post_command uid cmd) (modules i) (server i) in
  let '(q, s) := take_quit uid s in
  let i := mkIrcd s ms (registry i) in
  match q with
  | Some reason => Some (quit_user uid reason i)
  | None => if registered then Some i else try_register uid i
  end.

(** The registry, once no gate has stopped the command. *)
Definition run_command (uid : Uid) (cmd : string) (ps : list string) (registered : bool) (i : Ircd M)
    : option (Ircd M) :=
  match registry i !! cmd with
  | None => Some (i <| server ::= unknown_command uid cmd ps registered |>)
  | Some h =>
      if negb registered && negb (before_reg h) then
        Some (i <| server ::= numeric uid ERR_NOTREGISTERED ":You have not registered" |>)
      else if length ps <? min_params h then
        Some (i <| server ::= numeric uid ERR_NEEDMOREPARAMS (cmd +:+ " :Not enough parameters") |>)
      else s ← handle h uid ps (server i); after_command uid cmd registered (i <| server := s |>)
  end.

(** The modules have their say before the registry is looked at. *)
Definition past_gates (uid : Uid) (cmd : string) (ps : list string) (registered : bool) (i : Ircd M) : option (Ircd M) :=
  let '(v, ms, s) := ask is_deny (on_pre_command uid cmd ps) (modules i) (server i) in
  let i := mkIrcd s ms (registry i) in
  match v with
  | Some _ => Some i
  | None =>
      match is_speech cmd, ps with
      | true, target :: text :: _ =>
          let '(v, ms, s) := ask is_deny (on_pre_message uid target text) (modules i) (server i) in
          let i := mkIrcd s ms (registry i) in
          match v with Some _ => Some i | None => run_command uid cmd ps registered i end
      | _, _ => run_command uid cmd ps registered i
      end
  end.

(** A line of an open batch is put aside. *)
Definition put_aside (uid : Uid) (cmd : string) (msg : Message) (s : Server) : bool * Server :=
  match batch msg, is_speech cmd, params msg with
  | Some bref, true, _ :: text :: _ => accumulate uid bref (String.eqb cmd "NOTICE") text (concat msg) s
  | _, _, _ => (false, s)
  end.

Definition dispatch (uid : Uid) (msg : Message) (registered : bool) (i : Ircd M) : option (Ircd M) :=
  let cmd := resolve (core (server i)) (registry i) registered (command msg) in
  if registered && negb (shun_exempt cmd) && user_shunned (core (server i)) uid then Some i
  else
    let '(consumed, s) := put_aside uid cmd msg (server i) in
    let i := i <| server := s |> in
    if consumed then Some i else past_gates uid cmd (params msg) registered i.

(** ** One line *)

Definition heard (uid : Uid) (msg : Message) (s : Server) : Server :=
  let s := upd (λ c, c <| line_ctags := ctags msg |>) s in
  with_session uid (λ ss, ss <| ss_last_active := clock (core s) |> <| ss_ping_sent := false |>) s.

Definition labelled (uid : Uid) (lab : string) (msg : Message) (registered : bool) (i : Ircd M) : option (Ircd M) :=
  let i := i <| server ::= set_capture (Some (uid, [])) |> in
  i ← dispatch uid msg registered i;
  let lines := map_or [] snd (label_capture (io (server i))) in
  Some (i <| server ::= (λ s, emit_labeled uid lab lines (set_capture None s)) |>).

Definition on_line (uid : Uid) (line : string) (i : Ircd M) : option (Ircd M) :=
  match parse line with
  | None => Some i
  | Some msg =>
      let s := heard uid msg (server i) in
      let registered := is_reg (core s) uid in
      let '(held, s) := if registered then (false, s) else defer_if_resolving uid line s in
      let i := i <| server := s |> in
      if held then Some i
      else match opt_filter (λ _, has_cap (core s) uid "labeled-response") (label msg) with
           | Some lab => labelled uid lab msg registered i
           | None => dispatch uid msg registered i
           end
  end.

(** ** Other events of a client *)

Definition line_too_long (uid : Uid) (i : Ircd M) : Ircd M :=
  match links (core (server i)) !! uid with
  | Some _ => i
  | None => i <| server ::= numeric uid ERR_INPUTTOOLONG ":Input line was too long" |>
  end.

(** The replay of the lines held back, once the names are known. *)
Fixpoint replay (uid : Uid) (ls : list string) (i : Ircd M) : option (Ircd M) :=
  match ls with
  | [] => Some i
  | l :: rest =>
      match users (core (server i)) !! uid with
      | None => Some i
      | Some _ => i ← on_line uid l i; replay uid rest i
      end
  end.

Definition after_resolving (uid : Uid) (i : Ircd M) : option (Ircd M) :=
  let '(ls, s) := take_deferred uid (server i) in
  i ← replay uid ls (i <| server := s |>);
  try_register uid i.

Definition ident_event (uid : Uid) (name : option string) (i : Ircd M) : option (Ircd M) :=
  try_register uid (i <| server ::= ident_result uid name |>).

(** The idle connections of a tick. *)
Definition poke (uid : Uid) (s : Server) : Server :=
  with_session uid (λ ss, ss <| ss_ping_sent := true |>) (send uid ("PING :" +:+ s_name (core s)) s).

Definition reap_one (uid : Uid) (i : Ircd M) : Ircd M :=
  let s := server i in
  let reason := if is_reg (core s) uid then "Ping timeout" else "Registration timeout" in
  quit_user uid reason (i <| server := send uid (closing (core s) reason) s |>).

Definition reap (now : N) (i : Ircd M) : Ircd M :=
  let '(to_ping, to_quit) := idle_check now (core (server i)) in
  foldl (λ i uid, reap_one uid i) (i <| server ::= for_each to_ping poke |>) to_quit.

End dispatch.
