(* ===== verification/Registry.v ===== *)
(** * The command registry: [src/src/coremods/mod.rs]

    The modelled commands under the names, with the least number of parameters
    and the registration gate their sources give them, and how each takes its
    parameters apart. *)

From Stdlib Require Import Ascii.
From S2P Require Import Prelude RustStr Message Glob Clock I18n Channel Numeric State Mode UserMode CoreMode Ban.
From S2P Require Import Watch Users Membership Account Filter Xline CoreChannel CoreMessage Multiline Password.
From S2P Require Import OperTypes OperAuth CoreOper Welcome Registration CoreUser CoreInfo System Dispatch.

Local Open Scope stdpp_scope.

(** ** Taking parameters apart

    [None] stands for the panic of an index out of range. *)

Definition Decoder (A : Type) : Type := list string → option A.

Section decoders.
Context {A : Type}.
Implicit Types ps : list string.

Definition nothing (f : A) : Decoder A := λ _, Some f.
Definition every (f : list string → A) : Decoder A := λ ps, Some (f ps).
Definition opt0 (f : option string → A) : Decoder A := λ ps, Some (f (ps !! 0)).
Definition one (f : string → A) : Decoder A := λ ps, f <$> ps !! 0.
Definition one_opt (f : string → option string → A) : Decoder A := λ ps, a ← ps !! 0; Some (f a (ps !! 1)).
Definition one_rest (f : string → list string → A) : Decoder A := λ ps, a ← ps !! 0; Some (f a (drop 1 ps)).
Definition two (f : string → string → A) : Decoder A := λ ps, a ← ps !! 0; b ← ps !! 1; Some (f a b).
Definition two_opt (f : string → string → option string → A) : Decoder A :=
  λ ps, a ← ps !! 0; b ← ps !! 1; Some (f a b (ps !! 2)).
Definition two_rest (f : string → string → list string → A) : Decoder A :=
  λ ps, a ← ps !! 0; b ← ps !! 1; Some (f a b (drop 2 ps)).
Definition three (f : string → string → string → A) : Decoder A :=
  λ ps, a ← ps !! 0; b ← ps !! 1; c ← ps !! 2; Some (f a b c).
Definition first_fourth (f : string → string → A) : Decoder A := λ ps, a ← ps !! 0; b ← ps !! 3; Some (f a b).

End decoders.

Definition as_oper (d : Decoder OperCmd) : Decoder Cmd := λ ps, COper <$> d ps.
Definition as_info (d : Decoder InfoCmd) : Decoder Cmd := λ ps, CInfo <$> d ps.
Definition as_session (d : Decoder SessionCmd) : Decoder Cmd := λ ps, CSession <$> d ps.

(** An entry before it is bound to its handler. *)
Record Entry := entry { e_min : nat; e_early : bool; e_decode : Decoder Cmd }.

(** ** The commands of each module *)

(** [core_user.rs], without WEBIRC. *)
Definition user_commands : list (string * Entry) :=
  [ ("VHOST", entry 2 false (as_session (two SVhost))); ("AWAY", entry 0 true (as_session (opt0 SAway)));
    ("CAP", entry 1 true (as_session (one_opt SCap)));
    ("AUTHENTICATE", entry 1 true (as_session (one SAuthenticate)));
    ("SETNAME", entry 1 false (as_session (one SSetname))); ("NICK", entry 0 true (as_session (opt0 SNick)));
    ("USER", entry 4 true (as_session (first_fourth SUser))); ("PING", entry 1 true (as_session (one SPing)));
    ("PONG", entry 0 true (as_session (every SPong))); ("PASS", entry 1 true (as_session (one SPass)));
    ("QUIT", entry 0 true (as_session (opt0 SQuit))) ].

(** [core_channel.rs]. *)
Definition channel_commands : list (string * Entry) :=
  [ ("TBAN", entry 3 false (three CTban)); ("KNOCK", entry 1 false (one_opt CKnock));
    ("CYCLE", entry 1 false (one CCycle)); ("REMOVE", entry 2 false (two_opt CRemove));
    ("INVITE", entry 2 false (two CInvite)); ("UNINVITE", entry 2 false (two CUninvite));
    ("JOIN", entry 1 false (one_opt CJoin)); ("PART", entry 1 false (one_opt CPart));
    ("RENAME", entry 2 false (two_opt CRename)); ("KICK", entry 2 false (two_opt CKick));
    ("TOPIC", entry 1 false (one_opt CTopic)); ("NAMES", entry 1 false (one CNames)) ].

(** [core_message.rs]. *)
Definition message_commands : list (string * Entry) :=
  [ ("PRIVMSG", entry 0 false (every (CMessage false))); ("NOTICE", entry 0 false (every (CMessage true)));
    ("TAGMSG", entry 1 false (one CTagmsg)) ].

(** [core_mode.rs]. *)
Definition mode_commands : list (string * Entry) :=
  [ ("MODE", entry 1 false (one_rest CMode)) ].

(** [core_oper.rs], without DIE and RESTART, which end the process. *)
Definition oper_commands : list (string * Entry) :=
  [ ("OPERMOTD", entry 0 false (as_oper (nothing OOpermotd))); ("OPER", entry 2 false (as_oper (two OOper)));
    ("CHALLENGE", entry 1 false (as_oper (one OChallenge))); ("KILL", entry 1 false (as_oper (one_opt OKill)));
    ("SVSLOGIN", entry 2 false (as_oper (two OSvslogin)));
    ("SVSLOGOUT", entry 1 false (as_oper (one OSvslogout)));
    ("WALLOPS", entry 1 false (as_oper (one OWallops))); ("GLOBOPS", entry 1 false (as_oper (one OGlobops)));
    ("SAJOIN", entry 2 false (as_oper (two OSajoin))); ("SAPART", entry 2 false (as_oper (two_opt OSapart)));
    ("SANICK", entry 2 false (as_oper (two OSanick))); ("SVSNICK", entry 2 false (as_oper (two OSvsnick)));
    ("SVSJOIN", entry 2 false (as_oper (two OSvsjoin)));
    ("SVSPART", entry 2 false (as_oper (two_opt OSvspart)));
    ("SVSMODE", entry 2 false (as_oper (two_rest OSvsmode))); ("JUPE", entry 1 false (as_oper (one_rest OJupe)));
    ("KLINE", entry 1 false (one_rest (CXline Kline))); ("GLINE", entry 1 false (one_rest (CXline Gline)));
    ("ZLINE", entry 1 false (one_rest (CXline Zline))); ("ELINE", entry 1 false (one_rest (CXline Eline)));
    ("SHUN", entry 1 false (one_rest (CXline Shun))); ("QLINE", entry 1 false (one_rest (CXline Qline)));
    ("CBAN", entry 1 false (one_rest (CXline Cban)));
    ("RLINE", entry 1 false (one_rest CRline));
    ("NICKLOCK", entry 2 false (as_oper (two ONicklock)));
    ("NICKUNLOCK", entry 1 false (as_oper (one ONickunlock)));
    ("CONNECT", entry 1 false (as_oper (one OConnect))); ("SQUIT", entry 1 false (as_oper (one OSquit)));
    ("CHGHOST", entry 2 false (as_oper (two OChghost))); ("SETHOST", entry 1 false (as_oper (one OSethost)));
    ("CHGIDENT", entry 2 false (as_oper (two OChgident)));
    ("SETIDENT", entry 1 false (as_oper (one OSetident)));
    ("SAMODE", entry 2 false (as_oper (two_rest OSamode))); ("SATOPIC", entry 2 false (as_oper (two OSatopic)));
    ("SAKICK", entry 2 false (as_oper (two_opt OSakick)));
    ("SAQUIT", entry 1 false (as_oper (one_opt OSaquit))); ("CHGNAME", entry 2 false (as_oper (two OChgname)));
    ("CLEARCHAN", entry 1 false (as_oper (one_opt OClearchan)));
    ("CHECK", entry 1 false (as_oper (one OCheck))); ("SWHOIS", entry 2 false (as_oper (one_rest OSwhois)));
    ("SETIDLE", entry 1 false (as_oper (one OSetidle))); ("ALLTIME", entry 0 false (as_oper (nothing OAlltime))) ].

(** [core_info.rs], without WHOIS and VERSION. *)
Definition info_commands : list (string * Entry) :=
  [ ("WHO", entry 1 false (as_info (one_opt IWho))); ("LUSERS", entry 0 false (as_info (nothing ILusers)));
    ("MOTD", entry 0 false (as_info (nothing IMotd))); ("LINKS", entry 0 false (as_info (nothing ILinks)));
    ("SSLINFO", entry 1 false (as_info (one ISslinfo))) ].

(** [core_extra.rs], without HELP and MODULES. *)
Definition extra_commands : list (string * Entry) :=
  [ ("LIST", entry 0 false (as_info (nothing IList))); ("WHOWAS", entry 1 false (as_info (one_opt IWhowas)));
    ("USERHOST", entry 1 false (as_info (every IUserhost))); ("ISON", entry 1 false (as_info (every IIson)));
    ("TIME", entry 0 false (as_info (nothing ITime))); ("ADMIN", entry 0 false (as_info (nothing IAdmin)));
    ("INFO", entry 0 false (as_info (nothing IInfo))); ("STATS", entry 1 false (as_info (one IStats)));
    ("MAP", entry 0 false (as_info (nothing IMap))) ].

(** [core_watch.rs]. *)
Definition watch_commands : list (string * Entry) :=
  [ ("WATCH", entry 0 false (every CWatch)); ("MONITOR", entry 1 false (one_opt CMonitor));
    ("SILENCE", entry 0 false (opt0 CSilence)); ("SIGNORE", entry 0 false (opt0 CSignore));
    ("ACCEPT", entry 0 false (every CAccept)) ].

(** Commands of modules, in the order they are chained. *)
Definition module_commands : list (string * Entry) :=
  [ ("FILTER", entry 0 false (every CFilter)); ("MKPASSWD", entry 2 false (two (λ a b, COper (OMkpasswd a b))));
    ("BATCH", entry 1 false (one_rest CBatch)); ("GLOBOPS", entry 1 false (every CGlobops));
    ("ALINE", entry 1 false (one_rest (CXline Aline))); ("GALINE", entry 1 false (one_rest (CXline Galine))) ].

(** [command_table]: the modules are inserted in this order, and a later name
    takes the place of an earlier one. *)
Definition entries : list (string * Entry) :=
  user_commands ++ channel_commands ++ message_commands ++ mode_commands ++ oper_commands ++ info_commands
  ++ extra_commands ++ watch_commands ++ module_commands.

Section registry.
Context `{UnicodeLower} `{Outside} `{Crypto}.

Definition command_of (e : Entry) : Command :=
  mkCommand (e_min e) (e_early e) (λ uid ps s, cmd ← e_decode e ps; exec uid cmd s).

Definition command_table : gmap string Command :=
  foldl (λ m '(name, e), <[name := command_of e]> m) ∅ entries.

End registry.
