(* ===== verification/Modules.v ===== *)
(** * Modules in front of a command

    Eleven of the modules of [src/src/modules], as implementations of the
    interface the dispatcher asks: the flood limit, the spam filter, multi-line
    messages, restricted and disabled commands, restricted private messages, mass
    messages and mass highlights, the hidden map, the operator types and the
    target limit.  A cache of parsed configuration is its contents. *)

From Stdlib Require Import Ascii.
From S2P Require Import Prelude RustStr Glob Clock I18n Channel Numeric Duration State Mode UserMode CoreMode.
From S2P Require Import Ban ConnClass Watch Users Membership Account Filter Xline CoreChannel CoreMessage Multiline.
From S2P Require Import OperTypes Registration System Dispatch.

Local Open Scope stdpp_scope.

Definition USERS_FLOOD : string := "users/flood".
Definition USERS_IGNORE_RESTRICTMSG : string := "users/ignore-restrictmsg".
Definition SERVERS_USE_DISABLED_COMMANDS : string := "servers/use-disabled-commands".
Definition SERVERS_IGNORE_BLOCKAMSG : string := "servers/ignore-blockamsg".

Definition mark_quit (uid : Uid) (reason : string) : Server → Server :=
  with_session uid (λ ss, ss <| ss_quitting := Some reason |>).

(** The nick of a user, or nothing. *)
Definition nick_or (c : Core) (uid : Uid) : string := map_or "" u_nick (users c !! uid).

(** ** The flood limit *)

Definition FLOOD_MAX : N := 8.
Definition FLOOD_WINDOW : N := 4.

Definition flood_over (c : Core) (uid : Uid) : option (option N * option N * bool) :=
  (λ cc, (cc_penaltythreshold cc, cc_commandrate cc, cc_fakelag cc)) <$> class_of c uid.

(** Messages and seconds, and whether a flooder is only slowed down. *)
Definition flood_limits (c : Core) (uid : Uid) : N * N * bool :=
  let '(cm, cw, fakelag) := default (None, None, true) (flood_over c uid) in
  (default (conf_num c u64_max "flood_messages" FLOOD_MAX) cm,
   default (conf_num c u64_max "flood_seconds" FLOOD_WINDOW) cw, fakelag).

(** The times that are kept, and the new one. *)
Definition flood_times (now window : N) (ss : Session) : list N :=
  filter (λ t, ((now - t) < window)%N) (ss_flood_times ss) ++ [now].

Definition flood_pre_message (uid : Uid) (s : Server) : ModResult * Server :=
  let c := core s in
  let '(max, window, fakelag) := flood_limits c uid in
  match users c !! uid with
  | None => (Passthru, s)
  | Some u =>
      if user_has_priv u USERS_FLOOD then (Passthru, s)
      else
        let times := flood_times (clock c) window (u_session u) in
        let over := (max <? N.of_nat (length times))%N in
        let warn := over && negb (ss_flood_warned (u_session u)) in
        let s := with_session uid (λ ss, ss <| ss_flood_times := times |> <| ss_flood_warned := over |>) s in
        if negb over then (Passthru, s)
        else if negb fakelag then
          (Deny, mark_quit uid "Excess flood"
                   (send uid ("ERROR :" +:+ trf (core s) "Closing link: (Excess flood)" []) s))
        else (Deny, if warn then tell uid (nick_or (core s) uid) "*** Flood detected — slow down" s else s)
  end.

(** ** Disabled commands *)

Definition disabled_commands (c : Core) : list string :=
  map to_ascii_uppercase (concat (map split_whitespace (conf_all c "disabled_commands"))).

Definition disable_pre_command (uid : Uid) (cmd : string) (s : Server) : ModResult * Server :=
  if has_priv (core s) uid SERVERS_USE_DISABLED_COMMANDS then (Passthru, s)
  else if bool_decide (to_ascii_uppercase cmd ∈ disabled_commands (core s)) then
    (Deny, numeric uid ERR_UNKNOWNCOMMAND (cmd +:+ " :This command has been disabled by the administrator.") s)
  else (Passthru, s).

(** ** The hidden map *)

Definition maphide_pre_command (uid : Uid) (cmd : string) (s : Server) : ModResult * Server :=
  if negb (conf_bool (core s) "maphide" false) || is_oper (core s) uid then (Passthru, s)
  else if eq_ignore_ascii_case cmd "LINKS" || eq_ignore_ascii_case cmd "MAP" then
    (Deny, tell uid (nick_or (core s) uid) "The server map is hidden; ask an operator." s)
  else (Passthru, s).

(** ** Restricted private messages *)

Definition restrictmsg_pre_message (uid : Uid) (target : string) (s : Server) : ModResult * Server :=
  if negb (conf_bool (core s) "restrictmsg" false) || starts_with "#" target
     || has_priv (core s) uid USERS_IGNORE_RESTRICTMSG then (Passthru, s)
  else match find_nick (core s) target with
  | None => (Passthru, s)
  | Some t =>
      if map_or false (λ u, oper (u_flags u) || bot (u_flags u)) (users (core s) !! t) then (Passthru, s)
      else (Deny, numeric uid ERR_CANTSENDTOUSER (target +:+ " :You cannot send messages to this user.") s)
  end.

(** ** Restricted commands *)

Record Restriction := mkRestriction {
  r_command : string; r_connectdelay : N; r_exempt_identified : bool; r_exempt_webirc : bool;
  r_exempt_tls : bool; r_exempt_score : option N; r_reason : string }.

#[export] Instance eta_Restriction : Eta Restriction := λ r,
  mkRestriction (r_command r) (r_connectdelay r) (r_exempt_identified r) (r_exempt_webirc r)
    (r_exempt_tls r) (r_exempt_score r) (r_reason r).

(** [tokenize]: words, in which a quoted part may hold spaces.  [has] tells
    whether a token has begun. *)
Fixpoint tokenize (cur : string) (in_q has : bool) (cs : list string) : list string :=
  match cs with
  | [] => if has then [cur] else []
  | ch :: r =>
      if String.eqb ch (chr "034") then tokenize cur (negb in_q) true r
      else if is_whitespace ch && negb in_q then
        if has then cur :: tokenize "" in_q false r else tokenize cur in_q false r
      else tokenize (cur +:+ ch) in_q true r
  end.

Definition restriction_attr (r : Restriction) (tok : string) : Restriction :=
  match split_once "=" tok with
  | None => r
  | Some (k, v) =>
      match k with
      | "connectdelay" => r <| r_connectdelay := default 60%N (parse_duration v) |>
      | "exemptidentified" => r <| r_exempt_identified := yesish v |>
      | "exemptwebirc" => r <| r_exempt_webirc := yesish v |>
      | "exempttls" => r <| r_exempt_tls := yesish v |>
      | "exemptscore" => r <| r_exempt_score := parse_uint u32_max v |>
      | "reason" => r <| r_reason := v |>
      | _ => r
      end
  end.

Definition restriction (line : string) : option Restriction :=
  match tokenize "" false false (chars line) with
  | [] => None
  | name :: attrs =>
      if is_empty name then None
      else Some (foldl restriction_attr
                   (mkRestriction (to_ascii_uppercase name) 60 true false false None
                      "You cannot use this command yet. Please wait or log in.") attrs)
  end.

Definition restrictions (c : Core) : list Restriction := omap restriction (conf_all c "restrictcommand").

Section restrict.
Context `{UnicodeLower} `{Outside}.

(** What lets a user past a restriction. *)
Definition restriction_lifted (c : Core) (uid : Uid) (u : User) (r : Restriction) : bool :=
  (r_exempt_identified r && is_logged_in c uid)
  || (r_exempt_webirc r && ss_via_webirc (u_session u))
  || (r_exempt_tls r && u_secure u)
  || map_or false (λ min, (min <=? score_of c uid)%N) (r_exempt_score r)
  || (r_connectdelay r <=? clock c - u_signon u)%N.

Definition restrictcommands_pre_command (uid : Uid) (cmd : string) (s : Server) : ModResult * Server :=
  let c := core s in
  match find_first (λ r, eq_ignore_ascii_case (r_command r) cmd) (restrictions c) with
  | None => (Passthru, s)
  | Some r =>
      if is_oper c uid then (Passthru, s)
      else match users c !! uid with
      | None => (Passthru, s)
      | Some u =>
          if restriction_lifted c uid u r then (Passthru, s)
          else (Deny, numeric uid RPL_TRYAGAIN
                  (r_command r +:+ " :Please wait " +:+ to_string (r_connectdelay r - (clock c - u_signon u))%N
                   +:+ " seconds and try again — " +:+ r_reason r) s)
      end
  end.

(** ** Mass messages *)

(** What a user sent last: the text, its targets, and when. *)
Abbreviation LastMsg := (gmap Uid (string * string * N)).

Definition channel_targets (l : string) : nat := length (filter (λ t, starts_with "#" t = true) (split "," l)).

Definition amsg_repeat (delay now : N) (targets text : string) (prev : string * string * N) : bool :=
  let '(pmsg, ptgt, psent) := prev in
  String.eqb pmsg text && negb (String.eqb ptgt targets) && (0 <? delay)%N && (now - delay <=? psent)%N.

Definition amsg_report (uid : Uid) (action : string) (s : Server) : Server :=
  if is_letter_in ["killopers"; "noticeopers"; "zlineopers"] action then
    snotice_c "a" (trf (core s) "User {0} had an /amsg or /ame blocked"
                     [map_or "" user_prefix (users (core s) !! uid)]) s
  else s.

Definition amsg_block (uid : Uid) (s : Server) : Server :=
  let action := to_ascii_lowercase (default "killopers" (conf (core s) "blockamsg_action")) in
  let s := amsg_report uid action s in
  let reason := "Attempted to global message (/amsg or /ame)" in
  if is_letter_in ["kill"; "killopers"] action then remove_user uid reason s
  else if is_letter_in ["notice"; "noticeopers"] action then
    tell uid (nick_or (core s) uid) "Global message (/amsg or /ame) blocked" s
  else if is_letter_in ["zline"; "zlineopers"] action then
    add_xline Zline (map_or "" u_ip (users (core s) !! uid)) (conf_num (core s) u64_max "blockamsg_duration" 900)
      ("blockamsg@" +:+ s_name (core s)) reason s
  else s.

Definition blockamsg_pre_command (uid : Uid) (cmd : string) (ps : list string) (last : LastMsg) (s : Server)
    : ModResult * LastMsg * Server :=
  match ps with
  | targets :: text :: _ =>
      if negb (conf_bool (core s) "blockamsg" false)
         || negb (eq_ignore_ascii_case cmd "PRIVMSG" || eq_ignore_ascii_case cmd "NOTICE")
         || has_priv (core s) uid SERVERS_IGNORE_BLOCKAMSG || (channel_targets targets =? 0)
      then (Passthru, last, s)
      else
        let now := clock (core s) in
        let delay := conf_num (core s) u64_max "blockamsg_delay" 3 in
        let chans := map_or 0 (λ u, size (u_channels u)) (users (core s) !! uid) in
        let repeat_hit := map_or false (amsg_repeat delay now targets text) (last !! uid) in
        let allchans_hit := (1 <? channel_targets targets) && (channel_targets targets =? chans) in
        let last := <[uid := (text, targets, now)]> last in
        if negb (repeat_hit || allchans_hit) then (Passthru, last, s) else (Deny, last, amsg_block uid s)
  | _ => (Passthru, last, s)
  end.

(** ** Mass highlights *)

Definition is_boundary (ch : string) : bool :=
  is_whitespace ch || is_letter_in [","; ":"; ";"; "."; "!"; "?"; "<"; ">"; "("; ")"; chr "034"; "@"] ch.

(** The non-empty pieces of a text between boundaries. *)
Fixpoint highlight_words (cur : string) (cs : list string) : list string :=
  match cs with
  | [] => if is_empty cur then [] else [cur]
  | ch :: r =>
      if is_boundary ch then if is_empty cur then highlight_words "" r else cur :: highlight_words "" r
      else highlight_words (cur +:+ ch) r
  end.

(** [over_highlight_limit], from the words; [seen] and [count] are its loop's. *)
Fixpoint over_limit (sender : string) (limit : N) (is_member : string → bool) (seen : gset string) (count : N)
    (words : list string) : bool :=
  match words with
  | [] => false
  | word :: r =>
      let w := to_ascii_lowercase word in
      if String.eqb w sender || bool_decide (w ∈ seen) then over_limit sender limit is_member seen count r
      else
        let seen := {[w]} ∪ seen in
        if is_member w then
          if (limit <? count + 1)%N then true else over_limit sender limit is_member seen (count + 1)%N r
        else over_limit sender limit is_member seen count r
  end.

Definition over_highlight_limit (text sender : string) (limit : N) (is_member : string → bool) : bool :=
  over_limit sender limit is_member ∅ 0 (highlight_words "" (chars text)).

Definition mentions (c : Core) (ch : Channel) (w : string) : bool :=
  match find_nick c w with
  | Some t => is_some (members ch !! t)
  | None => map_or false (λ '(uuid, _), is_some (rmembers ch !! uuid)) (find_remote c w)
  end.

Definition masshighlight_pre_message (uid : Uid) (target text : string) (s : Server) : ModResult * Server :=
  let c := core s in
  let limit := conf_num c u64_max "masshighlight" 0 in
  let k := to_ascii_lowercase target in
  if (limit =? 0)%N || negb (starts_with "#" target) || is_oper c uid || is_op c uid k then (Passthru, s)
  else match users c !! uid, channels c !! k with
  | Some u, Some ch =>
      if negb (over_highlight_limit text (to_ascii_lowercase (u_nick u)) limit (mentions c ch)) then (Passthru, s)
      else
        let s := snotice_c "f" ("MASSHIGHLIGHT: " +:+ user_prefix u +:+ " blocked in " +:+ target +:+ " (over "
                   +:+ to_string limit +:+ " highlights)") s in
        (Deny, notice_star uid ("Your message to " +:+ target +:+ " was blocked: too many highlights (limit "
                 +:+ to_string limit +:+ ")") s)
  | _, _ => (Passthru, s)
  end.

(** ** The target limit *)

Definition target_hash (t : string) : N :=
  foldl (λ h b, N.lxor (wrap_u64 (h * 33)) (byte_val (lower_byte b))) 5381%N (as_bytes t).

Fixpoint remove_first (x : N) (l : list N) : list N :=
  match l with
  | [] => []
  | y :: r => if (x =? y)%N then r else y :: remove_first x r
  end.

(** [Vec::truncate]. *)
Definition take_max (n : N) (l : list N) : list N := take (N.to_nat (N.min n (N.of_nat (length l)))) l.

(** One message to a target: [inr] is the wait until another target is allowed. *)
Definition target_step (now delay maxt hash : N) (ss : Session) : Session + N :=
  if bool_decide (hash ∈ ss_recent_targets ss) then
    inl (ss <| ss_recent_targets ::= (λ l, hash :: remove_first hash l) |>)
  else
    let credit := N.max (ss_target_credit ss) (now - sat_mul64 delay (maxt - 1))%N in
    if (now <? credit)%N then inr (credit - now)%N
    else inl (ss <| ss_target_credit := wrap_u64 (credit + delay) |>
                 <| ss_recent_targets ::= (λ l, take_max maxt (hash :: l)) |>).

Definition targetlimit_pre_message (uid : Uid) (target : string) (s : Server) : ModResult * Server :=
  let c := core s in
  match users c !! uid with
  | None => (Passthru, s)
  | Some u =>
      if oper (u_flags u) then (Passthru, s)
      else if contains_byte "," target && conf_bool c "no_multi_targets" false then
        (Deny, numeric uid ERR_TOOMANYTARGETS (target +:+ " :Too many targets — one recipient per message") s)
      else
        let delay := conf_num c u64_max "target_delay" 10 in
        if (delay =? 0)%N then (Passthru, s)
        else
          let maxt := N.max (conf_num c u64_max "target_max" 20) 1 in
          match target_step (clock c) delay maxt (target_hash target) (u_session u) with
          | inl ss => (Passthru, with_session uid (λ _, ss) s)
          | inr wait =>
              (Deny, numeric uid ERR_TARGETTOOFAST
                       (target +:+ " :Targets changing too fast, please wait " +:+ to_string wait +:+ "s") s)
          end
  end.

(** ** The modules together *)

Inductive Mod :=
  | MFlood | MFilter | MMultiline | MRestrictCommands | MRestrictMsg | MBlockAmsg (last : LastMsg)
  | MMassHighlight | MDisable | MMapHide | MOperTypes | MTargetLimit.

(** A hook of a module without a state. *)
Definition stateless (m : Mod) (x : ModResult * Server) : ModResult * Mod * Server := (x.1, m, x.2).

Definition mod_pre_command (uid : Uid) (cmd : string) (ps : list string) (m : Mod) (s : Server)
    : ModResult * Mod * Server :=
  match m with
  | MRestrictCommands => stateless m (restrictcommands_pre_command uid cmd s)
  | MBlockAmsg last => let '(r, last, s) := blockamsg_pre_command uid cmd ps last s in (r, MBlockAmsg last, s)
  | MDisable => stateless m (disable_pre_command uid cmd s)
  | MMapHide => stateless m (maphide_pre_command uid cmd s)
  | MOperTypes => stateless m (opertypes_pre_command uid cmd s)
  | _ => (Passthru, m, s)
  end.

Definition mod_pre_message (uid : Uid) (target text : string) (m : Mod) (s : Server) : ModResult * Mod * Server :=
  match m with
  | MFlood => stateless m (flood_pre_message uid s)
  | MFilter => stateless m (filter_pre_message uid text s)
  | MRestrictMsg => stateless m (restrictmsg_pre_message uid target s)
  | MMassHighlight => stateless m (masshighlight_pre_message uid target text s)
  | MTargetLimit => stateless m (targetlimit_pre_message uid target s)
  | _ => (Passthru, m, s)
  end.

Definition mod_user_quit (uid : Uid) (reason : string) (m : Mod) (s : Server) : Mod * Server :=
  match m with
  | MMultiline => (m, drop_mline uid s)
  | MBlockAmsg last => (MBlockAmsg (delete uid last), s)
  | _ => (m, s)
  end.

#[export] Instance mod_api : ModuleApi Mod := {
  on_user_register _ m s := (Passthru, m, s);
  on_pre_command := mod_pre_command;
  on_pre_message := mod_pre_message;
  on_post_command _ _ m s := (m, s);
  on_user_quit := mod_user_quit;
}.

(** In the order of [default_modules]. *)
Definition default_modules : list Mod :=
  [MFlood; MFilter; MMultiline; MRestrictCommands; MRestrictMsg; MBlockAmsg ∅; MMassHighlight; MDisable;
   MMapHide; MOperTypes; MTargetLimit].

End restrict.
