(* ===== verification/DispatchFacts.v ===== *)
(** * The dispatcher is safe

    Given modules that keep the laws of their interface, no line of a client
    makes the dispatcher panic or leaves the tables inconsistent; the modelled
    modules keep these laws. *)

From Stdlib Require Import Ascii.
From S2P Require Import Prelude RustStr Message Glob Clock I18n Channel Numeric State Mode UserMode CoreMode Ban.
From S2P Require Import Watch Users Membership Account Filter Xline CoreChannel CoreMessage Multiline Password.
From S2P Require Import OperTypes OperAuth CoreOper Welcome Registration CoreUser CoreInfo.
From S2P Require Import Tables ModeTables MembershipTables JoinFacts LeaveFacts ListFacts UserFacts XlineFacts.
From S2P Require Import SpeechFacts FilterFacts Handlers RegisterFacts SessionFacts System Dispatch Registry Modules.

Local Open Scope stdpp_scope.

(** ** The registry *)

(** An entry that may run before registration is a session command. *)
Definition session_entry (e : Entry) : Prop :=
  ∀ ps cmd, e_decode e ps = Some cmd → ∃ c, cmd = CSession c.

Definition unforced (name : string) (e : Entry) : Prop :=
  name ≠ "SAJOIN" → name ≠ "SVSJOIN" → ∀ ps cmd, e_decode e ps = Some cmd → forced_join cmd = None.

(** What the dispatcher relies on: enough parameters for the indexing of the
    handler, the registration gate, and no forced join but for two commands. *)
Definition entry_ok (x : string * Entry) : Prop :=
  (∀ ps, e_min x.2 ≤ length ps → is_Some (e_decode x.2 ps))
  ∧ (e_early x.2 = true → session_entry x.2) ∧ unforced x.1 x.2.

Ltac solve_entry :=
  split; [intros ps Hps; destruct ps as [|? [|? [|? [|? ?]]]]; cbn in *; by (done || lia)|split];
  [first [by intros [=]|intros _ ps cmd; destruct ps as [|? [|? [|? [|? ?]]]]; cbn; intros [= <-]; by eexists]
  |intros Hn1 Hn2 ps cmd; destruct ps as [|? [|? [|? [|? ?]]]]; cbn;
   first [by intros [=]|intros [= <-]; first [done|by destruct Hn1|by destruct Hn2]]].

Lemma entries_ok : Forall entry_ok entries.
Proof.
  unfold entries. repeat (apply Forall_app; split); repeat (apply Forall_cons; split).
  all: first [by apply Forall_nil|solve_entry].
Qed.

Section dispatch_facts.
Context `{UnicodeLower} `{Outside} `{Crypto}.

Lemma table_from (l : list (string * Entry)) (m : gmap string Command) name h :
  foldl (λ m '(name, e), <[name := command_of e]> m) m l !! name = Some h →
  (∃ e, (name, e) ∈ l ∧ h = command_of e) ∨ m !! name = Some h.
Proof.
  revert m. induction l as [|[n e] l IH]; intros m; cbn [foldl]; [by right|].
  intros [(e' & Hin & ->)|Hm]%IH; [left; exists e'; split; [by right|done]|].
  apply lookup_insert_Some in Hm as [[-> <-]|[_ Hm]]; [left; exists e; split; [by left|done]|by right].
Qed.

Lemma command_table_entry name h :
  command_table !! name = Some h → ∃ e, entry_ok (name, e) ∧ h = command_of e.
Proof.
  intros [(e & Hin & ->)|Hm]%table_from; [|by rewrite lookup_empty in Hm]. exists e. split; [|done].
  eapply Forall_forall in Hin; [exact Hin|apply entries_ok].
Qed.

(** A handler of the registry that has enough parameters. *)
Lemma handle_fine name h uid ps s :
  command_table !! name = Some h → min_params h ≤ length ps → name ≠ "SAJOIN" → name ≠ "SVSJOIN" →
  before_reg h = true ∨ is_registered (core s) uid → wf (core s) →
  ∃ s', handle h uid ps s = Some s' ∧ wf (core s').
Proof.
  intros (e & (Hd & He & Hu) & ->)%command_table_entry Hl Hn1 Hn2 Hr W. cbn in *.
  destruct (Hd ps Hl) as [cmd Hc]. rewrite Hc. cbn [mbind option_bind]. destruct Hr as [Hr|Hr].
  - destruct (He Hr ps cmd Hc) as [c ->]. cbn [exec].
    destruct (session_always uid c s W) as (r & s' & -> & W'). by exists s'.
  - apply exec_fine; [done| |done]. unfold cmd_ready. by rewrite (Hu Hn1 Hn2 ps cmd Hc).
Qed.

(** ** The laws of the module interface *)

(** A hook keeps the tables consistent; one that does not stop the line leaves
    the connection it is about in place, and registered or not as it was. *)
Definition lawful (uid : Uid) (stop : ModResult → bool) {M} (hook : M → Server → ModResult * M * Server) : Prop :=
  ∀ m s r m' s', hook m s = (r, m', s') → wf (core s) →
    wf (core s') ∧ (stop r = false → uget u_registered (core s') uid = uget u_registered (core s) uid).

Class ModuleLaws (M : Type) `{ModuleApi M} := {
  law_register uid : lawful uid ends_registration (on_user_register uid);
  law_pre_command uid cmd ps : lawful uid is_deny (on_pre_command uid cmd ps);
  law_pre_message uid target text : lawful uid is_deny (on_pre_message uid target text);
  law_post_command uid cmd m s : wf (core s) → wf (core (on_post_command uid cmd m s).2);
  law_user_quit uid reason m s : wf (core s) → wf (core (on_user_quit uid reason m s).2);
}.

Section modules.
Context {M : Type} `{ModuleLaws M}.
Implicit Types (i : Ircd M) (ms : list M).

Lemma ask_lawful uid stop (hook : M → Server → ModResult * M * Server) ms s v ms' s' :
  lawful uid stop hook → ask stop hook ms s = (v, ms', s') → wf (core s) →
  wf (core s') ∧ (v = None → uget u_registered (core s') uid = uget u_registered (core s) uid).
Proof.
  intros Hl. revert s v ms' s'. induction ms as [|m ms IH]; intros s v ms' s'; cbn [ask]; [by intros [= <- <- <-]|].
  destruct (hook m s) as [[r m1] s1] eqn:Eh. intros Ha W. destruct (Hl _ _ _ _ _ Eh W) as [W1 Hk].
  destruct (stop r); [injection Ha as <- <- <-; done|]. destruct (ask stop hook ms s1) as [[v2 ms2] s2] eqn:Ea.
  injection Ha as <- <- <-. destruct (IH _ _ _ _ Ea W1) as [W2 Hk2]. split; [done|]. intros Hv.
  by rewrite Hk2, Hk.
Qed.

Lemma tell_all_wf (hook : M → Server → M * Server) ms s :
  (∀ m s, wf (core s) → wf (core (hook m s).2)) → wf (core s) → wf (core (tell_all hook ms s).2).
Proof.
  intros Hh. revert s. induction ms as [|m ms IH]; intros s W; cbn [tell_all]; [done|].
  pose proof (Hh m s W) as W1. destruct (hook m s) as [m1 s1]. cbn in W1.
  specialize (IH s1 W1). by destruct (tell_all hook ms s1).
Qed.

(** ** Safety, from the handlers up *)

(** No panic, consistent tables, and the registry is what it was. *)
Definition carries_on (i : Ircd M) (o : option (Ircd M)) : Prop :=
  ∃ i', o = Some i' ∧ wf (core (server i')) ∧ registry i' = registry i.

Lemma carries_over i s ms o : carries_on (mkIrcd s ms (registry i)) o → carries_on i o.
Proof. done. Qed.

Lemma carries_update i f o : carries_on (i <| server ::= f |>) o → carries_on i o.
Proof. by destruct i. Qed.

Lemma quit_user_on uid reason i : wf (core (server i)) → carries_on i (Some (quit_user uid reason i)).
Proof.
  intros W. eexists. split; [done|]. unfold quit_user. destruct (users _ !! _); [|done].
  pose proof (tell_all_wf (on_user_quit uid reason) (modules i) (server i) (law_user_quit uid reason) W) as W1.
  destruct (tell_all _ _ _) as [ms s]. split; [|done]. by apply remove_user_wf.
Qed.

Lemma present_registered c uid : is_Some (users c !! uid) ↔ is_Some (uget u_registered c uid).
Proof. unfold uget. destruct (users c !! uid); split; intros [? ?]; done || by eexists. Qed.

Lemma complete_registration_on uid i :
  is_Some (users (core (server i)) !! uid) → wf (core (server i)) → carries_on i (complete_registration uid i).
Proof.
  intros Hu W. unfold complete_registration. destruct (ask _ _ _ _) as [[v ms] s] eqn:Ea.
  destruct (ask_lawful _ _ _ _ _ _ _ _ (law_register uid) Ea W) as [W1 Hk].
  destruct v as [r|]; [destruct r; eexists; (split; [done|split; [|done]]); try done|].
  - apply remove_user_wf. by rewrite send_outputs.
  - destruct (admit_fine uid s) as (s' & -> & W'); [|done|by exists (mkIrcd s' ms (registry i))].
    apply present_registered. rewrite Hk by done. by apply present_registered.
Qed.

Lemma try_register_on uid i : wf (core (server i)) → carries_on i (try_register uid i).
Proof.
  intros W. unfold try_register. destruct (ready _ _) eqn:Er; [|by exists i].
  apply complete_registration_on; [|done]. unfold ready in Er. by destruct (users _ !! _).
Qed.

Lemma after_command_on uid cmd registered i : wf (core (server i)) → carries_on i (after_command uid cmd registered i).
Proof.
  intros W. unfold after_command.
  pose proof (tell_all_wf (on_post_command uid cmd) (modules i) (server i) (law_post_command uid cmd) W) as W1.
  destruct (tell_all _ _ _) as [ms s]. cbn [snd] in W1. unfold take_quit. set (s1 := with_session _ _ s).
  assert (wf (core s1)) as W2 by (eapply wf_proper, W1; apply with_session_stable).
  destruct (_ ≫= _); [by apply (quit_user_on uid _ (mkIrcd s1 ms (registry i)))|].
  destruct registered; [by exists (mkIrcd s1 ms (registry i))|].
  by apply (try_register_on uid (mkIrcd s1 ms (registry i))).
Qed.

Lemma unknown_command_wf uid cmd ps registered s : wf (core s) → wf (core (unknown_command uid cmd ps registered s)).
Proof.
  intros W. unfold unknown_command. destruct (negb _); [done|].
  assert (core (maybe_show uid cmd s).2 = core s) as E.
  { unfold maybe_show. destruct (showfile_path _ _); [|done]. cbn [snd]. destruct (read_text _ _).
    - rewrite for_each_outputs; [done|]. intros l s'. apply send_outputs.
    - apply send_outputs. }
  destruct (maybe_show uid cmd s) as [b s1]. cbn in E. rewrite <-E in W. destruct b; [done|].
  destruct (alias_target _ _); [destruct ps; [done|by apply deliver_wf]|by rewrite numeric_outputs].
Qed.

(** Commands that force somebody else into a channel. *)
Definition forcing (cmd : string) : bool := String.eqb cmd "SAJOIN" || String.eqb cmd "SVSJOIN".

Lemma run_command_on uid cmd ps registered i :
  registry i = command_table → forcing cmd = false → wf (core (server i)) →
  (registered = true → is_registered (core (server i)) uid) →
  carries_on i (run_command uid cmd ps registered i).
Proof.
  intros Ht [Hn1%String.eqb_neq Hn2%String.eqb_neq]%orb_false_iff W Hr. unfold run_command. rewrite Ht.
  destruct (command_table !! cmd) as [h|] eqn:Eh.
  - destruct (negb registered && _) eqn:Eg; [eexists; split; [done|]; split; [by cbn; rewrite numeric_outputs|done]|].
    destruct (length ps <? min_params h) eqn:El; [eexists; split; [done|]; split; [by cbn; rewrite numeric_outputs|done]|].
    apply Nat.ltb_ge in El.
    destruct (handle_fine cmd h uid ps (server i)) as (s' & -> & W'); try done.
    { destruct registered; [right; by apply Hr|left]. by destruct (before_reg h). }
    cbn [mbind option_bind]. apply (carries_update i (λ _, s')). by apply after_command_on.
  - eexists. split; [done|]. split; [|done]. cbn. by apply unknown_command_wf.
Qed.

Lemma past_gates_on uid cmd ps registered i :
  registry i = command_table → forcing cmd = false → wf (core (server i)) →
  (registered = true → is_registered (core (server i)) uid) →
  carries_on i (past_gates uid cmd ps registered i).
Proof.
  intros Ht Hf W Hr. unfold past_gates, is_registered in *. destruct (ask _ _ _ _) as [[v ms] s] eqn:Ea. cbn zeta.
  destruct (ask_lawful _ _ _ _ _ _ _ _ (law_pre_command uid cmd ps) Ea W) as [W1 Hk].
  destruct v; [by exists (mkIrcd s ms (registry i))|]. specialize (Hk eq_refl).
  assert (∀ ms' s', wf (core s') → uget u_registered (core s') uid = uget u_registered (core s) uid →
            carries_on i (run_command uid cmd ps registered (mkIrcd s' ms' (registry i)))) as Hrun.
  { intros ms' s' W' E. apply (run_command_on uid cmd ps registered (mkIrcd s' ms' (registry i))); [done..|].
    intros Hreg. unfold is_registered. cbn. rewrite E, Hk. by apply Hr. }
  destruct (is_speech cmd); [|by apply Hrun]. destruct ps as [|target [|text ps]]; [by apply Hrun..|].
  cbn [modules server registry]. destruct (ask _ _ ms s) as [[v2 ms2] s2] eqn:Ea2.
  destruct (ask_lawful _ _ _ _ _ _ _ _ (law_pre_message uid target text) Ea2 W1) as [W2 Hk2].
  destruct v2; [by exists (mkIrcd s2 ms2 (registry i))|]. apply Hrun; [done|by apply Hk2].
Qed.

Lemma put_aside_same uid cmd msg s : same_tables (core s) (core (put_aside uid cmd msg s).2).
Proof.
  unfold put_aside. destruct (batch msg); [|done]. destruct (is_speech cmd); [|done].
  destruct (params msg) as [|? [|? ?]]; [done..|]. unfold accumulate. destruct (mlines _ !! _); [|done].
  destruct (String.eqb _ _); [|done]. by split.
Qed.

(** The command a message is taken for. *)
Definition resolved (i : Ircd M) (registered : bool) (msg : Message) : string :=
  resolve (core (server i)) (registry i) registered (command msg).

Lemma dispatch_on uid msg registered i :
  registry i = command_table → forcing (resolved i registered msg) = false → wf (core (server i)) →
  (registered = true → is_registered (core (server i)) uid) →
  carries_on i (dispatch uid msg registered i).
Proof.
  intros Ht Hf W Hr. unfold dispatch. fold (resolved i registered msg). cbn zeta.
  destruct (_ && user_shunned _ _); [by exists i|]. pose proof (put_aside_same uid (resolved i registered msg) msg (server i)) as E.
  destruct (put_aside _ _ _ _) as [b s]. cbn [snd] in E. assert (wf (core s)) as W1 by by eapply wf_proper.
  destruct b; [by exists (i <| server := s |>)|].
  apply (carries_update i (λ _, s)). apply past_gates_on; [done..|].
  intros Hreg. unfold is_registered. cbn. rewrite <-(registered_same _ _ uid E). by apply Hr.
Qed.

Lemma emit_labeled_wf uid lab lines s : wf (core s) → wf (core (emit_labeled uid lab lines s)).
Proof.
  intros W. unfold emit_labeled. cbn zeta. destruct lines as [|l [|l2 rest]]; [by rewrite send_outputs..|].
  unfold next_msgid. cbn zeta. rewrite send_outputs, for_each_outputs, send_outputs.
  - eapply wf_proper, W. by split.
  - intros x s'. apply send_outputs.
Qed.

Lemma heard_same uid msg s : same_tables (core s) (core (heard uid msg s)).
Proof. etrans; [|apply with_session_stable]. by split. Qed.

Lemma deferred_same uid line s : same_tables (core s) (core (defer_if_resolving uid line s).2).
Proof.
  unfold defer_if_resolving. destruct (session _ _); [|done]. destruct (_ && _); [apply with_session_stable|done].
Qed.

Lemma is_reg_true c uid : is_reg c uid = true → is_registered c uid.
Proof. unfold is_reg, is_registered, uget. destruct (users c !! uid) as [u|]; [|done]. cbn. congruence. Qed.

Lemma labelled_on uid lab msg registered i :
  registry i = command_table → forcing (resolved i registered msg) = false → wf (core (server i)) →
  (registered = true → is_registered (core (server i)) uid) →
  carries_on i (labelled uid lab msg registered i).
Proof.
  intros Ht Hf W Hr. unfold labelled. cbn zeta.
  destruct (dispatch_on uid msg registered (i <| server ::= set_capture (Some (uid, [])) |>)) as (i' & -> & W' & Ht'); [done..|].
  cbn [mbind option_bind]. eexists. split; [done|]. split; [|done]. cbn. by apply emit_labeled_wf.
Qed.

(** The command a line asks for, in the state it is dispatched in. *)
Definition asks_for (uid : Uid) (line : string) (i : Ircd M) : option string :=
  msg ← parse line;
  let s := heard uid msg (server i) in
  Some (resolve (core s) (registry i) (is_reg (core s) uid) (command msg)).

Lemma resolve_same c c' reg b typed : raw_config c = raw_config c' → resolve c reg b typed = resolve c' reg b typed.
Proof. intros E. unfold resolve, conf_bool, conf, conf_all. by rewrite E. Qed.

Lemma on_line_on uid line i :
  registry i = command_table → wf (core (server i)) →
  map_or false forcing (asks_for uid line i) = false → carries_on i (on_line uid line i).
Proof.
  intros Ht W Hf. unfold on_line, asks_for in *. destruct (parse line) as [msg|]; [|by exists i].
  cbn [mbind option_bind] in Hf. cbn zeta in *. set (s := heard uid msg (server i)) in *.
  assert (wf (core s)) as W1 by (eapply wf_proper, W; apply heard_same).
  set (reg := is_reg (core s) uid) in *.
  set (x := if reg then (false, s) else defer_if_resolving uid line s).
  assert (same_tables (core s) (core x.2) ∧ raw_config (core x.2) = raw_config (core s)) as [E1 E2].
  { unfold x. destruct reg; [done|]. split; [apply deferred_same|]. unfold defer_if_resolving.
    destruct (session _ _); [|done]. by destruct (_ && _). }
  destruct x as [held s1]. cbn [fst snd] in E1, E2. destruct held; [by exists (i <| server := s1 |>); split_and!; [|eapply wf_proper|]|].
  assert (forcing (resolved (i <| server := s1 |>) reg msg) = false) as Hf1.
  { unfold resolved. cbn. rewrite (resolve_same _ (core s)) by done. exact Hf. }
  assert (reg = true → is_registered (core s1) uid) as Hr.
  { intros Hreg%is_reg_true. unfold is_registered. by rewrite <-(registered_same _ _ uid E1). }
  assert (wf (core s1)) as W2 by by eapply wf_proper.
  destruct (opt_filter _ _);
    apply (carries_update i (λ _, s1)); [by apply labelled_on|by apply dispatch_on].
Qed.

End modules.
End dispatch_facts.

(** ** The modules keep the laws *)

(** A verdict with what it leaves: the tables are kept, or the line stops and
    they are consistent. *)
Definition gate_ok (s : Server) (x : ModResult * Server) : Prop :=
  same_tables (core s) (core x.2) ∨ (x.1 = Deny ∧ wf (core x.2)).

Lemma gate_same r s s' : same_tables (core s) (core s') → gate_ok s (r, s').
Proof. by left. Qed.

Lemma gate_pass r s : gate_ok s (r, s).
Proof. by left. Qed.

Section module_facts.
Context `{UnicodeLower} `{Outside}.

#[local] Instance tell_outs' uid nick m : Outputs (tell uid nick m).
Proof. intros s. apply send_outputs. Qed.

#[local] Instance notice_star_outs uid m : Outputs (notice_star uid m).
Proof. intros s. apply send_outputs. Qed.

Ltac gate_says := left; cbn [snd]; rewrite ?numeric_outputs, ?tell_outs', ?notice_star_outs, ?snotice_c_outputs; done.

Lemma flood_gate uid s : gate_ok s (flood_pre_message uid s).
Proof.
  unfold flood_pre_message. destruct (flood_limits _ _) as [[max window] fakelag].
  destruct (users _ !! uid); [|apply gate_pass]. destruct (user_has_priv _ _); [apply gate_pass|]. cbn zeta.
  set (s1 := with_session _ _ s). assert (same_tables (core s) (core s1)) as E by apply with_session_stable.
  destruct (negb (_ <? _)%N); [by apply gate_same|]. destruct (negb fakelag).
  - apply gate_same. etrans; [|apply with_session_stable]. by rewrite send_outputs.
  - apply gate_same. destruct (_ && _); [by rewrite tell_outs'|done].
Qed.

Lemma disable_gate uid cmd s : gate_ok s (disable_pre_command uid cmd s).
Proof. unfold disable_pre_command. destruct (has_priv _ _ _); [gate_says|]. case_bool_decide; gate_says. Qed.

Lemma maphide_gate uid cmd s : gate_ok s (maphide_pre_command uid cmd s).
Proof. unfold maphide_pre_command. destruct (_ || is_oper _ _); [gate_says|]. destruct (_ || _); gate_says. Qed.

Lemma restrictmsg_gate uid t s : gate_ok s (restrictmsg_pre_message uid t s).
Proof.
  unfold restrictmsg_pre_message. destruct (_ || has_priv _ _ _); [gate_says|].
  destruct (find_nick _ _); [|gate_says]. destruct (map_or _ _ _); gate_says.
Qed.

Lemma restrictcommands_gate uid cmd s : gate_ok s (restrictcommands_pre_command uid cmd s).
Proof.
  unfold restrictcommands_pre_command. cbn zeta. destruct (find_first _ _); [|gate_says].
  destruct (is_oper _ _); [gate_says|]. destruct (users _ !! _); [|gate_says].
  destruct (restriction_lifted _ _ _ _); gate_says.
Qed.

Lemma masshighlight_gate uid t x s : gate_ok s (masshighlight_pre_message uid t x s).
Proof.
  unfold masshighlight_pre_message. cbn zeta. destruct (_ || is_op _ _ _); [gate_says|].
  destruct (users _ !! _); [|gate_says]. destruct (channels _ !! _); [|gate_says]. destruct (negb _); gate_says.
Qed.

Lemma targetlimit_gate uid t s : gate_ok s (targetlimit_pre_message uid t s).
Proof.
  unfold targetlimit_pre_message. cbn zeta. destruct (users _ !! _); [|gate_says].
  destruct (oper _); [gate_says|]. destruct (_ && _); [gate_says|]. destruct (_ =? _)%N; [gate_says|].
  destruct (target_step _ _ _ _ _); [|gate_says]. apply gate_same, with_session_stable.
Qed.

Lemma opertypes_gate uid cmd s : gate_ok s (opertypes_pre_command uid cmd s).
Proof.
  unfold opertypes_pre_command. destruct (_ || _); [gate_says|]. cbn zeta. destruct (_ ≫= _); [|gate_says].
  destruct (type_allows _ _); gate_says.
Qed.

Lemma filter_gate uid x s : wf (core s) → gate_ok s (filter_pre_message uid x s).
Proof.
  intros W. pose proof (filter_pre_message_wf uid x s W) as W'. revert W'. unfold filter_pre_message.
  destruct (filter_hit _ _); [|intros _; gate_says]. destruct (users _ !! _); [|intros _; gate_says].
  intros W'. by right.
Qed.

Lemma amsg_block_wf uid s : wf (core s) → wf (core (amsg_block uid s)).
Proof.
  intros W. unfold amsg_block. cbn zeta. set (s1 := amsg_report _ _ s).
  assert (wf (core s1)) as W1.
  { unfold s1, amsg_report. destruct (is_letter_in _ _); [by rewrite snotice_c_outputs|done]. }
  destruct (is_letter_in _ _); [by apply remove_user_wf|]. destruct (is_letter_in _ _); [by rewrite tell_outs'|].
  destruct (is_letter_in _ _); [by apply add_xline_wf|done].
Qed.

Lemma blockamsg_gate uid cmd ps last s r last' s' :
  blockamsg_pre_command uid cmd ps last s = (r, last', s') → wf (core s) → gate_ok s (r, s').
Proof.
  intros E W. unfold blockamsg_pre_command in E.
  destruct ps as [|targets [|text ps]]; [injection E as <- <- <-; apply gate_pass..|].
  destruct (_ || (_ =? 0)); [injection E as <- <- <-; apply gate_pass|]. cbn zeta in E.
  destruct (negb (_ || _)); injection E as <- <- <-; [apply gate_pass|]. right. split; [done|].
  by apply amsg_block_wf.
Qed.

(** A gate in this sense keeps the law of a hook that may deny. *)
Lemma gate_lawful uid s r s' :
  gate_ok s (r, s') → wf (core s) →
  wf (core s') ∧ (is_deny r = false → uget u_registered (core s') uid = uget u_registered (core s) uid).
Proof.
  intros [E|[Hd W']] W; cbn [fst snd] in *.
  - split; [by eapply wf_proper|]. intros _. symmetry. by apply registered_same.
  - split; [done|]. by rewrite Hd.
Qed.

Lemma stateless_gate m m' x r s s' :
  gate_ok s x → stateless m x = (r, m', s') → gate_ok s (r, s').
Proof. destruct x as [r0 s0]. by intros Hg [= <- <- <-]. Qed.

Lemma mod_pre_command_gate uid cmd ps m s r m' s' :
  mod_pre_command uid cmd ps m s = (r, m', s') → wf (core s) → gate_ok s (r, s').
Proof.
  intros E W. unfold mod_pre_command in E. destruct m; try (injection E as <- <- <-; apply gate_pass);
    try (eapply stateless_gate, E).
  - apply restrictcommands_gate.
  - destruct (blockamsg_pre_command _ _ _ _ _) as [[r1 l1] s1] eqn:Eb. injection E as <- <- <-.
    by eapply blockamsg_gate.
  - apply disable_gate.
  - apply maphide_gate.
  - apply opertypes_gate.
Qed.

Lemma mod_pre_message_gate uid t x m s r m' s' :
  mod_pre_message uid t x m s = (r, m', s') → wf (core s) → gate_ok s (r, s').
Proof.
  intros E W. unfold mod_pre_message in E. destruct m; try (injection E as <- <- <-; apply gate_pass);
    eapply stateless_gate, E.
  - apply flood_gate.
  - by apply filter_gate.
  - apply restrictmsg_gate.
  - apply masshighlight_gate.
  - apply targetlimit_gate.
Qed.

#[export] Instance mod_laws : ModuleLaws Mod.
Proof.
  split.
  - intros uid m s r m' s' E W. cbn in E. injection E as <- <- <-. by split.
  - intros uid cmd ps m s r m' s' E W. apply gate_lawful; [|done]. exact (mod_pre_command_gate _ _ _ _ _ _ _ _ E W).
  - intros uid t x m s r m' s' E W. apply gate_lawful; [|done]. exact (mod_pre_message_gate _ _ _ _ _ _ _ _ E W).
  - done.
  - intros uid reason m s W. cbn. unfold mod_user_quit. destruct m; try done. cbn [snd].
    eapply wf_proper, W. by split.
Qed.

End module_facts.

(** ** Conversations *)

Section conversations.
Context `{UnicodeLower} `{Outside} `{Crypto} {M : Type} `{ModuleLaws M}.

(** Lines in the order they arrive; [None] is a panic. *)
Fixpoint feed (ls : list (Uid * string)) (i : Ircd M) : option (Ircd M) :=
  match ls with
  | [] => Some i
  | (uid, line) :: rest => i ← on_line uid line i; feed rest i
  end.

(** No line asks to force a client into a channel. *)
Fixpoint unforced_lines (ls : list (Uid * string)) (i : Ircd M) : bool :=
  match ls with
  | [] => true
  | (uid, line) :: rest =>
      negb (map_or false forcing (asks_for uid line i)) && map_or true (unforced_lines rest) (on_line uid line i)
  end.


(** The handler of a command replaced. *)
Definition with_handler (name : string) (h : Command) (i : Ircd M) : Ircd M :=
  mkIrcd (server i) (modules i) (<[name := h]> (registry i)).

Lemma resolve_unregistered c reg typed : resolve c reg false typed = typed.
Proof. unfold resolve. by rewrite orb_true_r. Qed.

Lemma run_early_gate uid cmd ps (i : Ircd M) h h' :
  registry i !! cmd = Some h → before_reg h = false → before_reg h' = false →
  run_command uid cmd ps false (with_handler cmd h' i) = with_handler cmd h' <$> run_command uid cmd ps false i.
Proof.
  intros Hr Hb Hb'. unfold run_command. cbn [registry with_handler]. rewrite lookup_insert_eq, Hr, Hb, Hb'. done.
Qed.

Lemma gates_early uid cmd ps (i : Ircd M) h h' :
  registry i !! cmd = Some h → before_reg h = false → before_reg h' = false →
  past_gates uid cmd ps false (with_handler cmd h' i) = with_handler cmd h' <$> past_gates uid cmd ps false i.
Proof.
  intros Hr Hb Hb'. unfold past_gates. cbn [modules server registry with_handler].
  destruct (ask _ _ _ _) as [[v ms] s]. destruct v; [done|].
  pose proof (λ ms' s', run_early_gate uid cmd ps (mkIrcd s' ms' (registry i)) h h' Hr Hb Hb') as Hrun.
  destruct (is_speech cmd); [|apply Hrun]. destruct ps as [|target [|text ps]]; [apply Hrun..|].
  cbn [modules server registry]. destruct (ask _ _ ms s) as [[v2 ms2] s2]. destruct v2; [done|]. apply Hrun.
Qed.

(** C19: A connection that has not registered cannot reach the handler of a command that is
    not marked for it: put any other handler in its place, and the same message has the
    same effect. *)
Theorem early_gate uid msg (i : Ircd M) h h' :
  registry i !! command msg = Some h → before_reg h = false → before_reg h' = false →
  dispatch uid msg false (with_handler (command msg) h' i)
  = with_handler (command msg) h' <$> dispatch uid msg false i.
Proof.
  destruct i as [s0 ms0 reg0]. intros Hr Hb Hb'. unfold dispatch. cbn [server registry with_handler]. rewrite !resolve_unregistered. cbn [andb].
  destruct (put_aside _ _ _ _) as [b s]. destruct b; [done|].
  by apply (gates_early uid (command msg) (params msg) (mkIrcd s ms0 reg0) h h').
Qed.

End conversations.
