(* ===== verification/DispatchRuns.v ===== *)
(** * Tags and capability lists, and runs of the dispatcher

    A tag the server adds to a line and the capability list it cuts into lines are
    read back as they were; then concrete clients, which witness the theorems
    about sessions and the dispatcher and show what the code gets wrong. *)

From Stdlib Require Import Ascii.
From S2P Require Import Prelude RustStr Message Glob Clock I18n Channel Numeric State Mode UserMode CoreMode Ban.
From S2P Require Import Watch Users Membership Account Filter Xline CoreChannel CoreMessage Multiline Password.
From S2P Require Import Welcome Registration CoreUser CoreInfo.
From S2P Require Import ConnClass Tables UserFacts RegisterFacts SessionFacts Handlers System Dispatch Registry Modules DispatchFacts.

Local Open Scope stdpp_scope.

(** ** Adding a tag to a line *)

Definition tags_of (m : Message) : Tags := mkTags (ctags m) (label m) (batch m) (concat m).

Definition put_tags (t : Tags) (m : Message) : Message :=
  mkMessage (source m) (command m) (params m) (t_ctags t) (t_label t) (t_batch t) (t_concat t).

(** What is left to read once the tags are off. *)
Definition parse_body_of (rest : string) : option Message :=
  '(src, rest) ← parse_source rest;
  let '(cmd, rest) :=
    match split_once " " rest with Some (c, r) => (c, trim_start_matches " " r) | None => (rest, "") end in
  if is_empty cmd then None else Some (mkMessage src (to_ascii_uppercase cmd) (parse_params rest) "" None None false).

Lemma parse_split line :
  parse line = '(t, rest) ← parse_tags (trim_start_matches " " line); put_tags t <$> parse_body_of rest.
Proof.
  unfold parse, parse_body_of. destruct (parse_tags _) as [[t rest]|]; [|done]. cbn [mbind option_bind].
  destruct (parse_source rest) as [[src r]|]; [|done]. cbn [mbind option_bind].
  destruct (split_once " " r) as [[c r']|]; [destruct (is_empty c)|destruct (is_empty r)]; done.
Qed.

Lemma split_last c a b : contains_byte c b = false → split c (a +:+ String c b) = split c a ++ [b].
Proof.
  intros Hb. induction a as [|x a IH].
  - rewrite (split_app c "" b) by done. by rewrite split_none.
  - change (String x a +:+ String c b) with (String x (a +:+ String c b)). cbn [split]. rewrite IH.
    case_bool_decide; [done|]. pose proof (split_nonempty c a). by destruct (split c a).
Qed.

(** *** The lines of CAP LS *)

(** What the lines built so far hold: none is over the budget, and read back they
    are the tokens put in. *)
Definition folded (budget : nat) (ts : list string) (acc : list string * string) : Prop :=
  acc.2 ≠ "" ∧ Forall (λ l, (str_len l <= budget)%nat) (acc.1 ++ [acc.2])
  ∧ mjoin (map (split " ") (acc.1 ++ [acc.2])) = ts.

Definition one_word (budget : nat) (t : string) : bool :=
  negb (is_empty t) && negb (contains_byte " " t) && (str_len t <=? budget).

Lemma fold_ls_folded budget ts t acc :
  one_word budget t = true → acc = ([], "") ∧ ts = [] ∨ folded budget ts acc → folded budget (ts ++ [t]) (fold_ls budget acc t).
Proof.
  unfold one_word. rewrite !andb_true_iff, !negb_true_iff, Nat.leb_le. intros [[He Hs] Hb].
  assert (t ≠ "") as Hne by (by destruct t).
  intros [[-> ->]|(Hc & Hf & Hj)].
  - unfold folded, fold_ls. cbn [is_empty negb andb fst snd app map]. change ("" +:+ t) with t.
    split_and!; [done|by apply Forall_singleton|]. rewrite split_none by done. done.
  - destruct acc as [full cur]. cbn [fst snd] in *. unfold fold_ls.
    assert (is_empty cur = false) as -> by (by destruct cur). cbn [negb andb].
    destruct (budget <? _) eqn:Eb.
    + unfold folded. cbn [fst snd is_empty]. change ("" +:+ t) with t. split_and!; [done| |].
      * rewrite Forall_app. split; [done|by apply Forall_singleton].
      * rewrite map_app, join_app, Hj. cbn. by rewrite split_none.
    + apply Nat.ltb_ge in Eb. unfold folded. cbn [fst snd].
      assert (is_empty cur = false) as -> by (by destruct cur).
      assert ((cur +:+ " ") +:+ t = cur +:+ String " " t) as -> by (by rewrite str_app_assoc).
      split_and!.
      * by destruct cur.
      * apply Forall_app in Hf as [Hf _]. apply Forall_app. split; [done|]. apply Forall_singleton.
        rewrite app_len. change (str_len (String " " t)) with (S (str_len t)). lia.
      * rewrite map_app, join_app in Hj |- *. cbn [map mjoin list_join] in Hj |- *. rewrite app_nil_r in Hj |- *.
        by rewrite split_last, app_assoc, Hj.
Qed.

Lemma ls_chunks_folded budget ts :
  Forall (λ t, one_word budget t = true) ts → ts ≠ [] → folded budget ts (foldl (fold_ls budget) ([], "") ts).
Proof.
  induction ts as [|t ts IH] using rev_ind; [done|]. intros [Hf Ht]%Forall_app _. inversion_clear Ht.
  rewrite foldl_app. cbn [foldl]. apply fold_ls_folded; [done|].
  destruct ts as [|t0 ts]; [by left|]. right. by apply IH.
Qed.

(** C32: The token list of CAP LS 302 is cut into lines: every line, with the command in
    front of it, has at most 501 bytes, and read one after the other the lines are the
    whole list. *)
Theorem cap_ls_lines c uid ts :
  (str_len (s_name c) + str_len (cap_target c uid) + 12 <= 500)%nat →
  ts ≠ [] → Forall (λ t, one_word (ls_budget c uid) t = true) ts →
  let chunks := ls_chunks (ls_budget c uid) ts in
  mjoin (map (split " ") chunks) = ts
  ∧ Forall (λ l, (str_len (":" +:+ s_name c +:+ " CAP " +:+ cap_target c uid +:+ " LS * :" +:+ l) <= 501)%nat) chunks.
Proof.
  intros Hn Hts Hw chunks. destruct (ls_chunks_folded _ _ Hw Hts) as (_ & Hf & Hj).
  assert (chunks = (foldl (fold_ls (ls_budget c uid)) ([], "") ts).1 ++ [(foldl (fold_ls (ls_budget c uid)) ([], "") ts).2])
    as -> by (unfold chunks, ls_chunks; by destruct (foldl _ _ _)).
  split; [done|]. eapply Forall_impl; [exact Hf|]. intros l Hl. cbn beta in Hl.
  rewrite !app_len. unfold ls_budget in Hl. cbn [str_len]. cbn. lia.
Qed.

(** *** Tag blocks *)

(** The tag block of a line in front of a body. *)
Lemma parse_tags_block tags body :
  contains_byte " " tags = false →
  parse_tags ("@" +:+ tags +:+ " " +:+ body)
  = Some (foldl tag_step no_tags (split ";" tags), trim_start_matches " " body).
Proof.
  intros Ht. unfold parse_tags. change ("@" +:+ ?x) with (String "@" x). rewrite strip_prefix_chr.
  rewrite bool_decide_true by done. change (" " +:+ body) with (String " " body). by rewrite split_once_app.
Qed.

Lemma put_tags_step t tag rest m :
  put_tags t <$> parse_body_of rest = Some m →
  put_tags (tag_step t tag) <$> parse_body_of rest = Some (put_tags (tag_step (tags_of m) tag) m).
Proof. intros E. apply fmap_Some in E as (m0 & -> & ->). cbn. by destruct t. Qed.

(** A tag added to a line is read back as the last of its tags, and changes nothing else of
    what the line says. *)
Theorem extra_tag_reads line tag m :
  starts_byte " " line = false → contains_byte " " tag = false → contains_byte ";" tag = false →
  parse line = Some m →
  parse (with_extra_tag line tag) = Some (put_tags (tag_step (tags_of m) tag) m).
Proof.
  intros Hs Ht1 Ht2. rewrite !parse_split, (trim_start_id _ line) by done. unfold with_extra_tag.
  assert (∀ x, trim_start_matches " " ("@" +:+ x) = "@" +:+ x) as Htrim by done.
  destruct (strip_prefix "@" line) as [rest|] eqn:Ea.
  - apply strip_prefix_Some in Ea as ->. unfold parse_tags at 1. change ("@" +:+ rest) with (String "@" rest).
    rewrite strip_prefix_chr, bool_decide_true by done. destruct (split_once " " rest) as [[tags body]|] eqn:Es; [|done].
    apply split_once_Some in Es as [_ Hc]. cbn [mbind option_bind]. intros E.
    rewrite <-(str_app_assoc ";" tag), <-(str_app_assoc tags), Htrim, parse_tags_block.
    + cbn [mbind option_bind]. change (";" +:+ tag) with (String ";" tag).
      rewrite split_last, foldl_app by done. cbn [foldl]. by apply put_tags_step.
    + by rewrite !contains_byte_app, Hc, Ht1.
  - unfold parse_tags at 1. rewrite Ea. cbn [mbind option_bind]. intros E.
    rewrite Htrim, parse_tags_block by done. cbn [mbind option_bind]. rewrite split_none by done. cbn [foldl].
    rewrite trim_start_id by done. by apply put_tags_step.
Qed.

Lemma extra_tag_reads_witness :
  parse (with_extra_tag "@time=x :irc.test PONG :1" "label=L7")
  = Some (mkMessage (Some "irc.test") "PONG" ["1"] "" (Some "L7") None false).
Proof.
  apply (extra_tag_reads "@time=x :irc.test PONG :1" "label=L7"
           (mkMessage (Some "irc.test") "PONG" ["1"] "" None None false)); reflexivity.
Defined.

(** ** Runs *)

Lemma some_default {A} (d : A) o : is_some o = true → o = Some (default d o).
Proof. by destruct o. Qed.

Lemma forallb_true {A} (p : A → bool) l : forallb p l = true → Forall (λ x, p x = true) l.
Proof. induction l as [|x l IH]; cbn; [by constructor|]. intros [Hx Hl]%andb_true_iff. constructor; [done|by apply IH]. Qed.

Lemma length_pos {A} (l : list A) : (0 <? length l) = true ↔ l ≠ [].
Proof. by destruct l. Qed.

Section runs.
#[local] Existing Instance ascii_only.
#[local] Existing Instance bare_outside.
#[local] Existing Instance bare_crypto.

Definition ircd_of (s : Server) : Ircd Mod := mkIrcd s default_modules command_table.

Lemma ircd_registry s : registry (ircd_of s) = command_table.
Proof. done. Qed.

(** A third client connects and registers by lines. *)
Definition carol_connects : Ircd Mod := ircd_of (connect 3 "10.0.0.3" demo).

Definition carol_lines : list (Uid * string) :=
  [(3, "JOIN #c"); (3, "CAP LS 302"); (3, "NICK carol"); (3, "CAP REQ :labeled-response batch");
   (3, "USER carol 0 * :Carol"); (3, "CAP END"); (3, "@label=L1 PING :here"); (3, "JOIN #c");
   (3, "PRIVMSG #c :hello"); (3, "NOSUCH a b"); (3, "KICK"); (3, "QUIT :bye")]%N.


(** What carol was sent, and that she is registered before she leaves. *)
Example carol_registers :
  (i ← feed (take 8 carol_lines) carol_connects; Some (is_reg (core (server i)) 3)) = Some true
  ∧ (i ← feed (take 1 carol_lines) carol_connects; out (io (server i)) !! 3%N)
    = Some [":irc.test 451 * :You have not registered"].
Proof. split; vm_compute; reflexivity. Qed.

Lemma early_gate_witness :
  dispatch 3 (mkMessage None "JOIN" ["#c"] "" None None false) false
    (with_handler "JOIN" (mkCommand 0 false (λ _ _ _, None)) carol_connects)
  = with_handler "JOIN" (mkCommand 0 false (λ _ _ _, None))
      <$> dispatch 3 (mkMessage None "JOIN" ["#c"] "" None None false) false carol_connects.
Proof.
  assert (before_reg <$> command_table !! "JOIN" = Some false) as Hb by (vm_compute; reflexivity).
  apply fmap_Some in Hb as (h & Eh & Hb). rewrite <-(ircd_registry (connect 3 "10.0.0.3" demo)) in Eh.
  exact (early_gate 3 (mkMessage None "JOIN" ["#c"] "" None None false) carol_connects h
           (mkCommand 0 false (λ _ _ _, None)) Eh (eq_sym Hb) eq_refl).
Defined.

(** *** A spam filter and a message in parts *)

Definition spam_rule : SpamFilter := mkSpamFilter "*spam*" "glob" "block" 0 "No spam" (GlobMatcher "*spam*").

Definition filtered : Ircd Mod := ircd_of (upd (λ c, c <| s_filters := mkFilters [spam_rule] None [] |>) demo).

(** What bob is sent while alice's lines are handled. *)
Definition bob_hears (ls : list string) : option (list string) :=
  i ← feed (map (pair 1%N) ls) filtered;
  Some (drop (length (default [] (out (io (server filtered)) !! 2%N))) (default [] (out (io (server i)) !! 2%N))).

(** A message the spam filter stops goes through when it is sent as a multi-line batch:
    neither the parts nor the assembled lines are shown to the modules. *)
Theorem batch_passes_filter :
  bob_hears ["PRIVMSG #c :buy spam now"] = Some []
  ∧ bob_hears ["BATCH +r draft/multiline #c"; "@batch=r PRIVMSG #c :buy spam now"; "BATCH -r"]
    = Some [":Alice!@10.0.0.1 PRIVMSG #c :buy spam now"].
Proof. split; vm_compute; reflexivity. Qed.

(** *** A class without fake lag *)

Definition configured (cfg : gmap string (list string)) (s : Server) : Server := upd (λ c, c <| raw_config := cfg |>) s.

Lemma configured_wf cfg s : wf (core s) → wf (core (configured cfg s)).
Proof. intros W. eapply wf_proper, W. by split. Qed.

Definition strict : Ircd Mod :=
  ircd_of (configured {["connectclass" := ["main penaltythreshold=2 fakelag=no"]]} demo).

(** The third message in a second is over the limit of alice's class, which asks
    for a disconnection; she is still there, and stays while she goes on. *)
Example flood_quit_waits :
  (i ← feed (replicate 5 (1%N, "PRIVMSG #c :x")) strict;
   Some (is_reg (core (server i)) 1, session (core (server i)) 1 ≫= ss_quitting))
  = Some (true, Some "Excess flood")
  ∧ (i ← feed (replicate 5 (1%N, "PRIVMSG #c :x") ++ [(1%N, "PING :x")]) strict;
     Some (is_some (users (core (server i)) !! 1%N))) = Some false.
Proof. split; vm_compute; reflexivity. Qed.

(** *** A class with limits and a password *)

Definition gated : Server :=
  configured {["connectclass" := ["main limit=3 localmax=1 password=sesame"]]} (connect 3 "10.0.0.3" demo).

Lemma gated_wf : wf (core gated).
Proof.
  apply configured_wf, reachable_wf, reach_conn; [apply demo_reachable|vm_compute; reflexivity].
Qed.

Definition no_user : User := new_user "" "" 0 false None (None, None) 0.
Definition user_of (s : Server) (uid : Uid) : User := default no_user (users (core s) !! uid).
Definition main_class : ConnClass := default (fresh_class "") (named (core gated) "main").
Definition carol_assigned : Server := (assign 3 gated).2.

Lemma assign_limits_witness :
  ∃ cc, cc ∈ all_classes (core gated) ∧ cc_name cc = "main"
    ∧ class_fits cc (client_of (user_of gated 3) "") = true
    ∧ cc_deny cc = false ∧ within_limits (core carol_assigned) cc (u_ip (user_of gated 3)).
Proof.
  assert (users (core gated) !! 3%N = Some (user_of gated 3)) as Hu by (vm_compute; reflexivity).
  assert (u_class (user_of gated 3) = None) as Hn by (vm_compute; reflexivity).
  assert ((assign 3 gated).1 = None) as Ha by (vm_compute; reflexivity).
  assert (uget u_class (core carol_assigned) 3 = Some (Some "main")) as Hc by (vm_compute; reflexivity).
  apply (assign_limits 3 (user_of gated 3) gated carol_assigned "main" gated_wf Hu Hn); [|exact Hc].
  rewrite <-Ha. apply surjective_pairing.
Defined.

(** Carol has sent the password of her class, and her name. *)
Definition carol_ready : Server :=
  with_session 3 (λ ss, ss <| ss_pass := Some "sesame" |>) (set_nick 3 "carol" carol_assigned).
Definition carol_admitted : Server := default carol_ready (final_checks 3 carol_ready).


(** Without the password the same client is let go. *)
Example wrong_password :
  (s ← final_checks 3 (with_session 3 (λ ss, ss <| ss_pass := Some "open" |>) carol_ready);
   Some (is_some (users (core s) !! 3%N))) = Some false
  ∧ uget u_class (core carol_admitted) 3 = Some (Some "main")
  ∧ cc_password main_class = Some "sesame".
Proof. split_and!; vm_compute; reflexivity. Qed.

(** *** The capabilities bob is offered *)

Definition offered : list string :=
  filter (λ t, is_empty t = false) (split " " (ls_payload (core demo) 2 true)).

Lemma cap_ls_lines_witness :
  let chunks := ls_chunks (ls_budget (core demo) 2) offered in
  mjoin (map (split " ") chunks) = offered
  ∧ Forall (λ l, (str_len (":" +:+ s_name (core demo) +:+ " CAP " +:+ cap_target (core demo) 2 +:+ " LS * :" +:+ l)
                  <= 501)%nat) chunks.
Proof.
  assert ((str_len (s_name (core demo)) + str_len (cap_target (core demo) 2) + 12 <=? 500) = true) as Hn
    by (vm_compute; reflexivity).
  assert (forallb (one_word (ls_budget (core demo) 2)) offered = true) as Hf by (vm_compute; reflexivity).
  assert ((0 <? length offered) = true) as Hl by (vm_compute; reflexivity).
  apply (cap_ls_lines (core demo) 2 offered).
  - apply Nat.leb_le, Hn.
  - exact (proj1 (length_pos _) Hl).
  - exact (forallb_true _ _ Hf).
Defined.

(** *** What an outsider is shown *)

Definition secret_room : Core :=
  with_chan "#c" (λ ch, ch <| modes ::= (λ m, m <| secret := true |>) |>) (core (connect 3 "10.0.0.3" demo)).

Lemma hidden_channel_unseen_witness :
  list_rows secret_room 3 ≡ₚ list_rows (forget_channel "#c" secret_room) 3
  ∧ ∀ target spec, omap (who_row secret_room 3 spec) (who_targets secret_room 3 target)
      = omap (who_row (forget_channel "#c" secret_room) 3 spec)
          (who_targets (forget_channel "#c" secret_room) 3 target).
Proof.
  assert (is_hidden <$> channels secret_room !! "#c" = Some true) as Hh by (vm_compute; reflexivity).
  assert (channels secret_room !! "#c" ≫= (λ ch, members ch !! 3%N) = None) as Hm by (vm_compute; reflexivity).
  assert (has_priv secret_room 3 CHANNELS_AUSPEX = false) as Hp by (vm_compute; reflexivity).
  apply fmap_Some in Hh as (ch & Hk & Hh). rewrite Hk in Hm.
  exact (hidden_channel_unseen secret_room 3 "#c" ch Hk (eq_sym Hh) Hm Hp).
Defined.

(** Bob has a virtual host; alice asks. *)
Definition with_vhost : Core := with_user 2 (λ u, u <| u_vhost := Some "staff.test" |>) (core demo).

Lemma address_unseen_witness :
  let c' := with_user 2 (move_to "203.0.113.9" "real.example") with_vhost in
  (∀ target spec, omap (who_row c' 1 spec) (who_targets c' 1 target)
                  = omap (who_row with_vhost 1 spec) (who_targets with_vhost 1 target))
  ∧ ∀ nicks : list string, omap (userhost_part c') nicks = omap (userhost_part with_vhost) nicks.
Proof.
  assert (cloaked <$> users with_vhost !! 2%N = Some true) as Hc by (vm_compute; reflexivity).
  assert (is_oper with_vhost 1 = false) as Ho by (vm_compute; reflexivity).
  apply fmap_Some in Hc as (u & Hu & Hc).
  exact (address_unseen with_vhost 1 2 u "203.0.113.9" "real.example" Hu (eq_sym Hc) ltac:(lia) Ho).
Defined.

(** What the two questions are answered. *)
Example who_answers :
  omap (who_row with_vhost 1 None) (who_targets with_vhost 1 "bob")
  = [(RPL_WHOREPLY, "*  staff.test irc.test bob H :0 ")]
  ∧ list_rows (core demo) 3 = ["#C 2 :"] ∧ list_rows secret_room 3 = [].
Proof. split_and!; vm_compute; reflexivity. Qed.

End runs.
