(* ===== verification/OperRights.v ===== *)
(** * Who may do what as an operator

    How a user becomes an operator, what an operator type allows, and what the
    operator commands refuse. *)

From Stdlib Require Import Ascii.
From S2P Require Import Prelude RustStr Message Glob Clock I18n Channel Numeric State Mode UserMode CoreMode Ban.
From S2P Require Import Watch Users Membership Account Filter Xline CoreChannel Bcrypt Password OperTypes OperAuth.
From S2P Require Import Link CoreOper Tables UserFacts XlineFacts LinkSafe Handlers OperFacts System.

Local Open Scope stdpp_scope.

(** ** Operators only *)

(** The commands behind the operator flag. *)
Definition needs_oper (cmd : Cmd) : bool :=
  match cmd with
  | COper (OOper _ _) | COper (OChallenge _) => false
  | COper _ | CXline _ _ _ | CRline _ _ => true
  | _ => false
  end.

(** ** Credentials *)

(** The TLS certificate a block asks for. *)
Definition certificate_ok (c : Core) (uid : Uid) (b : OperBlock) : Prop :=
  ∀ want, ob_fingerprint b = Some want → fp_matches c uid want = true.

Definition becomes_oper (uid : Uid) (s s' : Server) : Prop :=
  is_oper (core s) uid = false ∧ is_oper (core s') uid = true.

(** ** Types *)

(** The classes a type is made of. *)
Definition class_of_type (td : TypeDef) (classes : gmap string ClassDef) (cd : ClassDef) : Prop :=
  ∃ n, classes !! n = Some cd ∧ (td_all_classes td = true ∨ n ∈ td_classes td).

(** A type may use a command that it or one of its classes allows, unless it or
    one of its classes denies it. *)
Definition type_may (td : TypeDef) (classes : gmap string ClassDef) (cmd : string) : Prop :=
  (td_all_commands td = true ∨ td_all_classes td = true ∨ cmd ∈ td_commands td
   ∨ (∃ cd, class_of_type td classes cd ∧ (cd_all_commands cd = true ∨ cmd ∈ cd_commands cd)))
  ∧ cmd ∉ td_deny_commands td
  ∧ ∀ cd, class_of_type td classes cd → cmd ∉ cd_deny_commands cd.

Lemma add_classes_commands cds g :
  let g' := foldl add_class g cds in
  (g_all_commands g' = true ↔ g_all_commands g = true ∨ (∃ cd, cd ∈ cds ∧ cd_all_commands cd = true))
  ∧ (∀ c, c ∈ g_commands g' ↔ c ∈ g_commands g ∨ (∃ cd, cd ∈ cds ∧ c ∈ cd_commands cd))
  ∧ (∀ c, c ∈ g_deny_commands g' ↔ c ∈ g_deny_commands g ∨ (∃ cd, cd ∈ cds ∧ c ∈ cd_deny_commands cd)).
Proof.
  cbn zeta. revert g. induction cds as [|cd cds IH]; intros g; cbn [foldl]; [set_solver|].
  destruct (IH (add_class g cd)) as (H1' & H2' & H3'). cbn [add_class g_all_commands g_commands g_deny_commands] in *.
  split_and!.
  - rewrite H1', orb_true_iff. set_solver.
  - intros c. rewrite H2', elem_of_union, elem_of_list_to_set. set_solver.
  - intros c. rewrite H3', elem_of_union, elem_of_list_to_set. set_solver.
Qed.

(** The classes [resolve] goes through. *)
Lemma resolved_classes td (classes : gmap string ClassDef) cd :
  cd ∈ omap (λ n, classes !! n) (if td_all_classes td then map fst (map_to_list classes) else td_classes td)
  ↔ class_of_type td classes cd.
Proof.
  unfold class_of_type. rewrite list_elem_of_omap. destruct (td_all_classes td).
  - split; [intros (n & _ & E); by eauto|]. intros (n & E & _). exists n. split; [|done].
    apply list_elem_of_fmap. exists (n, cd). split; [done|]. by apply elem_of_map_to_list.
  - split; [intros (n & Hn & E); by eauto|]. intros (n & E & [?|Hn]); [done|by eauto].
Qed.

Lemma resolve_allows td classes cmd : type_allows (granted (resolve td classes)) cmd = true ↔ type_may td classes cmd.
Proof.
  unfold resolve. cbn zeta. set (names := if td_all_classes td then _ else _).
  destruct (add_classes_commands (omap (λ n, classes !! n) names) (type_grant td)) as (H1' & H2' & H3').
  unfold type_allows, granted. cbn [all_commands commands deny_commands rv_all_commands rv_commands rv_deny_commands].
  rewrite andb_true_iff, orb_true_iff, negb_true_iff, bool_decide_eq_true, bool_decide_eq_false, H1', H2', H3'.
  cbn [type_grant g_all_commands g_commands g_deny_commands]. rewrite !elem_of_list_to_set, orb_true_iff.
  unfold type_may. setoid_rewrite <-(resolved_classes td classes). clear. split.
  - intros [Hg Hd]. split; [destruct Hg as [[[?|?]|(cd & ? & ?)]|[?|(cd & ? & ?)]]; eauto 7|].
    split; [tauto|]. intros cd Hc Hi. apply Hd. eauto.
  - intros (Hg & Hd & Hc). split; [destruct Hg as [?|[?|[?|(cd & ? & [?|?])]]]; eauto 7|].
    intros [?|(cd & ? & ?)]; [done|by eapply Hc].
Qed.

Section rights.
Context `{UnicodeLower} `{Outside} `{Crypto}.

(** What OPER accepts on the spot. *)
Definition password_ok (b : OperBlock) (pass : string) : Prop :=
  ob_ldap_dn b = None
  ∧ (ob_password b = "*" ∨ (is_slow (ob_password b) = false ∧ verify (ob_password b) pass = true)).

(** What OPER leaves to a worker: the block's own hash, or its directory entry. *)
Definition check_for (b : OperBlock) (pass : string) (ck : Check) : Prop :=
  match ob_ldap_dn b with
  | Some tmpl => ∃ server tls, ck = CheckLdap server (replace_pct tmpl (ob_name b)) pass tls
  | None => ck = CheckHash (ob_password b) pass
  end.

(** ** The operator flag is the only way in *)

Lemma if_oper_refused uid h s :
  is_oper (core s) uid = false → ∃ text, if_oper uid h s = Some (CmdFail, numeric uid ERR_NOPRIVILEGES text s).
Proof. intros Ho. unfold if_oper, require_oper. rewrite Ho. by eexists. Qed.

Lemma oper_exec_refused uid cmd s :
  needs_oper (COper cmd) = true → is_oper (core s) uid = false →
  ∃ text, oper_exec uid cmd s = Some (CmdFail, numeric uid ERR_NOPRIVILEGES text s).
Proof.
  intros Hn Ho. destruct cmd; try discriminate Hn; cbn [oper_exec]; try (by apply if_oper_refused).
  - unfold mkpasswd_cmd. rewrite Ho. by eexists.
  - unfold svslogin_cmd, account_gate. rewrite Ho. by eexists.
  - unfold svslogout_cmd, account_gate. rewrite Ho. by eexists.
  - unfold jupe_cmd, do_xline, require_oper. rewrite Ho. by eexists.
Qed.


(** ** OPER *)

Lemma find_first_elem {A} (p : A → bool) l x : find_first p l = Some x → x ∈ l ∧ p x = true.
Proof.
  intros E. split; [|by eapply find_first_holds]. revert E.
  induction l as [|y l IH]; cbn [find_first]; [done|]. destruct (p y); [intros [= <-]|]; set_solver.
Qed.

Lemma find_block_named c name b :
  find_block c (λ o, String.eqb (ob_name o) name) = Some b → b ∈ opers c ∧ ob_name b = name.
Proof. intros [E1 E2]%find_first_elem. split; [done|]. by apply String.eqb_eq. Qed.

Lemma certificate_checked c uid b :
  map_or false (λ want, negb (fp_matches c uid want)) (ob_fingerprint b) = false → certificate_ok c uid b.
Proof. intros E want Hw. rewrite Hw in E. cbn in E. by apply negb_false_iff. Qed.

Lemma check_later_cases uid ck b s r s' :
  check_later uid ck b s = Some (r, s') →
  s' = start_job (JobOper uid ck (ob_level b) (ob_type b)) s ∨ (r = CmdFail ∧ core s' = core s).
Proof.
  unfold check_later, spawn_crypto. destruct (_ <=? _); [|intros [= _ <-]; by left].
  intros [= <- <-]. right. split; [done|]. apply numeric_outputs.
Qed.


(** The answer of a worker makes an operator only when the check it was given holds. *)
Theorem worker_needs_credential uid s n ck level t :
  jobs (io s) !! n = Some (JobOper uid ck level t) → becomes_oper uid s (job_done n s) → run_check ck = true.
Proof.
  intros Hj [Hf Ht]. destruct (run_check ck) eqn:E; [done|]. unfold job_done in Ht.
  rewrite Hj in Ht. cbn zeta in Ht. rewrite E in Ht. unfold oper_auth in Ht.
  destruct (is_some _); [rewrite numeric_outputs in Ht|]; cbn in Ht; congruence.
Qed.

(** ** CHALLENGE *)

Lemma set_challenge_user uid ch s :
  users (core (set_challenge uid ch s)) !! uid = (λ u, u <| u_challenge := ch |>) <$> users (core s) !! uid.
Proof. unfold set_challenge. rewrite core_upd. unfold with_user; cbn. by rewrite lookup_alter_eq. Qed.

Lemma set_challenge_flags uid ch s v : is_oper (core (set_challenge uid ch s)) v = is_oper (core s) v.
Proof.
  unfold is_oper. destruct (decide (uid = v)) as [<-|Hne].
  - rewrite set_challenge_user. by destruct (users (core s) !! uid).
  - unfold set_challenge. rewrite core_upd. unfold with_user; cbn. by rewrite lookup_alter_ne.
Qed.

Lemma set_challenge_certificate uid ch s b :
  certificate_ok (core (set_challenge uid ch s)) uid b → certificate_ok (core s) uid b.
Proof.
  intros Hc want Hw. rewrite <-(Hc want Hw). unfold fp_matches. rewrite set_challenge_user.
  by destruct (users (core s) !! uid).
Qed.

(** A branch that only talks makes no operator. *)
Ltac only_talks E := injection E as _ <-; by rewrite numeric_outputs, ?snotice_c_outputs.

Lemma challenge_issue_oper uid n s r s' :
  challenge_issue uid n s = Some (r, s') → is_oper (core s') uid = is_oper (core s) uid.
Proof.
  intros E. unfold challenge_issue in E. destruct (find_block _ _) as [b|]; [|only_talks E].
  destruct (ob_rsa_key b) as [path|]; [|discriminate E]. cbn [mbind option_bind] in E.
  destruct (read_file path); [|only_talks E]. destruct (make_challenge _) as [[]|]; [|only_talks E].
  injection E as _ <-. rewrite numeric_outputs, for_each_outputs by (intros; apply numeric_outputs).
  apply set_challenge_flags.
Qed.

Lemma challenge_response_cases uid resp s r s' :
  challenge_response uid resp s = Some (r, s') →
  is_oper (core s') uid = is_oper (core s) uid
  ∨ ∃ u ch b, resp = rc_expected ch ∧ users (core s) !! uid = Some u ∧ u_challenge u = Some ch
      ∧ (clock (core s) - rc_at ch <= 60)%N ∧ b ∈ opers (core s) ∧ ob_name b = rc_name ch
      ∧ is_some (ob_rsa_key b) = true ∧ certificate_ok (core s) uid b.
Proof.
  intros E. unfold challenge_response in E.
  destruct (users (core s) !! uid) as [u|] eqn:Hu; cbn [mbind option_bind] in E; [|left; only_talks E].
  destruct (u_challenge u) as [ch|] eqn:Hch; [|left; only_talks E].
  cbn zeta in E. rewrite <-(set_challenge_flags uid None s uid). pose proof (set_challenge_certificate uid None s) as Hcert.
  set (s1 := set_challenge uid None s) in *.
  change (clock (core s1)) with (clock (core s)) in E. change (opers (core s)) with (opers (core s1)).
  destruct (_ <? _)%N eqn:Et; [left; only_talks E|].
  destruct (ct_eq resp (rc_expected ch)) eqn:Eq; cbn [negb] in E; [|left; only_talks E].
  destruct (find_block _ _) as [b|] eqn:Eb; [|left; only_talks E].
  destruct (map_or _ _ _) eqn:Ec; [left; only_talks E|]. right.
  apply find_first_elem in Eb as [Hin [Hn Hk]%andb_true_iff]. exists u, ch, b.
  apply String.eqb_eq in Hn. apply String.eqb_eq in Eq as <-. apply N.ltb_ge in Et.
  split_and!; try done. by apply Hcert, certificate_checked.
Qed.

(** C33: CHALLENGE makes an operator only of somebody who answers, within a minute, the
    challenge they were sent, for a configured block with a key and with the certificate
    that block asks for. *)
Theorem challenge_needs_answer uid arg s r s' :
  challenge_cmd uid arg s = Some (r, s') → becomes_oper uid s s' →
  ∃ u ch b, arg = "+" +:+ rc_expected ch ∧ users (core s) !! uid = Some u ∧ u_challenge u = Some ch
    ∧ (clock (core s) - rc_at ch <= 60)%N ∧ b ∈ opers (core s) ∧ ob_name b = rc_name ch
    ∧ is_some (ob_rsa_key b) = true ∧ certificate_ok (core s) uid b.
Proof.
  unfold challenge_cmd. intros E [Hf Ht]. destruct (strip_prefix "+" arg) as [resp|] eqn:Ea.
  - apply strip_prefix_Some in Ea as ->.
    destruct (challenge_response_cases _ _ _ _ _ E) as [?|(u & ch & b & -> & ?)]; [congruence|].
    by exists u, ch, b.
  - apply challenge_issue_oper in E. congruence.
Qed.

(** ** KILL *)

Lemma remove_user_dom tuid reason s : dom (users (core (remove_user tuid reason s))) = dom (users (core s)) ∖ {[tuid]}.
Proof.
  apply set_eq. intros i. rewrite elem_of_difference, elem_of_singleton, !elem_of_dom.
  pose proof (remove_user_identity tuid reason s i) as E. unfold uget in E.
  destruct (decide (i = tuid)) as [->|Hne]; destruct (users (core (remove_user tuid reason s)) !! _) as [u|] eqn:E1; cbn in E.
  - done.
  - split; [by intros []|by intros []].
  - destruct (users (core s) !! i); [|done]. split; [|by eauto]. intros _. by eauto.
  - destruct (users (core s) !! i); [done|]. split; [by intros []|by intros [[] _]].
Qed.

(** KILL of a local user by an operator: a protected service and an operator of a higher
    level survive, with one refusal as the only effect; anybody else is gone, and only
    they. *)
Theorem kill_exact uid target why tuid s :
  is_oper (core s) uid = true → find_nick (core s) target = Some tuid →
  ∃ r s', kill_cmd uid target why s = Some (r, s')
    ∧ (if uid_servprotected (core s) tuid
          || (is_oper (core s) tuid && (oper_level (core s) uid <? oper_level (core s) tuid)%N)
       then r = CmdFail ∧ ∃ text, s' = numeric uid ERR_NOPRIVILEGES text s
       else r = CmdOk ∧ dom (users (core s')) = dom (users (core s)) ∖ {[tuid]}).
Proof.
  intros Ho Hn. unfold kill_cmd, if_oper, require_oper. rewrite Ho. cbn zeta. rewrite Hn.
  destruct (uid_servprotected _ _); cbn [orb]; [by do 2 eexists; eauto|]. unfold deny_kill.
  destruct (is_oper (core s) tuid); cbn [negb andb]; [destruct (_ <? _)%N|]; [by do 2 eexists; eauto|..].
  all: eexists CmdOk, _; split; [reflexivity|]; split; [done|].
  all: by rewrite remove_user_dom, send_outputs.
Qed.

(** ** The gate in front of the operator commands *)

(** An operator of a configured type gets past the gate with a gated command exactly when
    the type, or one of its classes, allows the command and none of them denies it: a
    denial wins over every permission, whatever the order of the classes. *)
Theorem opertype_gate_exact uid cmd td classes s u :
  users (core s) !! uid = Some u → oper (u_flags u) = true → u_opertype u = Some (granted (resolve td classes)) →
  gated cmd = true →
  ((opertypes_pre_command uid cmd s).1 = Passthru ↔ type_may td classes (to_ascii_uppercase cmd))
  ∧ core (opertypes_pre_command uid cmd s).2 = core s.
Proof.
  intros Hu Ho Ht Hg. unfold opertypes_pre_command, is_oper. rewrite Hu, Hg.
  change (map_or false _ (Some u)) with (oper (u_flags u)). rewrite Ho. cbn [negb orb mbind option_bind]. rewrite Ht.
  rewrite <-resolve_allows. destruct (type_allows _ _); cbn [fst snd]; [done|]. split; [done|apply numeric_outputs].
Qed.

End rights.
