(* ===== verification/OperRuns.v ===== *)
(** * Operators on a concrete server

    Alice logs in as an operator; the theorems of [OperRights] at this run, and
    runs that show where the operator code falls short of what it says. *)

From Stdlib Require Import Ascii.
From S2P Require Import Prelude RustStr Message Glob Clock I18n Channel Numeric State Mode UserMode CoreMode Ban.
From S2P Require Import Watch Users Membership Account Filter Xline CoreChannel Bcrypt Password PasswordFacts OperTypes OperAuth.
From S2P Require Import Link CoreOper Tables UserFacts XlineFacts LinkSafe Handlers OperFacts System OperRights.

Local Open Scope stdpp_scope.

Section runs.
#[local] Existing Instance ascii_only.
#[local] Existing Instance bare_outside.
#[local] Existing Instance toy_crypto.

Definition op_conf : gmap string (list string) :=
  {["opertype" := ["Staff commands=KILL"; "tech classes=ban commands=-KILL"]]}.

(** The blocks the configuration's lines give. *)
Definition op_blocks : list OperBlock :=
  omap oper_line ["root hunter2 100"; "tech hunter2 50 type=tech"; "keyed rsakey=/etc/oper.pem";
                  "boss hunter2 type=Staff"; "slow pbkdf2:1:61:78"].

Definition op_boot : Server := boot "irc.test" "0AA" 1000 op_conf ∅ None [] [] op_blocks "" "" "" [].

Definition op_users : Server :=
  set_nick 3 "carol" (connect 3 "10.0.0.3"
    (set_nick 2 "bob" (upd (register_tables 2) (connect 2 "10.0.0.2"
      (set_nick 1 "alice" (upd (register_tables 1) (connect 1 "10.0.0.1" op_boot))))))).

Definition op_run (uid : Uid) (cmd : OperCmd) (s : Server) : Server := default s (exec uid (COper cmd) s).

Definition op_root : Server := op_run 1 (OOper "root" "hunter2") op_users.
Definition op_tech : Server := op_run 2 (OOper "tech" "hunter2") op_root.
Definition op_asked : Server := op_run 1 (OChallenge "keyed") op_users.
Definition op_slow : Server := op_run 1 (OOper "slow" "x") op_users.

Definition user_in (s : Server) (uid : Uid) : User :=
  default (new_user "" "" 0 false None (None, None) 0) (users (core s) !! uid).

(** ** The theorems at this run *)


Definition op_granted : CmdResult * Server := default (CmdFail, op_users) (oper_cmd 1 "root" "hunter2" op_users).


Lemma worker_needs_credential_witness :
  becomes_oper 1 op_slow (job_done 0 op_slow) ∧ run_check (CheckHash "pbkdf2:1:61:78" "x") = true.
Proof.
  assert (becomes_oper 1 op_slow (job_done 0 op_slow)) as Hb by (split; vm_compute; reflexivity).
  split; [exact Hb|]. apply (worker_needs_credential 1 op_slow 0 _ 0 None); [vm_compute; reflexivity|exact Hb].
Defined.

Definition op_answer : string := "+" +:+ map_or "" rc_expected (u_challenge (user_in op_asked 1)).
Definition op_answered : CmdResult * Server := default (CmdFail, op_asked) (challenge_cmd 1 op_answer op_asked).

Lemma challenge_needs_answer_witness :
  ∃ u ch b, op_answer = "+" +:+ rc_expected ch ∧ users (core op_asked) !! 1%N = Some u ∧ u_challenge u = Some ch
    ∧ (clock (core op_asked) - rc_at ch <= 60)%N ∧ b ∈ opers (core op_asked) ∧ ob_name b = rc_name ch
    ∧ is_some (ob_rsa_key b) = true ∧ certificate_ok (core op_asked) 1 b.
Proof.
  apply (challenge_needs_answer 1 op_answer op_asked op_answered.1 op_answered.2);
    [vm_compute; reflexivity|split; vm_compute; reflexivity].
Defined.

(** Tech, of level 50, cannot kill alice, of level 100, who can kill tech. *)
Lemma kill_exact_witness :
  ∃ r s', kill_cmd 2 "alice" None op_tech = Some (r, s')
    ∧ (if uid_servprotected (core op_tech) 1
          || (is_oper (core op_tech) 1 && (oper_level (core op_tech) 2 <? oper_level (core op_tech) 1)%N)
       then r = CmdFail ∧ ∃ text, s' = numeric 2 ERR_NOPRIVILEGES text op_tech
       else r = CmdOk ∧ dom (users (core s')) = dom (users (core op_tech)) ∖ {[1%N]}).
Proof. apply (kill_exact 2 "alice" None 1 op_tech); vm_compute; reflexivity. Defined.

Definition op_classes : gmap string ClassDef := foldl class_line builtin_classes (conf_all (core op_tech) "class").
Definition op_tech_type : TypeDef :=
  default default_type (foldl type_line builtin_types (conf_all (core op_tech) "opertype") !! "tech").

(** Tech's type takes KILL out of the class that has it. *)
Lemma opertype_gate_exact_witness :
  (opertypes_pre_command 2 "kill" op_tech).1 = Deny
  ∧ ((opertypes_pre_command 2 "kill" op_tech).1 = Passthru ↔ type_may op_tech_type op_classes (to_ascii_uppercase "kill"))
  ∧ core (opertypes_pre_command 2 "kill" op_tech).2 = core op_tech.
Proof.
  split; [vm_compute; reflexivity|].
  apply (opertype_gate_exact 2 "kill" op_tech_type op_classes op_tech (user_in op_tech 2)); vm_compute; reflexivity.
Defined.

(** ** Where the code falls short *)

(** A block whose only credential is a key is meant for CHALLENGE, but OPER with
    an empty password makes an operator. *)
Theorem key_only_block_needs_no_key :
  ∃ b m, oper_line "keyed rsakey=/etc/oper.pem" = Some b ∧ b ∈ opers (core op_users)
    ∧ parse "OPER keyed :" = Some m ∧ params m = ["keyed"; ""]
    ∧ becomes_oper 1 op_users (op_run 1 (OOper "keyed" "") op_users).
Proof.
  eexists _, _. split; [vm_compute; reflexivity|]. split.
  { apply (list_elem_of_lookup_2 _ 2). vm_compute. reflexivity. }
  split; [vm_compute; reflexivity|]. split; [reflexivity|]. split; vm_compute; reflexivity.
Qed.

(** SAJOIN takes a client that has not registered into a channel; when it leaves
    the channel keeps it as a member for ever. *)
Theorem sajoin_leaves_a_ghost :
  let s := remove_user 3 "gone" (op_run 1 (OSajoin "carol" "#c") op_root) in
  users (core s) !! 3%N = None ∧ is_member (core s) 3 "#c" = true.
Proof. split; vm_compute; reflexivity. Qed.

(** A configured type whose name has a capital is never found: its operators
    have no type, and no command is denied to them. *)
Theorem capital_type_grants_everything :
  let s := op_run 1 (OOper "boss" "hunter2") op_users in
  is_oper (core s) 1 = true ∧ u_opertype (user_in s 1) = None
  ∧ ∀ cmd, opertypes_pre_command 1 cmd s = (Passthru, s).
Proof.
  cbn zeta. split; [vm_compute; reflexivity|]. split; [vm_compute; reflexivity|]. intros cmd.
  set (s := op_run _ _ _).
  assert (users (core s) !! 1%N ≫= u_opertype = None) as E by (vm_compute; reflexivity).
  unfold opertypes_pre_command. rewrite E. by destruct (_ || _).
Qed.

(** JUPE is not among the gated commands. *)
Theorem jupe_is_not_gated uid (s : Server) : opertypes_pre_command uid "JUPE" s = (Passthru, s).
Proof. unfold opertypes_pre_command. change (gated "JUPE") with false. by rewrite orb_true_r. Qed.

End runs.
