(* ===== verification/SpeechRuns.v ===== *)
(** * Messages and bans on a concrete server

    The theorems about messages and server bans at the run [demo] of [System]:
    alice (1) created [#c] and bob (2) is in it. *)

From Stdlib Require Import Ascii.
From S2P Require Import Prelude RustStr Message Glob Clock I18n Channel Numeric State Mode UserMode CoreMode.
From S2P Require Import Ban Membership Watch Users Xline CoreChannel CoreMessage Password Tables.
From S2P Require Import XlineFacts MessageFacts SpeechFacts System.

Local Open Scope stdpp_scope.

Section runs.
#[local] Existing Instance ascii_only.
#[local] Existing Instance bare_outside.
#[local] Existing Instance bare_crypto.

Definition banning : Server :=
  add_xline_at Kline "*@evil.example" 3600 "Alice" "no thanks" 1000
    (add_xline_at Qline "root" 0 "Alice" "reserved" 990 demo).

(** A call whose result evaluates leaves some state, which need not be unfolded. *)
Lemma outcome {A B} (p : A * B) x : p.1 = x → ∃ y, p = (x, y).
Proof. destruct p; cbn. intros ->. by eexists. Qed.

Lemma strip_removes_formatting_witness : strip_formatting "plain text" = "plain text".
Proof. exact (proj2 (strip_removes_formatting "plain text") eq_refl). Defined.

Lemma xlines_unique_witness : unique_lines (core (purge_xlines banning)).
Proof.
  assert (unique_lines (core banning)) as Hu.
  { assert (xlines (core banning) = [mkXLine Qline "root" "reserved" "Alice" 0 990;
      mkXLine Kline "*@evil.example" "no thanks" "Alice" 4600 1000]) as E by (vm_compute; reflexivity).
    unfold unique_lines. rewrite E. apply (bool_decide_unpack _). vm_compute. exact I. }
  exact (proj2 (proj2 (proj1 (xlines_unique banning) Hu))).
Defined.


Lemma message_recipients_witness :
  inbox (to_channel_tagged "#c" 1 "" "id" ":Alice PRIVMSG #c :hi" false demo) 2
  = inbox demo 2 ++ [line_for (core demo) 2 1 "" "id" ":Alice PRIVMSG #c :hi"].
Proof.
  assert (is_member (core demo) 2 "#c" && hears (core demo) "#c" 1 false 2 = true) as E
    by (vm_compute; reflexivity).
  assert (uncaptured demo) as Hq by (vm_compute; reflexivity).
  rewrite (message_recipients "#c" 1 "" "id" ":Alice PRIVMSG #c :hi" false demo 2 Hq).
  by rewrite E.
Defined.

Definition moderated_demo : Server := run 1 (CMode "#c" ["+m"]) demo.

Lemma refused_reaches_nobody_witness :
  ∃ s', deliver_channel 2 "bob!u@h" "#c" "hello" false moderated_demo = (CmdFail, s')
  ∧ (only_to 2 moderated_demo s'
     ∨ ∃ k ban s1, only_to 2 moderated_demo s1 ∧ s' = flood_kick 2 k ban s1).
Proof.
  assert (∃ s', deliver_channel 2 "bob!u@h" "#c" "hello" false moderated_demo = (CmdFail, s')) as [s' O]
    by (apply outcome; vm_compute; reflexivity).
  assert (uncaptured moderated_demo) as Hq by (vm_compute; reflexivity).
  exists s'. exact (conj O (refused_reaches_nobody 2 "bob!u@h" "#c" "hello" false moderated_demo s' Hq O)).
Defined.

Lemma speech_policy_witness :
  ∃ s' ch, deliver_channel 2 "bob!u@h" "#c" "hello" false demo = (CmdOk, s')
    ∧ channels (core demo) !! "#c" = Some ch
    ∧ (is_member (core demo) 2 "#c" = true ∨ no_external (modes ch) = false
         ∧ (ban_list_hit (core demo) 2 (bans ch) = false ∨ ban_list_hit (core demo) 2 (excepts ch) = true)).
Proof.
  assert (∃ s', deliver_channel 2 "bob!u@h" "#c" "hello" false demo = (CmdOk, s')) as [s' O]
    by (apply outcome; vm_compute; reflexivity).
  assert (uncaptured demo) as Hq by (vm_compute; reflexivity).
  destruct (speech_policy 2 "bob!u@h" "#c" "hello" false demo s' Hq O) as (ch & Hch & Hm & _).
  exists s', ch. exact (conj O (conj Hch Hm)).
Defined.

Definition sealed : Server := upd (with_chan "#c" (λ ch, ch <| modes ::= (λ m, m <| encrypted := true |>) |>)) demo.

Lemma encrypted_carries_envelopes_witness :
  ∃ s' body op_only s1, starts_with "+E2E " body = true ∧ only_to 2 sealed s1
    ∧ s' = speak 2 "bob!u@h" "#c" "#c" "PRIVMSG" body op_only s1.
Proof.
  assert (∃ s', deliver_channel 2 "bob!u@h" "#c" "+E2E Zm9v" false sealed = (CmdOk, s')) as [s' O]
    by (apply outcome; vm_compute; reflexivity).
  assert (chan_mode_on encrypted (core sealed) (to_ascii_lowercase "#c") = true) as Hc
    by (vm_compute; reflexivity).
  assert (uncaptured sealed) as Hq by (vm_compute; reflexivity).
  exists s'. exact (encrypted_carries_envelopes 2 "bob!u@h" "#c" "+E2E Zm9v" false sealed s' Hq Hc O).
Defined.

(** A third user without privileges in [#c]. *)
Definition demo3 : Server :=
  run 3 (CJoin "#c" None)
    (set_nick 3 "carol" (upd (register_tables 3) (connect 3 "10.0.0.3" demo))).

Lemma ops_only_confidential_witness :
  let s' := speak 2 "bob!u@h" "#c" "#c" "PRIVMSG" "psst" true demo3 in
  inbox s' 3 = inbox (reveal_member 2 "#c" demo3) 3 ∧ s_history (core s') = s_history (core demo3).
Proof.
  assert ((rank (core demo3) 3 "#c" < RANK_HALFOP)%N) as Hr by (vm_compute; reflexivity).
  assert (label_capture (io demo3) = None) as Hc by (vm_compute; reflexivity).
  apply (ops_only_confidential 2 "bob!u@h" "#c" "#c" "PRIVMSG" "psst" demo3 3 Hc); [discriminate|exact Hr].
Defined.

Lemma private_message_delivery_witness :
  ∃ msgid, inbox (deliver_user 1 2 "Alice!u@h" "bob" "hi" false demo).2 2
    = inbox demo 2 ++ [line_for (core demo) 2 1 (line_ctags (core demo)) msgid
                         ":Alice!u@h PRIVMSG bob :hi"].
Proof.
  assert (uncaptured demo) as Hq by (vm_compute; reflexivity).
  assert (is_Some (users (core demo) !! 2%N)) as Hu by (vm_compute; eexists; reflexivity).
  refine (proj1 (private_message_delivery 1 2 "Alice!u@h" "bob" "hi" false demo Hq _ Hu) _);
    [discriminate|].
  split_and!; (intros E; vm_compute in E; discriminate) || (vm_compute; reflexivity).
Defined.

(** bob reads tags and has told the server to ignore alice. *)
Definition ignoring : Server :=
  upd (λ c, c <| line_ctags := "+typing=active" |>)
    (upd (with_user 2 (λ u, u <| u_caps := {["message-tags"]} |> <| u_signore := ["Alice!*@*"] |>)) demo).

Lemma tagmsg_passes_signore_witness :
  ∃ line, inbox (tagmsg_cmd 1 "bob" ignoring).2 2 = inbox ignoring 2 ++ [line].
Proof.
  assert (is_Some (users (core ignoring) !! 1%N)) as [u Hu] by (vm_compute; eexists; reflexivity).
  assert (find_nick (core ignoring) "bob" = Some 2%N) as Hn by (vm_compute; reflexivity).
  assert (has_cap (core ignoring) 2 "message-tags" = true) as Hc by (vm_compute; reflexivity).
  assert (dm_blocked (core ignoring) 1 2 = false) as Hb by (vm_compute; reflexivity).
  assert (signore_blocks (core ignoring) 1 2 = true) as Hs by (vm_compute; reflexivity).
  assert (uncaptured ignoring) as Hq by (vm_compute; reflexivity).
  assert (is_empty (line_ctags (core ignoring)) = false) as Ht by (vm_compute; reflexivity).
  refine (proj2 (tagmsg_passes_signore 1 2 "bob" ignoring u Hq _ Hu Ht eq_refl Hn Hc Hb Hs)).
  discriminate.
Defined.

End runs.
