(* ===== verification/Network.v ===== *)
(** * What linked servers guarantee each other

    The theorems about links: who may link, what a line may change, how two
    servers agree after a burst or a nick collision, what a netsplit removes. *)

From Stdlib Require Import Ascii.
From S2P Require Import Prelude RustStr Message Glob Clock I18n Channel Numeric Regex State Mode UserMode.
From S2P Require Import CoreMode Ban Membership Watch Users Xline Account CoreChannel CoreMessage Filter.
From S2P Require Import Tables ModeTables MembershipTables JoinFacts LeaveFacts ListFacts UserFacts.
From S2P Require Import XlineFacts MessageFacts SpeechFacts FilterFacts Link LinkChannel LinkServices.
From S2P Require Import LinkFacts LinkSafe System.

Local Open Scope stdpp_scope.

(** ** Netsplits *)

(** A channel without the members that sat behind a link. *)
Definition without_split (gone : list string) (ch : Channel) : Channel :=
  ch <| rmembers ::= filter (λ '(uuid, _), uuid ∉ gone) |>.

Lemma without_split_nil ch : without_split [] ch = ch.
Proof.
  unfold without_split. destruct ch; unfold update_field; cbn. f_equal. apply map_filter_id.
  intros uuid m _. apply not_elem_of_nil.
Qed.

Lemma without_split_cons uuid l ch :
  without_split l (ch <| rmembers ::= delete uuid |>) = without_split (uuid :: l) ch.
Proof.
  unfold without_split. destruct ch; unfold update_field; cbn. f_equal. apply map_eq. intros i.
  rewrite !map_lookup_filter, lookup_delete. case_decide as Hd.
  - subst i. destruct (rmembers !! uuid); cbn; [|done]. rewrite option_guard_False by set_solver. done.
  - destruct (rmembers !! i); cbn; [|done]. apply option_guard_iff. set_solver.
Qed.

Lemma without_split_alive l ch : keep_alive (without_split l ch) = true → keep_alive ch = true.
Proof.
  unfold keep_alive, chan_is_empty, without_split. cbn. rewrite !orb_true_iff, !negb_true_iff.
  intros [[He|He]|He]; [|auto|auto]. left; left. revert He.
  destruct (decide (rmembers ch = ∅)) as [->|Hne]; [by rewrite map_filter_empty|].
  intros _. apply andb_false_iff. right. by apply bool_decide_eq_false.
Qed.

Lemma retain_lookup c k ch :
  channels (retain_alive c) !! k = Some ch ↔ channels c !! k = Some ch ∧ keep_alive ch = true.
Proof. unfold retain_alive. apply map_lookup_filter_Some. Qed.

Lemma drop_core_channel uuid c k ch' :
  wf c → channels (drop_core uuid c) !! k = Some ch' →
  ∃ ch, channels c !! k = Some ch ∧ ch' = ch <| rmembers ::= delete uuid |>.
Proof.
  intros W. unfold drop_core. destruct (remote_users c !! uuid) as [ru|] eqn:Hu.
  - intros [Hk _]%retain_lookup. unfold leave_channels in Hk. cbn in Hk.
    rewrite lookup_fmap in Hk. destruct (channels c !! k) as [ch|]; [|done]. exists ch. by injection Hk as <-.
  - intros Hk. exists ch'. split; [done|]. destruct (rmembers ch' !! uuid) as [m|] eqn:Em.
    + destruct (wf_rmem _ W k (rchan_dom ch') uuid) as [r Hr]; [unfold cget; by rewrite Hk| |congruence].
      unfold rchan_dom. by apply elem_of_dom.
    + destruct ch'; unfold update_field; cbn in *. by rewrite delete_id.
Qed.

Lemma drop_core_keeps uuid c k ch :
  channels c !! k = Some ch → keep_alive (ch <| rmembers ::= delete uuid |>) = true → wf c →
  channels (drop_core uuid c) !! k = Some (ch <| rmembers ::= delete uuid |>).
Proof.
  intros Hk Ha W. destruct (channels (drop_core uuid c) !! k) as [ch'|] eqn:E.
  - apply drop_core_channel in E as (ch0 & Hk0 & ->); [|done]. congruence.
  - unfold drop_core in E. destruct (remote_users c !! uuid); [|congruence].
    assert (channels (retain_alive (leave_channels uuid c)) !! k = Some (ch <| rmembers ::= delete uuid |>))
      as E'; [|change (channels (retain_alive (leave_channels uuid c)) !! k = None) in E; congruence].
    apply retain_lookup. split; [|done]. unfold leave_channels. cbn. by rewrite lookup_fmap, Hk.
Qed.

Lemma drop_all_channel l c k ch' :
  wf c → channels (drop_all l c) !! k = Some ch' →
  ∃ ch, channels c !! k = Some ch ∧ ch' = without_split l ch.
Proof.
  unfold drop_all. revert c. induction l as [|i l IH]; intros c W Hk; cbn [foldl] in Hk.
  - exists ch'. by rewrite without_split_nil.
  - apply IH in Hk as (ch1 & H1 & ->); [|by apply drop_core_wf].
    apply drop_core_channel in H1 as (ch & Hk & ->); [|done]. exists ch. by rewrite without_split_cons.
Qed.

Lemma drop_all_keeps l c k ch :
  channels c !! k = Some ch → keep_alive (without_split l ch) = true → wf c →
  channels (drop_all l c) !! k = Some (without_split l ch).
Proof.
  unfold drop_all. revert c ch. induction l as [|i l IH]; intros c ch Hk Ha W; cbn [foldl].
  - by rewrite without_split_nil.
  - rewrite <-without_split_cons in Ha |- *. apply IH; [|done|by apply drop_core_wf].
    apply drop_core_keeps; [done| |done]. by eapply without_split_alive.
Qed.

Lemma drop_all_nick l c n uuid :
  remote_nick (drop_all l c) !! n = Some uuid → remote_nick c !! n = Some uuid.
Proof.
  unfold drop_all. revert c. induction l as [|i l IH]; intros c; cbn [foldl]; [done|].
  intros Hn%IH. revert Hn. unfold drop_core. destruct (remote_users c !! i) as [r|]; [|done].
  change (delete (to_ascii_lowercase (ru_nick r)) (remote_nick c) !! n = Some uuid → remote_nick c !! n = Some uuid).
  by intros [_ Hn]%lookup_delete_Some.
Qed.

(** C11: A netsplit removes exactly what sat behind the link: the link, the servers and the
    users reached through it, and those users' memberships and nicks; every local user,
    every other remote user and server stay as they were, and so does every channel that
    still has a member or is permanent or registered. *)
Theorem netsplit_exact uid reason s :
  wf (core s) →
  let c := core s in
  let c' := core (close_link uid reason s) in
  links c' = delete uid (links c)
  ∧ (∀ sid, servers c' !! sid
       = (sv ← servers c !! sid; if decide (rs_via sv = uid) then None else Some sv))
  ∧ (∀ uuid, remote_users c' !! uuid
       = (ru ← remote_users c !! uuid; if decide (ru_via ru = uid) then None else Some ru))
  ∧ (∀ n uuid, remote_nick c' !! n = Some uuid →
       remote_nick c !! n = Some uuid ∧ uuid ∉ behind c uid)
  ∧ users c' = users c
  ∧ (∀ k ch', channels c' !! k = Some ch' →
       ∃ ch, channels c !! k = Some ch ∧ ch' = without_split (behind c uid) ch)
  ∧ (∀ k ch, channels c !! k = Some ch → keep_alive (without_split (behind c uid) ch) = true →
       channels c' !! k = Some (without_split (behind c uid) ch)).
Proof.
  intros W c c'. pose proof (close_link_core uid reason s : c' = _) as E.
  change (core s) with c in E. pose proof (drop_all_frame (behind c uid) c) as [= Eu El Es].
  split_and!.
  - rewrite E. change (links (unlink uid ?x)) with (delete uid (links x)). by rewrite El.
  - intros sid. rewrite E.
    change (servers (unlink uid ?x)) with (filter (λ '(_, sv), rs_via sv ≠ uid) (servers x)).
    rewrite Es, map_lookup_filter.
    destruct (servers c !! sid) as [sv|]; [|done]. cbn. by destruct (decide (rs_via sv = uid)); case_guard.
  - intros uuid. rewrite E. change (remote_users (unlink uid ?x)) with (remote_users x).
    rewrite drop_all_remote. destruct (remote_users c !! uuid) as [ru|] eqn:Hu; cbn.
    + destruct (decide (ru_via ru = uid)) as [Hv|Hv], (decide (uuid ∈ behind c uid)) as [Hb|Hb]; try done.
      * exfalso. apply Hb, elem_of_behind. by exists ru.
      * exfalso. apply elem_of_behind in Hb as (? & ? & ?). congruence.
    + by case_decide.
  - intros n uuid Hn. rewrite E in Hn. change (remote_nick (unlink uid ?x)) with (remote_nick x) in Hn.
    split; [by eapply drop_all_nick|]. intros Hb.
    destruct (wf_net _ (drop_all_wf (behind c uid) c W)) as (_ & _ & N3).
    destruct (N3 n uuid Hn) as (ru & Hu & _). rewrite drop_all_remote in Hu. by case_decide.
  - rewrite E. exact Eu.
  - intros k ch'. rewrite E. by apply drop_all_channel.
  - intros k ch Hk Ha. rewrite E. by apply drop_all_keeps.
Qed.

(** ** The burst of a channel *)

(** The flag modes as a vector, in the order they are rendered. *)
Definition flag_bits (m : ChanModes) : list bool := map fst (render_flags m).
Definition flag_letters : list string := map snd (render_flags default_modes).

Definition param_letters : list string := map fst (render_params default_modes).

Lemma render_letters m : map snd (render_flags m) = flag_letters.
Proof. done. Qed.

Definition has_letter (ls : list string) (l : string) : bool := existsb (String.eqb l) ls.

Lemma set_letter_flags c m :
  render_flags (set_by_letter c true m)
  = map (λ '(b, l), (b || String.eqb c l, l)) (render_flags m).
Proof.
  unfold set_by_letter.
  repeat match goal with
  | |- context [if String.eqb c ?l then _ else _] => destruct (String.eqb_spec c l) as [->|]
  end; cbn; rewrite ?orb_false_r, ?orb_true_r; try reflexivity.
  unfold render_flags; cbn.
  repeat match goal with H : c ≠ ?l |- _ => apply String.eqb_neq in H; rewrite H; clear H end.
  by rewrite !orb_false_r.
Qed.

Lemma chars_concat_whole ls : Forall whole ls → chars (str_concat ls) = ls.
Proof.
  induction 1 as [|c ls Hc _ IH]; [done|]. change (str_concat (c :: ls)) with (c +:+ str_concat ls).
  by rewrite chars_cons, IH.
Qed.

Lemma str_concat_app l l' : str_concat (l ++ l') = str_concat l +:+ str_concat l'.
Proof. induction l as [|x l IH]; cbn; [done|]. by rewrite IH, str_app_assoc. Qed.

(** The letters a burst carries. *)
Definition burst_letters (m : ChanModes) : list string :=
  map snd (filter (λ '(on, _), on = true) (render_flags m))
  ++ map fst (filter (λ '(_, p), is_some p = true) (render_params m)).

Lemma ascii_whole a : (byte_val a < 128)%N → whole (String a "").
Proof.
  intros Ha. exists a, "". split; [done|]. unfold utf8_len.
  assert ((byte_val a <=? 127)%N = true) as E by (apply N.leb_le; lia). cbn zeta. by rewrite E.
Qed.

Lemma burst_letters_whole m : Forall whole (burst_letters m).
Proof.
  apply Forall_app. split; apply Forall_forall; intros l Hl.
  - apply list_elem_of_fmap in Hl as ([b l'] & -> & [_ Hl]%list_elem_of_filter). cbn.
    assert (l' ∈ flag_letters) as Hf by (rewrite <-(render_letters m); apply (list_elem_of_fmap_2 snd _ _ Hl)).
    clear Hl. revert l' Hf. apply Forall_forall. repeat constructor; by apply ascii_whole.
  - apply list_elem_of_fmap in Hl as ([l' p] & -> & [_ Hl]%list_elem_of_filter). cbn.
    apply (list_elem_of_fmap_2 fst) in Hl. revert Hl. cbn [fst]. generalize l'. apply Forall_forall.
    cbn. repeat constructor; by apply ascii_whole.
Qed.

Lemma chars_render m : chars (modes_render m false) = "+" :: burst_letters m.
Proof.
  unfold modes_render. rewrite str_app_nil_r, <-str_concat_app.
  rewrite chars_cons by (by apply ascii_whole). f_equal. apply chars_concat_whole, burst_letters_whole.
Qed.

Lemma flag_string_on ls m :
  has_letter ls "+" = false → has_letter ls "-" = false →
  render_flags (flag_string true ls m) = map (λ '(b, l), (b || has_letter ls l, l)) (render_flags m).
Proof.
  revert m. induction ls as [|c ls IH]; intros m Hp Hm; cbn [flag_string].
  - rewrite <-(map_id (render_flags m)) at 1. apply map_ext. intros [b l]. by rewrite orb_false_r.
  - unfold has_letter in Hp, Hm. cbn [existsb] in Hp, Hm. apply orb_false_iff in Hp as [Hp1 Hp2], Hm as [Hm1 Hm2].
    rewrite (String.eqb_sym c "+"), (String.eqb_sym c "-"), Hp1, Hm1, IH, set_letter_flags, map_map by done.
    apply map_ext. intros [b l]. unfold has_letter. cbn [existsb]. by rewrite <-orb_assoc, (String.eqb_sym c l).
Qed.

Lemma has_letter_app a b l : has_letter (a ++ b) l = has_letter a l || has_letter b l.
Proof. apply existsb_app. Qed.

Lemma has_letter_In ls l : has_letter ls l = true ↔ l ∈ ls.
Proof.
  unfold has_letter. rewrite existsb_exists. split.
  - intros (x & Hx & ->%String.eqb_eq). by apply list_elem_of_In.
  - intros Hl. exists l. split; [by apply list_elem_of_In|apply String.eqb_refl].
Qed.

Lemma has_letter_on (fl : list (bool * string)) :
  NoDup (map snd fl) →
  map (has_letter (map snd (filter (λ '(on, _), on = true) fl))) (map snd fl) = map fst fl.
Proof.
  intros Hnd. rewrite map_map. apply map_ext_in. intros [b l] Hin%list_elem_of_In. cbn.
  apply eq_true_iff_eq. rewrite has_letter_In, list_elem_of_fmap. split.
  - intros ([b' l'] & E & [Hon Hin']%list_elem_of_filter). cbn in E. subst l' b'.
    apply list_elem_of_lookup in Hin as [i Hi], Hin' as [j Hj].
    assert (i = j) as <-; [|congruence].
    eapply (NoDup_lookup (map snd fl)); [done| |]; by rewrite list_lookup_fmap, ?Hi, ?Hj.
  - intros ->. exists (true, l). split; [done|]. by apply list_elem_of_filter.
Qed.

(** Each flag letter is in the burst exactly when the flag is on. *)
Lemma burst_letters_flag m : map (has_letter (burst_letters m)) flag_letters = flag_bits m.
Proof.
  unfold flag_bits. rewrite <-(has_letter_on (render_flags m)), render_letters.
  2: { rewrite render_letters. apply (bool_decide_unpack _). vm_compute. exact I. }
  apply map_ext_in. intros l Hl%list_elem_of_In. unfold burst_letters. rewrite has_letter_app.
  assert (has_letter (map fst (filter (λ '(_, p), is_some p = true) (render_params m))) l = false) as ->;
    [|apply orb_false_r].
  apply not_true_iff_false. rewrite has_letter_In, list_elem_of_fmap.
  intros ([x p] & -> & [_ Hx]%list_elem_of_filter). apply (list_elem_of_fmap_2 fst) in Hx.
  revert Hx. change (fst <$> render_params m) with param_letters. cbn [fst] in *.
  assert (Forall (λ x, x ∉ param_letters) flag_letters) as Hd
    by (apply (bool_decide_unpack _); vm_compute; exact I).
  by eapply Forall_forall in Hd.
Qed.

Lemma no_sign m x : (x = "+" ∨ x = "-") → has_letter (burst_letters m) x = false.
Proof.
  intros Hx. apply not_true_iff_false. rewrite has_letter_In. intros [Hi|Hi]%elem_of_app.
  - apply list_elem_of_fmap in Hi as ([b l] & E & [_ Hl]%list_elem_of_filter).
    apply (list_elem_of_fmap_2 snd) in Hl. change (snd <$> render_flags m) with flag_letters in Hl.
    cbn [snd] in *. subst l. assert (Forall (λ x, x ≠ "+" ∧ x ≠ "-") flag_letters) as Hd
      by (apply (bool_decide_unpack _); vm_compute; exact I).
    eapply Forall_forall in Hd; [|exact Hl]. tauto.
  - apply list_elem_of_fmap in Hi as ([l p] & E & [_ Hl]%list_elem_of_filter).
    apply (list_elem_of_fmap_2 fst) in Hl. change (fst <$> render_params m) with param_letters in Hl.
    cbn [fst] in *. subst l. assert (Forall (λ x, x ≠ "+" ∧ x ≠ "-") param_letters) as Hd
      by (apply (bool_decide_unpack _); vm_compute; exact I).
    eapply Forall_forall in Hd; [|exact Hl]. tauto.
Qed.

Lemma or_vector (h : string → bool) (fl : list (bool * string)) :
  map fst (map (λ '(b, l), (b || h l, l)) fl) = zip_with orb (map fst fl) (map h (map snd fl)).
Proof. induction fl as [|[b l] fl IH]; cbn; [done|]. by f_equal. Qed.

Lemma burst_flags m base :
  flag_bits (flag_string true (chars (modes_render m false)) base) = zip_with orb (flag_bits base) (flag_bits m).
Proof.
  rewrite chars_render. change (flag_string true ("+" :: ?l) ?b) with (flag_string true l b).
  unfold flag_bits at 1. rewrite flag_string_on.
  - rewrite <-(burst_letters_flag m), <-(render_letters base). apply or_vector.
  - apply no_sign. by left.
  - apply no_sign. by right.
Qed.

(** Adding the members of a burst changes nothing else. *)
Lemma fjoin_add_frame {A} (p : Channel → A) k chan e s i :
  (∀ ch f, p (ch <| rmembers ::= f |>) = p ch) → cget p (core (fjoin_add k chan e s)) i = cget p (core s) i.
Proof.
  intros Hp. destruct e as [uuid m]. unfold fjoin_add. cbn zeta.
  assert (cget p (core (upd (with_chan k (put_rmember uuid m)) s)) i = cget p (core s) i) as E.
  { rewrite core_upd. apply cget_with_chan_ne. intros ch. apply Hp. }
  destruct (map_or _ _ _); [done|]. destruct (remote_users _ !! _); [|done]. by rewrite to_channel_outputs.
Qed.

Lemma fjoin_channel {A} (p : Channel → A) via msg chan ts ms ml rest s :
  (∀ ch f, p (ch <| rmembers ::= f |>) = p ch) → params msg = chan :: ts :: ms :: ml :: rest →
  let k := to_ascii_lowercase chan in
  let ch := channels (core s) !! k in
  cget p (core (link_fjoin_recv via msg s)) k
  = Some (p (arbitrate (created <$> ch) (default (clock (core s)) (parse_uint u64_max ts)) ms
               (default (new_channel (clock (core s)) chan) ch))).
Proof.
  intros Hp Ep. unfold link_fjoin_recv. rewrite Ep. cbn zeta. rewrite propagate_outputs.
  generalize (fjoin_adds (core (upd (with_entry (to_ascii_lowercase chan) (new_channel (clock (core s)) chan)
    (arbitrate (created <$> channels (core s) !! to_ascii_lowercase chan)
       (default (clock (core s)) (parse_uint u64_max ts)) ms)) s))
    (negb (map_or false (λ o, (o <? default (clock (core s)) (parse_uint u64_max ts))%N)
       (created <$> channels (core s) !! to_ascii_lowercase chan))) ml).
  intros adds. set (s1 := upd _ s).
  assert (cget p (core s1) (to_ascii_lowercase chan)
    = Some (p (arbitrate (created <$> channels (core s) !! to_ascii_lowercase chan)
        (default (clock (core s)) (parse_uint u64_max ts)) ms
        (default (new_channel (clock (core s)) chan) (channels (core s) !! to_ascii_lowercase chan))))) as E.
  { unfold s1, cget. rewrite core_upd. unfold with_entry. cbn. by rewrite lookup_insert_eq. }
  rewrite <-E. clearbody s1. clear E. unfold for_each. revert s1.
  induction adds as [|e adds IH]; intros s1; cbn [foldl]; [done|]. rewrite IH. by apply fjoin_add_frame.
Qed.

(** The burst a server sends for a channel. *)
Definition burst_of (ch : Channel) (msg : Message) : Prop :=
  ∃ ml rest, params msg = ch_name ch :: to_string (created ch) :: modes_render (modes ch) false :: ml :: rest.

(** What two servers must agree on. *)
Definition agreed (ch : Channel) : N * list bool := (created ch, flag_bits (modes ch)).

Lemma zip_or_comm l l' : zip_with orb l l' = zip_with orb l' l.
Proof. revert l'. induction l as [|b l IH]; intros [|b' l']; cbn; [done..|]. by rewrite IH, orb_comm. Qed.

Lemma default_flags_or m : zip_with orb (flag_bits default_modes) (flag_bits m) = flag_bits m.
Proof. unfold flag_bits. by destruct m. Qed.

Lemma arbitrate_agreed ch ts m :
  agreed (arbitrate (Some (created ch)) ts (modes_render m false) ch)
  = (N.min (created ch) ts,
     if (created ch <? ts)%N then flag_bits (modes ch)
     else if (ts <? created ch)%N then flag_bits m else zip_with orb (flag_bits (modes ch)) (flag_bits m)).
Proof.
  unfold arbitrate. cbn [map_or].
  destruct (N.ltb_spec (created ch) ts); [by rewrite N.min_l by lia|]. rewrite N.min_r by lia.
  destruct (N.ltb_spec ts (created ch)).
  - trans (ts, flag_bits (flag_string true (chars (modes_render m false)) default_modes)); [reflexivity|].
    by rewrite burst_flags, default_flags_or.
  - trans (ts, flag_bits (flag_string true (chars (modes_render m false)) (modes ch))); [reflexivity|].
    by rewrite burst_flags.
Qed.

(** C10: Two servers that burst a channel to each other end up with the same timestamp, the
    lower one, and the same flag modes: the older side's, or both when the timestamps
    are equal. *)
Theorem burst_converges viaA viaB sA sB chA chB msgA msgB k :
  channels (core sA) !! k = Some chA → channels (core sB) !! k = Some chB →
  to_ascii_lowercase (ch_name chA) = k → to_ascii_lowercase (ch_name chB) = k →
  (created chA <= u64_max)%N → (created chB <= u64_max)%N →
  burst_of chA msgA → burst_of chB msgB →
  let a := cget agreed (core (link_fjoin_recv viaA msgB sA)) k in
  let b := cget agreed (core (link_fjoin_recv viaB msgA sB)) k in
  a = b ∧ a = Some (N.min (created chA) (created chB),
    if (created chA <? created chB)%N then flag_bits (modes chA)
    else if (created chB <? created chA)%N then flag_bits (modes chB)
    else zip_with orb (flag_bits (modes chA)) (flag_bits (modes chB))).
Proof.
  intros HA HB KA KB TA TB (mlA & rA & EA) (mlB & rB & EB) a b.
  assert (b = Some (agreed (arbitrate (Some (created chB)) (created chA) (modes_render (modes chA) false) chB))) as Hb.
  { unfold b. rewrite <-KA. erewrite (fjoin_channel agreed) by (done || exact EA).
    rewrite KA, HB, parse_to_string by done. done. }
  assert (a = Some (agreed (arbitrate (Some (created chA)) (created chB) (modes_render (modes chB) false) chA))) as Ha.
  { unfold a. rewrite <-KB. erewrite (fjoin_channel agreed) by (done || exact EB).
    rewrite KB, HA, parse_to_string by done. done. }
  rewrite Ha, Hb, !arbitrate_agreed. split; [|done]. do 2 f_equal; [lia|].
  destruct (N.ltb_spec (created chA) (created chB)), (N.ltb_spec (created chB) (created chA)); try done; try lia.
  apply zip_or_comm.
Qed.

(** The flag string sets no parameter mode. *)
Lemma flag_string_params sign cs m :
  (key (flag_string sign cs m), limit (flag_string sign cs m)) = (key m, limit m).
Proof.
  revert sign m. induction cs as [|c cs IH]; intros sign m; cbn [flag_string]; [done|].
  destruct (String.eqb c "+"); [apply IH|]. destruct (String.eqb c "-"); [apply IH|]. rewrite IH.
  unfold set_by_letter. repeat (destruct (String.eqb c _); [done|]). done.
Qed.

(** Everything a channel keeps apart from its remote members. *)
Definition contents (ch : Channel) :=
  (ch_name ch, modes ch, ch_topic ch, members ch,
   (bans ch, excepts ch, invex ch), (filters ch, exemptchanops ch, autoop ch)).

(** The timestamp decides a burst: a later one leaves everything our channel keeps as it is;
    an earlier one strips it of modes, lists, topic and every local status before the
    flags of the burst are set. *)
Theorem fjoin_loser_stripped via msg chan ts rest s ch m ml :
  params msg = chan :: to_string ts :: modes_render m false :: ml :: rest → (ts <= u64_max)%N →
  channels (core s) !! to_ascii_lowercase chan = Some ch →
  let ch' := cget contents (core (link_fjoin_recv via msg s)) (to_ascii_lowercase chan) in
  (created ch < ts → ch' = Some (contents ch))%N
  ∧ (ts < created ch → ∃ flags,
       ch' = Some (ch_name ch, flags, None, clear_status <$> members ch, ([], [], []), ([], [], []))
       ∧ flag_bits flags = flag_bits m ∧ key flags = None ∧ limit flags = None)%N.
Proof.
  intros Ep Ht Hk ch'. unfold ch'.
  erewrite (fjoin_channel contents) by (done || exact Ep). rewrite Hk, parse_to_string by done.
  unfold arbitrate. cbn [fmap option_fmap option_map map_or default from_option id].
  split; intros Hlt.
  - apply N.ltb_lt in Hlt. by rewrite Hlt.
  - assert ((created ch <? ts)%N = false) as -> by (apply N.ltb_ge; lia).
    assert ((ts <? created ch)%N = true) as -> by (by apply N.ltb_lt).
    exists (flag_string true (chars (modes_render m false)) default_modes). split; [reflexivity|].
    rewrite burst_flags, default_flags_or. split; [done|].
    exact (conj (f_equal fst (flag_string_params true _ default_modes))
                (f_equal snd (flag_string_params true _ default_modes))).
Qed.
