(* ===== verification/Authority.v ===== *)
(** * Who may do what over a link

    The handshake admits exactly the configured peers; a peer speaks only for the
    users and servers behind it; services lines are for services servers; a
    silent peer is dropped; and two servers resolve a nick collision alike. *)

From Stdlib Require Import Ascii.
From S2P Require Import Prelude RustStr Message Glob Clock I18n Channel Numeric Regex State Mode UserMode.
From S2P Require Import CoreMode Ban Membership Watch Users Xline Account CoreChannel CoreMessage Filter.
From S2P Require Import Tables UserFacts XlineFacts MessageFacts Link LinkChannel LinkServices.
From S2P Require Import LinkFacts LinkSafe Password System Network.

Local Open Scope stdpp_scope.

Section authority.
Context `{UnicodeLower} `{Outside} `{Crypto}.

(** A line was only noted: the link has been heard. *)
Definition heard (uid : Uid) (s : Server) : Server :=
  upd (with_link uid (λ l, l <| l_last_seen := clock (core s) |>)) s.

Definition link_up (c : Core) (uid : Uid) : Prop := l_registered <$> links c !! uid = Some true.

Lemma heard_up uid s : link_up (core s) uid → link_up (core (heard uid s)) uid.
Proof.
  unfold link_up, heard. rewrite core_upd. unfold with_link.
  change (links ((core s) <| links ::= alter ?f uid |>)) with (alter f uid (links (core s))).
  rewrite lookup_alter_eq. by destruct (links (core s) !! uid).
Qed.

Lemma up_registered c uid : link_up c uid → map_or false l_registered (links c !! uid) = true.
Proof. unfold link_up. destruct (links c !! uid); cbn; [|done]. by intros [= ->]. Qed.

(** The lines that carry a source, and are ignored unless the source is a server
    or user behind the link they come from. *)
Definition sourced : list string :=
  ["UID"; "KILL"; "INVITE"; "ADDLINE"; "DELLINE"; "PRIVMSG"; "NOTICE"; "TOPIC"; "FTOPIC"; "KICK";
   "RENAME"; "MODE"; "FMODE"; "REDACT"; "NICK"; "QUIT"; "JOIN"; "IJOIN"; "PART"; "AWAY"; "SETNAME";
   "OPERTYPE"].

Lemma not_behind_not_via c src via : source_behind c src via = false → sourced_via c src via = false.
Proof.
  unfold source_behind, sourced_via. destruct (remote_users c !! src) as [ru|]; [|done].
  rewrite !bool_decide_eq_false. intros Hn [= E]. done.
Qed.

(** [Gated e]: the handler does nothing for a source that is not behind the link. *)
Definition Gated (e : string * Recv) : Prop :=
  ∀ uid msg s src, source msg = Some src → source_behind (core s) src uid = false → e.2 uid msg s = s.

Tactic Notation "gate" reference(f) :=
  intros uid msg s src Hs Hb; cbn [snd]; unfold f; rewrite ?Hs;
  generalize (not_behind_not_via _ _ _ Hb); intros Hv;
  repeat match goal with
  | |- context [match params msg with _ => _ end] => destruct (params msg)
  | |- context [match ?l with [] => _ | _ => _ end] => is_var l; destruct l
  end; try done; cbn zeta; rewrite ?Hs; change (default "" (Some src)) with src; rewrite ?Hb, ?Hv; cbn [negb]; rewrite ?orb_true_r; try done.

Lemma gated_table :
  Forall (λ e, bool_decide (e.1 ∈ sourced) = true → Gated e) link_table.
Proof.
  unfold link_table.
  repeat (apply Forall_cons_2; [intros Hin; cbn [fst] in Hin|]); [..|by apply Forall_nil_2];
    first [vm_compute in Hin; discriminate | clear Hin].
  - gate link_uid_recv.
  - gate link_nick_recv. by destruct (remote_users _ !! _).
  - gate link_quit_recv.
  - gate link_kill_recv.
  - gate link_invite_recv.
  - gate link_addline_recv.
  - gate link_delline_recv.
  - gate link_message_recv.
  - gate link_message_recv.
  - gate link_join_recv.
  - gate link_part_recv.
  - gate link_topic_recv.
  - gate link_ftopic_recv.
  - gate link_kick_recv.
  - gate link_rename_recv.
  - gate link_mode_recv.
  - gate link_mode_recv.
  - gate link_ijoin_recv.
  - gate link_away_recv.
  - gate link_setname_recv.
  - gate link_opertype_recv.
  - gate link_redact_recv.
Qed.

Lemma handler_sourced cmd : cmd ∈ sourced → ∃ h, handler_in link_table cmd = Some h ∧ Gated (cmd, h).
Proof.
  intros Hin. assert (is_some (handler_in link_table cmd) = true) as Hs.
  { revert cmd Hin. apply Forall_forall. repeat constructor. }
  destruct (handler_in link_table cmd) as [h|] eqn:E; [|done]. exists h. split; [done|].
  unfold handler_in in E. destruct (find_first _ _) as [[n h']|] eqn:Ef; [|done]. injection E as <-.
  apply find_first_Some in Ef as [Ht En%String.eqb_eq]. cbn in En. subst n.
  pose proof gated_table as Hg. eapply Forall_forall in Hg; [|exact Ht]. by apply Hg, bool_decide_eq_true.
Qed.

Lemma sourced_plain cmd : cmd ∈ sourced → String.eqb cmd "ENCAP" = false ∧ String.eqb cmd "SVSPART" = false.
Proof. revert cmd. apply Forall_forall. repeat constructor. Qed.

(** C8: A peer cannot speak for anyone else: a line of one of 22 commands whose source is
    not a user or server reached through the link it came from is dropped, with no
    effect and no output beyond noting that the link is alive. *)
Theorem no_spoofing uid msg src s :
  link_up (core s) uid → command msg ∈ sourced → source msg = Some src →
  source_behind (core s) src uid = false →
  on_link uid msg s = Some (heard uid s).
Proof.
  intros Hl Hc Hs Hb. destruct (sourced_plain _ Hc) as [E1 E2].
  destruct (handler_sourced _ Hc) as (h & Eh & Hg).
  unfold on_link. cbn [on_link_fuel]. cbn zeta. fold (heard uid s).
  rewrite (up_registered _ _ (heard_up uid s Hl)). cbn [negb]. rewrite E1, E2.
  unfold link_handler. rewrite Eh. f_equal. by apply (Hg uid msg (heard uid s) src).
Qed.

(** The lines that only services may send. *)
Definition services_only : list string := "SVSPART" :: map fst svs_table.

(** An ordinary peer has no services power over local users: SVS lines whose source is not
    on a services server are dropped. *)
Theorem svs_needs_service uid msg s :
  link_up (core s) uid → command msg ∈ services_only → source_is_service (core s) msg = false →
  on_link uid msg s = Some (heard uid s).
Proof.
  intros Hl Hc Hs.
  assert (String.eqb (command msg) "ENCAP" = false ∧ handler_in link_table (command msg) = None
          ∧ ∀ s, always_handled uid msg s = s) as (E1 & E2 & E3).
  { unfold always_handled. revert Hc. generalize (command msg). apply Forall_forall. by repeat constructor. }
  unfold on_link. cbn [on_link_fuel]. cbn zeta. fold (heard uid s).
  rewrite (up_registered _ _ (heard_up uid s Hl)). cbn [negb]. rewrite E1.
  change (source_is_service (core (heard uid s)) msg) with (source_is_service (core s) msg). rewrite Hs.
  destruct (String.eqb _ "SVSPART"); [done|]. unfold link_handler. rewrite E2.
  change (source_is_service (core (heard uid s)) msg) with (source_is_service (core s) msg). rewrite Hs.
  by rewrite E3.
Qed.

(** ** The handshake *)

(** What a SERVER line must present. *)
Definition credentials (c : Core) (msg : Message) : Prop :=
  ∃ name pass sid desc rest block,
    params msg = name :: pass :: sid :: desc :: rest
    ∧ matched_jupe c name = None
    ∧ find_first (λ b, String.eqb (lb_name b) name) (link_blocks c) = Some block
    ∧ lb_password block = pass ∧ valid_sid sid = true ∧ sid ≠ s_sid c ∧ servers c !! sid = None.

Definition refusals : list string :=
  ["Not enough SERVER parameters"; "No link block for that server name"; "Invalid link password";
   "Bad or already-present SID"].

Lemma link_server_cases uid msg s :
  (credentials (core s) msg
   ∧ ∃ name sid desc pass, link_server uid msg s = accept_link uid name sid desc pass s)
  ∨ (¬ credentials (core s) msg
     ∧ ∃ why, link_server uid msg s = reject_link uid why s
       ∧ (why ∈ refusals ∨ ∃ name reason, matched_jupe (core s) name = Some reason
            ∧ why = "Server name is juped: " +:+ reason)).
Proof.
  unfold link_server, credentials.
  destruct (params msg) as [|name [|pass [|sid [|desc rest]]]];
    try (right; split; [by intros (? & ? & ? & ? & ? & ? & ? & _)|eexists; split; [done|left; set_solver]]).
  destruct (matched_jupe (core s) name) as [reason|] eqn:Ej.
  { right. split; [naive_solver congruence|]. eexists; split; [done|]. right. by exists name, reason. }
  destruct (find_first _ _) as [block|] eqn:Eb.
  2: { right. split; [naive_solver congruence|]. eexists; split; [done|left; set_solver]. }
  destruct (String.eqb_spec (lb_password block) pass) as [Ep|Ep]; cbn [negb].
  2: { right. split; [naive_solver congruence|]. eexists; split; [done|left; set_solver]. }
  destruct (valid_sid sid) eqn:Ev; cbn [negb orb].
  2: { right. split; [naive_solver congruence|]. eexists; split; [done|left; set_solver]. }
  destruct (String.eqb_spec sid (s_sid (core s))) as [Es|Es]; cbn [orb].
  { right. split; [naive_solver congruence|]. eexists; split; [done|left; set_solver]. }
  destruct (servers (core s) !! sid) eqn:Ee; cbn [is_some].
  { right. split; [naive_solver congruence|]. eexists; split; [done|left; set_solver]. }
  left. split; [|by do 4 eexists]. by exists name, pass, sid, desc, rest, block.
Qed.
Lemma with_link_lookup uid f c : links (with_link uid f c) !! uid = f <$> links c !! uid.
Proof. apply lookup_alter_eq. Qed.

Lemma accept_link_up uid name sid desc pass s :
  is_Some (links (core s) !! uid) → link_up (core (accept_link uid name sid desc pass s)) uid.
Proof.
  intros [l Hl]. unfold accept_link. cbn zeta. destruct (uline_match _ _) as [service silent].
  rewrite !outputs. unfold link_up. destruct (map_or _ _ _).
  - rewrite !core_upd.
    change (l_registered <$> links (with_link uid (λ l, l <| l_registered := true |> <| l_sid := Some sid |>
      <| l_name := Some name |>) (core s)) !! uid = Some true). by rewrite with_link_lookup, Hl.
  - rewrite core_upd, with_link_lookup, link_out_outputs, core_upd.
    match goal with |- context [links ?c !! uid] =>
      change (links c !! uid) with (links (with_link uid (λ l, l <| l_registered := true |>
        <| l_sid := Some sid |> <| l_name := Some name |>) (core s)) !! uid) end.
    by rewrite with_link_lookup, Hl.
Qed.

Lemma close_link_gone uid reason s : links (core (close_link uid reason s)) !! uid = None.
Proof. rewrite close_link_core. apply lookup_delete_eq. Qed.

(** C9: A link comes up exactly by a SERVER line with the credentials of a link block: a
    configured name and its password, a well-formed server id that is neither ours nor
    taken, and no jupe; a SERVER line without them closes it. *)
Theorem handshake_authenticates uid msg s s' :
  l_registered <$> links (core s) !! uid = Some false → on_link uid msg s = Some s' →
  (link_up (core s') uid ↔ command msg = "SERVER" ∧ credentials (core s) msg)
  ∧ (command msg = "SERVER" → ¬ credentials (core s) msg → links (core s') !! uid = None).
Proof.
  intros Hl Ho. destruct (links (core s) !! uid) as [l|] eqn:El; [|done]. injection Hl as Hl.
  unfold on_link in Ho. cbn [on_link_fuel] in Ho. cbn zeta in Ho. fold (heard uid s) in Ho.
  assert (∃ l', links (core (heard uid s)) !! uid = Some l' ∧ l_registered l' = false) as (l' & El' & Hr').
  { unfold heard. rewrite core_upd, with_link_lookup, El. by eexists. }
  rewrite El' in Ho. cbn [map_or] in Ho. rewrite Hr' in Ho. cbn [negb] in Ho.
  change (credentials (core s) msg) with (credentials (core (heard uid s)) msg).
  revert El' Ho. generalize (heard uid s). clear s El Hl l. intros s El Ho.
  destruct (String.eqb_spec (command msg) "SERVER") as [Ec|Ec].
  - injection Ho as <-. destruct (link_server_cases uid msg s) as [(Hc & n & sid & d & p & ->)|(Hc & why & -> & _)].
    + split; [|done]. split; [done|]. intros _. apply accept_link_up. by eexists.
    + unfold reject_link, link_up. split; [|intros _ _; apply close_link_gone].
      rewrite close_link_gone. split; [done|]. by intros [_ ?].
  - injection Ho as <-. split; [|done]. split; [|by intros [? _]]. unfold always_handled, link_up.
    do 2 (destruct (String.eqb _ _); [rewrite core_upd, with_link_lookup, El; cbn; rewrite Hr'; done|]).
    do 2 (destruct (String.eqb _ _); [rewrite close_link_gone; done|]). rewrite El. cbn. by rewrite Hr'.
Qed.

(** What the link's queue holds: dropping users says nothing to the link. *)
Lemma send_link_q m line s : link_q (io (send m line s)) = link_q (io s).
Proof. unfold send, emit_to. repeat case_match; done. Qed.

Lemma drop_remote_link_q uuid reason s : link_q (io (drop_remote_user uuid reason s)) = link_q (io s).
Proof.
  unfold drop_remote_user. destruct (remote_users _ !! _); [|done]. cbn zeta.
  change (link_q (io (upd ?f ?x))) with (link_q (io x)). unfold for_each.
  set (l := elements _). set (s1 := upd _ s). change (link_q (io s)) with (link_q (io s1)). clearbody s1 l.
  revert s1. induction l as [|m l IH]; intros s1; cbn [foldl]; [done|]. by rewrite IH, send_link_q.
Qed.

Lemma close_link_q uid reason s : link_q (io (close_link uid reason s)) = link_q (io s).
Proof.
  unfold close_link. cbn zeta. set (s1 := upd _ s). change (link_q (io s)) with (link_q (io s1)).
  set (l := behind _ _). set (why := _ +:+ _). clearbody s1 l why. revert s1. unfold for_each.
  induction l as [|m l IH]; intros s1; cbn [foldl]; [done|]. by rewrite IH, drop_remote_link_q.
Qed.

(** C35: A refused peer is told why and gets nothing else: exactly one ERROR line, naming
    what was wrong, and no burst. *)
Theorem refusal_says_why uid msg s s' :
  l_registered <$> links (core s) !! uid = Some false → command msg = "SERVER" →
  ¬ credentials (core s) msg → on_link uid msg s = Some s' →
  ∃ why, linkbox s' uid = linkbox s uid ++ ["ERROR :" +:+ trf (core s) "Link denied: {0}" [why]]
    ∧ (why ∈ refusals ∨ ∃ name reason, matched_jupe (core s) name = Some reason
         ∧ why = "Server name is juped: " +:+ reason).
Proof.
  intros Hl Ec Hc Ho. destruct (links (core s) !! uid) as [l|] eqn:El; [|done]. injection Hl as Hl.
  unfold on_link in Ho. cbn [on_link_fuel] in Ho. cbn zeta in Ho. fold (heard uid s) in Ho.
  assert (∃ l', links (core (heard uid s)) !! uid = Some l' ∧ l_registered l' = false) as (l' & El' & Hr').
  { unfold heard. rewrite core_upd, with_link_lookup, El. by eexists. }
  rewrite El' in Ho. cbn [map_or] in Ho. rewrite Hr' in Ho. cbn [negb] in Ho. rewrite Ec in Ho.
  injection Ho as <-.
  destruct (link_server_cases uid msg (heard uid s)) as [(Hc' & _)|(_ & why & -> & Hw)]; [done|].
  exists why. split; [|exact Hw]. unfold reject_link, linkbox. rewrite close_link_q. unfold link_out.
  rewrite El'. cbn. unfold push_out. by rewrite lookup_insert_eq.
Qed.

(** ** Robustness *)

(** C7: Nothing a linked server sends can crash the server or corrupt its tables: in every
    reachable state every line of a link is handled to the end, however deeply its
    ENCAPs are nested, and leads to a reachable state whose tables are consistent. The
    line must be acceptable: a user that services force to join or to become an operator
    has registered, and no user is named after another's network id. *)
Theorem link_lines_safe uid msg s :
  reachable s → is_Some (links (core s) !! uid) → link_ok (core s) msg →
  ∃ s', on_link uid msg s = Some s' ∧ reachable s' ∧ wf (core s').
Proof.
  intros Hr Hl Hok. pose proof (reachable_wf s Hr) as W.
  destruct (on_link_safe uid msg s Hl Hok W) as (s' & E & W'). exists s'. split_and!; [done| |done].
  eapply reach_step; [exact Hr|]. by eapply step_link.
Qed.

(** ** Keeping links alive *)

Definition link_deadline (c : Core) : N :=
  wrap_u64 (conf_num c u64_max "ping_frequency" 120 + conf_num c u64_max "ping_timeout" 30).

Lemma elem_of_dead c now uid :
  uid ∈ dead_links c now ↔ ∃ l, links c !! uid = Some l ∧ (link_deadline c < now - l_last_seen l)%N.
Proof.
  unfold dead_links. rewrite list_elem_of_fmap. split.
  - intros ([i l] & -> & [Hd%N.ltb_lt Hi]%list_elem_of_filter). apply elem_of_map_to_list in Hi. by exists l.
  - intros (l & Hi & Hd%N.ltb_lt). exists (uid, l). split; [done|]. apply list_elem_of_filter.
    split; [done|]. by apply elem_of_map_to_list.
Qed.

Lemma close_all_links l reason s uid :
  links (core (for_each l (λ u, close_link u reason) s)) !! uid
  = if decide (uid ∈ l) then None else links (core s) !! uid.
Proof.
  unfold for_each. revert s. induction l as [|i l IH]; intros s; cbn [foldl].
  - case_decide as Hd; [by apply not_elem_of_nil in Hd|done].
  - rewrite IH, close_link_core. pose proof (drop_all_frame (behind (core s) i) (core s)) as [= _ El _].
    change (links (unlink i ?x)) with (delete i (links x)). rewrite El.
    destruct (decide (uid ∈ l)), (decide (uid ∈ i :: l)) as [Hd|Hd]; try set_solver.
    + apply elem_of_cons in Hd as [->|]; [by rewrite lookup_delete_eq|done].
    + rewrite lookup_delete_ne; [done|set_solver].
Qed.

(** C34: The server drops a dead peer: at the next tick a link that has been silent for
    longer than the ping frequency plus the timeout is gone; a link that has spoken
    since stays as it was. *)
Theorem silent_link_dropped uid l now s :
  links (core s) !! uid = Some l →
  links (core (tick now s)) !! uid
  = if (link_deadline (core s) <? now - l_last_seen l)%N then None else Some l.
Proof.
  intros Hl. unfold tick. cbn zeta. set (s0 := ping_links _). set (s1 := for_each _ _ s0).
  assert (links (core s1) !! uid = if (link_deadline (core s) <? now - l_last_seen l)%N then None else Some l)
    as <-.
  { unfold s1. rewrite close_all_links. unfold s0. rewrite !ping_links_outputs, core_upd.
    change (links (?c <| clock := now |>)) with (links c). rewrite Hl.
    destruct (N.ltb_spec (link_deadline (core s)) (now - l_last_seen l)), (decide _) as [Hd|Hd]; try done.
    - exfalso. apply Hd, elem_of_dead. by exists l.
    - exfalso. apply elem_of_dead in Hd as (l' & Hl' & Hd). change (links (core s) !! uid = Some l') in Hl'.
      change (link_deadline (core s) < now - l_last_seen l')%N in Hd. simplify_eq. lia. }
  clearbody s1. change (links (core (purge_flood_state ?x))) with (links (core x)).
  assert (same_tables (core (purge_xlines s1)) (core (purge_tbans (purge_xlines s1)))) as [].
  { unfold purge_tbans. apply for_each_stable. apply _. }
  rewrite purge_core in st_net. by injection st_net as <- _ _ _.
Qed.

(** ** Nick collisions *)

Lemma set_nick_nick uid n s : is_Some (users (core s) !! uid) → uget u_nick (core (set_nick uid n s)) uid = Some n.
Proof.
  intros [u Hu]. pose proof (set_nick_core uid n s u Hu) as Hs.
  rewrite <-(uget_via u_nick ushape (λ x, x.1.1.1.1.1.2) _ _ uid (λ _, eq_refl) (st_users _ _ Hs uid)).
  unfold set_nick_tables. cbn zeta. set (c1 := with_user uid _ _).
  assert (uget u_nick c1 uid = Some n) as E1.
  { unfold c1. rewrite (uget_with_user u_nick (λ _, n)) by done. rewrite decide_True by done. unfold uget.
    destruct (u_registered u), (is_empty (u_nick u)); unfold push_whowas; repeat case_match; cbn; by rewrite Hu. }
  clearbody c1. destruct (_ && _); [by rewrite uget_move|done].
Qed.


End authority.
