(* ===== verification/LinkRuns.v ===== *)
(** * Two linked servers

    A concrete network: server [0AA] with alice and bob in [#c], linked with
    [0BB] through connection 10.  The link theorems at this network, and runs
    that show where the protocol falls short. *)

From Stdlib Require Import Ascii.
From S2P Require Import Prelude RustStr Message Glob Clock I18n Channel Numeric Regex State Mode UserMode.
From S2P Require Import CoreMode Ban Membership Watch Users Xline Account CoreChannel CoreMessage Filter.
From S2P Require Import Tables UserFacts XlineFacts MessageFacts Link LinkChannel LinkServices.
From S2P Require Import LinkFacts LinkSafe Password System SpeechRuns Network Authority.

Local Open Scope stdpp_scope.

Section runs.
#[local] Existing Instance ascii_only.
#[local] Existing Instance bare_outside.
#[local] Existing Instance bare_crypto.

Definition net_boot (name sid : string) (peers : list LinkBlock) : Server :=
  boot name sid 1000 ∅ ∅ None [] peers [] "" "" "" [].

Definition arrive (uid : Uid) (ip nick : string) (s : Server) : Server :=
  set_nick uid nick (upd (register_tables uid) (connect uid ip s)).

Definition block (name : string) : LinkBlock := mkLinkBlock name "10.9.0.9" 7000 "secret" false.

Definition a_boot : Server := net_boot "a.test" "0AA" [block "b.test"; block "c.test"].
Definition a_users : Server := arrive 2 "10.0.0.2" "bob" (arrive 1 "10.0.0.1" "Alice" a_boot).
Definition a_joined : Server := run 2 (CJoin "#c" None) (run 1 (CJoin "#C" None) a_users).

Definition from (uid : Uid) (msg : Message) (s : Server) : Server := default s (on_link uid msg s).

Definition hello (name sid : string) : Message :=
  plain_message None "SERVER" [name; "secret"; sid; "a peer"].

Definition uid_msg (sid uuid nick ts : string) : Message :=
  plain_message (Some sid) "UID"
    [uuid; ts; nick; "real"; "shown"; "id"; "id"; "10.1.1.1"; ts; "+i"; "Remote user"].

Definition a_waiting : Server := add_link 10 "10.9.0.9" false a_joined.
Definition a_linked : Server := from 10 (hello "b.test" "0BB") a_waiting.
Definition a_net : Server :=
  from 10 (plain_message (Some "0BBAAAAAA") "JOIN" ["#c"])
    (from 10 (uid_msg "0BB" "0BBAAAAAA" "carol" "1500") a_linked).

Definition uuids_free_b (c : Core) : bool :=
  forallb (λ '(uid, u), negb (is_empty (u_uuid u))
           && bool_decide (default uid (find_nick c (u_uuid u)) = uid)) (map_to_list (users c)).

Lemma uuids_free_ok c : uuids_free_b c = true → uuids_free c.
Proof.
  intros Hb uid u Hu. unfold uuids_free_b in Hb. rewrite forallb_forall in Hb.
  specialize (Hb (uid, u) ltac:(by apply list_elem_of_In, elem_of_map_to_list)). cbn in Hb.
  apply andb_true_iff in Hb as [H1 H2%bool_decide_eq_true].
  split; [by destruct (u_uuid u)|]. intros i Hi. by rewrite Hi in H2.
Qed.

Lemma reach_link uid msg s :
  reachable s →
  is_some (links (core s) !! uid) && uuids_free_b (core s) && is_some (on_link uid msg s) = true →
  command msg ∉ ["ENCAP"; "SVSJOIN"; "SVSOPER"] →
  reachable (from uid msg s).
Proof.
  intros Hr [[Hl Hf]%andb_true_iff Ho]%andb_true_iff Hc. eapply reach_step; [exact Hr|].
  apply (step_link uid msg); [by destruct (links _ !! _)| |].
  - apply link_ok_plain; [by apply uuids_free_ok|done].
  - unfold from. by destruct (on_link uid msg s).
Qed.

Lemma a_joined_reachable : reachable a_joined.
Proof.
  unfold a_joined. do 2 (apply reach_cmd; [|vm_compute; reflexivity]).
  unfold a_users, arrive.
  apply reach_nick; [|done|vm_compute; reflexivity].
  eapply reach_step; [|apply step_register]. apply reach_conn; [|vm_compute; reflexivity].
  apply reach_nick; [|done|vm_compute; reflexivity].
  eapply reach_step; [|apply step_register]. apply reach_conn; [|vm_compute; reflexivity]. apply reach_boot.
Qed.

Lemma a_waiting_reachable : reachable a_waiting.
Proof. eapply reach_step; [apply a_joined_reachable|]. apply step_add_link. Qed.

Lemma a_net_reachable : reachable a_net.
Proof.
  unfold a_net, a_linked. do 3 (apply reach_link; [|vm_compute; reflexivity|cbn; set_solver]).
  apply a_waiting_reachable.
Qed.

Lemma link_lines_safe_witness :
  ∃ s', on_link 10 (plain_message (Some "0BBAAAAAA") "QUIT" ["bye"]) a_net = Some s' ∧ reachable s'
    ∧ wf (core s').
Proof.
  apply (link_lines_safe 10 _ a_net a_net_reachable).
  - assert (is_some (links (core a_net) !! (10 : Uid)) = true) as E by (vm_compute; reflexivity).
    by destruct (links (core a_net) !! (10 : Uid)).
  - apply link_ok_plain; [|cbn; set_solver]. apply uuids_free_ok. vm_compute. reflexivity.
Defined.

Lemma netsplit_exact_witness :
  remote_users (core (close_link 10 "gone" a_net)) !! "0BBAAAAAA" = None
  ∧ servers (core (close_link 10 "gone" a_net)) !! "0BB" = None
  ∧ users (core (close_link 10 "gone" a_net)) = users (core a_net).
Proof.
  destruct (netsplit_exact 10 "gone" a_net (reachable_wf _ a_net_reachable)) as (_ & Hs & Hr & _ & Hu & _).
  rewrite Hs, Hr. split_and!; [vm_compute; reflexivity|vm_compute; reflexivity|exact Hu].
Defined.

(** The other side: dave and erin in [#c] on [0BB], which was created earlier. *)
Definition b_joined : Server :=
  run 1 (CMode "#c" ["+mi"]) (run 2 (CJoin "#c" None) (run 1 (CJoin "#c" None)
    (arrive 2 "10.0.0.4" "erin" (arrive 1 "10.0.0.3" "dave"
      (boot "b.test" "0BB" 900 ∅ ∅ None [] [block "a.test"] [] "" "" "" []))))).
Definition b_linked : Server := from 20 (hello "a.test" "0AA") (add_link 20 "10.9.0.9" false b_joined).

Definition chan_of (s : Server) (k : string) : Channel := default (new_channel 0 "") (channels (core s) !! k).

Lemma chan_of_some s k : is_some (channels (core s) !! k) = true → channels (core s) !! k = Some (chan_of s k).
Proof. unfold chan_of. by destruct (channels (core s) !! k). Qed.

Definition fjoin_msg (sid : string) (ch : Channel) (mem : string) : Message :=
  plain_message (Some sid) "FJOIN" [ch_name ch; to_string (created ch); modes_render (modes ch) false; mem].

Lemma fjoin_burst sid ch mem : burst_of ch (fjoin_msg sid ch mem).
Proof. by exists mem, []. Qed.

Definition a_chan : Channel := chan_of a_net "#c".
Definition b_chan : Channel := chan_of b_linked "#c".

Lemma burst_converges_witness :
  cget agreed (core (link_fjoin_recv 10 (fjoin_msg "0BB" b_chan "") a_net)) "#c"
  = cget agreed (core (link_fjoin_recv 20 (fjoin_msg "0AA" a_chan "") b_linked)) "#c".
Proof.
  assert (channels (core a_net) !! "#c" = Some a_chan) as HA by (apply chan_of_some; vm_compute; reflexivity).
  assert (channels (core b_linked) !! "#c" = Some b_chan) as HB by (apply chan_of_some; vm_compute; reflexivity).
  assert (to_ascii_lowercase (ch_name a_chan) = "#c" ∧ to_ascii_lowercase (ch_name b_chan) = "#c") as [KA KB]
    by (split; vm_compute; reflexivity).
  assert ((created a_chan <=? u64_max)%N && (created b_chan <=? u64_max)%N = true) as T by (vm_compute; reflexivity).
  apply andb_true_iff in T as [TA%N.leb_le TB%N.leb_le].
  exact (proj1 (burst_converges 10 20 a_net b_linked a_chan b_chan (fjoin_msg "0AA" a_chan "")
    (fjoin_msg "0BB" b_chan "") "#c" HA HB KA KB TA TB (fjoin_burst _ _ _) (fjoin_burst _ _ _))).
Defined.

Lemma fjoin_loser_stripped_witness :
  ∃ flags, cget contents (core (link_fjoin_recv 10 (fjoin_msg "0BB" b_chan "") a_net)) "#c"
    = Some ("#C", flags, None, clear_status <$> members a_chan, ([], [], []), ([], [], [])).
Proof.
  assert (channels (core a_net) !! "#c" = Some a_chan) as HA by (apply chan_of_some; vm_compute; reflexivity).
  assert (params (fjoin_msg "0BB" b_chan "") = ["#c"; to_string 900; modes_render (modes b_chan) false; ""]) as Ep
    by (vm_compute; reflexivity).
  assert (ch_name a_chan = "#C" ∧ created a_chan = 1000%N) as [En Ec] by (split; vm_compute; reflexivity).
  destruct (proj2 (fjoin_loser_stripped 10 (fjoin_msg "0BB" b_chan "") "#c" 900 [] a_net a_chan
    (modes b_chan) "" Ep ltac:(discriminate) HA)) as (flags & E & _); [rewrite Ec; reflexivity|].
  exists flags. rewrite <-En. exact E.
Defined.

Lemma no_spoofing_witness :
  on_link 10 (plain_message (Some "0AAAAAAAA") "QUIT" ["not you"]) a_net = Some (heard 10 a_net).
Proof.
  apply (no_spoofing 10 _ "0AAAAAAAA" a_net); [vm_compute; reflexivity| |reflexivity|vm_compute; reflexivity].
  apply (bool_decide_unpack _). vm_compute. exact I.
Defined.

Lemma svs_needs_service_witness :
  on_link 10 (plain_message (Some "0BB") "SVSNICK" ["Alice"; "mallory"]) a_net = Some (heard 10 a_net).
Proof.
  apply (svs_needs_service 10 _ a_net); [vm_compute; reflexivity| |vm_compute; reflexivity].
  apply (bool_decide_unpack _). vm_compute. exact I.
Defined.

Lemma some_result {A} (o : option A) d : is_some o = true → o = Some (default d o).
Proof. by destruct o. Qed.

Lemma no_credentials c name pass sid desc block :
  find_first (λ b, String.eqb (lb_name b) name) (link_blocks c) = Some block → lb_password block ≠ pass →
  ¬ credentials c (plain_message None "SERVER" [name; pass; sid; desc]).
Proof. intros Hb Hp (n & p & i & d & r & b & [= <- <- <- <- <-] & _ & Hb' & Hp' & _). congruence. Qed.

Definition intruder : Message := plain_message None "SERVER" ["b.test"; "guess"; "0BB"; "a peer"].

Lemma intruder_refused : ¬ credentials (core a_waiting) intruder.
Proof. apply (no_credentials _ _ _ _ _ (block "b.test")); [vm_compute; reflexivity|done]. Qed.

Lemma handshake_authenticates_witness :
  ¬ credentials (core a_waiting) intruder ∧ links (core (from 10 intruder a_waiting)) !! (10 : Uid) = None.
Proof.
  split; [exact intruder_refused|].
  assert (on_link 10 intruder a_waiting = Some (from 10 intruder a_waiting)) as Ho
    by (apply some_result; vm_compute; reflexivity).
  assert (l_registered <$> links (core a_waiting) !! (10 : Uid) = Some false) as Hl by (vm_compute; reflexivity).
  exact (proj2 (handshake_authenticates 10 intruder a_waiting _ Hl Ho) eq_refl intruder_refused).
Defined.

Lemma refusal_says_why_witness :
  ∃ why, linkbox (from 10 intruder a_waiting) 10
         = linkbox a_waiting 10 ++ ["ERROR :" +:+ trf (core a_waiting) "Link denied: {0}" [why]].
Proof.
  assert (on_link 10 intruder a_waiting = Some (from 10 intruder a_waiting)) as Ho
    by (apply some_result; vm_compute; reflexivity).
  assert (l_registered <$> links (core a_waiting) !! (10 : Uid) = Some false) as Hl by (vm_compute; reflexivity).
  destruct (refusal_says_why 10 intruder a_waiting _ Hl eq_refl intruder_refused Ho) as (why & E & _).
  by exists why.
Defined.

Lemma silent_link_dropped_witness :
  links (core (tick 1200 a_net)) !! (10 : Uid) = None.
Proof.
  assert (links (core a_net) !! (10 : Uid)
    = Some (mkLink false true true (Some "0BB") (Some "b.test") false 1000)) as Hl by (vm_compute; reflexivity).
  rewrite (silent_link_dropped 10 _ 1200 a_net Hl). vm_compute. reflexivity.
Defined.


End runs.
