(* ===== verification/Burst.v ===== *)
(** * What a burst carries across

    The lines a server sends to introduce its state are read back by the peer as
    what they say: a user arrives with its nick, hosts and modes, a server ban
    with its mask and reason.  Where something is lost, it is stated. *)

From Stdlib Require Import Ascii.
From S2P Require Import Prelude RustStr Message Glob Clock I18n Channel Numeric Regex State Mode UserMode.
From S2P Require Import CoreMode Ban Membership Watch Users Xline Account CoreChannel CoreMessage Filter.
From S2P Require Import Tables UserFacts XlineFacts MessageFacts Link LinkChannel LinkServices.
From S2P Require Import LinkFacts LinkSafe Password System SpeechRuns Network Authority LinkRuns.

Local Open Scope stdpp_scope.

(** ** Lines with a source, middle parameters and a trailing one *)

Fixpoint line_params (mids : list string) (trailing : string) : string :=
  match mids with
  | [] => " :" +:+ trailing
  | p :: mids => String " " (p +:+ line_params mids trailing)
  end.

Definition line_of (src cmd : string) (mids : list string) (trailing : string) : string :=
  String ":" (src +:+ String " " (cmd +:+ line_params mids trailing)).

Lemma line_params_space mids t : ∃ r, line_params mids t = String " " r.
Proof. destruct mids; by eexists. Qed.

Lemma line_params_parse mids t r :
  Forall middle_ok mids → line_params mids t = String " " r →
  starts_byte " " r = false ∧ parse_params r = mids ++ [t].
Proof.
  revert r. induction mids as [|p mids IH]; intros r Hm Hl.
  - injection Hl as <-. split; [done|]. apply parse_params_trailing.
  - injection Hl as <-. apply Forall_cons in Hm as [Hp Hm].
    destruct (line_params_space mids t) as [r Hr]. rewrite Hr. destruct (IH r Hm Hr) as [Hs Hps].
    destruct Hp as (Hne & Hsp & Hc). split.
    + rewrite starts_app by done. by apply starts_no_space.
    + rewrite parse_params_middle by done. by rewrite trim_start_id, Hps.
Qed.

Lemma parse_line src cmd mids t :
  contains_byte " " src = false → cmd ≠ "" → contains_byte " " cmd = false →
  to_ascii_uppercase cmd = cmd → Forall middle_ok mids →
  parse (line_of src cmd mids t) = Some (plain_message (Some src) cmd (mids ++ [t])).
Proof.
  intros Hsrc Hne Hsp Hup Hm. unfold parse, line_of. rewrite trim_start_id by done.
  change (parse_tags (String ":" ?x)) with (Some (no_tags, String ":" x)). cbv iota.
  unfold parse_source. rewrite strip_prefix_chr, bool_decide_true, split_once_app by done.
  destruct (line_params_space mids t) as [r Hr]. rewrite Hr.
  rewrite trim_start_id by (rewrite starts_app by done; by apply starts_no_space).
  rewrite split_once_app by done. destruct (line_params_parse mids t r Hm Hr) as [Hs Hps].
  rewrite trim_start_id, Hps, Hup, (proj2 (is_empty_false _) Hne) by done. done.
Qed.

(** ** Users *)

Lemma uid_line_of c u :
  uid_line c u = line_of (s_sid c) "UID"
    [u_uuid u; to_string (u_signon u); u_nick u; u_host u; host_display u; u_ident u; u_ident u; u_ip u;
     to_string (u_signon u); umodes (u_flags u)] (u_realname u).
Proof. reflexivity. Qed.

Lemma digits_middle n : middle_ok (to_string n).
Proof.
  pose proof (to_string_digits n) as Hd. pose proof (to_string_nonempty n) as Hn.
  assert (∀ b t, str_all is_digit t = true → is_digit b = false → contains_byte b t = false) as Hc.
  { intros b t. induction t as [|a t IH]; [done|]. cbn. intros [Ha Ht]%andb_true_iff Hb.
    rewrite IH by done. rewrite orb_false_r. apply bool_decide_eq_false. intros ->. congruence. }
  split; [done|]. split; [by apply Hc|]. destruct (to_string n) as [|a t]; [done|].
  cbn in Hd |- *. apply andb_true_iff in Hd as [Ha _]. apply bool_decide_eq_false. by intros ->.
Qed.

Lemma contains_concat b l : Forall (λ x, contains_byte b x = false) l → contains_byte b (str_concat l) = false.
Proof.
  induction 1 as [|x l Hx _ IH]; [done|]. change (str_concat (x :: l)) with (x +:+ str_concat l).
  by rewrite contains_byte_app, Hx, IH.
Qed.

Lemma umodes_middle f : middle_ok (umodes f).
Proof.
  split; [done|]. split; [|done]. unfold umodes.
  change (contains_byte " " (str_concat (map snd (filter (λ '(on, _), on = true) (umode_table f)))) = false).
  apply contains_concat, Forall_forall. intros l Hl.
  apply list_elem_of_fmap in Hl as ([b l'] & -> & [_ Hl]%list_elem_of_filter).
  apply (list_elem_of_fmap_2 snd) in Hl. revert Hl. cbn [snd]. generalize l'. apply Forall_forall.
  repeat constructor.
Qed.

Section users.
Context `{UnicodeLower} `{Outside}.

Lemma contest_free via ts user ip uuid service sid nick s :
  find_nick (core s) nick = None → remote_nick (core s) !! to_ascii_lowercase nick = None →
  contest_local via ts user ip uuid service nick s = (false, s)
  ∧ contest_remote via ts user ip uuid sid nick s = (false, s).
Proof. intros Hl Hr. unfold contest_local, contest_remote. by rewrite Hl, Hr. Qed.


End users.

(** ** Server bans *)

Lemma burst_line_of c x :
  burst_line c x = line_of (s_sid c) "ADDLINE"
    [xtag (x_kind x); x_mask x; x_setter x; to_string (clock c);
     to_string (if (x_expires x =? 0)%N then 0%N else (x_expires x - clock c)%N)] (x_reason x).
Proof. reflexivity. Qed.

Section bans.
Context `{UnicodeLower} `{Outside}.

Lemma from_xtag k : from_tag (xtag k) = Some k ∧ middle_ok (xtag k).
Proof. by destruct k. Qed.

(** A server ban survives the burst: read by a peer that knows the sender, it is added with
    its kind, mask, setter and reason, and with what is left of its duration, counted
    from the moment of the burst. *)
Theorem xline_roundtrip cA x via sB :
  middle_ok (x_mask x) → middle_ok (x_setter x) → contains_byte " " (s_sid cA) = false →
  (clock cA <= u64_max)%N → (x_expires x <= u64_max)%N → source_behind (core sB) (s_sid cA) via = true →
  ∃ msg, parse (burst_line cA x) = Some msg ∧
    core (link_addline_recv via msg sB)
    = core (add_xline_at (x_kind x) (x_mask x)
              (if (x_expires x =? 0)%N then 0%N else (x_expires x - clock cA)%N)
              (x_setter x) (x_reason x) (clock cA) sB).
Proof.
  intros M1 M2 Hs Hc Hx Hb. destruct (from_xtag (x_kind x)) as [Ht Mt]. eexists. split.
  - rewrite burst_line_of. apply parse_line; try done.
    do 3 (apply Forall_cons; split; [assumption|]). do 2 (apply Forall_cons; split; [apply digits_middle|]).
    by apply Forall_nil.
  - unfold link_addline_recv. cbn [params plain_message app source]. rewrite Hb. cbn [negb].
    set (dur := if (x_expires x =? 0)%N then _ else _).
    assert (dur <= u64_max)%N as Hd by (unfold dur; destruct (x_expires x =? 0)%N; lia). clearbody dur.
    rewrite Ht, (parse_to_string u64_max dur Hd), (parse_to_string u64_max (clock cA) Hc).
    by rewrite propagate_outputs.
Qed.

End bans.

(** ** On the concrete network *)

Section gaps.
#[local] Existing Instance ascii_only.
#[local] Existing Instance bare_outside.
#[local] Existing Instance bare_crypto.

Definition frank : User :=
  (new_user "0AAAAAAAC" "10.0.0.5" 6667 false None (None, None) 1234) <| u_nick := "frank" |> <| u_ident := "fr" |>
    <| u_host := "h.example" |> <| u_realname := "Frank N." |>.


Definition a_ban : XLine := mkXLine Kline "*@evil.example" "no thanks" "Alice" 4600 950.

Lemma xline_roundtrip_witness :
  ∃ msg, parse (burst_line (core a_net) a_ban) = Some msg
    ∧ core (link_addline_recv 20 msg b_linked)
      = core (add_xline_at (x_kind a_ban) (x_mask a_ban)
                (if (x_expires a_ban =? 0)%N then 0%N else (x_expires a_ban - clock (core a_net))%N)
                (x_setter a_ban) (x_reason a_ban) (clock (core a_net)) b_linked).
Proof.
  assert (source_behind (core b_linked) (s_sid (core a_net)) 20 = true) as Hb by (vm_compute; reflexivity).
  assert (contains_byte " " (s_sid (core a_net)) = false) as H1 by (vm_compute; reflexivity).
  assert (clock (core a_net) = 1000%N) as Ec by (vm_compute; reflexivity).
  assert (clock (core a_net) <= u64_max)%N as Hc by (rewrite Ec; discriminate).
  assert (middle_ok (x_mask a_ban)) as M1 by (split; [discriminate|split; reflexivity]).
  assert (middle_ok (x_setter a_ban)) as M2 by (split; [discriminate|split; reflexivity]).
  assert (x_expires a_ban <= u64_max)%N as Hx by discriminate.
  exact (xline_roundtrip (core a_net) a_ban 20 b_linked M1 M2 H1 Hc Hx Hb).
Defined.

(** A third server, linked with [0AA] like [0BB]. *)
Definition hub : Server := from 11 (hello "c.test" "0CC") (add_link 11 "10.9.0.9" false a_linked).
Definition hub_carol : Server := from 10 (uid_msg "0BB" "0BBAAAAAA" "carol" "1500") hub.
Definition c_linked : Server :=
  from 30 (hello "a.test" "0AA") (add_link 30 "10.9.0.9" false
    (boot "c.test" "0CC" 900 ∅ ∅ None [] [block "a.test"] [] "" "" "" [])).

Definition receive (uid : Uid) (line : string) (s : Server) : Server :=
  match parse line with Some msg => from uid msg s | None => s end.

(** A user of one server is not known two hops away: the hub knows carol and
    forwards her introduction, and the third server drops it, because a server
    that is not linked directly is never entered into its table. *)
Theorem forwarded_user_lost :
  is_some (remote_users (core hub_carol) !! "0BBAAAAAA") = true
  ∧ last (linkbox hub_carol 11)
    = Some ":0BB UID 0BBAAAAAA 1500 carol real shown id id 10.1.1.1 1500 +i :Remote user"
  ∧ remote_users (core (receive 30 (default "" (last (linkbox hub_carol 11))) c_linked)) !! "0BBAAAAAA" = None.
Proof. split_and!; vm_compute; reflexivity. Qed.

(** FJOIN does not check whom it speaks for: [0CC] makes carol, who is behind
    [0BB], an operator of a channel. *)
Theorem fjoin_speaks_for_others :
  source_behind (core hub_carol) "0BBAAAAAA" 11 = false
  ∧ (cget rmembers (core (receive 11 ":0CC FJOIN #x 5 + :o,0BBAAAAAA" hub_carol)) "#x"
       ≫= lookup "0BBAAAAAA") = Some (prefixed None "o").
Proof. split; vm_compute; reflexivity. Qed.

Definition a_quiet : Server := run 2 (CMessage false ["#c"; "psst"]) (run 1 (CMode "#c" ["+U"]) a_net).

(** In a [+U] channel the message of a user without status goes to the operators
    only, but on another server every member reads it. *)
Theorem opmoderated_leaks :
  last (inbox a_quiet 1) = Some ":bob!@10.0.0.2 PRIVMSG #c :psst"
  ∧ last (linkbox a_quiet 10) = Some ":0AAAAAAAB PRIVMSG #c :psst"
  ∧ last (inbox (receive 20 ":0AAAAAAAB PRIVMSG #c :psst"
              (receive 20 ":0AA UID 0AAAAAAAB 1000 bob h h u u 10.0.0.2 1000 + :Bob" b_linked)) 2)
    = Some ":bob!u@h PRIVMSG #c :psst".
Proof. split_and!; vm_compute; reflexivity. Qed.

(** A ban that has expired and not been purged yet reaches the peer as a
    permanent one. *)
Theorem expired_ban_becomes_permanent :
  let x := mkXLine Kline "*@evil.example" "no thanks" "Alice" 1000 900 in
  x_active (core a_net) x = false
  ∧ xlines (core (receive 20 (burst_line (core a_net) x) b_linked))
    = [mkXLine Kline "*@evil.example" "no thanks" "Alice" 0 1000].
Proof. split; vm_compute; reflexivity. Qed.

(** The UID line carries the signon time where the collision rule compares the
    time of the nick: alice, who took her nick after dave took his, and dave, who
    connected after alice, both lose the nick. *)
Theorem signon_breaks_collision :
  let lost local announced := (collision_decision local announced false).1 in
  ∃ alice_signon alice_nick_ts dave_ts : N,
    (alice_signon < dave_ts < alice_nick_ts)%N
    ∧ lost alice_nick_ts dave_ts = true ∧ lost dave_ts alice_signon = true
    ∧ lost dave_ts alice_nick_ts = false.
Proof. exists 1000%N, 2000%N, 1500%N. split; [lia|]. done. Qed.

End gaps.
