(* ===== verification/Guarantees.v ===== *)
(** * What the server guarantees in every reachable state

    The invariants of [Tables] read off at the level of the server's own
    queries, and the effect of joining, leaving, renaming and quitting on the
    memberships. *)

From Stdlib Require Import Ascii.
From S2P Require Import Prelude RustStr Glob I18n Channel State CoreMode Watch Users Ban Membership.
From S2P Require Import CoreChannel Tables ModeTables MembershipTables JoinFacts LeaveFacts.
From S2P Require Import ListFacts UserFacts LinkSafe Handlers Password System.

Local Open Scope stdpp_scope.

Lemma is_member_on_chan c uid k : is_member c uid k = true ↔ on_chan c uid k.
Proof.
  unfold is_member, on_chan, cget. rewrite map_or_true. unfold chan_dom. split.
  - intros (ch & -> & Hm). exists (dom (members ch)). split; [done|]. apply elem_of_dom.
    by destruct (members ch !! uid).
  - destruct (channels c !! k) as [ch|]; [|by intros (? & ? & _)].
    intros (? & [= <-] & Hm). exists ch. split; [done|]. apply elem_of_dom in Hm as [m Hm]. by rewrite Hm.
Qed.

Lemma in_list_spec c uid k : in_list c uid k ↔ ∃ u, users c !! uid = Some u ∧ k ∈ u_channels u.
Proof.
  unfold in_list, uget. destruct (users c !! uid) as [u|]; cbn; naive_solver.
Qed.

Section guarantees.
Context `{UnicodeLower} `{Outside} `{Crypto}.



(** C22: In every reachable state two users whose nicks are equal up to ASCII case, and not
    empty, are the same connection, and the nick lookup finds it. *)
Theorem nicks_unique s i j u v :
  reachable s → users (core s) !! i = Some u → users (core s) !! j = Some v →
  u_nick u ≠ "" → eq_ignore_ascii_case (u_nick u) (u_nick v) = true →
  i = j ∧ find_nick (core s) (u_nick v) = Some i.
Proof.
  intros W%reachable_wf Hi Hj Hne He. apply eq_ignore_case_spec in He.
  assert (nick_index (core s) !! to_ascii_lowercase (u_nick u) = Some i) as E1.
  { apply (wf_nick _ W). exists (u_nick u). unfold uget. by rewrite Hi. }
  assert (nick_index (core s) !! to_ascii_lowercase (u_nick v) = Some j) as E2.
  { apply (wf_nick _ W). exists (u_nick v). unfold uget. rewrite Hj. split_and!; try done.
    intros E. apply Hne. rewrite E in He. by destruct (u_nick u). }
  unfold find_nick. rewrite <-He in E2 |- *. rewrite E1 in E2. by injection E2 as ->.
Qed.

(** C21: When a user with a nick leaves, nobody's caller-id ACCEPT list holds that nick
    afterwards, so a newcomer taking the nick does not inherit the acceptance; the
    count-gated scrub of the code never skips a list that needs it. *)
Theorem departed_nick_not_accepted s uid u reason v :
  reachable s → users (core s) !! uid = Some u → u_nick u ≠ "" →
  is_accepted (core (remove_user uid reason s)) v (u_nick u) = false.
Proof.
  intros W%reachable_wf Hu Hne. destruct (remove_user_core uid reason s u Hu) as (w & ->).
  unfold is_accepted; cbn.
  pose proof (quit_accept_low uid u (core s) Hu (wf_accept _ W) Hne) as Hz.
  destruct (users (quit_lists uid u (core s)) !! v) as [x|] eqn:Ex; cbn; [|done].
  apply (total_0 _ _ Hz) in Ex. apply occ_0 in Ex. by apply not_true_iff_false; rewrite contains_str_spec.
Qed.

(** In every reachable state the WATCH reverse index lists a connection under a nick exactly
    when that nick is on the connection's WATCH list, and likewise for MONITOR. *)
Theorem watch_index_exact s n uid :
  reachable s →
  (uid ∈ index_get (watch_by (core s)) n ↔ ∃ u, users (core s) !! uid = Some u ∧ n ∈ u_watch u)
  ∧ (uid ∈ index_get (monitor_by (core s)) n ↔ ∃ u, users (core s) !! uid = Some u ∧ n ∈ u_monitor u).
Proof.
  intros W%reachable_wf.
  assert (∀ m, uid ∈ index_get m n ↔ indexed m n uid) as Hg.
  { intros m. unfold index_get, indexed. destruct (m !! n); cbn; [|set_solver].
    rewrite elem_of_elements. naive_solver. }
  rewrite !Hg. unfold indexed. rewrite (proj1 (wf_watch _ W)), (proj1 (wf_monitor _ W)).
  unfold uget. destruct (users (core s) !! uid); cbn; naive_solver.
Qed.

(** C25: In every reachable state the incrementally kept clone counters (per address, per
    class, per address and class) are what a recount over all users gives, and the
    unregistered-connection counter is the number of unregistered users: the rehash
    recount changes nothing. *)
Theorem counters_match_recount s :
  reachable s →
  rebuild (core s) = core s
  ∧ unreg_count (core s) = N.of_nat (size (filter (λ '(_, u), u_registered u = false) (users (core s)))).
Proof.
  intros W%reachable_wf. split; [by apply rebuild_id|]. rewrite (wf_pool _ W).
  generalize (users (core s)). intros m. induction m as [|i u m Hi IH] using map_ind; [done|].
  rewrite total_insert, IH by done. cbn. destruct (u_registered u) eqn:E.
  - rewrite map_filter_insert_False by congruence. rewrite delete_id by done. done.
  - rewrite map_filter_insert_True by done. rewrite map_size_insert_None; [cbn; lia|].
    apply map_lookup_filter_None. by left.
Qed.

(** A forced part never hits its unchecked user lookup: in every reachable state it returns,
    and removes exactly that membership when it existed. *)
Theorem force_part_no_panic s uid chan reason :
  reachable s →
  ∃ s', force_part uid chan reason s = Some s'
        ∧ ∀ v k, is_member (core s') v k = true ↔
                 is_member (core s) v k = true ∧ ¬ (v = uid ∧ k = to_ascii_lowercase chan).
Proof.
  intros W%reachable_wf.
  assert (is_Some (force_part uid chan reason s)) as [s' E].
  { unfold force_part. case_match eqn:Em; [done|]. apply negb_false_iff in Em.
    destruct (member_user _ _ _ W Em) as [u Hu]. by rewrite Hu. }
  exists s'. split; [done|]. intros v k. rewrite (force_part_core _ _ _ _ _ E).
  destruct (is_member (core s) uid (to_ascii_lowercase chan)) eqn:Em.
  - rewrite !is_member_on_chan. unfold left_tables. by rewrite on_chan_retain, on_chan_drop.
  - split; [|by intros [? _]]. intros Hv. split; [done|]. intros [-> ->]. congruence.
Qed.

(** C27: JOIN always returns: the nested joins of badchan redirects, ban redirects and +L
    redirects never exceed the fuel of ten, for any configuration, state and channel
    name, so the fuelled model always produces a result. *)
Theorem join_terminates uid name key_arg s :
  join_fuel JOIN_FUEL uid name key_arg s = Some (join uid name key_arg s).
Proof.
  unfold join. destruct (join_fuel_some JOIN_FUEL uid name key_arg s (redirects_left_max _)) as [s' E].
  by rewrite E.
Qed.

(** JOIN adds at most one membership, and only to the user who joins; through all redirects,
    every other membership is exactly as before. *)
Theorem join_adds_at_most_one uid name key_arg s :
  ∃ o : option string, ∀ v k,
    is_member (core (join uid name key_arg s)) v k = true ↔
    is_member (core s) v k = true ∨ (v = uid ∧ o = Some k).
Proof.
  unfold join. destruct (join_fuel_some JOIN_FUEL uid name key_arg s (redirects_left_max _)) as [s' E].
  rewrite E. destruct (join_fuel_one _ _ _ _ _ _ E) as [[o Ho] _]. exists o. intros v k.
  rewrite !is_member_on_chan. apply Ho.
Qed.


(** PART reports whether the user was on the channel; exactly that membership goes, every
    other stays, and after a departure no channel without a reason to exist remains. *)
Theorem part_exact uid target reason s :
  reachable s →
  let '(left_it, s') := part uid target reason s in
  left_it = is_member (core s) uid (to_ascii_lowercase target)
  ∧ (∀ v k, is_member (core s') v k = true ↔
            is_member (core s) v k = true ∧ ¬ (v = uid ∧ k = to_ascii_lowercase target))
  ∧ (left_it = true → all_alive (core s')).
Proof.
  intros W%reachable_wf. pose proof (part_core uid target reason s) as Hc.
  assert ((part uid target reason s).1 = is_member (core s) uid (to_ascii_lowercase target)) as Hl.
  { apply eq_true_iff_eq. rewrite is_member_on_chan, (wf_mem _ W uid _), in_list_spec. unfold part.
    destruct (users (core s) !! uid) as [u|]; [|naive_solver]. case_bool_decide; naive_solver. }
  destruct (part uid target reason s) as [l s']. cbn in *. subst l. split; [done|].
  rewrite Hc. destruct (is_member _ _ _) eqn:Em; split.
  - intros v k. rewrite !is_member_on_chan. unfold left_tables. by rewrite on_chan_retain, on_chan_drop.
  - intros _. apply left_tables_alive.
  - intros v k. split; [|by intros [? _]]. intros Hv. split; [done|]. intros [-> ->]. congruence.
  - done.
Qed.

Lemma refuse_core uid n rest s res s' : refuse uid n rest s = Some (res, s') → core s' = core s.
Proof. intros [= _ <-]. by frame. Qed.

Ltac kick_refused :=
  exfalso; match goal with
  | Hk : _ = Some (_, ?s'), Hs : ¬ same_tables _ _ |- _ =>
      autounfold with echo in Hk; apply refuse_core in Hk; apply Hs; rewrite Hk; reflexivity end.

(** C38: If KICK removes a local member, then the victim named is that member, the kicker
    holds at least half-op, does not rank below the victim, the victim is not a
    protected service, and +Q was off unless the kicker is an IRC operator. *)
Theorem kick_policy uid chan victim reason s res s' v k :
  kick_cmd uid chan victim reason s = Some (res, s') →
  is_member (core s) v k = true → is_member (core s') v k = false →
  k = to_ascii_lowercase chan ∧ find_nick (core s) victim = Some v
  ∧ (RANK_HALFOP <= rank (core s) uid k)%N ∧ (rank (core s) v k <= rank (core s) uid k)%N
  ∧ uid_servprotected (core s) v = false
  ∧ (is_oper (core s) uid = false → ∀ ch, channels (core s) !! k = Some ch → nokicks (modes ch) = false).
Proof.
  intros Hk Hin Hout.
  assert (¬ same_tables (core s) (core s')) as Hsame.
  { intros Hs. apply not_true_iff_false in Hout. apply Hout.
    rewrite is_member_on_chan in *. by apply (on_chan_same _ _ _ _ Hs). }
  unfold kick_cmd in Hk. destruct (channels (core s) !! to_ascii_lowercase chan) as [ch|] eqn:Hch; [|kick_refused].
  destruct (rank _ _ _ <? RANK_HALFOP)%N eqn:Hr; [kick_refused|]. apply N.ltb_ge in Hr.
  destruct (find_nick (core s) victim) as [tuid|] eqn:Hn.
  - unfold kick_local in Hk. cbn zeta in Hk.
    destruct (negb (is_some _)); [kick_refused|].
    destruct (uid_servprotected _ _) eqn:Hp; [kick_refused|].
    destruct (_ <? _)%N eqn:Hrk; [kick_refused|]. apply N.ltb_ge in Hrk.
    destruct (_ && _) eqn:Hq; [kick_refused|].
    apply bind_Some in Hk as (u & Hu & [= <- <-]).
    rewrite core_upd in Hout. unfold compose in Hout. apply not_true_iff_false in Hout.
    rewrite is_member_on_chan, on_chan_retain, on_chan_drop in Hout.
    rewrite <-(on_chan_same _ _ _ _ (note_kick_same _ _ _)) in Hout.
    rewrite publish_event_outputs, propagate_kick_outputs, to_channel_outputs in Hout.
    rewrite <-(on_chan_same _ _ _ _ (record_event_stable _ _ _)), <-is_member_on_chan in Hout.
    assert (v = tuid ∧ k = to_ascii_lowercase chan) as [-> ->].
    { destruct (decide (v = tuid ∧ k = to_ascii_lowercase chan)); [done|]. exfalso. by apply Hout. }
    split_and!; try done. intros Ho ch' Hch'. simplify_eq. rewrite Ho, andb_true_r in Hq. done.
  - unfold kick_remote in Hk. destruct (_ ≫= _) as [[vuuid m]|]; [|kick_refused].
    destruct (nick_servprotected _ _); [kick_refused|]. destruct (_ <? _)%N; [kick_refused|].
    apply bind_Some in Hk as (u & Hu & [= <- <-]). exfalso. apply not_true_iff_false in Hout. apply Hout.
    rewrite is_member_on_chan in Hin |- *. rewrite core_upd. unfold on_chan.
    rewrite cget_with_chan_ne by done.
    rewrite publish_event_outputs, propagate_kick_outputs, to_channel_outputs.
    refine (proj1 (on_chan_same _ _ _ _ _) Hin). apply record_event_stable.
Qed.


(** A successful channel rename files the channel under the folded new name and moves
    exactly its memberships there; a change of case only moves nothing. *)
Theorem rename_moves_members s old newname pfx reason newkey s' :
  reachable s → rename_channel old newname pfx reason s = (Some newkey, s') →
  newkey = to_ascii_lowercase newname
  ∧ ∀ v k, is_member (core s') v k = true ↔
      if decide (newkey = old) then is_member (core s) v k = true
      else moved old newkey (λ v k, is_member (core s) v k = true) v k.
Proof.
  intros W%reachable_wf. unfold rename_channel. cbn zeta.
  destruct (channels (core s) !! old) as [ch|] eqn:Hch; [|done].
  destruct (negb _ && is_some _) eqn:Hx; [done|]. intros [= <- <-]. split; [done|].
  intros v k. rewrite is_member_on_chan, for_each_outputs.
  2: { intros m s'. repeat case_match; done || apply send_outputs || apply emulate_rename_outputs. }
  rewrite core_upd. destruct (String.eqb_spec (to_ascii_lowercase newname) old) as [E|E].
  - rewrite decide_True by done. rewrite is_member_on_chan. unfold rename_tables.
    rewrite E, String.eqb_refl. unfold on_chan. by rewrite cget_with_chan_ne.
  - rewrite decide_False by done. unfold moved. rewrite !is_member_on_chan.
    apply (on_chan_rename old newname ch (core s) Hch E).
Qed.

(** The id loop finds a network id that neither a local nor a remote user holds, as long as
    fewer than 26^6 ids are in use and the counter does not overflow its 64 bits. *)
Theorem next_uuid_fresh c :
  size (uuid_local c) + size (remote_users c) < N.to_nat (26 ^ 6) →
  (uuid_counter c + N.of_nat (S (size (uuid_local c) + size (remote_users c))) <= u64_max)%N →
  ∃ uuid c', next_uuid c = Some (uuid, c') ∧ uuid_local c !! uuid = None ∧ remote_users c !! uuid = None.
Proof.
  intros Hs Hc. destruct (next_uuid_some c Hs Hc) as [[uuid c'] E]. exists uuid, c'.
  split; [done|]. apply next_uuid_fuel_spec in E as [Ht _]. apply orb_false_iff in Ht as [Ha Hb].
  split; [by destruct (uuid_local c !! uuid)|by destruct (remote_users c !! uuid)].
Qed.
End guarantees.

(** ** The guarantees on the concrete run *)

Section witnesses.
#[local] Existing Instance ascii_only.
#[local] Existing Instance bare_outside.
#[local] Existing Instance bare_crypto.

Definition demo_user (uid : Uid) : User :=
  default (new_user "" "" 0 false None (None, None) 0) (users (core demo) !! uid).



Lemma nicks_unique_witness :
  (1 = 1)%N ∧ find_nick (core demo) (u_nick (demo_user 1%N)) = Some 1%N.
Proof.
  apply (nicks_unique demo 1%N 1%N (demo_user 1%N) (demo_user 1%N) demo_reachable);
    [vm_compute; reflexivity|vm_compute; reflexivity|vm_compute; discriminate|vm_compute; reflexivity].
Defined.

Lemma departed_nick_not_accepted_witness :
  is_accepted (core demo) 2 "Alice" = true
  ∧ is_accepted (core (remove_user 1 "bye" demo)) 2 (u_nick (demo_user 1%N)) = false.
Proof.
  split; [vm_compute; reflexivity|].
  apply (departed_nick_not_accepted demo 1%N (demo_user 1%N) "bye" 2%N demo_reachable);
    [vm_compute; reflexivity|vm_compute; discriminate].
Defined.

Lemma watch_index_exact_witness : 2%N ∈ index_get (watch_by (core demo)) "alice".
Proof.
  apply (watch_index_exact demo "alice" 2%N demo_reachable). exists (demo_user 2%N).
  split; [vm_compute; reflexivity|]. apply (bool_decide_unpack _). vm_compute. exact I.
Defined.

Lemma counters_match_recount_witness :
  rebuild (core demo) = core demo ∧ per_class (core demo) !! "main" = Some 1%N.
Proof.
  split; [apply (counters_match_recount demo demo_reachable)|vm_compute; reflexivity].
Defined.

Lemma force_part_no_panic_witness : is_some (force_part 2 "#c" "bye" demo) = true.
Proof. destruct (force_part_no_panic demo 2%N "#c" "bye" demo_reachable) as (s' & -> & _). reflexivity. Defined.


Lemma part_exact_witness : (part 2 "#c" "" demo).1 = true.
Proof.
  pose proof (part_exact 2%N "#c" "" demo demo_reachable) as Hp.
  destruct (part 2 "#c" "" demo) as [l s']. destruct Hp as [-> _]. vm_compute. reflexivity.
Defined.


Definition after_kick : Server := map_or demo snd (kick_cmd 1 "#c" "bob" None demo).

Lemma kick_policy_witness : (rank (core demo) 2 "#c" <= rank (core demo) 1 "#c")%N.
Proof.
  assert (kick_cmd 1 "#c" "bob" None demo = Some (CmdOk, after_kick)) as Hk.
  { assert (map_or false (λ r, match r.1 with CmdOk => true | _ => false end)
              (kick_cmd 1 "#c" "bob" None demo) = true) as E by (vm_compute; reflexivity).
    unfold after_kick. destruct (kick_cmd 1 "#c" "bob" None demo) as [[[] ?]|];
      (discriminate E || reflexivity). }
  assert (is_member (core demo) 2%N "#c" = true) as Hin by (vm_compute; reflexivity).
  assert (is_member (core after_kick) 2%N "#c" = false) as Hout by (vm_compute; reflexivity).
  destruct (kick_policy 1%N "#c" "bob" None demo CmdOk after_kick 2%N "#c" Hk Hin Hout)
    as (_ & _ & _ & Hr & _).
  exact Hr.
Defined.

Definition renamed : Server := (rename_channel "#c" "#D" "Alice!u@h" "moving" demo).2.

Lemma rename_moves_members_witness : is_member (core renamed) 2 "#d" = true.
Proof.
  apply (rename_moves_members demo "#c" "#D" "Alice!u@h" "moving" "#d" renamed demo_reachable).
  - apply injective_projections; vm_compute; reflexivity.
  - rewrite decide_False by discriminate. left. split; [reflexivity|vm_compute; reflexivity].
Defined.

Lemma next_uuid_fresh_witness :
  ∃ uuid c', next_uuid (core demo) = Some (uuid, c')
    ∧ uuid_local (core demo) !! uuid = None ∧ remote_users (core demo) !! uuid = None.
Proof.
  assert (size (uuid_local (core demo)) + size (remote_users (core demo)) = 2) as E by (vm_compute; reflexivity).
  assert (uuid_counter (core demo) = 2%N) as E' by (vm_compute; reflexivity).
  apply (next_uuid_fresh (core demo)); rewrite E, ?E'; [lia|unfold u64_max; lia].
Defined.
End witnesses.
