(* ===== verification/ModeFacts.v ===== *)
(** * What a mode change may do

    Ranks, flag modes and their renderings, who may change what, and the ranges
    of the mode parameters. *)

From Stdlib Require Import Ascii.
From S2P Require Import Prelude RustStr Glob Duration I18n Channel State Numeric Mode UserMode CoreMode.
From S2P Require Import Watch Ban Membership Users Tables ModeTables Password System.

Local Open Scope stdpp_scope.

(** ** Ranks and prefixes *)

Definition head_rank (l : list (N * string)) : N := map_or 0%N fst (head l).

Lemma head_rank_insert x l : head_rank (insert_rank x l) = N.max (head_rank l) x.1.
Proof.
  destruct l as [|y l]; cbn; unfold head_rank; cbn; [lia|].
  destruct (N.ltb_spec y.1 x.1); cbn; lia.
Qed.

Lemma head_rank_sort l : head_rank (sort_rank l) = foldl N.max 0%N (map fst l).
Proof.
  unfold sort_rank. change 0%N with (head_rank []). generalize (@nil (N * string)).
  induction l as [|x l IH]; intros acc; cbn; [done|]. rewrite IH. by rewrite head_rank_insert.
Qed.

Lemma builtin_held_rank cfg m : foldl N.max 0%N (map fst (builtin_held cfg m)) = builtin_rank m.
Proof.
  unfold builtin_held, builtin_rank.
  by destruct (oprefix m), (owner m), (admin m), (op m), (halfop m), (voice m).
Qed.

Lemma builtin_held_sorted cfg m : sort_rank (builtin_held cfg m) = builtin_held cfg m.
Proof.
  unfold builtin_held. by destruct (oprefix m), (owner m), (admin m), (op m), (halfop m), (voice m).
Qed.

(** A member's rank is the rank of the highest prefix held, built-in or configured, the
    NAMES prefix is that prefix's sigil, and the multi-prefix form is all held sigils in
    rank order, with or without the code's shortcut for members that hold no configured
    prefix. *)
Theorem rank_and_prefix_are_highest cfg m :
  member_rank cfg m = head_rank (held cfg m)
  ∧ prefix_char cfg m = map_or "" snd (head (held cfg m))
  ∧ all_prefixes cfg m = str_concat (map snd (held cfg m)).
Proof.
  split_and!.
  - unfold held. rewrite head_rank_sort, map_app, foldl_app, builtin_held_rank. unfold member_rank.
    generalize (builtin_rank m). induction (custom_prefixes m) as [|c l IH]; intros r; cbn; [done|].
    rewrite IH. by destruct (def_for_letter cfg c).
  - unfold prefix_char, held. destruct (custom_prefixes m); [|done].
    cbn [omap list_omap]. rewrite app_nil_r, builtin_held_sorted. unfold builtin_held.
    by destruct (oprefix m), (owner m), (admin m), (op m), (halfop m), (voice m).
  - unfold all_prefixes, held. destruct (custom_prefixes m); [|done].
    cbn [omap list_omap]. by rewrite app_nil_r, builtin_held_sorted.
Qed.

(** ** Flag modes *)

Definition flag_setter (h : ChanMode) : option (bool → ChanModes → ChanModes) :=
  match h with
  | Flag _ f | OperFlagChan _ f => Some f
  | RegisteredChan => Some (λ v m, m <| registered := v |>)
  | SecureOnly => Some (λ v m, m <| secure_only := v |>)
  | Encrypted => Some (λ v m, m <| encrypted := v |>)
  | _ => None
  end.

(** Each flag handler of the mode table does to the mode record what the peer-server setter
    does for its letter, and changes exactly that letter of what the mode query renders. *)
Theorem flag_handlers_agree h f on m :
  h ∈ CHAN_MODES → flag_setter h = Some f →
  f on m = set_by_letter (letter h) on m
  ∧ render_flags (f on m)
    = map (λ '(b, l), (if String.eqb l (letter h) then on else b, l)) (render_flags m).
Proof.
  intros Hh. unfold CHAN_MODES in Hh.
  repeat (apply elem_of_cons in Hh as [->|Hh]; [cbn; try done; intros [= <-]; by destruct m|]).
  by apply elem_of_nil in Hh.
Qed.

Lemma flag_handlers_agree_witness :
  set_nokicks true default_modes = set_by_letter "Q" true default_modes
  ∧ render_flags (set_nokicks true default_modes)
    = map (λ '(b, l), (if String.eqb l "Q" then true else b, l)) (render_flags default_modes).
Proof.
  apply (flag_handlers_agree (Flag "Q" set_nokicks) set_nokicks true default_modes); [|done].
  unfold CHAN_MODES. repeat (apply elem_of_cons; first [by left|right]).
Defined.

(** ** The table of modes *)

Lemma chan_mode_cases cfg c h :
  chan_mode cfg c = Some h → h ∈ CHAN_MODES ∨ ∃ l r, h = Prefix l r.
Proof.
  unfold chan_mode, builtin_chan_mode. case_match eqn:E.
  - intros [= <-]. left. by apply find_first_Some in E as [? _].
  - rewrite bind_Some. intros (d & _ & [= <-]). right. by do 2 eexists.
Qed.

(** A property of mode records that every handler reachable from a mode string
    preserves; [ok] is what each handler's new value satisfies. *)
Section modes_inv.
Context (P : ChanModes → Prop).

Definition modes_all (c : Core) : Prop := ∀ k ch, channels c !! k = Some ch → P (modes ch).

(** Only members and lists of a channel change. *)
Definition same_modes (c c' : Core) : Prop :=
  ∀ k, cget modes c' k = cget modes c k.

Lemma same_modes_all c c' : same_modes c c' → modes_all c → modes_all c'.
Proof.
  intros Hs Ha k ch Hch. specialize (Hs k). unfold cget in Hs. rewrite Hch in Hs. cbn in Hs.
  destruct (channels c !! k) as [ch0|] eqn:E; [|done]. injection Hs as ->. by eapply Ha.
Qed.

Lemma modes_all_set k f c :
  (∀ m, P m → P (f m)) → modes_all c → modes_all (with_chan k (λ ch, ch <| modes ::= f |>) c).
Proof.
  intros Hf Ha k' ch. unfold with_chan; cbn. destruct (decide (k = k')) as [->|Hne].
  - rewrite lookup_alter_eq. destruct (channels c !! k') as [ch0|] eqn:E; [|done]. cbn.
    intros [= <-]. cbn. apply Hf. by eapply Ha.
  - rewrite lookup_alter_ne by done. apply Ha.
Qed.
End modes_inv.

(** ** Parameter ranges *)

Definition in_range (lo hi n : N) : bool := (lo <=? n)%N && (n <=? hi)%N.

Definition rate_ok (r : Rate) : bool := in_range 1 u32_max (r_count r) && in_range 1 u64_max (r_secs r).

(** What the rest of the server relies on for a stored mode record. *)
Definition modes_ok (m : ChanModes) : bool :=
  map_or true (λ k, negb (is_empty k) && negb (contains_any [" "; ","; ":"]%char k)) (key m)
  && map_or true (in_range 1 u32_max) (limit m)
  && map_or true (λ f, in_range 1 u32_max (mf_lines f) && in_range 1 u64_max (mf_secs f)) (flood m)
  && map_or true rate_ok (joinflood m) && map_or true rate_ok (nickflood m)
  && map_or true rate_ok (slowmode m)
  && map_or true (starts_with "#") (redirect m)
  && map_or true (λ h, in_range 1 HISTORY_CAP h.1) (history m)
  && map_or true (in_range 1 100) (anticaps m)
  && map_or true (in_range 1 3600) (kicknorejoin m)
  && map_or true (in_range 1 3600) (delaymsg m)
  && map_or true (in_range 1 20) (repeat_ m).

Lemma parse_rate_ok p r : parse_rate p = Some r → rate_ok r = true.
Proof.
  unfold parse_rate. destruct (split_once _ _) as [[a b]|]; [|done].
  rewrite bind_Some. intros (n & Hn%parse_uint_bound & Hx). rewrite bind_Some in Hx.
  destruct Hx as (t & Ht%parse_uint_bound & Hx). destruct (_ && _) eqn:E in Hx; [|done].
  injection Hx as <-. apply andb_true_iff in E as [E1%N.ltb_lt E2%N.ltb_lt].
  unfold rate_ok, in_range; cbn. rewrite !andb_true_iff, !N.leb_le. lia.
Qed.

Lemma parse_slow_ok p r : parse_slow p = Some r → rate_ok r = true.
Proof.
  unfold parse_slow. case_match; [apply parse_rate_ok|].
  rewrite bind_Some. intros (t & Ht%parse_uint_bound & Hx). destruct (0 <? t)%N eqn:E; [|done].
  injection Hx as <-. apply N.ltb_lt in E.
  unfold rate_ok, in_range; cbn. rewrite !andb_true_iff, !N.leb_le. unfold u32_max, u64_max in *. lia.
Qed.

(** [modes_ok] after an update of one checked field. *)
Ltac one_field := intros m; unfold modes_ok; cbn; rewrite !andb_true_iff; intuition auto.

Lemma same_modes_shape c c' :
  (∃ k f, c' = with_chan k f c ∧ ∀ ch, modes (f ch) = modes ch) → same_modes c c'.
Proof. intros (k & f & -> & Hf) k'. by apply cget_with_chan_ne. Qed.

Lemma same_modes_refl c : same_modes c c.
Proof. by intros k. Qed.

Lemma same_modes_trans c1 c2 c3 : same_modes c1 c2 → same_modes c2 c3 → same_modes c1 c3.
Proof. intros H1 H2 k. by rewrite H2, H1. Qed.

Lemma reveal_member_modes uid k s : same_modes (core s) (core (reveal_member uid k s)).
Proof.
  unfold reveal_member. case_match; [apply same_modes_refl|].
  match goal with |- context [upd ?f s] => set (s1 := upd f s) end.
  assert (same_modes (core s) (core s1)) as Hs by (apply same_modes_shape; by do 2 eexists).
  case_match; [|done]. rewrite for_each_outputs; [done|].
  intros m s'. repeat case_match; done || apply send_outputs.
Qed.

Lemma prefix_apply_modes ch r chan k uid adding param s :
  same_modes (core s) (core (prefix_apply ch r chan k uid adding param s).2).
Proof.
  unfold prefix_apply. repeat case_match; cbn [snd]; frame; try apply same_modes_refl.
  - eapply same_modes_trans, reveal_member_modes. apply same_modes_shape. by do 2 eexists.
  - apply same_modes_shape. by do 2 eexists.
Qed.

Lemma list_apply_modes ch kind chan k uid adding param s :
  same_modes (core s) (core (list_apply ch kind chan k uid adding param s).2).
Proof.
  unfold list_apply, list_add, list_remove.
  repeat case_match; cbn [snd]; frame; try apply same_modes_refl;
    (apply same_modes_shape; do 2 eexists; split; [reflexivity|intros; by destruct kind]).
Qed.

Lemma flag_modes_ok h f on m :
  h ∈ CHAN_MODES → flag_setter h = Some f → modes_ok (f on m) = modes_ok m.
Proof.
  intros Hh. unfold CHAN_MODES in Hh.
  repeat (apply elem_of_cons in Hh as [->|Hh]; [cbn; try done; intros [= <-]; by destruct m|]).
  by apply elem_of_nil in Hh.
Qed.

Abbreviation ranges := (modes_all (λ m, modes_ok m = true)).

Lemma set_ranges k f s :
  (∀ m, modes_ok m = true → modes_ok (f m) = true) →
  ranges (core s) → ranges (core (set_modes k f s)).
Proof. intros Hf. by apply modes_all_set. Qed.

(** The handlers that store a parameter. *)
Lemma number_ranges max cap set k adding param s :
  (1 <= cap)%N →
  (∀ o m, map_or true (in_range 1 cap) o = true → modes_ok m = true → modes_ok (set o m) = true) →
  ranges (core s) → ranges (core (number_apply max cap set k adding param s).2).
Proof.
  intros Hcap Hset Hr. unfold number_apply. repeat case_match; cbn [snd]; try done.
  - apply set_ranges; [|done]. intros m. apply Hset.
    match goal with Hf : opt_filter _ _ = Some _ |- _ => apply opt_filter_Some in Hf as [_ Hf] end.
    unfold in_range; cbn. rewrite andb_true_iff, !N.leb_le in *. lia.
  - apply set_ranges; [|done]. intros m. by apply Hset.
Qed.

Lemma rate_ranges prs set k adding param s :
  (∀ p r, prs p = Some r → rate_ok r = true) →
  (∀ o m, map_or true rate_ok o = true → modes_ok m = true → modes_ok (set o m) = true) →
  ranges (core s) → ranges (core (rate_apply prs set k adding param s).2).
Proof.
  intros Hp Hset Hr. unfold rate_apply. repeat case_match; cbn [snd]; try done.
  - apply set_ranges; [|done]. intros m. apply Hset. cbn.
    match goal with Hb : _ ≫= prs = Some _ |- _ => apply bind_Some in Hb as (? & _ & Hb) end. by eapply Hp.
  - apply set_ranges; [|done]. intros m. by apply Hset.
Qed.

Ltac set_field := apply set_ranges; [|done]; one_field.

Lemma key_ranges k adding param s : ranges (core s) → ranges (core (key_apply k adding param s).2).
Proof.
  intros Hr. unfold key_apply. destruct adding; cbn [snd]; [|set_field].
  destruct (opt_filter _ _) as [p|] eqn:Hf; [|done]. apply opt_filter_Some in Hf as [_ Hf].
  apply andb_true_iff in Hf as [? ?]. cbn [snd]. set_field.
Qed.

Lemma limit_ranges k adding param s : ranges (core s) → ranges (core (limit_apply k adding param s).2).
Proof.
  intros Hr. unfold limit_apply. destruct adding; cbn [snd]; [|set_field].
  destruct (opt_filter _ _) as [n|] eqn:Hf; [|done]. apply opt_filter_Some in Hf as [Hp Hf%N.ltb_lt].
  apply bind_Some in Hp as (? & _ & Hp%parse_uint_bound). cbn [snd].
  assert (in_range 1 u32_max n = true) by (unfold in_range; rewrite andb_true_iff, !N.leb_le; lia).
  set_field.
Qed.

Lemma history_ranges k adding param s : ranges (core s) → ranges (core (history_apply k adding param s).2).
Proof.
  intros Hr. unfold history_apply. destruct adding; cbn [snd]; [|set_field].
  destruct param as [p|]; [|done]. destruct (default (p, "0") (split_once ":" p)) as [ls ss].
  destruct (opt_filter _ _) as [n|] eqn:Hf; [|done]. apply opt_filter_Some in Hf as [_ Hf%N.ltb_lt].
  cbn [snd]. assert (in_range 1 HISTORY_CAP (N.min n HISTORY_CAP) = true)
    by (unfold in_range, HISTORY_CAP; rewrite andb_true_iff, !N.leb_le; lia).
  set_field.
Qed.

Lemma msgflood_ranges k adding param s : ranges (core s) → ranges (core (msgflood_apply k adding param s).2).
Proof.
  intros Hr. unfold msgflood_apply. destruct adding; cbn [snd]; [|set_field].
  destruct param as [p|]; [|done]. cbn zeta. destruct (parse_rate _) as [r|] eqn:Hp; [|done]. cbn [snd].
  apply parse_rate_ok in Hp. unfold rate_ok in Hp. apply andb_true_iff in Hp as [? ?]. set_field.
Qed.

Lemma redirect_ranges chan k adding param s :
  ranges (core s) → ranges (core (redirect_apply chan k adding param s).2).
Proof.
  intros Hr. unfold redirect_apply. destruct adding; cbn [snd]; [|set_field].
  destruct param as [p|]; [|done]. destruct (_ || _) eqn:E; [done|]. cbn [snd].
  apply orb_false_iff in E as [E%negb_false_iff _]. set_field.
Qed.

Lemma chan_apply_ranges h cfg c chan k uid adding param s :
  chan_mode cfg c = Some h → ranges (core s) → ranges (core (chan_apply h chan k uid adding param s).2).
Proof.
  intros Hh Hr. apply chan_mode_cases in Hh as [Hh|(l & r & ->)].
  2: { eapply same_modes_all, Hr. apply prefix_apply_modes. }
  assert (∀ f on, flag_setter h = Some f → ranges (core (set_modes k (f on) s))) as Hflag.
  { intros f on Hf. apply set_ranges; [|done]. intros m. by rewrite (flag_modes_ok h f on m). }
  destruct h; cbn [chan_apply].
  - eapply same_modes_all, Hr. apply prefix_apply_modes.
  - eapply same_modes_all, Hr. apply list_apply_modes.
  - by apply Hflag.
  - unfold operflag_apply. repeat case_match; cbn [snd]; frame; [done|done|by apply Hflag].
  - unfold registered_apply. case_match; cbn [snd]; [by frame|exact (Hflag _ adding eq_refl)].
  - by apply key_ranges.
  - by apply limit_ranges.
  - by apply history_ranges.
  - unfold secureonly_apply. destruct (count_without _ _ _). case_match; cbn [snd]; [by frame|exact (Hflag _ adding eq_refl)].
  - unfold encrypted_apply. destruct (count_without _ _ _). case_match; cbn [snd]; [by frame|exact (Hflag _ adding eq_refl)].
  - by apply msgflood_ranges.
  - apply rate_ranges; [apply parse_rate_ok| |done]. intros o; one_field.
  - apply rate_ranges; [apply parse_rate_ok| |done]. intros o; one_field.
  - apply rate_ranges; [apply parse_slow_ok| |done]. intros o; one_field.
  - by apply redirect_ranges.
  - apply number_ranges; [done| |done]. intros o; one_field.
  - apply number_ranges; [done| |done]. intros o; one_field.
  - apply number_ranges; [done| |done]. intros o; one_field.
  - apply number_ranges; [done| |done]. intros o; one_field.
Qed.

(** ** Loops over a mode string

    What every handler of the table preserves, both loops preserve: a loop only
    adds replies between two handlers. *)
Section loops.
Context (R : Core → Prop) (k : string) (uid : Uid).
Hypothesis handlers : ∀ h c chan adding param s,
  chan_mode (prefix_cfg (core s)) c = Some h → R (core s) →
  R (core (chan_apply h chan k uid adding param s).2).

Lemma mode_letter_keeps target c l s :
  R (core s) → R (core (mode_letter target k uid c l s).2).
Proof.
  intros HR. unfold mode_letter. case_match eqn:Hh; [|by cbn [snd]; frame].
  destruct (take_param _ _ _) as [param args]. cbn zeta.
  match goal with |- context [chan_apply ?h ?a k uid ?ad ?p s] =>
    pose proof (handlers h c a ad p s Hh HR) as Hst;
    destruct (chan_apply h a k uid ad p s) as [res s'] end.
  cbn [snd] in Hst. repeat case_match; cbn [snd]; by frame.
Qed.

Lemma mode_loop_keeps target mx cs l s :
  R (core s) → R (core (mode_loop target k uid mx cs l s).2).
Proof.
  revert l s. induction cs as [|c cs IH]; intros l s HR; cbn [mode_loop]; [done|].
  case_match; [by apply IH|]. case_match; [done|].
  pose proof (mode_letter_keeps target c l s HR) as Hl.
  destruct (mode_letter target k uid c l s) as [l' s']. by apply IH.
Qed.

Lemma svs_loop_keeps target cs l s :
  uid = 0%N → R (core s) → R (core (svs_loop target k cs l s).2).
Proof.
  intros Hz. revert l s. induction cs as [|c cs IH]; intros l s HR; cbn [svs_loop]; [done|].
  case_match; [by apply IH|]. case_match eqn:Hh; [|by apply IH].
  destruct (take_param _ _ _) as [param args]. cbn zeta. rewrite <-Hz.
  match goal with |- context [chan_apply ?h ?a k uid ?ad ?p s] =>
    pose proof (handlers h c a ad p s Hh HR) as Hst;
    destruct (chan_apply h a k uid ad p s) as [res s'] end.
  by apply IH.
Qed.

(** MODE on a channel, its early returns and its epilogue included. *)
Lemma apply_chan_mode_keeps target params s :
  k = to_ascii_lowercase target →
  (∀ l s, R (core s) → R (core (announce_modes target k uid l s))) →
  (∀ s, R (core s) → R (core (cull k s))) →
  R (core s) → R (core (apply_chan_mode target uid params s).2).
Proof.
  intros Hk Hann Hcull HR. unfold apply_chan_mode. cbn zeta. rewrite <-Hk.
  case_match; [|by cbn [snd]; frame].
  case_match; [by cbn [snd]; frame|]. case_match; [by cbn [snd]; frame|]. cbn zeta.
  match goal with |- context [mode_loop _ _ _ ?mx ?cs ?l s] =>
    pose proof (mode_loop_keeps target mx cs l s HR) as Hl;
    destruct (mode_loop _ _ _ mx cs l s) as [l' s'] end.
  cbn [snd] in *. by apply Hcull, Hann.
Qed.
End loops.

(** Announcing a change leaves the channels alone. *)
Lemma announce_modes_channels target k uid l s :
  channels (core (announce_modes target k uid l s)) = channels (core s).
Proof.
  unfold announce_modes. case_match; [done|]. cbn zeta.
  rewrite propagate_chan_mode_outputs. case_match; [by rewrite hidemode_outputs|].
  rewrite to_channel_outputs. unfold record_event. by case_match.
Qed.

Lemma modes_all_channels P c c' : channels c' = channels c → modes_all P c → modes_all P c'.
Proof. intros He Ha k ch. rewrite He. apply Ha. Qed.

Lemma cull_modes_all P k s : modes_all P (core s) → modes_all P (core (cull k s)).
Proof.
  intros Ha. unfold cull. repeat case_match; try done. intros k' ch'. cbn.
  rewrite lookup_delete_Some. intros [_ ?]. by eapply Ha.
Qed.

(** MODE and the services form of it keep every stored mode parameter within the range the
    rest of the server relies on: non-empty keys without separators, positive limits and
    rates within their widths, redirects to channels, clamped history, caps, rejoin,
    delay and repeat values. *)
Theorem mode_parameters_in_range target uid params svs ms args s :
  ranges (core s) →
  ranges (core (apply_chan_mode target uid params s).2)
  ∧ ranges (core (svs_set_chan_modes svs ms args s).2).
Proof.
  assert (∀ k uid h c chan adding param s, chan_mode (prefix_cfg (core s)) c = Some h →
    ranges (core s) → ranges (core (chan_apply h chan k uid adding param s).2)) as Hh
    by (intros ? ? ? ? ? ? ? ? Hm; by eapply chan_apply_ranges, Hm).
  intros Hr. split.
  - apply (apply_chan_mode_keeps _ (to_ascii_lowercase target) uid (Hh _ _)); try done.
    + intros l s' Hs. eapply modes_all_channels, Hs. apply announce_modes_channels.
    + intros s' Hs. by apply cull_modes_all.
  - unfold svs_set_chan_modes. case_match; [|done].
    pose proof (svs_loop_keeps _ (to_ascii_lowercase svs) 0%N (Hh _ _) svs (chars ms)
      (start_loop args) (set_sudo true s) eq_refl Hr) as Hl.
    destruct (svs_loop _ _ _ _ _) as [l' s']. cbn [snd] in *.
    case_match; cbn [snd]; [done|]. by rewrite propagate_chan_mode_outputs, to_channel_outputs.
Qed.

Section witness.
#[local] Existing Instance ascii_only.
#[local] Existing Instance bare_outside.
#[local] Existing Instance bare_crypto.

(** [+k] and [+l] on the channel of the concrete run. *)
Lemma mode_parameters_in_range_witness :
  map_or "" (λ ch, modes_render (modes ch) true)
    (channels (core (apply_chan_mode "#c" 1 ["+kl"; "sekrit"; "5"] demo).2) !! "#c")
    = "+ntkl sekrit 5"
  ∧ ranges (core (apply_chan_mode "#c" 1 ["+kl"; "sekrit"; "5"] demo).2).
Proof.
  split; [vm_compute; reflexivity|].
  assert (map_Forall (λ _ ch, modes_ok (modes ch) = true) (channels (core demo))) as Hm
    by (apply (bool_decide_unpack _); vm_compute; exact I).
  destruct (mode_parameters_in_range "#c" 1%N ["+kl"; "sekrit"; "5"] "#c" "" [] demo Hm) as [Hc _].
  exact Hc.
Defined.
End witness.
