(* ===== verification/ModeRights.v ===== *)
(** * Who may change which mode

    The rank gate of the prefix modes, and what it buys over a whole MODE
    command: nobody rises above the rank of the member who issued it, nobody
    above that rank is touched, and a member without a rank changes nothing. *)

From Stdlib Require Import Ascii.
From S2P Require Import Prelude RustStr Glob Duration I18n Channel State Numeric Mode UserMode CoreMode.
From S2P Require Import Watch Ban Membership Users Tables ModeTables System ModeFacts.

Local Open Scope stdpp_scope.

Definition member_at (c : Core) (k : string) (v : Uid) : option Member :=
  channels c !! k ≫= (λ ch, members ch !! v).

(** ** The rank after a prefix change *)

Lemma has_bit_set b b' on m :
  has_bit (set_bit b on m) b'
  = if on then has_bit m b' || negb (N.land b b' =? 0)%N
    else negb (N.land (prefixes m) (N.land (not_u8 b) b') =? 0)%N.
Proof.
  unfold has_bit, set_bit. destruct on; cbn.
  - rewrite N.land_lor_distr_l, <-negb_andb. f_equal. apply eq_true_iff_eq.
    by rewrite andb_true_iff, !N.eqb_eq, N.lor_eq_0_iff.
  - by rewrite N.land_assoc.
Qed.

Definition PFX_BITS : list N := [PFX_OPER; PFX_OWNER; PFX_ADMIN; PFX_OP; PFX_HALFOP; PFX_VOICE].

Lemma has_bit_of b b' on m :
  b ∈ PFX_BITS → b' ∈ PFX_BITS →
  has_bit (set_bit b on m) b' = if (b =? b')%N then on else has_bit m b'.
Proof.
  intros Hb Hb'. rewrite has_bit_set. unfold PFX_BITS in *.
  repeat (apply elem_of_cons in Hb as [->|Hb]); try by apply elem_of_nil in Hb.
  all: repeat (apply elem_of_cons in Hb' as [->|Hb']); try by apply elem_of_nil in Hb'.
  all: match goal with |- context [N.land ?a ?b] =>
    let v := eval vm_compute in (N.land a b) in change (N.land a b) with v end.
  all: match goal with |- context [N.land (not_u8 ?a) ?b] =>
    let v := eval vm_compute in (N.land (not_u8 a) b) in change (N.land (not_u8 a) b) with v end.
  all: destruct on; cbn -[N.land]; rewrite ?N.land_0_r, ?orb_false_r, ?orb_true_r; reflexivity.
Qed.

Lemma prefix_bit_in l b : prefix_bit l = Some b → b ∈ PFX_BITS.
Proof.
  unfold prefix_bit, PFX_BITS. intros Hb.
  repeat (case_match; [injection Hb as <-; set_solver|]). done.
Qed.

Lemma builtin_rank_set b on m :
  b ∈ PFX_BITS →
  (builtin_rank (set_bit b on m)
   <= if on then N.max (builtin_rank m) (builtin_rank (set_bit b true default_member))
      else builtin_rank m)%N.
Proof.
  intros Hb. unfold builtin_rank, oprefix, owner, admin, op, halfop, voice.
  rewrite !(has_bit_of b) by (done || (unfold PFX_BITS; set_solver)).
  generalize (has_bit m PFX_OPER) (has_bit m PFX_OWNER) (has_bit m PFX_ADMIN) (has_bit m PFX_OP)
    (has_bit m PFX_HALFOP) (has_bit m PFX_VOICE). intros b1 b2 b3 b4 b5 b6.
  unfold PFX_BITS in Hb. repeat (apply elem_of_cons in Hb as [->|Hb]); try by apply elem_of_nil in Hb.
  all: destruct on, b1, b2, b3, b4, b5, b6; vm_compute; discriminate.
Qed.

Definition custom_rank (cfg : option PrefixCfg) (l : list string) : N :=
  foldr (λ c r, N.max (map_or 0%N pd_rank (def_for_letter cfg c)) r) 0%N l.

Lemma member_rank_max cfg m :
  member_rank cfg m = N.max (builtin_rank m) (custom_rank cfg (custom_prefixes m)).
Proof.
  unfold member_rank. generalize (builtin_rank m).
  induction (custom_prefixes m) as [|c l IH]; intros r; cbn [foldl custom_rank foldr]; [lia|].
  rewrite IH. fold (custom_rank cfg l). destruct (def_for_letter cfg c); cbn [map_or]; lia.
Qed.

Lemma custom_rank_app cfg l l' : custom_rank cfg (l ++ l') = N.max (custom_rank cfg l) (custom_rank cfg l').
Proof.
  unfold custom_rank. rewrite foldr_app. fold (custom_rank cfg l').
  induction l as [|c l IH]; cbn [foldr]; [by rewrite N.max_0_l|]. rewrite IH. lia.
Qed.

Lemma custom_rank_retain cfg p l : (custom_rank cfg (retain p l) <= custom_rank cfg l)%N.
Proof.
  induction l as [|c l IH]; [done|]. cbn [retain].
  case_match; cbn [custom_rank foldr]; fold (custom_rank cfg l);
    fold (custom_rank cfg (retain p l)); lia.
Qed.

(** A prefix change raises a rank to at most the rank it grants, and never
    raises it when it takes the prefix away. *)
Lemma member_rank_set_prefix cfg l on m :
  (member_rank cfg (set_prefix cfg l on m)
   <= if on then N.max (member_rank cfg m) (member_rank cfg (set_prefix cfg l true default_member))
      else member_rank cfg m)%N.
Proof.
  rewrite !member_rank_max. unfold set_prefix. destruct (prefix_bit l) as [b|] eqn:Hb.
  - apply prefix_bit_in in Hb. pose proof (builtin_rank_set b on m Hb).
    assert (∀ on m, custom_prefixes (set_bit b on m) = custom_prefixes m) as Hc by (by intros []).
    rewrite !Hc. destruct on; lia.
  - destruct (def_for_letter cfg l); [|destruct on; lia].
    change (builtin_rank (m <| custom_prefixes ::= _ |>)) with (builtin_rank m).
    cbn -[custom_rank builtin_rank].
    pose proof (custom_rank_retain cfg (λ c, negb (String.eqb c l)) (custom_prefixes m)).
    destruct on; rewrite ?custom_rank_app; lia.
Qed.

Lemma member_rank_hidden cfg b m : member_rank cfg (m <| hidden := b |>) = member_rank cfg m.
Proof. done. Qed.

(** ** Where the handlers write *)

(** What a rank is computed with. *)
Definition same_settings (c c' : Core) : Prop :=
  prefix_cfg c' = prefix_cfg c ∧ mode_sudo c' = mode_sudo c.

Definition alter_member (k : string) (f : Member → Member) (uid : Uid) : Core → Core :=
  with_chan k (λ c, c <| members ::= alter f uid |>).

Lemma member_at_alter k f uid c k' v :
  member_at (alter_member k f uid c) k' v
  = if decide (k = k' ∧ uid = v) then f <$> member_at c k' v else member_at c k' v.
Proof.
  unfold member_at, alter_member, with_chan; cbn. destruct (decide (k = k')) as [->|Hk].
  - rewrite lookup_alter_eq. destruct (channels c !! k') as [ch|]; cbn; [|by case_decide].
    destruct (decide (uid = v)) as [->|Hu].
    + by rewrite lookup_alter_eq, decide_True.
    + rewrite lookup_alter_ne by done. by rewrite decide_False by naive_solver.
  - rewrite lookup_alter_ne by done. by rewrite decide_False by naive_solver.
Qed.

Definition reveal : Member → Member := λ m, m <| hidden := false |>.

Lemma reveal_member_core uid k s :
  core (reveal_member uid k s) = core s ∨ core (reveal_member uid k s) = alter_member k reveal uid (core s).
Proof.
  unfold reveal_member. case_match; [by left|right].
  match goal with |- context [upd ?f s] => set (s1 := upd f s) end.
  case_match; [|done]. rewrite for_each_outputs; [done|].
  intros m s'. repeat case_match; done || apply send_outputs.
Qed.

(** The member a prefix change leaves behind. *)
Definition regraded (cfg : option PrefixCfg) (ch : string) (adding : bool) (m m' : Member) : Prop :=
  m' = set_prefix cfg ch adding m ∨ m' = reveal (set_prefix cfg ch adding m).

Lemma regraded_rank cfg ch adding m m' :
  regraded cfg ch adding m m' → member_rank cfg m' = member_rank cfg (set_prefix cfg ch adding m).
Proof. by intros [->| ->]. Qed.

(** When a prefix handler reports a change: the rank it demanded of the issuer,
    and that it wrote one member. *)
Lemma prefix_apply_yes ch r chan k uid adding param s echo s' :
  prefix_apply ch r chan k uid adding param s = (AYes echo, s') →
  let cfg := prefix_cfg (core s) in
  ∃ pn tuid m m',
    param = Some pn ∧ find_nick (core s) pn = Some tuid ∧ member_at (core s) k tuid = Some m
    ∧ (default r (if adding then rank_to_set cfg ch else rank_to_unset cfg ch)
       <= rank (core s) uid k)%N
    ∧ (member_rank cfg m <= rank (core s) uid k)%N
    ∧ member_at (core s') k tuid = Some m' ∧ regraded cfg ch adding m m'
    ∧ same_settings (core s) (core s')
    ∧ ∀ k' v, ¬ (k = k' ∧ tuid = v) → member_at (core s') k' v = member_at (core s) k' v.
Proof.
  intros Hp cfg. unfold prefix_apply in Hp. destruct param as [pn|]; [|done].
  destruct (find_nick (core s) pn) as [tuid|] eqn:Hn; [|done].
  fold (member_at (core s) k tuid) in Hp. destruct (member_at (core s) k tuid) as [m|] eqn:Hm; [|done].
  cbn zeta in Hp. case_match; [done|]. case_match eqn:Hr; [done|].
  apply orb_false_iff in Hr as [H1%N.ltb_ge H2%N.ltb_ge]. injection Hp as <- <-.
  set (s1 := upd _ s) in *.
  assert (core s1 = alter_member k (set_prefix cfg ch adding) tuid (core s)) as E1 by done.
  assert (core (if adding then reveal_member tuid k s1 else s1) = core s1
    ∨ core (if adding then reveal_member tuid k s1 else s1) = alter_member k reveal tuid (core s1)) as E2
    by (destruct adding; [apply reveal_member_core|by left]).
  destruct E2 as [E2|E2]; rewrite E2, E1; eexists pn, tuid, m, _;
    (do 5 (split; [done|])); (split; [rewrite !member_at_alter, !decide_True, Hm by done; reflexivity|]);
    (split; [first [by left|by right]|]); (split; [done|]);
    intros k' v Hne; by rewrite !member_at_alter, !decide_False by done.
Qed.

Lemma prefix_apply_no ch r chan k uid adding param s s' :
  prefix_apply ch r chan k uid adding param s = (ANo, s') → core s' = core s.
Proof. unfold prefix_apply. repeat case_match; intros [= <-]; by frame. Qed.

Definition same_members (c c' : Core) : Prop :=
  same_settings c c' ∧ ∀ k v, member_at c' k v = member_at c k v.

Lemma same_members_refl c : same_members c c.
Proof. done. Qed.

Lemma same_members_with k f c : (∀ ch, members (f ch) = members ch) → same_members c (with_chan k f c).
Proof.
  intros Hf. split; [done|]. intros k' v. unfold member_at, with_chan; cbn.
  destruct (decide (k = k')) as [->|]; [|by rewrite lookup_alter_ne].
  rewrite lookup_alter_eq. destruct (channels c !! k'); cbn; by rewrite ?Hf.
Qed.

Lemma set_modes_members k f s : same_members (core s) (core (set_modes k f s)).
Proof. by apply same_members_with. Qed.
#[local] Hint Resolve same_members_refl set_modes_members : core.

Lemma chan_apply_members h chan k uid adding param s :
  is_prefix h = false → same_members (core s) (core (chan_apply h chan k uid adding param s).2).
Proof.
  intros Hh. destruct h; try done; cbn [chan_apply];
    unfold flag_apply, list_apply, list_add, list_remove, operflag_apply, registered_apply, key_apply, limit_apply,
      history_apply, secureonly_apply, encrypted_apply, msgflood_apply, joinflood_apply,
      nickflood_apply, slowmode_apply, rate_apply, redirect_apply, anticaps_apply,
      kicknorejoin_apply, delaymsg_apply, repeat_apply, number_apply;
    repeat case_match; cbn [snd]; rewrite ?outputs; auto;
    (apply same_members_with; intros; by unfold kind_update; repeat case_match).
Qed.

(** ** No escalation *)

(** No prefix may be set by someone ranking below what it grants. *)
Definition strict_prefixes (cfg : option PrefixCfg) : Prop :=
  ∀ c l r, chan_mode cfg c = Some (Prefix l r) →
    (member_rank cfg (set_prefix cfg l true default_member) <= default r (rank_to_set cfg l))%N.

Lemma rank_member_at c v k :
  mode_sudo c = false → rank c v k = map_or 0%N (member_rank (prefix_cfg c)) (member_at c k v).
Proof. unfold rank, member_at. intros ->. by case_match. Qed.

Section escalation.
Context (c0 : Core) (k : string) (uid : Uid).
Hypothesis no_sudo : mode_sudo c0 = false.
Hypothesis strict : strict_prefixes (prefix_cfg c0).

(** The state of the channel while a MODE of [uid] runs that began in [c0]. *)
Definition capped (c : Core) : Prop :=
  same_settings c0 c
  ∧ ∀ v, (rank c v k <= N.max (rank c0 v k) (rank c0 uid k))%N
         ∧ ((rank c0 uid k < rank c0 v k)%N → member_at c k v = member_at c0 k v).

Lemma capped_start : capped c0.
Proof. split; [done|]. intros v. split; [lia|done]. Qed.

Lemma capped_same c c' : same_members c c' → capped c → capped c'.
Proof.
  intros [[Hp Hs] Hm] [[Hp0 Hs0] Hc]. split; [split; congruence|]. intros v.
  assert (rank c' v k = rank c v k) as ->.
  { rewrite !rank_member_at by congruence. by rewrite Hm, Hp. }
  rewrite Hm. apply Hc.
Qed.

Lemma prefix_apply_capped l r c chan adding param s :
  chan_mode (prefix_cfg (core s)) c = Some (Prefix l r) → capped (core s) →
  capped (core (prefix_apply l r chan k uid adding param s).2).
Proof.
  intros Hl [[Hp Hs] Hc]. destruct (prefix_apply l r chan k uid adding param s) as [[|echo] s'] eqn:E.
  { apply prefix_apply_no in E. cbn. by rewrite E. }
  destruct (prefix_apply_yes _ _ _ _ _ _ _ _ _ _ E)
    as (pn & tuid & m & m' & _ & _ & Hm & Hneed & Htgt & Hm' & Hreg & [Hp' Hs'] & Hother).
  destruct (Hc uid) as [Hcap _]. cbn [snd]. split; [split; congruence|]. intros v.
  destruct (decide (tuid = v)) as [<-|Hv].
  - assert (rank (core s) tuid k = member_rank (prefix_cfg (core s)) m) as Er
      by (rewrite rank_member_at by congruence; by rewrite Hm).
    destruct (Hc tuid) as [_ Hsame]. split.
    + rewrite rank_member_at by congruence. rewrite Hm', Hp'. cbn [map_or].
      rewrite (regraded_rank _ _ _ _ _ Hreg).
      pose proof (member_rank_set_prefix (prefix_cfg (core s)) l adding m).
      rewrite Hp in Hl. pose proof (strict _ _ _ Hl). destruct adding; rewrite Hp in *; lia.
    + intros Hlt. exfalso.
      assert (rank c0 tuid k = member_rank (prefix_cfg (core s)) m) as E0
        by (rewrite rank_member_at by done; by rewrite <-(Hsame Hlt), Hm, Hp).
      lia.
  - assert (member_at (core s') k v = member_at (core s) k v) as Ev by (apply Hother; naive_solver).
    rewrite rank_member_at by congruence. rewrite Ev, Hp', <-rank_member_at by congruence. apply Hc.
Qed.

Lemma chan_apply_capped h c chan adding param s :
  chan_mode (prefix_cfg (core s)) c = Some h → capped (core s) →
  capped (core (chan_apply h chan k uid adding param s).2).
Proof.
  intros Hh Hc. destruct (is_prefix h) eqn:E.
  - destruct h; try done. by eapply prefix_apply_capped.
  - eapply capped_same, Hc. by apply chan_apply_members.
Qed.
End escalation.

Lemma announce_modes_members target k uid l s :
  same_members (core s) (core (announce_modes target k uid l s)).
Proof.
  unfold announce_modes. case_match; [done|]. cbn zeta.
  rewrite propagate_chan_mode_outputs. case_match; [by rewrite hidemode_outputs|].
  rewrite to_channel_outputs. unfold record_event. by case_match.
Qed.

Lemma cull_members k s : same_members (core s) (core (cull k s)).
Proof.
  unfold cull. destruct (channels (core s) !! k) as [ch|] eqn:Hch; [|done].
  destruct (keep_alive ch) eqn:Ha; [done|]. split; [done|]. intros k' v. unfold member_at; cbn.
  destruct (decide (k = k')) as [<-|]; [|by rewrite lookup_delete_ne].
  rewrite lookup_delete_eq, Hch. cbn. unfold keep_alive, chan_is_empty in Ha.
  apply orb_false_iff in Ha as [[[Hm _]%negb_false_iff%andb_true_iff _]%orb_false_iff _].
  apply bool_decide_eq_true in Hm. by rewrite Hm.
Qed.

(** C6: A MODE command cannot escalate: when no prefix may be set by someone ranking below
    what it grants, nobody ends up above the higher of their old rank and the issuer's
    rank, and a member ranking above the issuer keeps their member record unchanged. *)
Theorem mode_no_escalation target uid params s :
  let c := core s in
  let c' := core (apply_chan_mode target uid params s).2 in
  let k := to_ascii_lowercase target in
  mode_sudo c = false → strict_prefixes (prefix_cfg c) →
  ∀ v, (rank c' v k <= N.max (rank c v k) (rank c uid k))%N
       ∧ ((rank c uid k < rank c v k)%N → member_at c' k v = member_at c k v).
Proof.
  intros c c' k Hs Hstrict.
  assert (capped c k uid c') as [_ Hc]; [|exact Hc]. unfold c'.
  apply (apply_chan_mode_keeps (capped c k uid) k uid); [|done| | |apply capped_start].
  - intros. by eapply chan_apply_capped.
  - intros l s'. apply capped_same; [done|]. apply announce_modes_members.
  - intros s'. apply capped_same; [done|]. apply cull_members.
Qed.

(** ** Without a rank *)

Lemma list_query_apply h chan k uid adding s :
  is_list h = true → ∃ s', chan_apply h chan k uid adding None s = (ANo, s') ∧ core s' = core s.
Proof.
  intros Hh. destruct h; try done. cbn [chan_apply list_apply].
  eexists; split; [reflexivity|]. apply list_query_outputs.
Qed.

(** A list query runs the loop without touching anything or echoing anything. *)
Lemma mode_loop_query target k uid mx cs l s :
  forallb (λ m, map_or false is_list (chan_mode (prefix_cfg (core s)) m))
    (filter (λ c, negb (String.eqb c "+" || String.eqb c "-") = true) cs) = true →
  ml_args l = [] →
  let '(l', s') := mode_loop target k uid mx cs l s in core s' = core s ∧ ml_echo l' = ml_echo l.
Proof.
  revert l s. induction cs as [|c cs IH]; intros l s Hq Hl; cbn [mode_loop]; [done|].
  rewrite filter_cons in Hq. destruct (_ || _) eqn:Hs; [|].
  { rewrite decide_False in Hq by done.
    pose proof (IH (mkLoop c (ml_args l) (ml_echo l) (ml_echoed l) (ml_changes l) (ml_done l)) s Hq Hl) as Hx.
    exact Hx. }
  rewrite decide_True in Hq by done. cbn [forallb] in Hq. apply andb_true_iff in Hq as [Hc Hq].
  destruct (mx <=? ml_done l)%N; [done|]. unfold mode_letter. destruct (chan_mode _ c) as [h|]; [|done].
  cbn [map_or] in Hc. destruct h as [|lc kind| | | | | | | | | | | | | | | | |]; try done.
  unfold take_param. cbn. rewrite Hl. cbn. rewrite andb_false_r. cbn.
  destruct (list_query_apply (ListMode lc kind) target k uid (String.eqb (ml_sign l) "+") s eq_refl)
    as (s' & Es & Hs'). cbn in Es. injection Es as Es. rewrite Es. rewrite <-Hs' in Hq |- *.
  match goal with |- context [mode_loop _ _ _ _ _ ?l' _] => exact (IH l' s' Hq eq_refl) end.
Qed.

(** A channel MODE of someone below half-op changes no state at all, whatever the mode
    string (on a channel that has a reason to exist): list queries only send replies. *)
Theorem mode_without_rank_changes_nothing target uid params s :
  let k := to_ascii_lowercase target in
  (rank (core s) uid k < RANK_HALFOP)%N →
  (∀ ch, channels (core s) !! k = Some ch → keep_alive ch = true) →
  core (apply_chan_mode target uid params s).2 = core s.
Proof.
  intros k Hr Ha. unfold apply_chan_mode. fold k.
  destruct (channels (core s) !! k) as [ch|] eqn:Hch; [|by cbn [snd]; frame].
  destruct params as [|ms args]; [by cbn [snd]; frame|].
  destruct (_ && _) eqn:E; [by cbn [snd]; frame|]. apply N.ltb_lt in Hr. rewrite Hr, andb_true_r in E.
  apply orb_false_iff in E as [Hq%negb_false_iff _]. destruct args; [|done]. cbn in Hq.
  pose proof (mode_loop_query target k uid (N.max (conf_num (core s) u64_max "modes" 20) 1)
    (chars ms) (start_loop []) s Hq eq_refl) as Hl.
  destruct (mode_loop _ _ _ _ _ _ _) as [l' s']. destruct Hl as [Hs He]. cbn [snd].
  unfold announce_modes. rewrite He. cbn [start_loop ml_echo fst is_empty]. unfold cull.
  rewrite Hs, Hch. by rewrite (Ha ch eq_refl).
Qed.

(** ** Modes of services and operators *)

(** [+r] does not move; without an operator behind it, neither does [+P] or
    [+O] go on. *)
Definition guarded (oper : bool) (m m' : ChanModes) : Prop :=
  registered m' = registered m
  ∧ (oper = false → (permanent m' = true → permanent m = true) ∧ (oper_only m' = true → oper_only m = true)).

Section guards.
Context (c0 : Core) (uid : Uid).
Abbreviation oper := (is_oper c0 uid).

Definition guarded_core (c : Core) : Prop :=
  mode_sudo c = false ∧ users c = users c0
  ∧ ∀ k ch', channels c !! k = Some ch' →
      ∃ ch, channels c0 !! k = Some ch ∧ guarded oper (modes ch) (modes ch').

Lemma guarded_with k f c :
  (∀ ch, guarded oper (modes ch) (modes (f ch))) → guarded_core c → guarded_core (with_chan k f c).
Proof.
  intros Hf (Hs & Hu & Hc). split; [done|]. split; [done|]. intros k' ch'.
  unfold with_chan; cbn. rewrite lookup_alter_Some. intros [(<- & ch1 & H1 & ->)|(_ & H1)]; [|by apply Hc].
  destruct (Hc _ _ H1) as (ch & H0 & [G1 G2]). exists ch. split; [done|].
  destruct (Hf ch1) as [F1 F2]. split; [congruence|]. intros Ho.
  destruct (G2 Ho), (F2 Ho). split; auto.
Qed.

Lemma guarded_keep m : guarded oper m m.
Proof. split; [done|]. by intros. Qed.

Lemma guarded_set k f s :
  (∀ m, guarded oper m (f m)) → guarded_core (core s) → guarded_core (core (set_modes k f s)).
Proof. intros Hf. apply guarded_with. intros ch. apply Hf. Qed.

Lemma plain_flag_guarded h f on m :
  h ∈ CHAN_MODES → (∃ l, h = Flag l f) → guarded oper m (f on m).
Proof.
  intros Hh [l ->]. unfold CHAN_MODES in Hh.
  repeat (apply elem_of_cons in Hh as [Hh|Hh]; [first [discriminate Hh|injection Hh as _ ->; by split]|]).
  by apply elem_of_nil in Hh.
Qed.

Lemma oper_flag_guarded h f m :
  h ∈ CHAN_MODES → (∃ l, h = OperFlagChan l f) →
  guarded oper m (f false m) ∧ (oper = true → guarded oper m (f true m)).
Proof.
  intros Hh [l ->]. unfold CHAN_MODES in Hh.
  repeat (apply elem_of_cons in Hh as [Hh|Hh];
    [first [discriminate Hh|injection Hh as _ ->; split; [by split|intros ->; by split]]|]).
  by apply elem_of_nil in Hh.
Qed.

Lemma chan_apply_guarded k h c chan adding param s :
  chan_mode (prefix_cfg (core s)) c = Some h → guarded_core (core s) →
  guarded_core (core (chan_apply h chan k uid adding param s).2).
Proof.
  intros Hm Hg. pose proof Hg as (Hsudo & Hus & _).
  assert (is_oper (core s) uid = oper) as Ho by (unfold is_oper; by rewrite Hus).
  assert (∀ k f s, (∀ ch, modes (f ch) = modes ch) → guarded_core (core s) → guarded_core (with_chan k f (core s)))
    as Hw by (intros ? ? ? Hf; apply guarded_with; intros; rewrite Hf; apply guarded_keep).
  assert (∀ l r, guarded_core (core (prefix_apply l r chan k uid adding param s).2)) as Hp.
  { intros l r. unfold prefix_apply. repeat case_match; cbn [snd]; rewrite ?outputs; try done.
    - match goal with |- context [reveal_member ?t k ?s1] =>
        destruct (reveal_member_core t k s1) as [-> | ->] end; [by apply Hw|].
      apply Hw; [done|]. by apply Hw.
    - by apply Hw. }
  apply chan_mode_cases in Hm as [Hh|(l & r & ->)]; [|apply Hp].
  destruct h; cbn [chan_apply]; [apply Hp|..];
    unfold flag_apply, list_apply, list_add, list_remove, operflag_apply, registered_apply, key_apply,
      limit_apply, history_apply, secureonly_apply, encrypted_apply, msgflood_apply, joinflood_apply,
      nickflood_apply, slowmode_apply, rate_apply, redirect_apply, anticaps_apply,
      kicknorejoin_apply, delaymsg_apply, repeat_apply, number_apply.
  { repeat case_match; cbn [snd]; rewrite ?outputs; try done;
      (apply Hw; [intros; by unfold kind_update; repeat case_match|done]). }
  { cbn [snd]. apply guarded_set; [|done]. intros m. eapply plain_flag_guarded; [done|by eexists]. }
  { rewrite Hsudo, Ho. repeat case_match; cbn [snd]; rewrite ?outputs; try done.
    apply guarded_set; [|done]. intros m.
    destruct (oper_flag_guarded _ set m Hh (ex_intro _ _ eq_refl)) as [Hoff Hon].
    destruct adding; [|done]. apply Hon. by destruct oper. }
  { rewrite Hsudo. cbn [negb snd]. by rewrite outputs. }
  all: repeat case_match; cbn [snd]; rewrite ?outputs; try done; (apply guarded_set; [|done]); by split.
Qed.

Lemma guarded_channels c c' :
  mode_sudo c' = mode_sudo c → users c' = users c →
  (∀ k ch, channels c' !! k = Some ch → channels c !! k = Some ch) →
  guarded_core c → guarded_core c'.
Proof.
  intros Hs Hu Hk (Hs0 & Hu0 & Hc). split; [congruence|]. split; [congruence|].
  intros k ch' Hch. by apply Hc, Hk.
Qed.
End guards.

(** Outside services authority a MODE command never changes +r on any channel and creates no
    channel, and when the issuer is not an IRC operator it turns +P and +O on nowhere. *)
Theorem privileged_modes_guarded target uid params s :
  mode_sudo (core s) = false →
  ∀ k ch', channels (core (apply_chan_mode target uid params s).2) !! k = Some ch' →
    ∃ ch, channels (core s) !! k = Some ch ∧ guarded (is_oper (core s) uid) (modes ch) (modes ch').
Proof.
  intros Hs. apply (apply_chan_mode_keeps (guarded_core (core s) uid) (to_ascii_lowercase target) uid).
  - intros. by eapply chan_apply_guarded.
  - done.
  - intros l s'. apply guarded_channels.
    + apply announce_modes_members.
    + unfold announce_modes. case_match; [done|]. cbn zeta. rewrite propagate_chan_mode_outputs.
      case_match; [by rewrite hidemode_outputs|]. rewrite to_channel_outputs.
      unfold record_event. by case_match.
    + intros k ch. by rewrite announce_modes_channels.
  - intros s'. apply guarded_channels.
    + apply cull_members.
    + unfold cull. by repeat case_match.
    + intros k ch. unfold cull. repeat case_match; try done. cbn. by rewrite lookup_delete_Some; intros [].
  - split; [done|]. split; [done|]. intros k ch Hch. exists ch. split; [done|]. apply guarded_keep.
Qed.

(** ** List modes *)

Definition folded_masks (l : list Ban) : list string := map (λ b, to_ascii_lowercase (b_mask b)) l.

(** No list holds a mask twice, up to case, or more than [mx] masks. *)
Definition list_ok (mx : N) (l : list Ban) : Prop :=
  NoDup (folded_masks l) ∧ (N.of_nat (length l) <= mx)%N.

Definition lists_ok (mx : N) (c : Core) : Prop :=
  ∀ k ch kind, channels c !! k = Some ch → list_ok mx (kind_list kind ch).

Lemma list_ok_retain mx p l : list_ok mx l → list_ok mx (retain p l).
Proof.
  intros [Hn Hl]. pose proof (retain_length p l). split; [|lia]. clear -Hn. unfold folded_masks in *.
  induction l as [|b l IH]; cbn in *; [done|]. apply NoDup_cons in Hn as [Hb Hn].
  case_match; cbn; [|by apply IH]. apply NoDup_cons. split; [|by apply IH].
  intros (b' & E & Hin)%list_elem_of_fmap. apply elem_of_retain in Hin as [Hin _].
  apply Hb. apply list_elem_of_fmap. eauto.
Qed.

Lemma list_ok_snoc mx l b :
  existsb (same_mask (b_mask b)) l = false → (N.of_nat (length l) < mx)%N →
  list_ok mx l → list_ok mx (l ++ [b]).
Proof.
  intros Hb Hlen [Hn _]. split; [|rewrite length_app; cbn; lia].
  unfold folded_masks in *. rewrite map_app. apply NoDup_app. split_and!; [done| |apply NoDup_singleton].
  intros x (b' & -> & Hin)%list_elem_of_fmap [E|E%elem_of_nil]%elem_of_cons; [|done].
  apply not_true_iff_false in Hb. apply Hb. apply existsb_exists. exists b'.
  split; [by apply list_elem_of_In|]. unfold same_mask. by apply eq_ignore_case_spec.
Qed.

Lemma kind_list_update kind kind' f ch :
  kind_list kind' (kind_update kind f ch) = if decide (kind = kind') then f (kind_list kind ch) else kind_list kind' ch.
Proof. by destruct kind, kind'. Qed.

Section lists.
Context (c0 : Core).
Abbreviation maxlist := (conf_num c0 u64_max "maxbans" 100).

Definition lists_kept (c : Core) : Prop :=
  mode_sudo c = false ∧ raw_config c = raw_config c0 ∧ lists_ok maxlist c.

Lemma lists_kept_with k f c :
  (∀ ch kind, channels c !! k = Some ch → list_ok maxlist (kind_list kind ch) →
     list_ok maxlist (kind_list kind (f ch))) →
  lists_kept c → lists_kept (with_chan k f c).
Proof.
  intros Hf (Hs & Hr & Hl). split; [done|]. split; [done|]. intros k' ch kind.
  unfold with_chan; cbn. rewrite lookup_alter_Some.
  intros [(<- & ch1 & H1 & ->)|(_ & H1)]; [|by eapply Hl]. apply Hf; [done|]. by eapply Hl.
Qed.

Lemma lists_kept_modes k f s : lists_kept (core s) → lists_kept (core (set_modes k f s)).
Proof. apply lists_kept_with. intros ch kind _ Hl. by destruct kind. Qed.

Lemma list_add_kept kind chan k uid mask s :
  lists_kept (core s) → lists_kept (core (list_add kind chan k uid mask s).2).
Proof.
  intros Hk. pose proof Hk as (Hs & Hr & _). unfold list_add. cbn zeta.
  destruct (channels (core s) !! k) as [ch|] eqn:Hch; [|done].
  destruct (existsb _ _) eqn:Hd; [done|]. destruct (_ && _) eqn:Hf; cbn [snd]; [by rewrite outputs|].
  rewrite Hs in Hf. cbn [negb andb] in Hf. apply N.leb_gt in Hf.
  assert (conf_num (core s) u64_max "maxbans" 100 = maxlist) as E
    by (unfold conf_num, conf, conf_all; by rewrite Hr).
  apply lists_kept_with; [|done]. intros ch' kind' Hch' Hl. simplify_eq. rewrite kind_list_update.
  case_decide; [subst kind'|done]. apply list_ok_snoc; [done|by rewrite <-E|done].
Qed.

Lemma list_remove_kept kind k mask s :
  lists_kept (core s) → lists_kept (core (list_remove kind k mask s).2).
Proof.
  intros Hk. unfold list_remove. case_match; [|done]. cbn [snd]. apply lists_kept_with; [|done].
  intros ch' kind' _ Hl. rewrite kind_list_update. case_decide; [subst kind'|done]. by apply list_ok_retain.
Qed.

Lemma alter_member_kept k f uid c : lists_kept c → lists_kept (alter_member k f uid c).
Proof. apply lists_kept_with. intros ch kind _ Hl. by destruct kind. Qed.

Lemma chan_apply_lists h k uid chan adding param s :
  lists_kept (core s) → lists_kept (core (chan_apply h chan k uid adding param s).2).
Proof.
  intros Hk. destruct h; cbn [chan_apply];
    unfold prefix_apply, flag_apply, list_apply, operflag_apply, registered_apply, key_apply,
      limit_apply, history_apply, secureonly_apply, encrypted_apply, msgflood_apply, joinflood_apply,
      nickflood_apply, slowmode_apply, rate_apply, redirect_apply, anticaps_apply,
      kicknorejoin_apply, delaymsg_apply, repeat_apply, number_apply;
    repeat case_match; cbn [snd]; rewrite ?outputs; try done;
    try (by apply lists_kept_modes); try (by apply list_add_kept); try (by apply list_remove_kept).
  - match goal with |- context [reveal_member ?t k ?s1] =>
      destruct (reveal_member_core t k s1) as [-> | ->] end; by repeat apply alter_member_kept.
  - by apply alter_member_kept.
Qed.
End lists.

(** Outside services authority MODE keeps every list mode of every channel free of duplicate
    masks, case ignored, and within the configured maximum. *)
Theorem ban_lists_bounded target uid params s :
  let mx := conf_num (core s) u64_max "maxbans" 100 in
  mode_sudo (core s) = false → lists_ok mx (core s) →
  lists_ok mx (core (apply_chan_mode target uid params s).2).
Proof.
  intros mx Hs Hl.
  apply (apply_chan_mode_keeps (lists_kept (core s)) (to_ascii_lowercase target) uid); [| | | |done].
  - intros. by apply chan_apply_lists.
  - done.
  - intros l s' (H1 & H2 & H3). split; [|split].
    + rewrite <-H1. apply announce_modes_members.
    + rewrite <-H2. unfold announce_modes. case_match; [done|]. cbn zeta.
      rewrite propagate_chan_mode_outputs. case_match; [by rewrite hidemode_outputs|].
      rewrite to_channel_outputs. unfold record_event. by case_match.
    + intros k ch kind. rewrite announce_modes_channels. apply H3.
  - intros s' (H1 & H2 & H3). unfold cull. repeat case_match; try done. split; [done|]. split; [done|].
    intros k ch' kind. cbn. rewrite lookup_delete_Some. intros [_ ?]. by eapply H3.
Qed.

(** ** On the concrete run

    Alice, who created [#c], is its operator; bob holds no rank. *)
Section witnesses.
#[local] Existing Instance ascii_only.
#[local] Existing Instance bare_outside.

Lemma strict_builtin : strict_prefixes None.
Proof.
  intros c l r. unfold chan_mode, builtin_chan_mode. case_match eqn:E; [|done]. intros [= ->].
  apply find_first_Some in E as [Hh _]. unfold CHAN_MODES in Hh.
  repeat (apply elem_of_cons in Hh as [Hh|Hh];
    [first [discriminate Hh|injection Hh as -> ->; vm_compute; discriminate]|]).
  by apply elem_of_nil in Hh.
Qed.

(** Bob, without a rank, asks for [+o] and stays as he was. *)
Lemma mode_no_escalation_witness :
  (rank (core (apply_chan_mode "#c" 2 ["+o"; "bob"] demo).2) 2 "#c" <= 0)%N.
Proof.
  assert (mode_sudo (core demo) = false) as Hs by (vm_compute; reflexivity).
  assert (prefix_cfg (core demo) = None) as Hp by (vm_compute; reflexivity).
  assert (strict_prefixes (prefix_cfg (core demo))) as Hst by (rewrite Hp; apply strict_builtin).
  destruct (mode_no_escalation "#c" 2%N ["+o"; "bob"] demo Hs Hst 2%N) as [Hr _].
  assert (rank (core demo) 2%N (to_ascii_lowercase "#c") = 0%N) as E by (vm_compute; reflexivity).
  rewrite E in Hr. exact Hr.
Defined.

Lemma mode_without_rank_changes_nothing_witness :
  core (apply_chan_mode "#c" 2 ["+b-t"; "*!*@*"] demo).2 = core demo.
Proof.
  apply (mode_without_rank_changes_nothing "#c" 2%N ["+b-t"; "*!*@*"] demo).
  - vm_compute. reflexivity.
  - assert (map_Forall (λ _ ch, keep_alive ch = true) (channels (core demo))) as Hm
      by (apply (bool_decide_unpack _); vm_compute; exact I).
    intros ch Hch. exact (Hm _ _ Hch).
Defined.

(** Alice, no IRC operator, asks for [+rP] and gets neither. *)
Lemma privileged_modes_guarded_witness :
  ∃ ch' ch, channels (core (apply_chan_mode "#c" 1 ["+rPs"] demo).2) !! "#c" = Some ch'
    ∧ channels (core demo) !! "#c" = Some ch
    ∧ guarded (is_oper (core demo) 1) (modes ch) (modes ch').
Proof.
  assert (mode_sudo (core demo) = false) as Hs by (vm_compute; reflexivity).
  assert (is_Some (channels (core (apply_chan_mode "#c" 1 ["+rPs"] demo).2) !! "#c")) as [ch' Hch']
    by (vm_compute; eexists; reflexivity).
  destruct (privileged_modes_guarded "#c" 1%N ["+rPs"] demo Hs _ _ Hch') as (ch & Hch & Hg).
  exists ch', ch. exact (conj Hch' (conj Hch Hg)).
Defined.

Lemma ban_lists_bounded_witness :
  map_or [] (λ ch, map b_mask (bans ch))
    (channels (core (apply_chan_mode "#c" 1 ["+bb"; "evil!*@*"; "EVIL!*@*"] demo).2) !! "#c") = ["evil!*@*"]
  ∧ lists_ok (conf_num (core demo) u64_max "maxbans" 100)
      (core (apply_chan_mode "#c" 1 ["+bb"; "evil!*@*"; "EVIL!*@*"] demo).2).
Proof.
  split; [vm_compute; reflexivity|].
  assert (mode_sudo (core demo) = false) as Hs by (vm_compute; reflexivity).
  apply (ban_lists_bounded "#c" 1%N ["+bb"; "evil!*@*"; "EVIL!*@*"] demo Hs).
  assert (map_Forall (λ _ ch, bans ch = [] ∧ excepts ch = [] ∧ invex ch = [] ∧ filters ch = []
    ∧ exemptchanops ch = [] ∧ autoop ch = []) (channels (core demo))) as Hm.
  { intros k ch Hch. assert (channels (core demo) = {["#c" := default (new_channel 0 "") (channels (core demo) !! "#c")]})
      as E by (vm_compute; reflexivity).
    rewrite E in Hch. apply lookup_singleton_Some in Hch as [_ <-]. vm_compute. by split_and!. }
  intros k ch kind Hch. destruct (Hm _ _ Hch) as (H1 & H2 & H3 & H4 & H5 & H6).
  destruct kind; cbn; rewrite ?H1, ?H2, ?H3, ?H4, ?H5, ?H6; split; try apply NoDup_nil_2; vm_compute; discriminate.
Defined.
End witnesses.
