(* ===== verification/BanFacts.v ===== *)
(** * What a stored ban matches *)

From Stdlib Require Import Ascii DecimalString.
From S2P Require Import Prelude RustStr Glob Channel State Ban System.

Local Open Scope stdpp_scope.

Lemma uint_of_string_digits s u :
  NilEmpty.uint_of_string s = Some u → str_all is_digit s = true.
Proof.
  revert u. induction s as [|b s IH]; intros u; [done|]. cbn.
  destruct (NilEmpty.uint_of_string s) as [v|] eqn:E; [|by destruct b as [[] [] [] [] [] [] [] []]].
  intros Hu. rewrite (IH v eq_refl), andb_true_r.
  revert Hu. by destruct b as [[] [] [] [] [] [] [] []].
Qed.

Lemma drop_ws_id cs : forallb (λ c, negb (is_whitespace c)) cs = true → drop_ws cs = cs.
Proof. destruct cs as [|c cs]; [done|]. cbn. by destruct (is_whitespace c). Qed.

Lemma trim_id s : forallb (λ c, negb (is_whitespace c)) (chars s) = true → trim s = s.
Proof.
  intros Hs. unfold trim. rewrite (drop_ws_id (chars s)) by done. rewrite drop_ws_id.
  - by rewrite rev_involutive, chars_concat.
  - rewrite forallb_forall in *. intros x Hx. by apply Hs, in_rev.
Qed.

(** A text of printing ASCII characters. *)
Definition graphic (b : ascii) : bool := is_ascii_byte b && negb (is_whitespace (chr b)).

Lemma graphic_trim s : str_all graphic s = true → trim s = s.
Proof.
  intros Hs. apply trim_id.
  assert (is_ascii s = true ∧ forallb (λ c, negb (is_whitespace c)) (map chr (as_bytes s)) = true) as [Ha Hw].
  { induction s as [|b s IH]; [done|]. cbn in Hs. apply andb_true_iff in Hs as [Hb Hs].
    apply andb_true_iff in Hb as [Hb1 Hb2]. destruct (IH Hs) as [I1 I2].
    split; cbn; rewrite ?Hb1; [exact I1|]. cbn in Hb2. rewrite Hb2. exact I2. }
  by rewrite chars_ascii.
Qed.

Lemma str_all_impl (p q : ascii → bool) s :
  (∀ b, p b = true → q b = true) → str_all p s = true → str_all q s = true.
Proof.
  intros Hpq. induction s as [|b s IH]; [done|]. cbn. rewrite !andb_true_iff.
  intros [? ?]. auto.
Qed.

Lemma digit_graphic b : is_digit b = true → graphic b = true.
Proof. by destruct b as [[] [] [] [] [] [] [] []]. Qed.

(** A list of one number, or of one number and a host pattern. *)
Lemma asn_parse_one n : (n <= u32_max)%N → asn_parse_list (to_string n) = [n].
Proof.
  intros Hn. pose proof (to_string_digits n) as Hd. unfold asn_parse_list.
  rewrite (split_none ","); [|by eapply digits_no_byte]. cbn [map concat].
  rewrite app_nil_r, (split_none " "); [|by eapply digits_no_byte]. cbn [map].
  rewrite graphic_trim by (eapply str_all_impl, Hd; apply digit_graphic).
  rewrite filter_cons, decide_True, filter_nil.
  2: { apply negb_true_iff, is_empty_false, to_string_nonempty. }
  cbn [omap list_omap]. unfold asn_token.
  assert (∀ a r, is_digit a = false → strip_prefix (String a r) (to_string n) = None) as Hs.
  { intros a r Ha. destruct (to_string n) as [|b s]; [done|]. cbn in *.
    apply andb_true_iff in Hd as [Hb _]. rewrite bool_decide_false; [done|congruence]. }
  rewrite !Hs by done. cbn [default]. by rewrite parse_to_string.
Qed.

Lemma asn_parse_host n : asn_parse_list (to_string n +:+ "!*@*") = [].
Proof.
  pose proof (to_string_digits n) as Hd. unfold asn_parse_list.
  assert (∀ c, is_digit c = false → contains_byte c "!*@*" = false → contains_byte c (to_string n +:+ "!*@*") = false)
    as Hc by (intros c H1 H2; rewrite contains_byte_app, H2, orb_false_r; by eapply digits_no_byte).
  rewrite (split_none ",") by (by apply Hc). cbn [map concat].
  rewrite app_nil_r, (split_none " ") by (by apply Hc). cbn [map].
  rewrite graphic_trim.
  2: { rewrite str_all_app, andb_true_iff. split; [|done]. eapply str_all_impl, Hd. apply digit_graphic. }
  rewrite filter_cons, filter_nil. case_decide; [|done]. cbn [omap list_omap]. unfold asn_token.
  pose proof (to_string_nonempty n). destruct (to_string n) as [|b s]; [done|].
  cbn in Hd. apply andb_true_iff in Hd as [Hb Hd].
  assert (∀ a r, is_digit a = false → strip_prefix (String a r) (String b s +:+ "!*@*") = None) as Hs.
  { intros a r Ha. change (String b s +:+ "!*@*") with (String b (s +:+ "!*@*")). cbn [strip_prefix].
    rewrite bool_decide_false; [done|congruence]. }
  rewrite !Hs by done. cbn [default]. unfold parse_uint. rewrite Hs by done.
  change (is_empty (String b s +:+ "!*@*")) with false. cbv iota.
  destruct (NilEmpty.uint_of_string _) eqn:E; [|done]. apply uint_of_string_digits in E. rewrite str_all_app in E.
  apply andb_true_iff in E as [_ E]. discriminate E.
Qed.

Lemma normalize_asn n : normalize_ban_mask ("A:" +:+ to_string n) = "A:" +:+ to_string n +:+ "!*@*".
Proof.
  change ("A:" +:+ to_string n) with (String "A" (String ":" (to_string n))).
  unfold normalize_ban_mask. change (bool_decide (":"%char = ":"%char) && is_alphabetic "A") with true.
  change (verbatim_ext "A") with false. cbv iota. unfold normalize_mask.
  pose proof (to_string_digits n) as Hd. by rewrite !(digits_no_byte _ _ Hd).
Qed.

Section asn.
Context `{UnicodeLower} `{Outside}.

(** A ban on one AS number matches a user of that network when stored verbatim, but not as
    MODE stores it: the mask normalisation appends a host pattern to the number. *)
Theorem asn_ban_lost_in_normalisation c uid u n setter ts :
  users c !! uid = Some u → asn_number (u_ip u) = Some n → (n <= u32_max)%N →
  ban_hit c uid (mkBan ("A:" +:+ to_string n) setter ts None) = true
  ∧ ban_hit c uid (mkBan (normalize_ban_mask ("A:" +:+ to_string n)) setter ts None) = false.
Proof.
  intros Hu Hn Hle. rewrite normalize_asn.
  change (asn_extban_match c uid (to_string n) = true
    ∧ asn_extban_match c uid (to_string n +:+ "!*@*") = false).
  unfold asn_extban_match. rewrite asn_parse_one, asn_parse_host, Hu, Hn by done.
  cbn. by rewrite N.eqb_refl.
Qed.
End asn.

Section witness.
#[local] Existing Instance ascii_only.

(** Every address is in AS15169. *)
Definition one_network : Outside :=
  {| geo_country := λ _, None; asn_number := λ _, Some 15169%N; score_of := λ _ _, 0%N;
     in_group := λ _ _ _, false; json_tag := λ _ _, "";
     redis_bus := None; pgsql_on := false; vapid_key := None; read_text := λ _ _, None; conf_file := "echoircd.conf" |}.
#[local] Existing Instance one_network.

Lemma asn_ban_lost_in_normalisation_witness :
  ban_hit (core demo) 2 (mkBan ("A:" +:+ to_string 15169) "Alice" 0 None) = true
  ∧ ban_hit (core demo) 2 (mkBan (normalize_ban_mask ("A:" +:+ to_string 15169)) "Alice" 0 None) = false.
Proof.
  assert (∃ u, users (core demo) !! 2%N = Some u) as [u Hu] by (vm_compute; eauto).
  apply (@asn_ban_lost_in_normalisation ascii_only one_network (core demo) 2%N u 15169%N "Alice" 0%N Hu eq_refl).
  vm_compute. discriminate.
Defined.
End witness.
