(* ===== verification/FloodFacts.v ===== *)
(** * Flood detection and history rings

    The flood counters prune as they go and the history rings drop their oldest
    entries; here both are compared with the full log of what happened. *)

From Stdlib Require Import Ascii Sorted.
From S2P Require Import Prelude RustStr Channel State Mode CoreMode Glob Ban Membership System.

Local Open Scope stdpp_scope.

(** ** The sliding window *)

(** Pruning at an earlier time loses nothing that a later window would hold. *)
Lemma window_prune t t' secs l :
  (t <= t')%N → retain (λ x, (t' - x <? secs)%N) (retain (λ x, (t - x <? secs)%N) l)
              = retain (λ x, (t' - x <? secs)%N) l.
Proof.
  intros Ht. induction l as [|x l IH]; cbn; [done|].
  destruct (N.ltb_spec (t - x) secs); cbn; rewrite IH; [done|].
  destruct (N.ltb_spec (t' - x) secs); [lia|done].
Qed.

Lemma window_push_again t t' secs l :
  (t <= t')%N → window_push t' secs (window_push t secs l) = window_push t' secs (l ++ [t]).
Proof.
  intros Ht. unfold window_push. rewrite !retain_app. by rewrite (window_prune t t') by done.
Qed.

Definition set_clock (t : N) (s : Server) : Server := upd (λ c, c <| clock := t |>) s.

(** One message of [uid] at time [t], until the first alarm. *)
Definition message_at (uid : Uid) (k : string) (acc : bool * Server) (t : N) : bool * Server :=
  if acc.1 then acc
  else let '(r, s) := messageflood_hit uid k (set_clock t acc.2) in (is_some r, s).

Definition flood_log (uid : Uid) (k : string) (c : Core) : option (MsgFlood * list N) :=
  ch ← channels c !! k; f ← flood (modes ch); Some (f, default [] (msgflood_hits ch !! uid)).

Lemma message_at_alarm uid k ts s : foldl (message_at uid k) (true, s) ts = (true, s).
Proof. induction ts as [|t ts IH]; [done|]. exact IH. Qed.

Lemma message_at_step uid k s f hits t :
  flood_log uid k (core s) = Some (f, hits) →
  let v := window_push t (mf_secs f) hits in
  (message_at uid k (false, s) t).1 = over_limit v (mf_lines f)
  ∧ (over_limit v (mf_lines f) = false →
     flood_log uid k (core (message_at uid k (false, s) t).2) = Some (f, v)).
Proof.
  intros Hl v. unfold flood_log, message_at in *. cbn [fst snd].
  apply bind_Some in Hl as (ch & Hch & Hl). apply bind_Some in Hl as (f' & Hf & [= -> <-]).
  unfold messageflood_hit. change (channels (core (set_clock t s))) with (channels (core s)).
  change (clock (core (set_clock t s))) with t. rewrite Hch, Hf. fold v.
  destruct (over_limit v (mf_lines f)) eqn:Ho; cbn [fst snd]; [done|]. split; [done|]. intros _.
  cbn. rewrite lookup_alter_eq, Hch. cbn. rewrite Hf. cbn. by rewrite lookup_insert_eq.
Qed.

Lemma message_log uid k f ts past hits s :
  flood_log uid k (core s) = Some (f, hits) →
  Sorted N.le ts →
  (∀ t, head ts = Some t → window_push t (mf_secs f) hits = window_push t (mf_secs f) past) →
  (foldl (message_at uid k) (false, s) ts).1 = true ↔
  ∃ i t, ts !! i = Some t ∧ over_limit (window_push t (mf_secs f) (past ++ take i ts)) (mf_lines f) = true.
Proof.
  revert past hits s. induction ts as [|t ts IH]; intros past hits s Hl Hs Hw.
  { cbn. split; [done|]. by intros (i & t & ? & _). }
  cbn [foldl]. destruct (message_at_step uid k s f hits t Hl) as [Hb Hlog].
  rewrite (Hw t eq_refl) in Hb, Hlog. destruct (message_at uid k (false, s) t) as [b s'].
  cbn [fst snd] in Hb, Hlog. subst b. apply Sorted_inv in Hs as [Hs Hhd].
  destruct (over_limit _ _) eqn:Ho.
  - rewrite message_at_alarm. split; [|done]. intros _. exists 0, t. split; [done|].
    cbn [take]. by rewrite app_nil_r.
  - rewrite (IH (past ++ [t]) (window_push t (mf_secs f) past) s' (Hlog eq_refl) Hs).
    + split.
      * intros (i & t' & Hi & Hov). exists (S i), t'. split; [done|]. cbn [take].
        by rewrite <-app_assoc in Hov.
      * intros ([|i] & t' & Hi & Hov).
        -- injection Hi as ->. cbn [take] in Hov. rewrite app_nil_r in Hov. congruence.
        -- exists i, t'. split; [done|]. by rewrite <-app_assoc.
    + intros t' Ht'. apply window_push_again. destruct ts as [|x ts]; [done|].
      injection Ht' as ->. by inversion Hhd.
Qed.

(** The +f counter, which prunes old entries as it goes, raises its first alarm exactly when
    some message and the full log of earlier ones would exceed the limit within the
    window, for messages at non-decreasing times. *)
Theorem messageflood_exact uid k ts s ch f :
  channels (core s) !! k = Some ch → flood (modes ch) = Some f → msgflood_hits ch !! uid = None →
  Sorted N.le ts →
  (foldl (message_at uid k) (false, s) ts).1 = true ↔
  ∃ i t, ts !! i = Some t ∧ over_limit (window_push t (mf_secs f) (take i ts)) (mf_lines f) = true.
Proof.
  intros Hch Hf Hh Hs. apply (message_log uid k f ts [] [] s); [|done|done].
  unfold flood_log. rewrite Hch. cbn. rewrite Hf. cbn. by rewrite Hh.
Qed.

(** ** History rings *)

(** The last [n] entries of a log. *)
Definition last_n {A} (n : nat) (l : list A) : list A := drop (length l - n) l.

Lemma last_n_all {A} n (l : list A) : length l ≤ n → last_n n l = l.
Proof. intros Hl. unfold last_n. by replace (length l - n) with 0 by lia. Qed.

Lemma last_n_app {A} n (l l' : list A) : last_n n (last_n n l ++ l') = last_n n (l ++ l').
Proof.
  unfold last_n. rewrite !length_app, length_drop.
  destruct (decide (length l ≤ n)) as [Hl|Hl].
  { replace (length l - n) with 0 by lia. rewrite drop_0. do 2 f_equal. lia. }
  assert (length l - n ≤ length l) as Hle by lia.
  rewrite <-(drop_app_le l l' (length l - n)) by lia. rewrite drop_drop. f_equal. lia.
Qed.

Definition ring (c : Core) (k : string) : list HistMsg := default [] (s_history c !! k).

Lemma ring_push k m c k' :
  ring (push_history k m c) k'
  = if decide (k = k') then last_n (N.to_nat (history_limit c)) (ring c k' ++ [m]) else ring c k'.
Proof.
  unfold ring, push_history; cbn. case_decide as Hk.
  - subst k'. by rewrite lookup_insert_eq.
  - by rewrite lookup_insert_ne.
Qed.

(** A conversation's history ring is the last [limit] entries of the log of everything
    recorded, and recording in one conversation leaves the others alone. *)
Theorem history_keeps_the_last k ms c k' :
  let lim := N.to_nat (history_limit c) in
  length (ring c k) ≤ lim →
  ring (foldl (λ c m, push_history k m c) c ms) k'
  = if decide (k = k') then last_n lim (ring c k ++ ms) else ring c k'.
Proof.
  revert c. induction ms as [|m ms IH]; intros c lim Hl; cbn [foldl].
  { rewrite app_nil_r, last_n_all by done. case_decide; congruence. }
  assert (ring (push_history k m c) k = last_n lim (ring c k ++ [m])) as E
    by (rewrite ring_push; by rewrite decide_True).
  rewrite IH; change (history_limit (push_history k m c)) with (history_limit c); fold lim.
  - rewrite E, last_n_app, <-app_assoc. case_decide; [done|]. rewrite ring_push. by rewrite decide_False.
  - rewrite E. unfold last_n. rewrite length_drop. lia.
Qed.

(** ** On the concrete run *)
Section witnesses.
#[local] Existing Instance ascii_only.
#[local] Existing Instance bare_outside.

(** [#c] under [+f 2:10]. *)
Definition flooded : Server := (apply_chan_mode "#c" 1 ["+f"; "2:10"] demo).2.

(** Three lines within ten seconds: an alarm. *)
Lemma messageflood_exact_witness :
  (foldl (message_at 2 "#c") (false, flooded) [2000; 2005; 2009]%N).1 = true.
Proof.
  assert (∃ ch, channels (core flooded) !! "#c" = Some ch ∧ flood (modes ch) = Some (mkMsgFlood 2 10 false)
    ∧ msgflood_hits ch !! 2%N = None) as (ch & Hch & Hf & Hh).
  { eexists. split; [vm_compute; reflexivity|]. split; vm_compute; reflexivity. }
  apply (messageflood_exact 2%N "#c" [2000; 2005; 2009]%N flooded ch (mkMsgFlood 2 10 false) Hch Hf Hh).
  - repeat constructor; discriminate.
  - exists 2, 2009%N. split; vm_compute; reflexivity.
Defined.

Definition note (id : string) : HistMsg := mkHistMsg 0 id "" "*" "#c" "" None.

Lemma history_keeps_the_last_witness :
  ring (foldl (λ c m, push_history "#new" m c) (core demo) [note "1"; note "2"]) "#new"
  = [note "1"; note "2"].
Proof.
  assert (length (ring (core demo) "#new") ≤ N.to_nat (history_limit (core demo))) as Hl.
  { apply Nat.leb_le. vm_compute. reflexivity. }
  pose proof (history_keeps_the_last "#new" [note "1"; note "2"] (core demo) "#new" Hl) as E.
  rewrite E. vm_compute. reflexivity.
Defined.
End witnesses.
